(* ===== verification/_CoqProject ===== *)
-Q . S2P
Prelude.v
Utf8.v
Reader.v
RustStr.v
Codec.v
Stream.v
Persistent.v
OutputCapture.v
PersistentWorker.v
SharedTable.v
Notify.v
TaskQueue.v
Coalescer.v
ResponseCache.v
NativeIpc.v
AsyncPipe.v
NativeWorker.v
FdIo.v
AccessLog.v
F64.v
WorkerPool.v
ThreadDispatch.v
BehaviourGuard.v
Security.v
PathGuard.v
Http.v
StreamedReply.v
WsHub.v
AsyncIo.v
Metrics.v
Compat.v
PhpCode.v
Admin.v
Bootstrap.v
PhpHelpers.v
RequestGate.v
Features.v
Exchange.v
PoolExchange.v
Autoscale.v
Config.v
ConfigFile.v
Engine.v
Startup.v
WorkerStart.v
Settings.v
Acme.v
Listener.v
ServerLife.v
Connections.v
ServerStart.v
Embed.v
SharedMemory.v
HandleRequest.v
Cli.v
Template.v
