(* ===== verification/Prelude.v ===== *)
(** * Turbine: a verification development

    Turbine is an HTTP server for PHP: a master process in Rust accepts
    requests and hands them to workers (forked processes or threads) in which
    PHP runs. This development models how a request is parsed, checked, handed
    to a worker and answered, the stores that workers and requests share, and
    the tasks that keep the workers alive, and proves them correct. Sources are
    named by their path below src/crates.

    ** The program and the files

    - The byte level. Prelude (this file) has results, bytes, machine integers
      and shared lemmas and tactics; Utf8 the validity check and the lossy
      conversion of std; RustStr the string operations of std; Reader pipes
      that are read in pieces of any size, with [read_exact] of std and of
      tokio; Codec the decoders that walk over a slice; F64 binary64
      arithmetic. FdIo (turbine-worker/src/worker.rs, persistent.rs) has the
      system calls below Reader, which may be interrupted or cut short, and
      AsyncPipe (turbine-worker/src/async_io.rs) the pipes that a task waits on
      with the reactor; SharedMemory (shared_mem.rs) is the arena of the master.
    - The response protocol, Stream (turbine-worker/src/stream.rs): frames,
      their encoders and decoders, the drain and the forwarder of the master.
    - The persistent protocol, Persistent (turbine-worker/src/persistent.rs):
      requests, reassembly of responses, the ready signal, [writev].
    - The capture of PHP's output, OutputCapture
      (turbine-engine/src/output.rs): the SAPI callbacks over the thread-local
      buffers, buffered and streaming.
    - The persistent worker, PersistentWorker (turbine-worker/src/persistent.rs,
      [worker_event_loop_persistent] and [perform_worker_boot]): it uses the
      three files above.
    - The native protocol and workers, NativeIpc and NativeWorker
      (turbine-worker/src/pool.rs): request and response formats, and the event
      loops on pipes, on channels and for evaluated code. Engine
      (turbine-engine/src/engine.rs) is PHP in the server's own process: php.ini,
      evaluation, and the loop of the executor.
    - The worker pool, WorkerPool (turbine-worker/src/worker.rs, pool.rs and
      persistent.rs; the claim of a worker in turbine-core/src/main.rs): states,
      quotas, the idle queue, spawning, returning, reaping, scaling.
    - The dispatch of requests to worker slots without the pool's lock,
      ThreadDispatch (turbine-core/src/main.rs, [ThreadDispatch], [IdleGuard]
      and the background reaper): semaphore and queue, health and quotas, the
      refresh after a respawn.
    - The stores: SharedTable (turbine-core/src/shared_table.rs), TaskQueue
      (turbine-core/src/task_queue.rs), ResponseCache
      (turbine-cache/src/store.rs), Coalescer (turbine-cache/src/coalescer.rs).
      Notify states what the queue and the coalescer rely on of
      [tokio::sync::Notify], as a class with an instance.
    - The filters: BehaviourGuard (turbine-security/src/behaviour_guard.rs), the
      limits per client, and Security (turbine-security/src/lib.rs,
      sql_guard.rs and code_guard.rs), the pattern guards and the layer that
      runs them all.
    - The choice of what a request runs: PathGuard (turbine-core/src/
      path_guard.rs, and the detection of the application and the resolution of
      paths in compat.rs), and RequestGate (turbine-core/src/main.rs,
      http_helpers.rs, response.rs): virtual hosts, static files, whitelist,
      data directories, the guard and the cache lookup, with the state that
      start-up builds for them. Config (turbine-core/src/config.rs) has the life
      cycle of the workers and the check of a configuration.
    - HTTP: Compat (turbine-core/src/compat.rs), the request with its forms,
      cookies and uploads; PhpCode (same file), the PHP code that carries it to
      a worker that evaluates code; Bootstrap (same file), the PHP code that runs
      before it, with its loop over .env; Http (http_helpers.rs, compression.rs and
      [handle_request] of main.rs), responses, CORS and compression; Features
      (features.rs and response.rs), what is done to the output of PHP, and the
      routes of the pools.
    - The exchange with workers, Exchange (turbine-core/src/main.rs): the
      messages of both protocols, and handlers that claim a slot, send, wait,
      give up or are cancelled while workers answer and the reaper runs.
      PoolExchange has the pools of routes, whose reads go on when the client is
      gone, and StreamedReply the framed responses of their persistent workers.
      Autoscale has the task that adds and stops workers.
    - The internal endpoints, Admin (turbine-core/src/admin.rs, dashboard.rs,
      prometheus.rs and the endpoints of main.rs), in front of the stores, of
      WsHub (websocket.rs), AsyncIo (async_io.rs) and Metrics
      (turbine-metrics/src); Broadcast, in WsHub, states what the hub relies on
      of [tokio::sync::broadcast], as a class with an instance. PhpHelpers
      (the PHP text of features.rs) has the functions by which scripts use the
      endpoints, as clients of Admin.
    - The start: ConfigFile (config.rs), the sections of turbine.toml with their
      types and defaults; Template (config.rs), the file that turbine init writes;
      Startup (main.rs, [cmd_serve]), options over configuration, php.ini and the
      sandbox, the domains of certificates; WorkerStart, the first workers and their
      ready messages; Settings and ServerStart, what the components and the state of
      the server are made from, and the tasks beside it; Listener (tls.rs, main.rs),
      sockets and certificates by name; Acme (acme.rs), certificates from an
      authority; Embed (embed.rs, build.rs), the application inside the binary; Cli
      (cli_cmds.rs, bootstrap.rs), the other commands. ServerLife (main.rs) has what
      happens while it runs: the file watcher, reloads, connections and the drain;
      Connections (main.rs, websocket.rs), the accept loops, how they end, and how a
      connection is served with TLS and without;
      AccessLog (http_helpers.rs, main.rs) the log and a hint about memory.
    - The handler of a request as a whole, HandleRequest (turbine-core/src/
      main.rs, [handle_request_inner]): it composes the files above over the
      state that requests share.

    ** How the code is modelled

    Byte buffers and strings are lists of bytes. Integers are [Z] with the
    wrap-around of their width written where the code casts or can overflow.
    Errors are values of [result] or [option]. Structs that operations mutate
    are records passed through them; a concurrent map is a [gmap]. Where tasks
    interleave (the queue's long poll, the coalescer, counters of the table) an
    operation is split into the steps it makes under one lock, and the steps
    form a relation. Time is an argument, in nanoseconds. What is not in the
    repository is a parameter: PHP is a state and a function that gives, for
    each call, the new state, the SAPI events raised and the code returned; the
    kernel gives the pieces of a read, the outcome of a write, of a fork or of a
    [waitpid]; the file system says which paths are files, what they hold and
    where links lead; Unicode lower-casing is a function.

    Loops that read a pipe have fuel, one more than the bytes left in it: every
    iteration consumes a byte, and the theorems show that the fuel never runs
    out. The write loops have fuel from the outcomes the kernel gives.

    ** What is proved

    - Round trips: frames, persistent requests and responses, native requests
      and responses are read back as they were written, however the kernel cuts
      the stream; requests that cannot be represented are refused, and responses
      that were cut off are errors.
    - The optimised drain agrees with the frame-by-frame one; the two ways of
      starting a streamed response agree; the forwarder leaves the pipe at the
      next response even when the client has gone.
    - What a script prints reaches the client once and in order, in both
      modes, and a whole session of a persistent worker gives each request its
      own response; its loop ends with its input. The native loops on pipes and
      channels give the same responses.
    - The pool never gives a worker to two requests, refuses a request only
      when no worker can serve it, and its persistent reaper replaces exactly
      the dead workers. The lock-free dispatch hands out each slot once under
      any interleaving, and picks the most recent healthy one.
    - The table is a map with deadlines, the queue is a FIFO per channel, also
      under any interleaving; the cache serves only the latest valid response;
      coalesced requests get the leader's result and have one leader at a time;
      all stay within their bounds.
    - The security layer refuses exactly the requests whose values have one of
      its patterns or whose client is over its limits, its cache of verdicts
      notwithstanding; blocks last their time, and clients that do nothing
      wrong are not refused.
    - A script that runs is below the document root of its host and passed every
      check; validation and path normalisation are characterised exactly; a
      static file is served from below the root and revalidated by its ETag. A
      configuration that passes the check serves each virtual host by its own
      application and starts the workers it asks for.
    - No part of a request can leave the string literal it is put into in the
      generated PHP; form fields survive encoding; bodies over the limit are
      refused, declared or not, and uploads are kept exactly when their name and
      content are acceptable. Both worker protocols describe the same request to
      PHP.
    - Compression is invisible to a client that decodes; what X-Sendfile and
      the asynchronous I/O serve is below their roots and within their limits.
    - Over pipes no response reaches the handler of another request, whatever
      fails or is cancelled, when the reaper replaces the workers of the slots
      it brings back; autoscaling stays within its bounds.
    - For a script the helper functions are a map with deadlines over its own
      keys and a queue, through curl, the token, the endpoints and the regular
      expressions that read their answers; no path can leave its literal in the
      bootstrap, and .env sets the variables it lists.
    - Reads that wait for the reactor refine blocking reads and lose no wake-up; a
      session with a worker is the same whatever system calls are interrupted or cut
      short; the shared memory is never written outside of its segment.
    - Every configuration that is read has the types of its fields, and a missing
      section has its defaults; the sandbox is what php.ini says; a configuration
      that passes the check starts, with the certificates it names and a slot for
      each worker; expired entries of the table go within an interval of the
      sweeper.
    - The token of a challenge is answered when the authority is told that it is
      ready; a certificate that was obtained is the one that the next start
      finds, and is renewed in time by a server that stays up; names select
      certificates exactly. What is embedded in the binary is extracted as it was,
      below its directory.
    - A pool of a route refuses no request for good, whatever clients do; a framed
      response arrives whole, streamed or not; the log has one line for each
      request; a request leaves no upload behind; a stopping server accepts no
      connection once it drains, and the drain ends.
    - A subscriber gets the messages of its channel in order and without gaps
      until it is told that it lags; counters of the metrics add up; internal
      endpoints change nothing without the token; what a script answered is what
      a cached request is given.
    - Where the code departs from its documentation a theorem shows it: lost
      wake-ups in the queue and in the coalescer, lost increments in the table,
      dead workers that the reaper of process mode never removes and that make
      it panic, slots queued twice in thread mode, quotas that count one pass of
      the reaper only, permits without a slot, responses shifted by an unread
      ready message, 16-bit lengths that wrap, scripts in data directories that
      run under another spelling of their path, cached responses of one virtual
      host served for another, responses of cancelled requests given to others by
      channel workers and by revived slots, busy workers stopped by the
      autoscaler, failed scripts answered with 200, scanners that are never
      noticed, event streams that compression holds back; a template of the
      configuration that is not TOML, so that the server ignores the file that
      turbine init writes; problems of the configuration that are logged before
      there is a log; a drain that waits for nothing, changes of files that are
      dropped, persistent workers that hot reload stops for good; staging
      certificates that stay, an authority that can keep the server from starting,
      a renewal that restarts put off for ever, a key that does not fit its
      certificate; a late channel worker that answers with blanks; asynchronous
      writes of scripts that never reach an absolute path; WebSockets that never open
      over TLS.

    ** What is not modelled

    TOML (apart from documents of one line an entry), TLS and the formats of
    certificates, HTTP framing, JSON, SHA-1, compression codecs, multipart forms and
    Unicode tables are code outside the repository and parameters here, as are PHP and
    the kernel. The FFI to libphp (turbine-php-sys) declares its functions; the build
    scripts run a compiler; turbine config and turbine info print. Left out for their
    small content are the messages of the log, the text of reports and of the
    dashboard, and the choice of an allocator. Of the
    handler, the branches that a started server cannot reach (persistent workers of
    pools behind the dispatch) are modelled up to the response only. *)

From stdpp Require Export prelude gmap strings list numbers relations.
From Stdlib Require Export Init.Byte.
From Stdlib Require Import Strings.Byte.

(** ** Results *)

(** Rust's [Result]. *)
Inductive result (A E : Type) : Type :=
| Ok (a : A)
| Err (e : E).
Arguments Ok {A E} a.
Arguments Err {A E} e.

Definition result_bind {A B E} (r : result A E) (k : A → result B E) : result B E :=
  match r with Ok a => k a | Err e => Err e end.

Declare Scope turbine_scope.
Delimit Scope turbine_scope with turbine.
Notation "'let?' p := r 'in' k" := (result_bind r (fun p => k))
  (at level 10, p pattern, r at level 100, k at level 200)
  : turbine_scope.
Open Scope turbine_scope.

(** ** Bytes *)

(** [Vec<u8>], [&[u8]], [String] and [&str] are all lists of bytes; the
    strings are the ones that satisfy [utf8_valid] (file Utf8). *)
Abbreviation bytes := (list byte).

#[global] Instance byte_eq_dec : EqDecision byte := Byte.byte_eq_dec.

#[global] Program Instance byte_countable : Countable byte :=
  inj_countable Byte.to_N Byte.of_N _.
Next Obligation. intros x. apply Byte.of_to_N. Qed.

(** The unsigned value of a byte, and the byte that holds [v as u8]. *)
Definition u8 (b : byte) : Z := Z.of_N (Byte.to_N b).

Definition as_u8 (v : Z) : byte :=
  default x00 (Byte.of_N (Z.to_N (v `mod` 256))).

(** A byte string literal. *)
Definition lit (s : string) : bytes := String.list_byte_of_string s.

Open Scope Z_scope.

(** ** Little-endian integers *)

(** [v.to_le_bytes()] for an integer of [n] bytes ([v as uN] wraps first). *)
Fixpoint le_bytes (n : nat) (v : Z) : bytes :=
  match n with
  | O => []
  | S n' => as_u8 v :: le_bytes n' (v / 256)
  end.

(** [uN::from_le_bytes]. *)
Fixpoint le_val (l : bytes) : Z :=
  match l with
  | [] => 0
  | x :: l' => u8 x + 256 * le_val l'
  end.

(** The length of a slice, as the machine integer the code computes with. *)
Definition zlen {A} (l : list A) : Z := Z.of_nat (length l).

(** The unsigned and signed wrap-around of machine integers. *)
Definition wrap_u (w v : Z) : Z := v `mod` 2 ^ w.

Lemma wrap_u_small n : 0 ≤ n < 2 ^ 64 → wrap_u 64 n = n.
Proof. intros. unfold wrap_u. by apply Z.mod_small. Qed.

Definition wrap_i (w v : Z) : Z :=
  (v + 2 ^ (w - 1)) `mod` 2 ^ w - 2 ^ (w - 1).

Abbreviation u64_max := (2 ^ 64 - 1).

(** [saturating_add], [saturating_sub] and [saturating_mul] on [u64]. *)
Definition sat_add64 (x y : Z) : Z := Z.min (x + y) u64_max.
Definition sat_sub64 (x y : Z) : Z := Z.max (x - y) 0.
Definition sat_mul64 (x y : Z) : Z := Z.min (x * y) u64_max.

(** ** Tactics and hints *)

Create HintDb turbine.
Create Rewrite HintDb turbine.

(** Splits every [match], [if] and [decide] of the goal, keeping equations. *)
Ltac split_matches :=
  repeat (case_match || case_bool_decide || case_decide); simplify_eq/=.

(** Inverts the successful runs of [result]-valued code in the context. *)
Ltac inv_result :=
  repeat match goal with
  | H : Ok _ = Ok _ |- _ => injection H as H
  | H : Err _ = Err _ |- _ => injection H as H
  | H : Ok _ = Err _ |- _ => discriminate H
  | H : Err _ = Ok _ |- _ => discriminate H
  end; simplify_eq/=.

(** ** Lemmas on bytes and integers *)

Lemma u8_bound x : 0 ≤ u8 x < 256.
Proof. unfold u8. pose proof (Byte.to_N_bounded x). lia. Qed.

Lemma u8_as_u8 v : u8 (as_u8 v) = v `mod` 256.
Proof.
  unfold u8, as_u8. pose proof (Z.mod_pos_bound v 256 ltac:(lia)) as Hb.
  destruct (Byte.of_N (Z.to_N (v `mod` 256))) as [y|] eqn:Hy; simpl.
  - apply Byte.to_of_N in Hy. rewrite Hy. lia.
  - apply Byte.of_N_None_iff in Hy. lia.
Qed.

Lemma as_u8_u8 x : as_u8 (u8 x) = x.
Proof.
  unfold as_u8. pose proof (u8_bound x). rewrite Z.mod_small by lia.
  unfold u8. by rewrite N2Z.id, Byte.of_to_N.
Qed.

Lemma u8_inj x y : u8 x = u8 y → x = y.
Proof. intros H. by rewrite <-(as_u8_u8 x), H, as_u8_u8. Qed.

(** A property of all bytes, by computation. *)
Definition all_bytes : list byte := (λ n, as_u8 (Z.of_nat n)) <$> seq 0 256.

Lemma elem_of_all_bytes x : x ∈ all_bytes.
Proof.
  apply list_elem_of_fmap. exists (Z.to_nat (u8 x)). pose proof (u8_bound x).
  rewrite Z2Nat.id, as_u8_u8 by lia. split; [done|]. apply elem_of_seq. lia.
Qed.

Lemma all_bytes_check (P : byte → bool) : forallb P all_bytes = true → ∀ x, P x = true.
Proof. rewrite forallb_forall. intros H x. apply H, list_elem_of_In, elem_of_all_bytes. Qed.

Lemma le_bytes_length n v : length (le_bytes n v) = n.
Proof. revert v. induction n as [|n IH]; intros v; simpl; [done|by rewrite IH]. Qed.

Lemma le_val_le_bytes n v : le_val (le_bytes n v) = v `mod` 256 ^ Z.of_nat n.
Proof.
  revert v. induction n as [|n IH]; intros v; simpl le_bytes; simpl le_val.
  - by rewrite Z.pow_0_r, Z.mod_1_r.
  - rewrite IH, u8_as_u8, Nat2Z.inj_succ, Z.pow_succ_r by lia.
    rewrite Z.rem_mul_r by lia. lia.
Qed.

Lemma le_val_bound l : 0 ≤ le_val l < 256 ^ Z.of_nat (length l).
Proof.
  induction l as [|x l IH]; [simpl; lia|].
  cbn [le_val length]. rewrite Nat2Z.inj_succ, Z.pow_succ_r by lia.
  pose proof (u8_bound x). nia.
Qed.

Lemma le_bytes_le_val l n : n = length l → le_bytes n (le_val l) = l.
Proof.
  intros ->. induction l as [|x l IH]; [done|]. cbn [le_val length le_bytes].
  pose proof (u8_bound x). f_equal.
  - apply u8_inj. rewrite u8_as_u8, Z.mul_comm, Z_mod_plus_full.
    by rewrite Z.mod_small by lia.
  - etransitivity; [|exact IH]. f_equal.
    rewrite Z.mul_comm, Z.div_add by lia. rewrite Z.div_small; lia.
Qed.

Lemma zlen_app {A} (l k : list A) : zlen (l ++ k) = zlen l + zlen k.
Proof. unfold zlen. rewrite length_app. lia. Qed.

Lemma zlen_nonneg {A} (l : list A) : 0 ≤ zlen l.
Proof. unfold zlen. lia. Qed.

Lemma wrap_i_id w v : 0 < w → - 2 ^ (w - 1) ≤ v < 2 ^ (w - 1) → wrap_i w v = v.
Proof.
  intros Hw Hv. unfold wrap_i.
  assert (2 ^ w = 2 * 2 ^ (w - 1)) as Hp.
  { rewrite <-Z.pow_succ_r by lia. f_equal. lia. }
  rewrite Z.mod_small; lia.
Qed.

#[export] Hint Resolve u8_bound le_val_bound zlen_nonneg : turbine.
#[export] Hint Rewrite u8_as_u8 as_u8_u8 le_bytes_length le_val_le_bytes : turbine.

#[global] Opaque le_bytes.
#[global] Opaque lit.
