(* ===== verification/Utf8.v ===== *)
(** * UTF-8 in the Rust standard library

    [str::from_utf8] and [String::from_utf8_lossy] as the wire decoders use
    them: the input is cut into chunks, each either one well-formed character
    or one maximal ill-formed prefix, which the lossy conversion replaces by
    U+FFFD. *)

From S2P Require Import Prelude.

(** The ranges the continuation bytes after a lead byte must fall in, or
    [None] when the byte cannot start a character. *)
Definition cont_ranges (x : byte) : option (list (Z * Z)) :=
  let v := u8 x in
  let c := (0x80, 0xBF) in
  if v <? 0x80 then Some []
  else if v <? 0xC2 then None
  else if v <? 0xE0 then Some [c]
  else if v =? 0xE0 then Some [(0xA0, 0xBF); c]
  else if v =? 0xED then Some [(0x80, 0x9F); c]
  else if v <? 0xF0 then Some [c; c]
  else if v =? 0xF0 then Some [(0x90, 0xBF); c; c]
  else if v <? 0xF4 then Some [c; c; c]
  else if v =? 0xF4 then Some [(0x80, 0x8F); c; c]
  else None.

(** The continuation bytes at the head of [l] that fall in the ranges, what
    is left, and whether every range was met. *)
Fixpoint match_conts (rs : list (Z * Z)) (l : bytes) : bool * bytes * bytes :=
  match rs, l with
  | [], _ => (true, [], l)
  | _ :: _, [] => (false, [], [])
  | (lo, hi) :: rs', x :: l' =>
      if (lo <=? u8 x) && (u8 x <=? hi) then
        let '(ok, c, r) := match_conts rs' l' in (ok, x :: c, r)
      else (false, [], l)
  end.

(** The first chunk of the input and the rest. *)
Definition next_chunk (l : bytes) : option (bool * bytes * bytes) :=
  match l with
  | [] => None
  | x :: l' =>
      match cont_ranges x with
      | None => Some (false, [x], l')
      | Some rs => let '(ok, c, r) := match_conts rs l' in Some (ok, x :: c, r)
      end
  end.

(** Every chunk consumes at least one byte, so the length is enough fuel. *)
Fixpoint chunks_fuel (fuel : nat) (l : bytes) : list (bool * bytes) :=
  match fuel with
  | O => []
  | S fuel' =>
      match next_chunk l with
      | None => []
      | Some (ok, c, r) => (ok, c) :: chunks_fuel fuel' r
      end
  end.

Definition utf8_chunks (l : bytes) : list (bool * bytes) := chunks_fuel (length l) l.

(** [str::from_utf8(l).is_ok()]. *)
Definition utf8_valid (l : bytes) : bool := forallb fst (utf8_chunks l).

(** The UTF-8 encoding of U+FFFD. *)
Definition replacement_char : bytes := [xef; xbf; xbd].

(** [String::from_utf8_lossy(l).into_owned()]. *)
Definition from_utf8_lossy (l : bytes) : bytes :=
  mjoin ((λ p : bool * bytes, if p.1 then p.2 else replacement_char) <$> utf8_chunks l).

(** ** Chunks *)

Lemma match_conts_app rs l ok c r : match_conts rs l = (ok, c, r) → l = c ++ r.
Proof.
  revert l ok c r. induction rs as [|[lo hi] rs IH]; intros [|x l] ok c r; simpl;
    intros H; simplify_eq/=; try done.
  destruct (_ && _); [|by simplify_eq/=].
  destruct (match_conts rs l) as [[ok' c'] r'] eqn:E. simplify_eq/=.
  f_equal. by apply (IH l ok).
Qed.

Lemma match_conts_ok rs c k : (∃ r, match_conts rs (c ++ r) = (true, c, r)) →
  match_conts rs (c ++ k) = (true, c, k).
Proof.
  revert c. induction rs as [|[lo hi] rs IH]; intros c [r H].
  - simpl in H. injection H as H. 
    assert (c = []) as -> by done. done.
  - destruct c as [|x c]; simpl in H.
    + destruct r as [|y r]; [done|]. destruct (_ && _); [|done].
      destruct (match_conts rs r) as [[? ?] ?]. simplify_eq/=.
    + simpl. destruct (_ && _); [|done].
      destruct (match_conts rs (c ++ r)) as [[ok c'] r'] eqn:E. simplify_eq/=.
      rewrite IH; [done|by exists r].
Qed.

Lemma next_chunk_app l ok c r : next_chunk l = Some (ok, c, r) → l = c ++ r ∧ c ≠ [].
Proof.
  destruct l as [|x l]; [done|]. simpl. destruct (cont_ranges x) as [rs|].
  - destruct (match_conts rs l) as [[ok' c'] r'] eqn:E. intros H; simplify_eq/=.
    split; [|done]. f_equal. by eapply match_conts_app.
  - intros H; by simplify_eq/=.
Qed.

Lemma next_chunk_valid_frame c r k :
  next_chunk (c ++ r) = Some (true, c, r) → next_chunk (c ++ k) = Some (true, c, k).
Proof.
  destruct c as [|x c].
  { intros H. by apply next_chunk_app in H as [_ ?]. }
  simpl. destruct (cont_ranges x) as [rs|]; [|done].
  destruct (match_conts rs (c ++ r)) as [[ok c'] r'] eqn:E. intros H; simplify_eq/=.
  rewrite match_conts_ok; [done|]. by exists r.
Qed.

Lemma chunks_fuel_enough n m l : (length l ≤ n)%nat → (length l ≤ m)%nat →
  chunks_fuel n l = chunks_fuel m l.
Proof.
  revert m l. induction n as [|n IH]; intros m l Hn Hm.
  - destruct l; [|simpl in Hn; lia]. by destruct m.
  - destruct m as [|m]; [destruct l; [done|simpl in Hm; lia]|].
    simpl. destruct (next_chunk l) as [[[ok c] r]|] eqn:E; [|done].
    apply next_chunk_app in E as [-> Hc]. rewrite length_app in Hn, Hm.
    destruct c; [done|]. simpl in Hn, Hm. f_equal. apply IH; lia.
Qed.

Lemma utf8_chunks_unfold l : utf8_chunks l =
  match next_chunk l with
  | None => []
  | Some (ok, c, r) => (ok, c) :: utf8_chunks r
  end.
Proof.
  unfold utf8_chunks. destruct l as [|x l]; [done|]. cbn [chunks_fuel length].
  destruct (next_chunk (x :: l)) as [[[ok c] r]|] eqn:E; [|done].
  apply next_chunk_app in E as [Hl Hc]. f_equal.
  apply chunks_fuel_enough; [|lia].
  apply (f_equal length) in Hl. rewrite length_app in Hl.
  destruct c; [done|]. simpl in Hl. lia.
Qed.

(** Induction on a byte string chunk by chunk. *)
Lemma chunk_ind (P : bytes → Prop) :
  P [] → (∀ l ok c r, next_chunk l = Some (ok, c, r) → P r → P l) → ∀ l, P l.
Proof.
  intros Hnil Hstep l. induction l as [l IH] using (induction_ltof1 _ length).
  destruct (next_chunk l) as [[[ok c] r]|] eqn:E.
  - eapply Hstep; [done|]. apply IH. unfold ltof.
    apply next_chunk_app in E as [-> Hc]. rewrite length_app.
    destruct c; [done|]. simpl. lia.
  - destruct l as [|x l]; [done|]. simpl in E. destruct (cont_ranges x) as [rs|]; [|done].
    by destruct (match_conts rs l) as [[??]?].
Qed.

(** ** Validity and the lossy conversion *)

Lemma utf8_valid_chunk l ok c r : next_chunk l = Some (ok, c, r) →
  utf8_valid l = ok && utf8_valid r.
Proof. intros H. unfold utf8_valid. by rewrite utf8_chunks_unfold, H. Qed.

Lemma lossy_chunk l ok c r : next_chunk l = Some (ok, c, r) →
  from_utf8_lossy l = (if ok then c else replacement_char) ++ from_utf8_lossy r.
Proof. intros H. unfold from_utf8_lossy. by rewrite utf8_chunks_unfold, H. Qed.

(** A string that is valid UTF-8 is unchanged. *)
Lemma lossy_valid l : utf8_valid l → from_utf8_lossy l = l.
Proof.
  induction l as [|l ok c r E IH] using chunk_ind; [done|].
  rewrite (utf8_valid_chunk _ _ _ _ E). intros Hv.
  destruct ok; [|done]. simpl in Hv. rewrite (lossy_chunk _ _ _ _ E), (IH Hv).
  apply next_chunk_app in E as [-> _]. done.
Qed.

Lemma utf8_valid_app l k : utf8_valid l → utf8_valid k → utf8_valid (l ++ k).
Proof.
  induction l as [|l ok c r E IH] using chunk_ind; [done|].
  rewrite (utf8_valid_chunk _ _ _ _ E). intros Hv Hk. destruct ok; [|done].
  pose proof (next_chunk_app _ _ _ _ E) as [-> Hc].
  apply next_chunk_valid_frame with (k := r ++ k) in E.
  rewrite <-(assoc app), (utf8_valid_chunk _ _ _ _ E). by apply IH.
Qed.

(** The lossy conversion always yields a string. *)
Lemma lossy_is_valid l : utf8_valid (from_utf8_lossy l).
Proof.
  induction l as [|l ok c r E IH] using chunk_ind; [done|].
  rewrite (lossy_chunk _ _ _ _ E). apply utf8_valid_app; [|done].
  destruct ok; [|done].
  pose proof (next_chunk_app _ _ _ _ E) as [-> Hc].
  apply next_chunk_valid_frame with (k := []) in E. rewrite app_nil_r in E.
  by rewrite (utf8_valid_chunk _ _ _ _ E).
Qed.

Lemma utf8_valid_ascii l : Forall (λ x, u8 x < 128) l → utf8_valid l.
Proof.
  induction 1 as [|x l Hx Hl IH]; [done|].
  rewrite (utf8_valid_chunk (x :: l) true [x] l); [done|].
  simpl. unfold cont_ranges. by rewrite (proj2 (Z.ltb_lt _ _) Hx).
Qed.

#[export] Hint Resolve lossy_is_valid : turbine.
