(* ===== verification/Reader.v ===== *)
(** * Reading from a pipe

    The read half of a pipe or of an [AsyncPipe]: the bytes still to come,
    cut into the pieces the kernel hands out one [read(2)] at a time, and what
    follows them (end of file, or a read error). [read_exact] is the loop of
    [std::io::Read] and of [tokio::io::AsyncReadExt].

    Pipes with the same bytes are equivalent whatever their pieces, and
    everything built from [read_u8] and [read_exact] with [Rd]'s bind respects
    that equivalence. *)

From S2P Require Import Prelude.

(** [std::io::ErrorKind], as far as the crates construct or inspect it. *)
Inductive ErrorKind :=
| UnexpectedEof
| InvalidData
| BrokenPipe
| Other
| OsError (code : Z).

Record io_error := IoError { err_kind : ErrorKind; err_msg : bytes }.

Record pipe := Pipe { segs : list bytes; fin : option io_error }.

(** The two implementations of [read_exact] differ only in the message of the
    end-of-file error. *)
Inductive flavour := Std | Tokio.

Definition eof_error (fl : flavour) : io_error :=
  match fl with
  | Std => IoError UnexpectedEof (lit "failed to fill whole buffer")
  | Tokio => IoError UnexpectedEof (lit "early eof")
  end.

(** The bytes still to come. *)
Definition stream (p : pipe) : bytes := mjoin (segs p).

(** One [read] into a buffer of [n > 0] bytes: no bytes means end of file. *)
Fixpoint read_segs (n : nat) (ss : list bytes) : bytes * list bytes :=
  match ss with
  | [] => ([], [])
  | [] :: ss' => read_segs n ss'
  | s :: ss' => (take n s, drop n s :: ss')
  end.

Definition pipe_read (n : nat) (p : pipe) : result (bytes * pipe) io_error :=
  match read_segs n (segs p), fin p with
  | ([], _), Some e => Err e
  | (d, ss), f => Ok (d, Pipe ss f)
  end.

(** Computations that read from a pipe; an error ends the computation. *)
Definition Rd (A : Type) : Type := pipe → result (A * pipe) io_error.

#[global] Instance Rd_ret : MRet Rd := λ A a p, Ok (a, p).
#[global] Instance Rd_bind : MBind Rd := λ A B k m p,
  match m p with Ok (a, p') => k a p' | Err e => Err e end.

Definition rd_fail {A} (k : ErrorKind) (msg : bytes) : Rd A := λ _, Err (IoError k msg).

(** [r.read(&mut [0u8; 1])]: [None] at the end of the stream. *)
Definition read_u8 : Rd (option byte) := λ p,
  match pipe_read 1 p with
  | Ok (d, p') => Ok (head d, p')
  | Err e => Err e
  end.

(** The loop of [read_exact]; every round reads at least one byte, so a
    buffer of [n] bytes needs at most [n] rounds. *)
Fixpoint read_exact_loop (fl : flavour) (fuel n : nat) : Rd bytes := λ p,
  match n with
  | O => Ok ([], p)
  | S _ =>
      match fuel with
      | O => Err (eof_error fl)
      | S fuel' =>
          match pipe_read n p with
          | Err e => Err e
          | Ok ([], _) => Err (eof_error fl)
          | Ok (d, p') =>
              match read_exact_loop fl fuel' (n - length d) p' with
              | Ok (d', p'') => Ok (d ++ d', p'')
              | Err e => Err e
              end
          end
      end
  end.

Definition read_exact (fl : flavour) (n : nat) : Rd bytes := read_exact_loop fl n n.

(** Reads of little-endian integers and of one byte that must be there. *)
Definition read_le (fl : flavour) (n : nat) : Rd Z :=
  d ← read_exact fl n; mret (le_val d).

(** ** What [read_exact] does *)

Lemma read_segs_spec n ss d ss' : (0 < n)%nat → read_segs n ss = (d, ss') →
  mjoin ss = d ++ mjoin ss' ∧ (length d ≤ n)%nat ∧ (d = [] → mjoin ss = []).
Proof.
  intros Hn. induction ss as [|[|x s] ss IH]; simpl; intros H; simplify_eq/=;
    [split_and!; [done|lia|done]|auto|].
  rewrite (assoc_L app), take_drop. split_and!; [done| |].
  - rewrite length_take. lia.
  - by destruct n; [lia|].
Qed.

Lemma pipe_read_spec n p : (0 < n)%nat →
  match pipe_read n p with
  | Ok (d, p') => stream p = d ++ stream p' ∧ fin p' = fin p ∧ (length d ≤ n)%nat ∧
                  (d = [] → stream p = [] ∧ fin p = None)
  | Err e => stream p = [] ∧ fin p = Some e
  end.
Proof.
  intros Hn. unfold pipe_read, stream.
  destruct (read_segs n (segs p)) as [d ss] eqn:E.
  apply read_segs_spec in E as (H1 & H2 & H3); [|done].
  destruct d as [|x d], (fin p) as [e|] eqn:F; simpl in *; naive_solver.
Qed.

Lemma read_exact_loop_spec fl fuel n p : (n ≤ fuel)%nat →
  match read_exact_loop fl fuel n p with
  | Ok (d, p') => stream p = d ++ stream p' ∧ length d = n ∧ fin p' = fin p
  | Err e => (length (stream p) < n)%nat ∧ e = default (eof_error fl) (fin p)
  end.
Proof.
  revert n p. induction fuel as [|fuel IH]; intros n p Hf.
  { assert (n = O) as -> by lia. done. }
  destruct n as [|n]; [done|]. cbn [read_exact_loop].
  pose proof (pipe_read_spec (S n) p ltac:(lia)) as Hr.
  destruct (pipe_read (S n) p) as [[[|x d] p']|e]; simpl in Hr.
  - destruct Hr as (? & ? & _ & H). destruct (H eq_refl) as [-> ->]. simpl. split; [lia|done].
  - destruct Hr as (Hs & Hf' & Hl & _). simpl in Hl.
    specialize (IH (S n - length (x :: d))%nat p' ltac:(simpl; lia)).
    destruct (read_exact_loop _ _ _ p') as [[d' p'']|e].
    + destruct IH as (Hs' & Hl' & Hf''). split_and!.
      * by rewrite Hs, Hs', (assoc_L app).
      * rewrite length_app, Hl'. simpl. lia.
      * by rewrite Hf''.
    + destruct IH as [Hl' ->]. rewrite Hs, Hf'. simpl in *. rewrite length_app.
      split; [lia|done].
  - destruct Hr as [-> ->]. simpl. split; [lia|done].
Qed.

Lemma read_exact_spec fl n p :
  match read_exact fl n p with
  | Ok (d, p') => stream p = d ++ stream p' ∧ length d = n ∧ fin p' = fin p
  | Err e => (length (stream p) < n)%nat ∧ e = default (eof_error fl) (fin p)
  end.
Proof. by apply read_exact_loop_spec. Qed.

Lemma read_u8_spec p :
  match read_u8 p with
  | Ok (Some x, p') => stream p = x :: stream p' ∧ fin p' = fin p
  | Ok (None, p') => stream p = [] ∧ stream p' = [] ∧ fin p = None ∧ fin p' = None
  | Err e => stream p = [] ∧ fin p = Some e
  end.
Proof.
  unfold read_u8. pose proof (pipe_read_spec 1 p ltac:(lia)) as H.
  destruct (pipe_read 1 p) as [[[|x [|y d]] p']|e]; simpl in *.
  - destruct H as (H1 & H2 & _ & H3). destruct (H3 eq_refl) as [H4 H5].
    rewrite H4 in H1. split_and!; congruence.
  - naive_solver.
  - destruct H as (_ & _ & ? & _). lia.
  - done.
Qed.

(** ** Pipes up to segmentation *)

#[global] Instance pipe_equiv : Equiv pipe := λ p q, stream p = stream q ∧ fin p = fin q.

#[global] Instance pipe_equivalence : Equivalence (≡@{pipe}).
Proof.
  split; [done| |].
  - intros p q [??]; by split.
  - intros p q r [??] [??]; split; congruence.
Qed.

(** Two runs agree: the same error, or the same value and equivalent pipes. *)
Definition run_equiv {A} (r1 r2 : result (A * pipe) io_error) : Prop :=
  match r1, r2 with
  | Ok (a, p), Ok (a', q) => a = a' ∧ p ≡ q
  | Err e, Err e' => e = e'
  | _, _ => False
  end.

#[global] Instance run_equivalence A : Equivalence (@run_equiv A).
Proof.
  split.
  - intros [[a p]|e]; simpl; done.
  - intros [[a p]|e] [[a' q]|e']; simpl; naive_solver.
  - intros [[a p]|e] [[a' q]|e'] [[a'' r]|e'']; simpl; try naive_solver.
    intros [-> ?] [-> ?]. split; [done|by etrans].
Qed.

(** A computation is determined by the bytes, not by their segmentation. *)
Class SegInvariant {A} (m : Rd A) : Prop :=
  seg_invariant : Proper ((≡@{pipe}) ==> run_equiv) m.

#[global] Instance ret_seg {A} (a : A) : SegInvariant (mret a : Rd A).
Proof. intros p q H. split; [done|exact H]. Qed.

#[global] Instance fail_seg {A} k msg : SegInvariant (rd_fail k msg : Rd A).
Proof. intros p q H. reflexivity. Qed.

#[global] Instance bind_seg {A B} (m : Rd A) (k : A → Rd B) :
  SegInvariant m → (∀ a, SegInvariant (k a)) → SegInvariant (m ≫= k).
Proof.
  intros Hm Hk p q Hpq. specialize (Hm p q Hpq). unfold mbind, Rd_bind.
  destruct (m p) as [[a p']|e], (m q) as [[a' q']|e']; simpl in *; try done.
  destruct Hm as [<- H]. by apply Hk.
Qed.

#[global] Instance read_exact_seg fl n : SegInvariant (read_exact fl n).
Proof.
  intros p q [Hs Hf].
  pose proof (read_exact_spec fl n p) as Hp. pose proof (read_exact_spec fl n q) as Hq.
  rewrite <-Hs in Hq.
  destruct (read_exact fl n p) as [[d p']|e], (read_exact fl n q) as [[d' q']|e']; simpl.
  - destruct Hp as (H1 & H2 & H3), Hq as (H4 & H5 & H6). rewrite H1 in H4.
    apply app_inj_1 in H4 as [-> H4]; [|congruence]. split; [done|]. split; congruence.
  - destruct Hp as (H1 & H2 & H3), Hq as (H4 & H5).
    rewrite H1, length_app in H4. lia.
  - destruct Hq as (H1 & H2 & H3), Hp as (H4 & H5).
    rewrite H1, length_app in H4. lia.
  - destruct Hp as [_ ->], Hq as [_ ->]. by rewrite Hf.
Qed.

#[global] Instance read_u8_seg : SegInvariant read_u8.
Proof.
  intros p q [Hs Hf].
  pose proof (read_u8_spec p) as Hp. pose proof (read_u8_spec q) as Hq.
  rewrite <-Hs in Hq.
  destruct (read_u8 p) as [[[x|] p']|e], (read_u8 q) as [[[y|] q']|e']; simpl;
    unfold equiv, pipe_equiv; naive_solver congruence.
Qed.

#[global] Instance read_le_seg fl n : SegInvariant (read_le fl n).
Proof. apply _. Qed.

(** ** Running on a pipe that holds known bytes *)

(** [m] reads exactly [d] and returns [a], whatever comes after. *)
Definition reads {A} (m : Rd A) (d : bytes) (a : A) : Prop :=
  ∀ p k, stream p = d ++ k → ∃ p', m p = Ok (a, p') ∧ stream p' = k ∧ fin p' = fin p.

Lemma reads_ret {A} (a : A) : reads (mret a) [] a.
Proof. intros p k H. by exists p. Qed.

Lemma reads_bind {A B} (m : Rd A) (k : A → Rd B) d1 d2 a x :
  reads m d1 a → reads (k a) d2 x → reads (m ≫= k) (d1 ++ d2) x.
Proof.
  intros H1 H2 p r Hp. rewrite <-(assoc_L app) in Hp.
  destruct (H1 p _ Hp) as (p' & E & Hs & Hf).
  destruct (H2 p' _ Hs) as (p'' & E' & Hs' & Hf').
  exists p''. unfold mbind, Rd_bind. rewrite E. split_and!; [done..|congruence].
Qed.

Lemma reads_exact fl d n : n = length d → reads (read_exact fl n) d d.
Proof.
  intros -> p k Hp. pose proof (read_exact_spec fl (length d) p) as H.
  destruct (read_exact fl (length d) p) as [[d' p']|e].
  - destruct H as (Hs & Hl & Hf). rewrite Hp in Hs.
    apply app_inj_1 in Hs as [-> ->]; [|done]. by exists p'.
  - destruct H as [Hl _]. rewrite Hp, length_app in Hl. lia.
Qed.

Lemma reads_u8 x : reads read_u8 [x] (Some x).
Proof.
  intros p k Hp. pose proof (read_u8_spec p) as H.
  destruct (read_u8 p) as [[[y|] p']|e]; rewrite Hp in H; simpl in H.
  - destruct H as [H ?]. simplify_eq/=. by exists p'.
  - by destruct H as [? _].
  - by destruct H as [? _].
Qed.

Lemma reads_le fl n v : 0 ≤ v < 256 ^ Z.of_nat n → reads (read_le fl n) (le_bytes n v) v.
Proof.
  intros Hv. rewrite <-(app_nil_r (le_bytes n v)). unfold read_le.
  eapply reads_bind; [apply reads_exact; by rewrite le_bytes_length|].
  rewrite le_val_le_bytes, Z.mod_small by done. apply reads_ret.
Qed.

#[export] Hint Resolve reads_ret reads_u8 : turbine.

(** ** Consumption *)

(** A computation takes a prefix of the stream and leaves the rest alone. *)
Class Consumes {A} (m : Rd A) : Prop :=
  consumes p a p' : m p = Ok (a, p') → ∃ d, stream p = d ++ stream p' ∧ fin p' = fin p.

#[global] Instance ret_consumes {A} (a : A) : Consumes (mret a : Rd A).
Proof. intros p x p' H. injection H as -> ->. by exists []. Qed.

#[global] Instance fail_consumes {A} k msg : Consumes (rd_fail k msg : Rd A).
Proof. by intros p x p' H. Qed.

#[global] Instance bind_consumes {A B} (m : Rd A) (k : A → Rd B) :
  Consumes m → (∀ a, Consumes (k a)) → Consumes (m ≫= k).
Proof.
  intros Hm Hk p x p' H. unfold mbind, Rd_bind in H.
  destruct (m p) as [[a q]|e] eqn:E; [|done].
  apply Hm in E as (d & E & F). apply Hk in H as (d' & E' & F').
  exists (d ++ d'). rewrite E, E'. split; [by rewrite (assoc_L app)|congruence].
Qed.

#[global] Instance read_exact_consumes fl n : Consumes (read_exact fl n).
Proof.
  intros p d p' H. pose proof (read_exact_spec fl n p) as S. rewrite H in S.
  destruct S as (? & _ & ?). by exists d.
Qed.

#[global] Instance read_u8_consumes : Consumes read_u8.
Proof.
  intros p [x|] p' H; pose proof (read_u8_spec p) as S; rewrite H in S.
  - destruct S. by exists [x].
  - destruct S as (-> & -> & -> & ->). by exists [].
Qed.

#[global] Instance read_le_consumes fl n : Consumes (read_le fl n).
Proof. apply _. Qed.

Lemma consumes_length {A} (m : Rd A) `{!Consumes m} p a p' :
  m p = Ok (a, p') → (length (stream p') ≤ length (stream p))%nat.
Proof.
  intros H. apply consumes in H as (d & -> & _). rewrite length_app. lia.
Qed.

(** ** Determined by the prefix read *)

(** A successful run depends only on the bytes it took. *)
Class Prefixed {A} (m : Rd A) : Prop :=
  prefixed p a p' : m p = Ok (a, p') → ∃ d, stream p = d ++ stream p' ∧ reads m d a.

#[global] Instance ret_prefixed {A} (a : A) : Prefixed (mret a : Rd A).
Proof. intros p x p' H. injection H as <- <-. exists []. split; [done|apply reads_ret]. Qed.

#[global] Instance fail_prefixed {A} k msg : Prefixed (rd_fail k msg : Rd A).
Proof. by intros p x p' H. Qed.

#[global] Instance bind_prefixed {A B} (m : Rd A) (k : A → Rd B) :
  Prefixed m → (∀ a, Prefixed (k a)) → Prefixed (m ≫= k).
Proof.
  intros Hm Hk p x p' H. unfold mbind, Rd_bind in H.
  destruct (m p) as [[a q]|e] eqn:E; [|done].
  apply Hm in E as (d & E & R). apply Hk in H as (d' & E' & R').
  exists (d ++ d'). rewrite E, E'. split; [by rewrite (assoc_L app)|].
  by eapply reads_bind.
Qed.

#[global] Instance read_exact_prefixed fl n : Prefixed (read_exact fl n).
Proof.
  intros p d p' H. pose proof (read_exact_spec fl n p) as S. rewrite H in S.
  destruct S as (? & <- & ?). exists d. split; [done|by apply reads_exact].
Qed.

#[global] Instance read_le_prefixed fl n : Prefixed (read_le fl n).
Proof. apply _. Qed.
