(* ===== verification/RustStr.v ===== *)
(** * String operations of the Rust standard library

    The operations on [str] and [[u8]] that the crates use, on byte strings.
    White space is Unicode's [White_Space] set, each member given by its UTF-8
    encoding: on valid UTF-8, a prefix or a suffix of bytes that is the encoding
    of a character is that character. *)

From S2P Require Import Prelude.

(** ** Searching *)

(** [s.starts_with(p)], [s.ends_with(p)] *)
Definition starts_with (p s : bytes) : bool := bool_decide (take (length p) s = p).

Definition ends_with (p s : bytes) : bool := starts_with (reverse p) (reverse s).

(** [s.find(p)]: the first position at which [p] occurs. *)
Fixpoint find (p s : bytes) : option nat :=
  if starts_with p s then Some O
  else match s with
       | [] => None
       | _ :: s' => S <$> find p s'
       end.

(** [s.contains(p)] *)
Definition contains (p s : bytes) : bool := bool_decide (is_Some (find p s)).

(** [s.strip_prefix(p)], [s.strip_suffix(p)] *)
Definition strip_prefix (p s : bytes) : option bytes :=
  if starts_with p s then Some (drop (length p) s) else None.

Definition strip_suffix (p s : bytes) : option bytes :=
  if ends_with p s then Some (take (length s - length p) s) else None.

(** ** Splitting *)

(** [s.split(c)] for a one-byte separator: never empty. *)
Fixpoint split (c : byte) (s : bytes) : list bytes :=
  match s with
  | [] => [[]]
  | x :: s' =>
      if decide (x = c) then [] :: split c s'
      else match split c s' with
           | [] => [[x]]
           | w :: ws => (x :: w) :: ws
           end
  end.

(** [s.split_once(c)] *)
Fixpoint split_once (c : byte) (s : bytes) : option (bytes * bytes) :=
  match s with
  | [] => None
  | x :: s' =>
      if decide (x = c) then Some ([], s')
      else '(l, r) ← split_once c s'; Some (x :: l, r)
  end.

(** [s.lines()]: split at line feeds, without a last empty line, each line
    without a carriage return before its line feed. *)
Definition strip_cr (l : bytes) : bytes := default l (strip_suffix [x0d] l).

Definition lines (s : bytes) : list bytes :=
  match reverse (split x0a s) with
  | [] :: ls => reverse (strip_cr <$> ls)
  | l :: ls => reverse (l :: (strip_cr <$> ls))
  | [] => []
  end.

(** ** White space *)

Definition white_space : list bytes :=
  [ [x09]; [x0a]; [x0b]; [x0c]; [x0d]; [x20]; [xc2; x85]; [xc2; xa0]; [xe1; x9a; x80];
    [xe2; x80; x80]; [xe2; x80; x81]; [xe2; x80; x82]; [xe2; x80; x83]; [xe2; x80; x84];
    [xe2; x80; x85]; [xe2; x80; x86]; [xe2; x80; x87]; [xe2; x80; x88]; [xe2; x80; x89];
    [xe2; x80; x8a]; [xe2; x80; xa8]; [xe2; x80; xa9]; [xe2; x80; xaf]; [xe2; x81; x9f];
    [xe3; x80; x80] ].

(** Drops words of [ws] from the front, as long as there is one; each takes at
    least one byte, so the length is enough fuel. *)
Fixpoint strip_words (ws : list bytes) (fuel : nat) (s : bytes) : bytes :=
  match fuel with
  | O => s
  | S fuel' =>
      match list_find (λ w, starts_with w s) ws with
      | Some (_, w) => strip_words ws fuel' (drop (length w) s)
      | None => s
      end
  end.

Definition trim_start (s : bytes) : bytes := strip_words white_space (length s) s.

Definition trim_end (s : bytes) : bytes :=
  reverse (strip_words (reverse <$> white_space) (length s) (reverse s)).

Definition trim (s : bytes) : bytes := trim_end (trim_start s).

(** [s.trim_start_matches(c)], [s.trim_end_matches(c)], [s.trim_matches(c)] *)
Fixpoint trim_start_matches (c : byte) (s : bytes) : bytes :=
  match s with
  | x :: s' => if decide (x = c) then trim_start_matches c s' else s
  | [] => []
  end.

Definition trim_end_matches (c : byte) (s : bytes) : bytes :=
  reverse (trim_start_matches c (reverse s)).

Definition trim_matches (c : byte) (s : bytes) : bytes :=
  trim_end_matches c (trim_start_matches c s).

(** [s.split_whitespace()]: the non-empty pieces between white space. *)
Fixpoint split_ws (fuel : nat) (word s : bytes) : list bytes :=
  let flush := if decide (word = []) then [] else [word] in
  match fuel with
  | O => flush
  | S fuel' =>
      match list_find (λ w, starts_with w s) white_space, s with
      | Some (_, w), _ => flush ++ split_ws fuel' [] (drop (length w) s)
      | None, x :: s' => split_ws fuel' (word ++ [x]) s'
      | None, [] => flush
      end
  end.

Definition split_whitespace (s : bytes) : list bytes := split_ws (length s) [] s.

(** ** ASCII case *)

Definition ascii_lower (x : byte) : byte :=
  if (65 <=? u8 x) && (u8 x <=? 90) then as_u8 (u8 x + 32) else x.

Definition to_ascii_lowercase (s : bytes) : bytes := ascii_lower <$> s.

Definition eq_ignore_ascii_case (s t : bytes) : bool :=
  bool_decide (to_ascii_lowercase s = to_ascii_lowercase t).

(** ** Numbers *)

(** [c.to_digit(10)] *)
Definition digit (x : byte) : option Z :=
  if (48 <=? u8 x) && (u8 x <=? 57) then Some (u8 x - 48) else None.

Fixpoint parse_digits (max acc : Z) (s : bytes) : option Z :=
  match s with
  | [] => Some acc
  | x :: s' =>
      d ← digit x;
      let v := acc * 10 + d in
      if max <? v then None else parse_digits max v s'
  end.

(** [s.parse::<uN>().ok()] for a type whose largest value is [max]: an optional
    plus sign and at least one digit, and no overflow. *)
Definition parse_uint (max : Z) (s : bytes) : option Z :=
  match s with
  | [] => None
  | [x2b] => None
  | x2b :: s' => parse_digits max 0 s'
  | _ => parse_digits max 0 s
  end.

(** [v.to_string()] for [v >= 0]. *)
Fixpoint dec_digits (fuel : nat) (v : Z) (acc : bytes) : bytes :=
  match fuel with
  | O => acc
  | S fuel' =>
      let acc := as_u8 (48 + v `mod` 10) :: acc in
      if v <? 10 then acc else dec_digits fuel' (v / 10) acc
  end.

Definition dec_string (v : Z) : bytes := dec_digits (S (Z.to_nat (Z.log2 v))) v [].

(** [s.parse::<i64>().ok()]: an optional sign and at least one digit. *)
Definition parse_i64 (s : bytes) : option Z :=
  match s with
  | [x2d] => None
  | x2d :: s' => Z.opp <$> parse_digits (2 ^ 63) 0 s'
  | _ => parse_uint (2 ^ 63 - 1) s
  end.

Definition show_i64 (v : Z) : bytes := if v <? 0 then [x2d] ++ dec_string (- v) else dec_string v.

(** ** Text *)

(** A line that ends, and text with quotes in place of the sign [~]. *)
Definition ln (s : bytes) : bytes := s ++ [x0a].

Definition q (s : bytes) : bytes := (λ c, if decide (c = x7e) then x22 else c) <$> s.

Example split_ex : split x3b (lit "a;;b") = [lit "a"; []; lit "b"].
Proof. vm_compute. reflexivity. Qed.
Example lines_ex : lines [x61; x0d; x0a; x0a; x62; x0d] = [[x61]; []; [x62; x0d]].
Proof. vm_compute. reflexivity. Qed.
Example trim_ex : trim ([x20; xe3; x80; x80] ++ lit "a b" ++ [xc2; xa0; x0a]) = lit "a b".
Proof. vm_compute. reflexivity. Qed.
Example words_ex : split_whitespace (lit " HTTP/1.1  302 Found ") =
  [lit "HTTP/1.1"; lit "302"; lit "Found"].
Proof. vm_compute. reflexivity. Qed.
Example dec_ex : dec_string 65535 = lit "65535" ∧ dec_string 0 = lit "0".
Proof. vm_compute. done. Qed.
Example parse_ex : parse_uint 65535 (lit "+0404") = Some 404 ∧ parse_uint 65535 (lit "65536") = None.
Proof. vm_compute. done. Qed.

(** ** Lemmas *)

Lemma starts_with_spec p s : starts_with p s ↔ ∃ k, s = p ++ k.
Proof.
  unfold starts_with. rewrite bool_decide_spec. split.
  - intros H. exists (drop (length p) s). rewrite <-H at 1. by rewrite take_drop.
  - intros [k ->]. apply take_app_length.
Qed.

Lemma ends_with_spec p s : ends_with p s ↔ ∃ k, s = k ++ p.
Proof.
  unfold ends_with. rewrite starts_with_spec. split; intros [k H].
  - exists (reverse k). apply (f_equal reverse) in H.
    by rewrite reverse_app, !reverse_involutive in H.
  - exists (reverse k). by rewrite H, reverse_app.
Qed.

Lemma find_spec p s i : find p s = Some i →
  ∃ l r, s = l ++ p ++ r ∧ length l = i.
Proof.
  revert i. induction s as [|x s IH]; intros i; simpl;
    destruct (starts_with p _) eqn:E; intros H; simplify_eq/=.
  - apply Is_true_true, starts_with_spec in E as [k ->]. by exists [], k.
  - apply Is_true_true, starts_with_spec in E as [k ->]. by exists [], k.
  - destruct (find p s) as [j|]; simplify_eq/=.
    destruct (IH j eq_refl) as (l & r & -> & <-). by exists (x :: l), r.
Qed.

Lemma find_None p s : find p s = None → ∀ l r, s ≠ l ++ p ++ r.
Proof.
  induction s as [|x s IH]; simpl; destruct (starts_with p _) eqn:E; intros H l r Heq;
    simplify_eq/=; try (destruct (find p s); done);
    apply Is_true_false in E; apply E, starts_with_spec.
  - destruct l as [|y l]; [|done]. by exists r.
  - destruct l as [|y l]; simplify_eq/=; [by exists r|].
    exfalso. destruct (find p (l ++ p ++ r)) eqn:F; [done|]. by eapply IH.
Qed.

Lemma contains_spec p s : contains p s ↔ ∃ l r, s = l ++ p ++ r.
Proof.
  unfold contains. rewrite bool_decide_spec. split.
  - intros [i H]. apply find_spec in H as (l & r & -> & _). eauto.
  - intros (l & r & H). destruct (find p s) as [i|] eqn:E; [eauto|].
    by apply find_None with (l := l) (r := r) in E.
Qed.

Lemma split_once_spec c s l r : split_once c s = Some (l, r) → s = l ++ c :: r ∧ c ∉ l.
Proof.
  revert l r. induction s as [|x s IH]; intros l r; simpl; [done|].
  case_decide; intros H'; simplify_eq/=; [by split; [|set_solver]|].
  destruct (split_once c s) as [[l' r']|] eqn:E; simplify_eq/=.
  destruct (IH _ _ eq_refl) as [-> ?]. split; [done|]. set_solver.
Qed.

(** Splitting and joining at the separator are inverse. *)
Fixpoint join (c : byte) (ws : list bytes) : bytes :=
  match ws with
  | [] => []
  | [w] => w
  | w :: ws' => w ++ c :: join c ws'
  end.

Lemma split_nonempty c s : split c s ≠ [].
Proof.
  destruct s as [|x s]; simpl; [done|]. case_decide; [done|].
  by destruct (split c s).
Qed.

Lemma join_split c s : join c (split c s) = s.
Proof.
  induction s as [|x s IH]; simpl; [done|]. pose proof (split_nonempty c s) as Hne.
  case_decide; subst.
  - destruct (split c s) as [|w ws] eqn:E; [done|].
    change (c :: join c (w :: ws) = c :: s). by rewrite IH.
  - destruct (split c s) as [|w [|w' ws]] eqn:E; [done|..]; simpl in *; by rewrite IH.
Qed.

Lemma strip_prefix_app p s : strip_prefix p (p ++ s) = Some s.
Proof.
  unfold strip_prefix. assert (starts_with p (p ++ s)) as ->%Is_true_true
    by (apply starts_with_spec; eauto). by rewrite drop_app_length.
Qed.

Lemma eq_ignore_ascii_case_refl s : eq_ignore_ascii_case s s.
Proof. unfold eq_ignore_ascii_case. by apply bool_decide_spec. Qed.

(** [Path::new(base).join(p)], on Unix paths. *)
Definition path_join (base p : bytes) : bytes :=
  if starts_with [x2f] p then p
  else if decide (base = []) then p
  else if ends_with [x2f] base then base ++ p
  else base ++ [x2f] ++ p.

(** A string that begins and ends with printing ASCII characters has nothing to
    trim. *)
Definition solid (x : byte) : bool := (33 <=? u8 x) && (u8 x <? 128).

Lemma strip_words_fixed (P : byte → bool) ws fuel s :
  Forall (λ w, match w with [] => False | h :: _ => P h = false end) ws →
  (∀ x, head s = Some x → P x = true) → strip_words ws fuel s = s.
Proof.
  intros Hws Hs. destruct fuel as [|fuel]; [done|]. simpl.
  destruct (list_find _ ws) as [[i w]|] eqn:E; [|done].
  apply list_find_Some in E as (Hi & Hp & _). apply starts_with_spec in Hp as [k ->].
  eapply Forall_lookup_1 in Hws; [|done]. destruct w as [|h w]; [done|].
  by rewrite (Hs h eq_refl) in Hws.
Qed.

(** In general, when no white space starts with its first byte or ends with its
    last one. *)
Lemma trim_unspaced (P : byte → bool) s :
  forallb (λ w, match w with [] => false | h :: _ => negb (P h) end)
    (white_space ++ (reverse <$> white_space)) = true →
  (∀ x, head s = Some x → P x = true) → (∀ x, last s = Some x → P x = true) → trim s = s.
Proof.
  intros Hw Hh Hl. assert (Forall (λ w, match w with [] => False | h :: _ => P h = false end)
    (white_space ++ (reverse <$> white_space))) as [H1 H2]%Forall_app.
  { apply Forall_forall. intros w Hin%list_elem_of_In. rewrite forallb_forall in Hw.
    specialize (Hw w Hin). destruct w; [done|by apply negb_true_iff]. }
  unfold trim, trim_start, trim_end. rewrite (strip_words_fixed P white_space) by done.
  rewrite (strip_words_fixed P); [apply reverse_involutive|done|].
  intros x. rewrite head_reverse. apply Hl.
Qed.

Lemma trim_fixed s : (∀ x, head s = Some x → solid x = true) →
  (∀ x, last s = Some x → solid x = true) → trim s = s.
Proof. by apply trim_unspaced. Qed.

(** Printing a number and parsing it back. *)
Lemma parse_dec_digits max fuel v acc : 0 ≤ v < 10 ^ Z.of_nat fuel → v ≤ max →
  parse_digits max 0 (dec_digits fuel v acc) = parse_digits max v acc.
Proof.
  revert v acc. induction fuel as [|fuel IH]; intros v acc Hv Hm.
  { replace v with 0 by lia. done. }
  pose proof (Z.mod_pos_bound v 10). pose proof (Z.div_mod v 10).
  assert (Hd : ∀ a, a * 10 + v `mod` 10 ≤ max →
    parse_digits max a (as_u8 (48 + v `mod` 10) :: acc) =
    parse_digits max (a * 10 + v `mod` 10) acc).
  { intros a Ha. simpl. unfold digit. rewrite u8_as_u8, Z.mod_small by lia.
    rewrite !(proj2 (Z.leb_le _ _)) by lia. simpl.
    replace (48 + v `mod` 10 - 48) with (v `mod` 10) by lia.
    by rewrite (proj2 (Z.ltb_ge _ _)) by lia. }
  change (dec_digits (S fuel) v acc) with
    (if v <? 10 then as_u8 (48 + v `mod` 10) :: acc
     else dec_digits fuel (v / 10) (as_u8 (48 + v `mod` 10) :: acc)).
  destruct (v <? 10) eqn:E.
  - rewrite Hd by (rewrite Z.mod_small; lia). f_equal. rewrite Z.mod_small; lia.
  - rewrite IH, Hd by (rewrite ?Nat2Z.inj_succ, ?Z.pow_succ_r in *; lia). f_equal; lia.
Qed.

Lemma dec_digits_head fuel v acc : fuel ≠ O → 0 ≤ v →
  ∃ d r, 0 ≤ d ≤ 9 ∧ dec_digits fuel v acc = as_u8 (48 + d) :: r.
Proof.
  revert v acc. induction fuel as [|fuel IH]; intros v acc Hf Hv; [done|]. simpl.
  pose proof (Z.mod_pos_bound v 10). destruct (v <? 10) eqn:E.
  - eexists _, _. split; [|done]. lia.
  - destruct fuel as [|fuel]; [|apply IH; [done|apply Z.div_pos; lia]].
    simpl. eexists _, _. split; [|done]. lia.
Qed.

Lemma dec_fuel v : 0 ≤ v → v < 10 ^ Z.of_nat (S (Z.to_nat (Z.log2 v))).
Proof.
  intros Hv. destruct (decide (v = 0)) as [->|]; [done|].
  pose proof (Z.log2_spec v ltac:(lia)). pose proof (Z.log2_nonneg v).
  rewrite Nat2Z.inj_succ, Z2Nat.id by lia.
  pose proof (Z.pow_le_mono_l 2 10 (Z.succ (Z.log2 v))). lia.
Qed.

Lemma parse_dec_string max v : 0 ≤ v ≤ max → parse_uint max (dec_string v) = Some v.
Proof.
  intros Hv. unfold dec_string.
  destruct (dec_digits_head (S (Z.to_nat (Z.log2 v))) v []) as (d & r & Hd & E); [done|lia|].
  transitivity (parse_digits max 0 (dec_digits (S (Z.to_nat (Z.log2 v))) v []));
    [|rewrite parse_dec_digits; [done|split; [lia|apply dec_fuel; lia]|lia]].
  rewrite E. unfold parse_uint.
  assert (as_u8 (48 + d) ≠ x2b) as Hne.
  { intros Hx. apply (f_equal u8) in Hx. rewrite u8_as_u8, Z.mod_small in Hx by lia.
    change (u8 x2b) with 43 in Hx. lia. }
  by destruct (as_u8 (48 + d)).
Qed.

(** A byte string that ends with a byte it has nowhere else is found where it was
    put, unless it is in the text before. *)
Lemma find_here p s : starts_with p s = true → find p s = Some O.
Proof. destruct s; simpl; by intros ->. Qed.

Lemma find_cons p x s :
  find p (x :: s) = if starts_with p (x :: s) then Some O else S <$> find p s.
Proof. done. Qed.

Lemma find_first q c l r : c ∉ q → find (q ++ [c]) l = None →
  find (q ++ [c]) (l ++ (q ++ [c]) ++ r) = Some (length l).
Proof.
  intros Hc. induction l as [|x l IH]; intros Hn.
  { assert (starts_with (q ++ [c]) ((q ++ [c]) ++ r)) as E by (apply starts_with_spec; eauto).
    by apply find_here, Is_true_true. }
  rewrite find_cons in Hn. destruct (starts_with (q ++ [c]) (x :: l)) eqn:El; [done|].
  destruct (find (q ++ [c]) l) eqn:Ef; [done|]. specialize (IH eq_refl).
  change ((x :: l) ++ ?z) with (x :: (l ++ z)). rewrite find_cons.
  destruct (starts_with (q ++ [c]) (x :: l ++ _)) eqn:E; [|by rewrite IH].
  exfalso. apply Is_true_true, starts_with_spec in E as [k E].
  change (x :: (l ++ ?z)) with ((x :: l) ++ z) in E.
  apply app_eq_inv in E as [(t & E1 & E2)|(t & E1 & E2)].
  - apply Is_true_false in El. apply El, starts_with_spec. eauto.
  - destruct t as [|y t _] using rev_ind.
    { apply Is_true_false in El. apply El, starts_with_spec. exists [].
      by rewrite E1, !app_nil_r. }
    rewrite app_assoc in E1. apply app_inj_tail in E1 as [Eq ->].
    apply (f_equal (.!! length t)) in E2. rewrite <-!app_assoc in E2.
    rewrite (lookup_app_r t), Nat.sub_diag in E2 by lia.
    rewrite lookup_app_l in E2 by (rewrite Eq, length_app; simpl; lia).
    apply Hc, list_elem_of_lookup_2 with (length t), E2.
Qed.
