(* ===== verification/Codec.v ===== *)
(** * Decoding from a slice

    The request decoders of turbine-worker walk a position over a byte slice
    and give up with [None] when the slice is too short. The state here is the
    part of the slice from the position on. *)

From S2P Require Import Prelude.

Definition Dec (A : Type) : Type := bytes → option (A * bytes).

#[global] Instance Dec_ret : MRet Dec := λ A a l, Some (a, l).
#[global] Instance Dec_bind : MBind Dec := λ A B k m l,
  match m l with Some (a, l') => k a l' | None => None end.

Definition dec_fail {A} : Dec A := λ _, None.

(** [n] bytes, if there are that many. *)
Definition take_bytes (n : nat) : Dec bytes := λ l,
  if (length l <? n)%nat then None else Some (take n l, drop n l).

Definition take_le (n : nat) : Dec Z := d ← take_bytes n; mret (le_val d).

(** [CStr::from_bytes_with_nul]: the only NUL is the last byte. *)
Definition cstr_from_bytes_with_nul (s : bytes) : option bytes :=
  match last s with
  | Some x00 =>
      let c := take (length s - 1) s in
      if decide (x00 ∈ c) then None else Some c
  | _ => None
  end.

(** A length prefix of [n] bytes, that many bytes and a NUL. *)
Definition take_cstr (n : nat) : Dec bytes :=
  len ← take_le n;
  slice ← take_bytes (Z.to_nat len + 1);
  match cstr_from_bytes_with_nul slice with
  | Some c => mret c
  | None => dec_fail
  end.

(** [for _ in 0..count { headers.push((read_cstr()?, read_cstr()?)) }] *)
Fixpoint take_cstr_pairs (n count : nat) : Dec (list (bytes * bytes)) :=
  match count with
  | O => mret []
  | S count' =>
      name ← take_cstr n;
      value ← take_cstr n;
      rest ← take_cstr_pairs n count';
      mret ((name, value) :: rest)
  end.

(** The encoder's [write_str]: the length cut to [n] bytes, the string, a NUL. *)
Definition put_cstr (n : nat) (s : bytes) : bytes := le_bytes n (zlen s) ++ s ++ [x00].

Definition put_cstr_pairs (n : nat) (hs : list (bytes * bytes)) : bytes :=
  mjoin ((λ h, put_cstr n h.1 ++ put_cstr n h.2) <$> hs).

(** ** Decoders that invert an encoding *)

(** [m] takes exactly [d] and returns [a], whatever follows. *)
Definition decodes {A} (m : Dec A) (d : bytes) (a : A) : Prop :=
  ∀ k, m (d ++ k) = Some (a, k).

Lemma decodes_ret {A} (a : A) : decodes (mret a) [] a.
Proof. by intros k. Qed.

Lemma decodes_bind {A B} (m : Dec A) (f : A → Dec B) d1 d2 a x :
  decodes m d1 a → decodes (f a) d2 x → decodes (m ≫= f) (d1 ++ d2) x.
Proof.
  intros H1 H2 k. unfold mbind, Dec_bind. by rewrite <-(assoc_L app), H1, H2.
Qed.

(** The last step of a decoder, with nothing left to take. *)
Lemma decodes_last {A B} (m : Dec A) (f : A → B) d a :
  decodes m d a → decodes (x ← m; mret (f x)) d (f a).
Proof. intros H k. unfold mbind, Dec_bind. by rewrite H. Qed.

Lemma decodes_bytes d n : n = length d → decodes (take_bytes n) d d.
Proof.
  intros -> k. unfold take_bytes. rewrite length_app.
  destruct (Nat.ltb_spec (length d + length k) (length d)); [lia|].
  by rewrite take_app_length, drop_app_length.
Qed.

Lemma decodes_le n v : 0 ≤ v < 256 ^ Z.of_nat n → decodes (take_le n) (le_bytes n v) v.
Proof.
  intros Hv. unfold take_le.
  replace v with (le_val (le_bytes n v)) at 2 by (by rewrite le_val_le_bytes, Z.mod_small).
  apply decodes_last, decodes_bytes. by rewrite le_bytes_length.
Qed.

Definition cstr_wf (n : nat) (s : bytes) : Prop := zlen s < 256 ^ Z.of_nat n ∧ x00 ∉ s.

Lemma cstr_from_nul s : x00 ∉ s → cstr_from_bytes_with_nul (s ++ [x00]) = Some s.
Proof.
  intros Hs. unfold cstr_from_bytes_with_nul. rewrite last_snoc, length_app. simpl.
  replace (length s + 1 - 1)%nat with (length s) by lia.
  rewrite take_app_length. by rewrite decide_False.
Qed.

Lemma decodes_cstr n s : cstr_wf n s → decodes (take_cstr n) (put_cstr n s) s.
Proof.
  intros [Hl Hs]. unfold take_cstr, put_cstr.
  eapply decodes_bind; [apply decodes_le; eauto with turbine|].
  rewrite <-(app_nil_r (s ++ _)).
  eapply decodes_bind; [apply decodes_bytes; rewrite length_app; unfold zlen; simpl; lia|].
  rewrite cstr_from_nul by done. apply decodes_ret.
Qed.

Lemma decodes_cstr_pairs n hs count : count = length hs →
  Forall (λ h, cstr_wf n h.1 ∧ cstr_wf n h.2) hs →
  decodes (take_cstr_pairs n count) (put_cstr_pairs n hs) hs.
Proof.
  intros ->. induction 1 as [|[name value] hs [H1 H2] Hhs IH]; [apply decodes_ret|].
  unfold put_cstr_pairs. simpl. rewrite <-(assoc_L app).
  eapply decodes_bind; [by apply decodes_cstr|].
  eapply decodes_bind; [by apply decodes_cstr|].
  by apply (decodes_last _ (cons (name, value))).
Qed.

(** ** Decoders on arbitrary strings *)

(** Whether a string can be a [CStr]. *)
Definition nul_free (s : bytes) : bool := bool_decide (x00 ∉ s).

(** A string with an interior NUL is refused. *)
Lemma take_cstr_put n s k : zlen s < 256 ^ Z.of_nat n →
  take_cstr n (put_cstr n s ++ k) = if nul_free s then Some (s, k) else None.
Proof.
  intros Hl. unfold nul_free. case_bool_decide as Hs; [by apply decodes_cstr|].
  unfold take_cstr, put_cstr, mbind, Dec_bind. rewrite <-(assoc_L app).
  rewrite decodes_le by eauto with turbine.
  rewrite decodes_bytes by (rewrite length_app; unfold zlen; simpl; lia).
  unfold cstr_from_bytes_with_nul. rewrite last_snoc, length_app. simpl.
  replace (length s + 1 - 1)%nat with (length s) by lia.
  rewrite take_app_length. rewrite decide_True; [done|].
  destruct (decide (x00 ∈ s)); done.
Qed.

Definition pairs_fit (n : nat) (hs : list (bytes * bytes)) : Prop :=
  Forall (λ h, zlen h.1 < 256 ^ Z.of_nat n ∧ zlen h.2 < 256 ^ Z.of_nat n) hs.

Definition pairs_nul_free (hs : list (bytes * bytes)) : bool :=
  forallb (λ h, nul_free h.1 && nul_free h.2) hs.

Lemma take_cstr_pairs_put n hs k : pairs_fit n hs →
  take_cstr_pairs n (length hs) (put_cstr_pairs n hs ++ k) =
    if pairs_nul_free hs then Some (hs, k) else None.
Proof.
  induction 1 as [|[name value] hs [H1 H2] Hhs IH]; [done|].
  unfold put_cstr_pairs. simpl in *. rewrite <-!(assoc_L app).
  unfold mbind, Dec_bind. rewrite take_cstr_put by done. destruct (nul_free name); [|done].
  rewrite take_cstr_put by done. destruct (nul_free value); [|done]. simpl.
  change (mjoin _) with (put_cstr_pairs n hs). rewrite IH. by destruct (pairs_nul_free hs).
Qed.

(** The prefix of a string that is too long wraps to less than its length, and
    the byte where the NUL should be is one of the string's own: without NULs
    in it the string is refused, never cut. *)
Lemma take_cstr_put_free n s k : x00 ∉ s →
  take_cstr n (put_cstr n s ++ k) =
    if (zlen s <? 256 ^ Z.of_nat n) then Some (s, k) else None.
Proof.
  intros Hs. destruct (Z.ltb_spec (zlen s) (256 ^ Z.of_nat n)) as [Hl|Hl].
  { by apply decodes_cstr. }
  unfold take_cstr, put_cstr, take_le, mbind, Dec_bind. rewrite <-(assoc_L app).
  rewrite (decodes_bytes (le_bytes n (zlen s))) by (by rewrite le_bytes_length).
  cbn [mret Dec_ret]. rewrite le_val_le_bytes.
  set (m := Z.to_nat (zlen s `mod` 256 ^ Z.of_nat n)).
  assert (m < length s)%nat as Hm.
  { unfold m. pose proof (Z.mod_pos_bound (zlen s) (256 ^ Z.of_nat n)). unfold zlen in *. lia. }
  unfold take_bytes. destruct (Nat.ltb_spec (length ((s ++ [x00]) ++ k)) (m + 1)) as [Hlt|_];
    [rewrite !length_app in Hlt; lia|].
  rewrite <-(assoc_L app), take_app_le by lia.
  unfold cstr_from_bytes_with_nul. destruct (last (take (m + 1) s)) as [x|] eqn:E; [|done].
  destruct x; try done. exfalso. apply Hs. apply last_Some in E as [l E].
  rewrite <-(take_drop (m + 1) s), E. set_solver.
Qed.

Definition pairs_short (n : nat) (hs : list (bytes * bytes)) : bool :=
  forallb (λ h, (zlen h.1 <? 256 ^ Z.of_nat n) && (zlen h.2 <? 256 ^ Z.of_nat n)) hs.

Lemma take_cstr_pairs_put_free n hs k : Forall (λ h, (x00 ∉ h.1) ∧ (x00 ∉ h.2)) hs →
  take_cstr_pairs n (length hs) (put_cstr_pairs n hs ++ k) =
    if pairs_short n hs then Some (hs, k) else None.
Proof.
  induction 1 as [|[name value] hs [H1 H2] Hhs IH]; [done|].
  unfold put_cstr_pairs. simpl in *. rewrite <-!(assoc_L app).
  unfold mbind, Dec_bind. rewrite take_cstr_put_free by done.
  destruct (zlen name <? 256 ^ Z.of_nat n); [|done].
  rewrite take_cstr_put_free by done. destruct (zlen value <? 256 ^ Z.of_nat n); [|done]. simpl.
  change (mjoin _) with (put_cstr_pairs n hs). rewrite IH. by destruct (pairs_short n hs).
Qed.

#[export] Hint Resolve decodes_ret decodes_cstr decodes_cstr_pairs : turbine.
