(* ===== verification/Stream.v ===== *)
(** * The framed response protocol (turbine-worker/src/stream.rs)

    A response travels from a worker to the master as one [Headers] frame,
    any number of [BodyChunk] frames and one terminal [End] or [Error] frame.
    The encoders append to a buffer; the decoders are [Rd] computations, in
    the [std] and the [tokio] flavour of [read_exact]. *)

From S2P Require Import Prelude Utf8 Reader.

Definition FRAME_HEADERS : byte := x10.
Definition FRAME_BODY_CHUNK : byte := x11.
Definition FRAME_END : byte := x12.
Definition FRAME_ERROR : byte := x13.

Abbreviation header_list := (list (bytes * bytes)).

(** ** Encoding *)

(** One header: [(len as u16)] prefixes, which keep the low 16 bits. *)
Definition encode_header (buf : bytes) (h : bytes * bytes) : bytes :=
  buf ++ le_bytes 2 (zlen h.1) ++ h.1 ++ le_bytes 2 (zlen h.2) ++ h.2.

Definition encode_headers (buf : bytes) (http_status : Z) (headers : header_list) : bytes :=
  foldl encode_header
    (buf ++ [FRAME_HEADERS] ++ le_bytes 2 http_status ++ le_bytes 4 (zlen headers))
    headers.

Definition encode_body_chunk (buf chunk : bytes) : bytes :=
  buf ++ [FRAME_BODY_CHUNK] ++ le_bytes 4 (zlen chunk) ++ chunk.

Definition encode_body_chunk_header (chunk_len : Z) : bytes :=
  FRAME_BODY_CHUNK :: le_bytes 4 chunk_len.

Definition encode_end (buf : bytes) (ok : bool) : bytes :=
  buf ++ [FRAME_END; if ok then x01 else x00].

Definition encode_error (buf msg : bytes) : bytes :=
  buf ++ [FRAME_ERROR] ++ le_bytes 4 (zlen msg) ++ msg.

(** The bytes [write_response_framed] and [write_error_framed] hand to
    [write_all]. *)
Definition write_response_framed (ok : bool) (http_status : Z) (headers : header_list)
    (body : bytes) : bytes :=
  let buf := encode_headers [] http_status headers in
  let buf := if bool_decide (body = []) then buf else encode_body_chunk buf body in
  encode_end buf ok.

Definition write_error_framed (msg : bytes) : bytes := encode_error [] msg.

(** ** Decoding *)

Inductive Frame :=
| Headers (http_status : Z) (headers : header_list)
| BodyChunk (chunk : bytes)
| End (ok : bool)
| Error (msg : bytes).

(** [format!("0x{:02x}", v)] *)
Definition hex_nibble (v : Z) : byte := as_u8 (if v <? 10 then 48 + v else 87 + v).
Definition hex_02x (x : byte) : bytes :=
  lit "0x" ++ [hex_nibble (u8 x / 16); hex_nibble (u8 x `mod` 16)].

(** A length prefix of [n] bytes and that many bytes. *)
Definition read_prefixed (fl : flavour) (n : nat) : Rd bytes :=
  len ← read_le fl n; read_exact fl (Z.to_nat len).

Fixpoint read_header_list (fl : flavour) (count : nat) : Rd header_list :=
  match count with
  | O => mret []
  | S count' =>
      name ← read_prefixed fl 2;
      val ← read_prefixed fl 2;
      rest ← read_header_list fl count';
      mret ((from_utf8_lossy name, from_utf8_lossy val) :: rest)
  end.

Definition read_frame_body (fl : flavour) (discr : byte) : Rd Frame :=
  if decide (discr = FRAME_HEADERS) then
    status ← read_le fl 2;
    count ← read_le fl 4;
    headers ← read_header_list fl (Z.to_nat count);
    mret (Headers status headers)
  else if decide (discr = FRAME_BODY_CHUNK) then
    chunk ← read_prefixed fl 4; mret (BodyChunk chunk)
  else if decide (discr = FRAME_END) then
    ok ← read_le fl 1; mret (End (negb (ok =? 0)))
  else if decide (discr = FRAME_ERROR) then
    msg ← read_prefixed fl 4; mret (Error msg)
  else rd_fail InvalidData (lit "unknown stream frame discriminant: " ++ hex_02x discr).

Definition read_frame_gen (fl : flavour) : Rd (option Frame) :=
  d ← read_u8;
  match d with
  | None => mret None
  | Some discr => f ← read_frame_body fl discr; mret (Some f)
  end.

Definition read_frame : Rd (option Frame) := read_frame_gen Std.
Definition read_frame_async : Rd (option Frame) := read_frame_gen Tokio.

(** ** Consuming a response *)

Definition read_response_head : Rd (Z * header_list) :=
  first ← read_frame_async;
  match first with
  | None =>
      rd_fail UnexpectedEof (lit "read_response_head: pipe closed before Headers frame")
  | Some (Headers http_status headers) => mret (http_status, headers)
  | Some (Error msg) =>
      rd_fail Other (lit "read_response_head: worker emitted Error frame: "
                     ++ from_utf8_lossy msg)
  | Some (BodyChunk _) | Some (End _) =>
      rd_fail InvalidData (lit "read_response_head: first frame must be Headers")
  end.

(** The loops below read at least one byte per round: one more round than
    there are bytes is enough. A run out of fuel is [None], never an answer. *)
Definition fuelled (A : Type) : Type := pipe → option (result (A * pipe) io_error).

Definition with_fuel {A} (loop : nat → fuelled A) : fuelled A := λ p,
  loop (S (length (stream p))) p.

Fixpoint drain_loop (body : bytes) (fuel : nat) : fuelled (bytes * bool) := λ p,
  match fuel with
  | O => None
  | S fuel' =>
      match read_u8 p with
      | Err e => Some (Err e)
      | Ok (None, _) =>
          Some (Err (IoError UnexpectedEof
                       (lit "drain_body_buffered: pipe closed before End frame")))
      | Ok (Some discr, p) =>
          if decide (discr = FRAME_BODY_CHUNK) then
            match read_prefixed Tokio 4 p with
            | Err e => Some (Err e)
            | Ok (chunk, p) => drain_loop (body ++ chunk) fuel' p
            end
          else if decide (discr = FRAME_END) then
            Some ((ok ← read_le Tokio 1; mret (body, negb (ok =? 0))) p)
          else if decide (discr = FRAME_ERROR) then
            Some ((msg ← read_prefixed Tokio 4; rd_fail Other (from_utf8_lossy msg)) p)
          else if decide (discr = FRAME_HEADERS) then
            Some (Err (IoError InvalidData
                         (lit "drain_body_buffered: unexpected Headers frame mid-body")))
          else
            Some (Err (IoError InvalidData
                         (lit "drain_body_buffered: unknown frame discriminant: "
                          ++ hex_02x discr)))
      end
  end.

Definition drain_body_buffered : fuelled (bytes * bool) := with_fuel (drain_loop []).

(** The forwarder task. [alive i] tells whether the [i]-th [body_tx.send] finds
    the receiver still there; the items sent are returned with the outcome the
    [done] channel carries. *)
Definition client_gone : io_error :=
  IoError BrokenPipe (lit "client disconnected mid-stream").

Fixpoint drain_disconnected (fuel : nat) : fuelled bool := λ p,
  match fuel with
  | O => None
  | S fuel' =>
      match read_frame_async p with
      | Ok (Some (End ok), p) => Some (Ok (ok, p))
      | Ok (Some _, p) => drain_disconnected fuel' p
      | Ok (None, _) | Err _ => Some (Err client_gone)
      end
  end.

Abbreviation body_item := (result bytes io_error).

Fixpoint drive_loop (alive : nat → bool) (sent : list body_item) (fuel : nat) (p : pipe)
    : option (list body_item * result (bool * pipe) io_error) :=
  match fuel with
  | O => None
  | S fuel' =>
      match read_frame_async p with
      | Ok (None, _) =>
          Some (sent, Err (IoError UnexpectedEof
                             (lit "streaming response pipe closed before End frame")))
      | Err e => Some (if alive (length sent) then sent ++ [Err e] else sent, Err e)
      | Ok (Some (BodyChunk chunk), p) =>
          if alive (length sent) then drive_loop alive (sent ++ [Ok chunk]) fuel' p
          else r ← drain_disconnected fuel' p; Some (sent, r)
      | Ok (Some (End ok), p) => Some (sent, Ok (ok, p))
      | Ok (Some (Headers _ _), _) =>
          let item := Err (IoError InvalidData
                             (lit "unexpected Headers frame mid-stream")) in
          Some (if alive (length sent) then sent ++ [item] else sent,
                Err (IoError InvalidData (lit "duplicate Headers frame")))
      | Ok (Some (Error msg), _) => Some (sent, Err (IoError Other (from_utf8_lossy msg)))
      end
  end.

Definition start_streaming_forwarder (alive : nat → bool) (p : pipe)
    : option (list body_item * result (bool * pipe) io_error) :=
  drive_loop alive [] (S (length (stream p))) p.

Record StreamingHead := {
  sh_status : Z;
  sh_headers : header_list;
  sh_body : list body_item;
  sh_done : result (bool * pipe) io_error }.

Definition consume_streaming (alive : nat → bool) (p : pipe)
    : option (result StreamingHead io_error) :=
  match read_frame_async p with
  | Err e => Some (Err e)
  | Ok (None, _) =>
      Some (Err (IoError UnexpectedEof
                   (lit "consume_streaming: pipe closed before Headers frame")))
  | Ok (Some (Headers http_status headers), p) =>
      '(items, outcome) ← start_streaming_forwarder alive p;
      Some (Ok {| sh_status := http_status; sh_headers := headers;
                  sh_body := items; sh_done := outcome |})
  | Ok (Some (Error msg), _) =>
      Some (Err (IoError Other (lit "consume_streaming: worker emitted Error frame: "
                                ++ from_utf8_lossy msg)))
  | Ok (Some (BodyChunk _), _) | Ok (Some (End _), _) =>
      Some (Err (IoError InvalidData (lit "consume_streaming: first frame must be Headers")))
  end.

(** ** Encoders append *)

Lemma encode_header_buf buf h : encode_header buf h = buf ++ encode_header [] h.
Proof. done. Qed.

Lemma foldl_encode_header hs buf :
  foldl encode_header buf hs = buf ++ foldl encode_header [] hs.
Proof.
  revert buf. induction hs as [|h hs IH]; intros buf; simpl; [by rewrite app_nil_r|].
  rewrite (IH (encode_header buf h)), (IH (encode_header [] h)), (encode_header_buf buf).
  by rewrite (assoc_L app).
Qed.

Lemma encode_headers_buf buf st hs : encode_headers buf st hs = buf ++ encode_headers [] st hs.
Proof.
  unfold encode_headers. rewrite foldl_encode_header, (foldl_encode_header hs ([] ++ _)).
  by rewrite <-!(assoc_L app).
Qed.

(** The bytes of one frame, and the frames the encoders can carry: lengths
    that fit their prefixes and header strings that are Rust strings. *)
Definition encode_frame (f : Frame) : bytes :=
  match f with
  | Headers st hs => encode_headers [] st hs
  | BodyChunk c => encode_body_chunk [] c
  | End ok => encode_end [] ok
  | Error m => encode_error [] m
  end.

Definition header_wf (h : bytes * bytes) : Prop :=
  zlen h.1 < 2 ^ 16 ∧ zlen h.2 < 2 ^ 16 ∧ utf8_valid h.1 ∧ utf8_valid h.2.

Definition frame_wf (f : Frame) : Prop :=
  match f with
  | Headers st hs => 0 ≤ st < 2 ^ 16 ∧ zlen hs < 2 ^ 32 ∧ Forall header_wf hs
  | BodyChunk c => zlen c < 2 ^ 32
  | End _ => True
  | Error m => zlen m < 2 ^ 32
  end.

(** ** One frame *)

Lemma reads_prefixed fl n d : zlen d < 256 ^ Z.of_nat n →
  reads (read_prefixed fl n) (le_bytes n (zlen d) ++ d) d.
Proof.
  intros H. eapply reads_bind; [apply reads_le; eauto with turbine|].
  apply reads_exact. unfold zlen. lia.
Qed.

Lemma reads_header_list fl hs n : n = length hs → Forall header_wf hs →
  reads (read_header_list fl n) (foldl encode_header [] hs) hs.
Proof.
  intros ->. induction 1 as [|[name val] hs (H1 & H2 & H3 & H4) Hhs IH];
    [apply reads_ret|]; simpl in *.
  rewrite foldl_encode_header. unfold encode_header at 1. simpl.
  rewrite <-(app_nil_r (foldl _ _ _)).
  replace ((le_bytes 2 (zlen name) ++ name ++ le_bytes 2 (zlen val) ++ val) ++
             foldl encode_header [] hs ++ [])
    with ((le_bytes 2 (zlen name) ++ name) ++ (le_bytes 2 (zlen val) ++ val) ++
             foldl encode_header [] hs ++ []) by by rewrite <-!(assoc_L app).
  eapply reads_bind; [by apply reads_prefixed|].
  eapply reads_bind; [by apply reads_prefixed|].
  eapply reads_bind; [exact IH|].
  rewrite !lossy_valid by done. apply reads_ret.
Qed.

Lemma reads_frame_gen fl f : frame_wf f → reads (read_frame_gen fl) (encode_frame f) (Some f).
Proof.
  intros Hf. unfold read_frame_gen.
  assert (∃ x d, encode_frame f = [x] ++ d ++ [] ∧ reads (read_frame_body fl x) d f)
    as (x & d & -> & Hb).
  { destruct f as [st hs|c|ok|m]; simpl in *.
    - eexists FRAME_HEADERS, _. split; [|].
      { unfold encode_headers. rewrite foldl_encode_header. simpl. f_equal.
        rewrite app_nil_r. by rewrite <-(assoc_L app). }
      destruct Hf as (H1 & H2 & H3).
      eapply reads_bind; [by apply reads_le|].
      eapply reads_bind; [apply reads_le; eauto with turbine|].
      rewrite <-(app_nil_r (foldl _ _ _)).
      eapply reads_bind; [apply reads_header_list; [unfold zlen; lia|done]|apply reads_ret].
    - eexists FRAME_BODY_CHUNK, _. split; [by rewrite app_nil_r|].
      rewrite <-(app_nil_r (_ ++ c)).
      eapply reads_bind; [by apply reads_prefixed|apply reads_ret].
    - exists FRAME_END, [if ok then x01 else x00]. split; [done|].
      rewrite <-(app_nil_r [_]).
      replace [if ok then x01 else x00] with (le_bytes 1 (if ok then 1 else 0))
        by (destruct ok; vm_compute; reflexivity).
      eapply reads_bind; [apply reads_le; by destruct ok|destruct ok; apply reads_ret].
    - eexists FRAME_ERROR, _. split; [by rewrite app_nil_r|].
      rewrite <-(app_nil_r (_ ++ m)).
      eapply reads_bind; [by apply reads_prefixed|apply reads_ret]. }
  eapply reads_bind; [apply reads_u8|]. simpl.
  eapply reads_bind; [exact Hb|apply reads_ret].
Qed.

#[global] Instance read_header_list_seg fl n : SegInvariant (read_header_list fl n).
Proof. induction n; apply _. Qed.

#[global] Instance read_frame_body_seg fl x : SegInvariant (read_frame_body fl x).
Proof. unfold read_frame_body, read_prefixed. repeat case_decide; apply _. Qed.

#[global] Instance read_frame_gen_seg fl : SegInvariant (read_frame_gen fl).
Proof. apply bind_seg; [apply _|]. intros [x|]; apply _. Qed.

#[global] Instance read_header_list_consumes fl n : Consumes (read_header_list fl n).
Proof. induction n; apply _. Qed.

#[global] Instance read_frame_body_consumes fl x : Consumes (read_frame_body fl x).
Proof. unfold read_frame_body, read_prefixed. repeat case_decide; apply _. Qed.

Lemma read_u8_shrinks p x p' : read_u8 p = Ok (Some x, p') →
  (length (stream p') < length (stream p))%nat.
Proof.
  intros H. pose proof (read_u8_spec p) as S. rewrite H in S. destruct S as [-> _]. simpl. lia.
Qed.

(** A frame takes at least its discriminant. *)
Lemma read_frame_shrinks fl p f p' : read_frame_gen fl p = Ok (Some f, p') →
  (length (stream p') < length (stream p))%nat.
Proof.
  unfold read_frame_gen, mbind, Rd_bind. intros H.
  destruct (read_u8 p) as [[[x|] q]|e] eqn:E; [|done|done].
  apply read_u8_shrinks in E. destruct (read_frame_body fl x q) as [[g r]|e] eqn:F; [|done].
  apply consumes_length in F; [|apply _]. injection H as <- <-. lia.
Qed.

(** Reading a frame off a pipe that starts with its encoding. *)
Lemma read_frame_at fl f p k : frame_wf f → stream p = encode_frame f ++ k →
  ∃ p', read_frame_gen fl p = Ok (Some f, p') ∧ stream p' = k ∧ fin p' = fin p ∧
        (length k < length (stream p))%nat.
Proof.
  intros Hf Hp. destruct (reads_frame_gen fl f Hf p k Hp) as (p' & E & Hs & Hfin).
  exists p'. split_and!; [done..|]. apply read_frame_shrinks in E. by rewrite Hs in E.
Qed.

(** The chunks of a body and its terminal frame, as the worker writes them. *)
Definition body_bytes (cs : list bytes) (ok : bool) : bytes :=
  mjoin (encode_frame ∘ BodyChunk <$> cs) ++ encode_frame (End ok).

Definition chunks_wf (cs : list bytes) : Prop := Forall (λ c, zlen c < 2 ^ 32) cs.

(** ** The inline drain *)

(** The same drain written with [read_frame_async] and no in-place reading. *)
Fixpoint drain_ref_loop (body : bytes) (fuel : nat) : fuelled (bytes * bool) := λ p,
  match fuel with
  | O => None
  | S fuel' =>
      match read_frame_async p with
      | Ok (Some (BodyChunk c), p) => drain_ref_loop (body ++ c) fuel' p
      | Ok (Some (End ok), p) => Some (Ok ((body, ok), p))
      | Ok (Some (Error m), _) => Some (Err (IoError Other (from_utf8_lossy m)))
      | Ok (Some (Headers _ _), _) => Some (Err (IoError InvalidData []))
      | Ok (None, _) => Some (Err (IoError UnexpectedEof []))
      | Err e => Some (Err e)
      end
  end.

Definition drain_ref : fuelled (bytes * bool) := with_fuel (drain_ref_loop []).

Lemma drain_loop_ref body fuel p r :
  drain_loop body fuel p = Some (Ok r) ↔ drain_ref_loop body fuel p = Some (Ok r).
Proof.
  revert body p. induction fuel as [|fuel IH]; intros body p; [done|].
  cbn [drain_loop drain_ref_loop].
  unfold read_frame_async, read_frame_gen, read_frame_body, mbind, Rd_bind, mret, Rd_ret.
  destruct (read_u8 p) as [[[x|] q]|e]; [|by split..].
  destruct (decide (x = FRAME_HEADERS)) as [->|]; simpl.
  { by repeat case_match; simplify_eq/=. }
  destruct (decide (x = FRAME_BODY_CHUNK)) as [->|].
  { destruct (read_prefixed Tokio 4 q) as [[c q1]|]; [apply IH|by split]. }
  by repeat case_match; simplify_eq/=.
Qed.

Lemma drain_loop_total body fuel p : (length (stream p) < fuel)%nat →
  is_Some (drain_loop body fuel p).
Proof.
  revert body p. induction fuel as [|fuel IH]; intros body p Hf; [lia|].
  cbn [drain_loop]. destruct (read_u8 p) as [[[x|] q]|e] eqn:E; [|eauto..].
  apply read_u8_shrinks in E. repeat case_decide; eauto.
  destruct (read_prefixed Tokio 4 q) as [[c q1]|] eqn:F; [|eauto].
  apply consumes_length in F; [|unfold read_prefixed; apply _]. apply IH. lia.
Qed.

Lemma drain_ref_body cs ok k body fuel p : chunks_wf cs →
  stream p = body_bytes cs ok ++ k → (length (stream p) < fuel)%nat →
  ∃ p', drain_ref_loop body fuel p = Some (Ok ((body ++ mjoin cs, ok), p')) ∧
        stream p' = k ∧ fin p' = fin p.
Proof.
  intros Hcs. revert body fuel p.
  induction Hcs as [|c cs Hc Hcs IH]; intros body fuel p Hp Hf;
    (destruct fuel as [|fuel]; [lia|]); cbn [drain_ref_loop].
  - destruct (read_frame_at Tokio (End ok) p k) as (p' & E & Hs & Hfin & _); [done..|].
    unfold read_frame_async. rewrite E. exists p'. simpl. by rewrite app_nil_r.
  - unfold body_bytes in Hp. simpl in Hp. rewrite <-!(assoc_L app) in Hp.
    destruct (read_frame_at Tokio (BodyChunk c) p _ Hc Hp) as (p' & E & Hs & Hfin & Hl).
    unfold read_frame_async. rewrite E.
    destruct (IH (body ++ c) fuel p') as (p'' & E' & Hs' & Hfin').
    { rewrite Hs. unfold body_bytes. by rewrite <-!(assoc_L app). }
    { rewrite Hs. lia. }
    exists p''. rewrite E', <-(assoc_L app). split_and!; [done..|congruence].
Qed.

(** ** The forwarder *)

(** The chunks the client receives: those sent while it is still there. *)
Fixpoint delivered (alive : nat → bool) (i : nat) (cs : list bytes) : list bytes :=
  match cs with
  | [] => []
  | c :: cs' => if alive i then c :: delivered alive (S i) cs' else []
  end.

Lemma drain_disconnected_body cs ok k fuel p : chunks_wf cs →
  stream p = body_bytes cs ok ++ k → (length (stream p) < fuel)%nat →
  ∃ p', drain_disconnected fuel p = Some (Ok (ok, p')) ∧ stream p' = k ∧ fin p' = fin p.
Proof.
  intros Hcs. revert fuel p.
  induction Hcs as [|c cs Hc Hcs IH]; intros fuel p Hp Hf;
    (destruct fuel as [|fuel]; [lia|]); cbn [drain_disconnected]; unfold read_frame_async.
  - destruct (read_frame_at Tokio (End ok) p k) as (p' & -> & Hs & Hfin & _); [done..|].
    by exists p'.
  - unfold body_bytes in Hp. simpl in Hp. rewrite <-!(assoc_L app) in Hp.
    destruct (read_frame_at Tokio (BodyChunk c) p _ Hc Hp) as (p' & -> & Hs & Hfin & Hl).
    destruct (IH fuel p') as (p'' & E' & Hs' & Hfin').
    { rewrite Hs. unfold body_bytes. by rewrite <-!(assoc_L app). }
    { rewrite Hs. lia. }
    exists p''. split_and!; [done..|congruence].
Qed.

Lemma drive_loop_body alive cs ok k sent fuel p : chunks_wf cs →
  stream p = body_bytes cs ok ++ k → (length (stream p) < fuel)%nat →
  ∃ p', drive_loop alive sent fuel p =
          Some (sent ++ (Ok <$> delivered alive (length sent) cs), Ok (ok, p')) ∧
        stream p' = k ∧ fin p' = fin p.
Proof.
  intros Hcs. revert sent fuel p.
  induction Hcs as [|c cs Hc Hcs IH]; intros sent fuel p Hp Hf;
    (destruct fuel as [|fuel]; [lia|]); cbn [drive_loop delivered]; unfold read_frame_async.
  - destruct (read_frame_at Tokio (End ok) p k) as (p' & -> & Hs & Hfin & _); [done..|].
    exists p'. simpl. by rewrite app_nil_r.
  - unfold body_bytes in Hp. simpl in Hp. rewrite <-!(assoc_L app) in Hp.
    destruct (read_frame_at Tokio (BodyChunk c) p _ Hc Hp) as (p' & -> & Hs & Hfin & Hl).
    assert (stream p' = body_bytes cs ok ++ k) as Hs'.
    { rewrite Hs. unfold body_bytes. by rewrite <-!(assoc_L app). }
    destruct (alive (length sent)) eqn:Ha.
    + destruct (IH (sent ++ [Ok c]) fuel p' Hs') as (p'' & E' & Hk & Hfin'); [rewrite Hs; lia|].
      exists p''. rewrite E', <-(assoc_L app), length_app, Nat.add_1_r. simpl.
      split_and!; [done..|congruence].
    + destruct (drain_disconnected_body cs ok k fuel p' Hcs Hs')
        as (p'' & E' & Hk & Hfin'); [rewrite Hs; lia|].
      exists p''. simpl. rewrite E'. simpl. rewrite app_nil_r.
      split_and!; [done..|congruence].
Qed.

Lemma drain_disconnected_total fuel p : (length (stream p) < fuel)%nat →
  is_Some (drain_disconnected fuel p).
Proof.
  revert p. induction fuel as [|fuel IH]; intros p Hf; [lia|].
  cbn [drain_disconnected]. destruct (read_frame_async p) as [[[f|] q]|e] eqn:E; [|eauto..].
  apply read_frame_shrinks in E. destruct f; eauto; apply IH; lia.
Qed.

Lemma drive_loop_total alive sent fuel p : (length (stream p) < fuel)%nat →
  is_Some (drive_loop alive sent fuel p).
Proof.
  revert sent p. induction fuel as [|fuel IH]; intros sent p Hf; [lia|].
  cbn [drive_loop]. destruct (read_frame_async p) as [[[f|] q]|e] eqn:E; [|eauto..].
  apply read_frame_shrinks in E. destruct f; eauto.
  destruct (alive (length sent)); [apply IH; lia|].
  destruct (drain_disconnected_total fuel q ltac:(lia)) as [r ->]. simpl. eauto.
Qed.

(** ** Properties *)

(** C3: A frame that its length prefixes can carry is read back exactly as it
    was encoded, by the blocking and by the async decoder, however the kernel
    cuts the bytes into reads and whatever follows it in the pipe, and the pipe
    is left right after the frame. *)
Theorem frame_roundtrip (f : Frame) (p : pipe) (k : bytes) :
  frame_wf f → stream p = encode_frame f ++ k →
  (∃ p', read_frame p = Ok (Some f, p') ∧ stream p' = k ∧ fin p' = fin p) ∧
  (∃ p', read_frame_async p = Ok (Some f, p') ∧ stream p' = k ∧ fin p' = fin p).
Proof. intros Hf Hp. split; by apply reads_frame_gen. Qed.

Lemma frame_roundtrip_witness :
  let f := Headers 404 [(lit "X-A", lit "1"); (lit "Link", lit "</s.css>")] in
  let p := Pipe [take 7 (encode_frame f); drop 7 (encode_frame f) ++ [x12; x01]] None in
  (∃ p', read_frame p = Ok (Some f, p') ∧ stream p' = [x12; x01] ∧ fin p' = fin p) ∧
  (∃ p', read_frame_async p = Ok (Some f, p') ∧ stream p' = [x12; x01] ∧ fin p' = fin p).
Proof.
  intros f p. apply (frame_roundtrip f p [x12; x01]).
  - split_and!; [done..|]. repeat constructor; vm_compute; done.
  - vm_compute. reflexivity.
Defined.

(** The decoders of a response never depend on how the kernel splits the
    stream: on two pipes with the same bytes and the same ending, [read_frame],
    [read_frame_async] and [read_response_head] give the same frame or the same
    error, and leave equivalent pipes. *)
Theorem decoding_segmentation_independent (p q : pipe) :
  p ≡ q →
  run_equiv (read_frame p) (read_frame q) ∧
  run_equiv (read_frame_async p) (read_frame_async q) ∧
  run_equiv (read_response_head p) (read_response_head q).
Proof.
  intros H. split_and!.
  - by apply read_frame_gen_seg.
  - by apply read_frame_gen_seg.
  - apply bind_seg; [apply read_frame_gen_seg|intros [[]|]; apply _|done].
Qed.

Lemma decoding_segmentation_independent_witness :
  let p := Pipe [[x12]; []; [x01; x13]] None in
  let q := Pipe [[x12; x01]; [x13]] None in
  run_equiv (read_frame p) (read_frame q) ∧
  run_equiv (read_frame_async p) (read_frame_async q) ∧
  run_equiv (read_response_head p) (read_response_head q).
Proof. intros p q. apply (decoding_segmentation_independent p q). by split. Defined.

(** The inline drain always answers, and it answers [Ok] exactly when the
    frame-by-frame drain does, with the same body, flag and remaining pipe:
    reading chunks in place changes nothing. *)
Theorem drain_body_buffered_reference (p : pipe) :
  is_Some (drain_body_buffered p) ∧
  ∀ r, drain_body_buffered p = Some (Ok r) ↔ drain_ref p = Some (Ok r).
Proof.
  split; [apply drain_loop_total; lia|]. intros r. apply drain_loop_ref.
Qed.

(** A body that the worker wrote as any number of chunks followed by [End]
    is drained into the concatenation of the chunks, with the worker's [ok]
    flag, and nothing after the [End] frame is consumed. *)
Theorem drain_body_buffered_reassembles (cs : list bytes) (ok : bool) (k : bytes) (p : pipe) :
  chunks_wf cs → stream p = body_bytes cs ok ++ k →
  ∃ p', drain_body_buffered p = Some (Ok ((mjoin cs, ok), p')) ∧
        stream p' = k ∧ fin p' = fin p.
Proof.
  intros Hcs Hp.
  destruct (drain_ref_body cs ok k [] (S (length (stream p))) p Hcs Hp) as (p' & E & H);
    [lia|]. exists p'. split; [|done]. by apply drain_loop_ref.
Qed.

Lemma drain_body_buffered_reassembles_witness :
  let p := Pipe [body_bytes [lit "hello "; []; lit "world"] true ++ [xaa]] None in
  ∃ p', drain_body_buffered p = Some (Ok ((lit "hello world", true), p')) ∧
        stream p' = [xaa] ∧ fin p' = fin p.
Proof.
  intros p. apply (drain_body_buffered_reassembles [lit "hello "; []; lit "world"] true [xaa] p).
  - repeat constructor.
  - vm_compute. reflexivity.
Defined.

(** The forwarder hands the client its chunks in order until the client
    goes away, and in either case reads the response to its [End] frame and
    reports the worker's flag, so that the pipe is left exactly where the next
    response starts. *)
Theorem streaming_forwarder_drains (alive : nat → bool) (cs : list bytes) (ok : bool)
    (k : bytes) (p : pipe) :
  chunks_wf cs → stream p = body_bytes cs ok ++ k →
  ∃ p', start_streaming_forwarder alive p =
          Some (Ok <$> delivered alive 0 cs, Ok (ok, p')) ∧
        stream p' = k ∧ fin p' = fin p.
Proof. intros Hcs Hp. apply (drive_loop_body alive cs ok k []); [done..|lia]. Qed.

Lemma streaming_forwarder_drains_witness :
  let p := Pipe [body_bytes [lit "a"; lit "b"; lit "c"] false ++ lit "next"] None in
  ∃ p', start_streaming_forwarder (λ i, Nat.ltb i 1) p =
          Some ([Ok (lit "a")], Ok (false, p')) ∧ stream p' = lit "next" ∧ fin p' = fin p.
Proof.
  intros p.
  apply (streaming_forwarder_drains (λ i, Nat.ltb i 1) [lit "a"; lit "b"; lit "c"] false
           (lit "next") p).
  - repeat constructor.
  - vm_compute. reflexivity.
Defined.

(** The two ways the HTTP layer starts a streamed response agree: what
    [consume_streaming] returns is what [read_response_head] followed by
    [start_streaming_forwarder] returns, and it fails exactly when reading the
    head fails. *)
Theorem consume_streaming_is_head_then_forward (alive : nat → bool) (p : pipe) :
  match read_response_head p with
  | Ok ((st, hs), p') =>
      ∃ items out, start_streaming_forwarder alive p' = Some (items, out) ∧
        consume_streaming alive p =
          Some (Ok {| sh_status := st; sh_headers := hs; sh_body := items; sh_done := out |})
  | Err e => ∃ e', consume_streaming alive p = Some (Err e') ∧ err_kind e' = err_kind e
  end.
Proof.
  unfold read_response_head, consume_streaming, mbind, Rd_bind.
  destruct (read_frame_async p) as [[[[st hs| | |]|] q]|e]; simpl; eauto.
  destruct (drive_loop_total alive [] (S (length (stream q))) q ltac:(lia)) as [[items out] E].
  unfold start_streaming_forwarder. rewrite E. simpl. by exists items, out.
Qed.

(** A header value of 65536 bytes is not carried: its length prefix wraps
    to 0, the decoder returns the header with an empty value, and the value's
    bytes stay in the pipe, to be taken for the next frames. *)
Theorem header_length_wraps (name val k : bytes) (st : Z) (p : pipe) :
  0 ≤ st < 2 ^ 16 → zlen name < 2 ^ 16 → utf8_valid name → zlen val = 2 ^ 16 →
  stream p = encode_headers [] st [(name, val)] ++ k →
  ∃ p', read_frame p = Ok (Some (Headers st [(name, [])]), p') ∧ stream p' = val ++ k.
Proof.
  intros Hst Hn Hu Hv Hp.
  destruct (reads_frame_gen Std (Headers st [(name, [])])) with (p := p) (k := val ++ k)
    as (p' & E & Hs & _).
  - split; [done|]. split; [done|]. by repeat constructor.
  - rewrite Hp. unfold encode_frame, encode_headers, encode_header. simpl.
    rewrite Hv. replace (le_bytes 2 (2 ^ 16)) with (le_bytes 2 (zlen (@nil byte)))
      by (vm_compute; reflexivity).
    by rewrite <-!(assoc_L app).
  - by exists p'.
Qed.

Lemma header_length_wraps_witness :
  let val := replicate (Z.to_nat (2 ^ 16)) x61 in
  let p := Pipe [encode_headers [] 200 [(lit "X", val)]; [x12; x01]] None in
  ∃ p', read_frame p = Ok (Some (Headers 200 [(lit "X", [])]), p') ∧
        stream p' = val ++ [x12; x01].
Proof.
  intros val p. apply (header_length_wraps (lit "X") val [x12; x01] 200 p).
  - done.
  - vm_compute; reflexivity.
  - vm_compute; exact I.
  - unfold zlen, val. rewrite length_replicate. apply Z2Nat.id. lia.
  - exact eq_refl.
Defined.
