(* ===== verification/Persistent.v ===== *)
(** * The persistent worker protocol (turbine-worker/src/persistent.rs)

    Requests go to the worker as one length-prefixed payload, responses come
    back as frames (file Stream). This file has both codecs, the ready signal
    and the write loops over [write(2)] and [writev(2)]. *)

From S2P Require Import Prelude Utf8 RustStr Reader Codec Stream.

(** ** Requests *)

Record PersistentRequest := {
  method : bytes;
  uri : bytes;
  body : bytes;
  client_ip : bytes;
  port : Z;
  is_https : bool;
  headers : header_list;
  script_filename : bytes;
  query_string : bytes;
  document_root : bytes;
  content_type : bytes;
  cookie : bytes;
  path_info : bytes;
  script_name : bytes }.

Definition write_u8 (buf : bytes) (v : byte) : bytes := buf ++ [v].
Definition write_u32_le (buf : bytes) (v : Z) : bytes := buf ++ le_bytes 4 v.
Definition write_bytes (buf data : bytes) : bytes := write_u32_le buf (zlen data) ++ data.
Definition write_str (buf s : bytes) : bytes := write_u32_le buf (zlen s) ++ s ++ [x00].

(** [buf[at..at + 4].copy_from_slice(&v.to_le_bytes())] *)
Definition patch_u32 (buf : bytes) (pos : nat) (v : Z) : bytes :=
  take pos buf ++ le_bytes 4 v ++ drop (pos + 4) buf.

Definition encode_request_into (_buf : bytes) (req : PersistentRequest) : bytes :=
  let buf := [] in
  let buf := write_u8 buf x01 in
  let payload_start := length buf in
  let buf := write_u32_le buf 0 in
  let buf := write_str buf (method req) in
  let buf := write_str buf (uri req) in
  let buf := write_bytes buf (body req) in
  let buf := write_str buf (client_ip req) in
  let buf := write_u32_le buf (port req) in
  let buf := write_u8 buf (if is_https req then x01 else x00) in
  let buf := write_u32_le buf (zlen (headers req)) in
  let buf := foldl (λ buf h, write_str (write_str buf h.1) h.2) buf (headers req) in
  let buf := write_str buf (script_filename req) in
  let buf := write_str buf (query_string req) in
  let buf := write_str buf (document_root req) in
  let buf := write_str buf (content_type req) in
  let buf := write_str buf (cookie req) in
  let buf := write_str buf (path_info req) in
  let buf := write_str buf (script_name req) in
  let payload_len := zlen buf - Z.of_nat payload_start - 4 in
  patch_u32 buf payload_start payload_len.

Definition encode_request (req : PersistentRequest) : bytes := encode_request_into [] req.

(** [DecodedRequest::decode]. The [port] comes as a [u32] and is cut to [u16]. *)
Definition decode_request : Dec PersistentRequest :=
  method ← take_cstr 4;
  uri ← take_cstr 4;
  len ← take_le 4;
  body ← take_bytes (Z.to_nat len);
  client_ip ← take_cstr 4;
  port ← take_le 4;
  https ← take_le 1;
  hdr_count ← take_le 4;
  headers ← take_cstr_pairs 4 (Z.to_nat hdr_count);
  script_filename ← take_cstr 4;
  query_string ← take_cstr 4;
  document_root ← take_cstr 4;
  content_type ← take_cstr 4;
  cookie ← take_cstr 4;
  path_info ← take_cstr 4;
  script_name ← take_cstr 4;
  mret {| method := method; uri := uri; body := body; client_ip := client_ip;
          port := wrap_u 16 port; is_https := negb (https =? 0); headers := headers;
          script_filename := script_filename; query_string := query_string;
          document_root := document_root; content_type := content_type;
          cookie := cookie; path_info := path_info; script_name := script_name |}.

Definition DecodedRequest_decode (data : bytes) : option PersistentRequest :=
  fst <$> decode_request data.

(** ** Responses *)

Record PersistentResponse := {
  status : Z;
  resp_headers : header_list;
  resp_body : bytes }.

(** The status the master reports when PHP failed without setting one. *)
Definition override_status (ok : bool) (st : Z) : Z :=
  if negb ok && (200 <=? st) && (st <? 400) then 500 else st.

(** The state of the reassembly: [None] until the [Headers] frame. *)
Fixpoint decode_response_loop (fl : flavour) (who : bytes)
    (head : option (Z * header_list)) (body : bytes) (fuel : nat)
    : fuelled PersistentResponse := λ p,
  let invalid msg := Some (Err (IoError InvalidData (who ++ msg))) in
  match fuel with
  | O => None
  | S fuel' =>
      match read_frame_gen fl p with
      | Err e => Some (Err e)
      | Ok (None, _) =>
          Some (Err (IoError UnexpectedEof (who ++ lit ": pipe closed before End frame")))
      | Ok (Some (Headers st hs), p) =>
          match head with
          | Some _ => invalid (lit ": duplicate Headers frame")
          | None =>
              if 1024 <? zlen hs then
                invalid (lit ": invalid header_count=" ++ dec_string (zlen hs)
                         ++ [x20; xe2; x80; x94; x20] ++ lit "pipe desynced")
              else decode_response_loop fl who (Some (st, hs)) body fuel' p
          end
      | Ok (Some (BodyChunk chunk), p) =>
          match head with
          | None => invalid (lit ": BodyChunk before Headers")
          | Some _ => decode_response_loop fl who head (body ++ chunk) fuel' p
          end
      | Ok (Some (End ok), p) =>
          match head with
          | None => invalid (lit ": End before Headers")
          | Some (st, hs) =>
              Some (Ok ({| status := override_status ok st; resp_headers := hs;
                           resp_body := body |}, p))
          end
      | Ok (Some (Error msg), p) =>
          Some (Ok ({| status := 500; resp_headers := []; resp_body := msg |}, p))
      end
  end.

(** The blocking decoder wraps the descriptor in a [BufReader] of its own and
    drops it, with whatever it read ahead, when it returns. *)
Definition decode_response (p : pipe) : option (result PersistentResponse io_error) :=
  match with_fuel (decode_response_loop Std (lit "decode_response") None []) p with
  | Some (Ok (r, _)) => Some (Ok r)
  | Some (Err e) => Some (Err e)
  | None => None
  end.

Definition decode_response_async : fuelled PersistentResponse :=
  with_fuel (decode_response_loop Tokio (lit "decode_response_async") None []).

(** The bytes [write_response] and [write_stream_end] put on the pipe. *)
Definition write_response (ok : bool) (http_status : Z) (hs : header_list) (body : bytes)
    : bytes :=
  let buf := encode_headers [] http_status hs in
  let buf := if bool_decide (body = []) then buf else encode_body_chunk buf body in
  encode_end buf ok.

Definition write_stream_end (ok : bool) : bytes := encode_end [] ok.

(** ** The ready signal *)

Definition write_ready_signal : bytes := write_u32_le (write_u8 [] xaa) 0.

(** [format!("0x{:X}", v)] for a byte value. *)
Definition hex_nibble_upper (v : Z) : byte := as_u8 (if v <? 10 then 48 + v else 55 + v).
Definition hex_X (v : Z) : bytes :=
  lit "0x" ++ (if v <? 16 then [] else [hex_nibble_upper (v / 16)])
    ++ [hex_nibble_upper (v `mod` 16)].

Definition read_ready_signal : Rd bool :=
  marker ← read_le Std 1;
  if marker =? 0xAA then _ ← read_le Std 4; mret true
  else if marker =? 0x02 then
    _ ← read_le Std 2; _ ← read_le Std 4; _ ← read_prefixed Std 4; mret false
  else rd_fail InvalidData (lit "unexpected ready byte: " ++ hex_X marker).

(** ** Write loops *)

(** What the kernel answers to one [write] or [writev]: it accepts up to [n] of
    the bytes offered, is interrupted, or fails. *)
Inductive wret := Wrote (n : nat) | Eintr | Errno (code : Z).

Definition errno_error (code : Z) : io_error := IoError (OsError code) [].

(** Both loops return the bytes the kernel accepted and how the call ended;
    [None] while it is still waiting for the kernel's next answer. *)
Fixpoint write_all_fd (rets : list wret) (data : bytes)
    : bytes * option (result unit io_error) :=
  match data with
  | [] => ([], Some (Ok tt))
  | _ =>
      match rets with
      | [] => ([], None)
      | Eintr :: rets' => write_all_fd rets' data
      | Errno c :: _ => ([], Some (Err (errno_error c)))
      | Wrote n :: rets' =>
          let '(w, r) := write_all_fd rets' (drop n data) in (take n data ++ w, r)
      end
  end.

Definition IOV_MAX : nat := 1024.

Fixpoint skip_empty (slices : list bytes) : list bytes :=
  match slices with
  | [] :: slices' => skip_empty slices'
  | _ => slices
  end.

(** Drops the first [written] bytes off a list of slices. *)
Fixpoint advance (written : nat) (slices : list bytes) : list bytes :=
  match written, slices with
  | O, _ => slices
  | _, [] => []
  | _, s :: slices' =>
      if (length s <=? written)%nat then advance (written - length s) slices'
      else drop written s :: slices'
  end.

Fixpoint writev_all_fd (rets : list wret) (slices : list bytes)
    : bytes * option (result unit io_error) :=
  match skip_empty slices with
  | [] => ([], Some (Ok tt))
  | current =>
      match rets with
      | [] => ([], None)
      | Eintr :: rets' => writev_all_fd rets' current
      | Errno c :: _ => ([], Some (Err (errno_error c)))
      | Wrote n :: rets' =>
          let offered := mjoin (take IOV_MAX current) in
          let accepted := Nat.min n (length offered) in
          let '(w, r) := writev_all_fd rets' (advance accepted current) in
          (take accepted offered ++ w, r)
      end
  end.

(** The slices of the buffered response path in the request loop. *)
Definition response_slices (ok : bool) (st : Z) (hs : header_list) (body : bytes) : list bytes :=
  let hdr_buf := encode_headers [] st hs in
  let end_buf := [FRAME_END; if ok then x01 else x00] in
  if bool_decide (body = []) then [hdr_buf; end_buf]
  else [hdr_buf; encode_body_chunk_header (zlen body); body; end_buf].

(** ** Scripts *)

(** [safe_cstring]: NUL bytes are stripped. *)
Definition safe_cstring (s : bytes) : bytes :=
  if bool_decide (x00 ∉ s) then s else filter (λ x, x ≠ x00) s.

Definition resolve_worker_script (app_root script : bytes) : bytes :=
  if starts_with [x2f] script then script else path_join app_root script.

(** ** The request payload *)

Definition request_payload (req : PersistentRequest) : bytes :=
  put_cstr 4 (method req) ++ put_cstr 4 (uri req) ++
  le_bytes 4 (zlen (body req)) ++ body req ++ put_cstr 4 (client_ip req) ++
  le_bytes 4 (port req) ++ [if is_https req then x01 else x00] ++
  le_bytes 4 (zlen (headers req)) ++ put_cstr_pairs 4 (headers req) ++
  put_cstr 4 (script_filename req) ++ put_cstr 4 (query_string req) ++
  put_cstr 4 (document_root req) ++ put_cstr 4 (content_type req) ++
  put_cstr 4 (cookie req) ++ put_cstr 4 (path_info req) ++ put_cstr 4 (script_name req).

(** Requests whose lengths fit the prefixes; the strings may hold anything. *)
Definition request_fits (req : PersistentRequest) : Prop :=
  Forall (λ s, zlen s < 2 ^ 32)
    [method req; uri req; body req; client_ip req; script_filename req; query_string req;
     document_root req; content_type req; cookie req; path_info req; script_name req] ∧
  zlen (headers req) < 2 ^ 32 ∧ pairs_fit 4 (headers req) ∧ 0 ≤ port req < 2 ^ 16.

Definition request_nul_free (req : PersistentRequest) : bool :=
  forallb nul_free [method req; uri req; client_ip req] &&
  pairs_nul_free (headers req) &&
  forallb nul_free [script_filename req; query_string req; document_root req;
                    content_type req; cookie req; path_info req; script_name req].

Lemma write_str_app buf s : write_str buf s = buf ++ put_cstr 4 s.
Proof. unfold write_str, write_u32_le, put_cstr. by rewrite <-!(assoc_L app). Qed.

Lemma foldl_write_pairs hs buf :
  foldl (λ buf h, write_str (write_str buf h.1) h.2) buf hs = buf ++ put_cstr_pairs 4 hs.
Proof.
  revert buf. induction hs as [|h hs IH]; intros buf; simpl; [by rewrite app_nil_r|].
  rewrite IH, !write_str_app. unfold put_cstr_pairs. simpl. by rewrite <-!(assoc_L app).
Qed.

Lemma encode_request_payload req :
  encode_request req =
    [x01] ++ le_bytes 4 (zlen (request_payload req)) ++ request_payload req.
Proof.
  unfold encode_request, encode_request_into.
  rewrite foldl_write_pairs, !write_str_app.
  set (hdr := le_bytes 4 0).
  match goal with |- patch_u32 ?buf _ _ = _ =>
    assert (buf = [x01] ++ hdr ++ request_payload req) as -> end.
  { unfold write_bytes, write_u32_le, write_u8, request_payload.
    by rewrite <-!(assoc_L app). }
  unfold patch_u32. assert (length hdr = 4%nat) as Hh by apply le_bytes_length.
  rewrite !zlen_app. change (zlen [x01]) with 1.
  replace (zlen hdr) with 4 by (unfold zlen; by rewrite Hh).
  change (length (write_u8 [] x01)) with 1%nat.
  replace (1 + (4 + zlen (request_payload req)) - Z.of_nat 1 - 4)
    with (zlen (request_payload req)) by lia.
  cbn [Nat.add take app drop]. rewrite take_0. simpl.
  rewrite drop_app_length'; done.
Qed.

(** One field of the payload at a time. *)
Ltac decode_field :=
  match goal with
  | |- context [take_cstr _ (put_cstr _ ?s ++ _)] =>
      rewrite (take_cstr_put _ s) by done; destruct (nul_free s); [|by rewrite ?andb_false_r]
  | |- context [take_le _ (le_bytes _ _ ++ _)] =>
      rewrite decodes_le
        by (first [assumption | split; [by eauto with turbine|done] | by case_match])
  | |- context [take_bytes _ (?d ++ _)] =>
      rewrite (decodes_bytes d) by (unfold zlen; lia)
  | |- context [take_cstr_pairs _ _ (put_cstr_pairs _ ?hs ++ _)] =>
      replace (Z.to_nat (zlen hs)) with (length hs) by (unfold zlen; lia);
      rewrite (take_cstr_pairs_put _ hs) by done;
      destruct (pairs_nul_free hs); [|by rewrite ?andb_false_r]
  end.

Lemma decode_request_payload req : request_fits req →
  DecodedRequest_decode (request_payload req) =
    if request_nul_free req then Some req else None.
Proof.
  intros (Hs & Hn & Hp & Hport). rewrite !Forall_cons in Hs. destruct_and! Hs.
  assert (0 ≤ port req < 256 ^ Z.of_nat 4).
  { split; [lia|]. trans (2 ^ 16); [apply Hport|done]. }
  rewrite <-(app_nil_r (request_payload req)).
  unfold DecodedRequest_decode, decode_request, request_payload, request_nul_free.
  rewrite <-!(assoc_L app). unfold mbind, Dec_bind. cbn [forallb].
  replace [if is_https req then x01 else x00] with (le_bytes 1 (if is_https req then 1 else 0))
    by (destruct (is_https req); vm_compute; reflexivity).
  repeat decode_field. simpl.
  destruct req as [? ? ? ? port0 https ? ? ? ? ? ? ? ?]; simpl in *.
  unfold wrap_u. rewrite Z.mod_small by done. by destruct https.
Qed.

(** ** Reassembly of a response *)

Lemma decode_loop_body fl who st hs cs ok k body fuel p : chunks_wf cs →
  stream p = body_bytes cs ok ++ k → (length (stream p) < fuel)%nat →
  ∃ p', decode_response_loop fl who (Some (st, hs)) body fuel p =
          Some (Ok ({| status := override_status ok st; resp_headers := hs;
                       resp_body := body ++ mjoin cs |}, p')) ∧
        stream p' = k ∧ fin p' = fin p.
Proof.
  intros Hcs. revert body fuel p.
  induction Hcs as [|c cs Hc Hcs IH]; intros body0 fuel p Hp Hf;
    (destruct fuel as [|fuel]; [lia|]); cbn [decode_response_loop].
  - destruct (read_frame_at fl (End ok) p k) as (p' & -> & Hs & Hfin & _); [done..|].
    exists p'. simpl. by rewrite app_nil_r.
  - unfold body_bytes in Hp. simpl in Hp. rewrite <-!(assoc_L app) in Hp.
    destruct (read_frame_at fl (BodyChunk c) p _ Hc Hp) as (p' & -> & Hs & Hfin & Hl).
    destruct (IH (body0 ++ c) fuel p') as (p'' & E' & Hs' & Hfin').
    { rewrite Hs. unfold body_bytes. by rewrite <-!(assoc_L app). }
    { rewrite Hs. lia. }
    exists p''. rewrite E', <-(assoc_L app). split_and!; [done..|congruence].
Qed.

(** A whole response: the [Headers] frame, the chunks and the [End] frame. *)
Definition response_bytes (st : Z) (hs : header_list) (cs : list bytes) (ok : bool) : bytes :=
  encode_headers [] st hs ++ body_bytes cs ok.

Lemma decode_loop_response fl who st hs cs ok k p :
  frame_wf (Headers st hs) → zlen hs ≤ 1024 → chunks_wf cs →
  stream p = response_bytes st hs cs ok ++ k →
  ∃ p', with_fuel (decode_response_loop fl who None []) p =
          Some (Ok ({| status := override_status ok st; resp_headers := hs;
                       resp_body := mjoin cs |}, p')) ∧
        stream p' = k ∧ fin p' = fin p.
Proof.
  intros Hh Hn Hcs Hp. unfold with_fuel. cbn [decode_response_loop].
  unfold response_bytes in Hp. rewrite <-(assoc_L app) in Hp.
  destruct (read_frame_at fl (Headers st hs) p _ Hh Hp) as (p' & -> & Hs & Hfin & Hl).
  destruct (Z.ltb_spec 1024 (zlen hs)); [lia|].
  destruct (decode_loop_body fl who st hs cs ok k [] (length (stream p)) p' Hcs Hs)
    as (p'' & E & Hk & Hfin'); [by rewrite Hs|].
  exists p''. split_and!; [done..|congruence].
Qed.

Lemma decode_loop_total fl who head body fuel p : (length (stream p) < fuel)%nat →
  is_Some (decode_response_loop fl who head body fuel p).
Proof.
  revert head body p. induction fuel as [|fuel IH]; intros head body0 p Hf; [lia|].
  cbn [decode_response_loop].
  destruct (read_frame_gen fl p) as [[[f|] q]|e] eqn:E; [|eauto..].
  apply read_frame_shrinks in E.
  destruct f, head as [[st' hs']|]; eauto; repeat case_match; eauto; apply IH; lia.
Qed.

#[global] Instance read_header_list_prefixed fl n : Prefixed (read_header_list fl n).
Proof. induction n; unfold read_header_list, read_prefixed; apply _. Qed.

#[global] Instance read_frame_body_prefixed fl x : Prefixed (read_frame_body fl x).
Proof. unfold read_frame_body, read_prefixed. repeat case_decide; apply _. Qed.

(** A frame that was read is read again when more bytes follow. *)
Lemma read_frame_more fl p f p' q k : read_frame_gen fl p = Ok (Some f, p') →
  stream q = stream p ++ k →
  ∃ q', read_frame_gen fl q = Ok (Some f, q') ∧ stream q' = stream p' ++ k.
Proof.
  unfold read_frame_gen. unfold mbind at 1, Rd_bind at 1. intros H Hq.
  destruct (read_u8 p) as [[[x|] p1]|e] eqn:E; [|done|done].
  pose proof (read_u8_spec p) as S. rewrite E in S. destruct S as [S _].
  assert (Prefixed (f ← read_frame_body fl x; mret (Some f))) as P by apply _.
  destruct (P _ _ _ H) as (d & E1 & R).
  destruct (reads_bind read_u8 (λ o, match o with None => mret None | Some discr =>
      f ← read_frame_body fl discr; mret (Some f) end) [x] d (Some x) (Some f)
      (reads_u8 x) R q (stream p' ++ k)) as (q' & E2 & E3 & _).
  { rewrite Hq, S, E1. simpl. by rewrite <-(assoc_L app). }
  by exists q'.
Qed.

Lemma decode_loop_more fl who head body fuel p r p' q k fuel' :
  decode_response_loop fl who head body fuel p = Some (Ok (r, p')) →
  stream q = stream p ++ k → (fuel ≤ fuel')%nat →
  ∃ q', decode_response_loop fl who head body fuel' q = Some (Ok (r, q')) ∧
        stream q' = stream p' ++ k.
Proof.
  revert head body p q fuel'. induction fuel as [|fuel IH]; [done|].
  intros head body0 p q [|fuel'] H Hq Hf; [lia|]. cbn [decode_response_loop] in *.
  destruct (read_frame_gen fl p) as [[[f|] p1]|e] eqn:E; [|done|done].
  destruct (read_frame_more _ _ _ _ q k E Hq) as (q1 & -> & Hq1).
  destruct f, head as [[st' hs']|]; simplify_eq/=; eauto using le_S_n.
  case_match; [done|]. eauto using le_S_n.
Qed.

(** A response cut short is an error, never a shorter response. *)
Lemma decode_loop_truncated fl who st hs cs ok p k :
  frame_wf (Headers st hs) → zlen hs ≤ 1024 → chunks_wf cs →
  response_bytes st hs cs ok = stream p ++ k → k ≠ [] →
  ∃ e, with_fuel (decode_response_loop fl who None []) p = Some (Err e).
Proof.
  intros Hh Hn Hcs Hp Hk.
  destruct (decode_loop_total fl who None [] (S (length (stream p))) p) as [[[r p']|e] E];
    [lia| |by exists e]. exfalso.
  set (q := Pipe [stream p ++ k] None).
  assert (stream q = stream p ++ k) as Hq by (unfold q, stream; simpl; by rewrite app_nil_r).
  destruct (decode_loop_more _ _ _ _ _ _ _ _ q k (S (length (stream q))) E Hq) as (q' & E1 & Hq').
  { rewrite Hq, length_app. lia. }
  destruct (decode_loop_response fl who st hs cs ok [] q) as (q'' & E2 & Hq'' & _);
    [done..|rewrite Hq, <-Hp; by rewrite app_nil_r|].
  unfold with_fuel in E2. rewrite E1 in E2. simplify_eq/=.
  rewrite Hq'' in Hq'. symmetry in Hq'. apply app_nil in Hq'. naive_solver.
Qed.

Lemma write_response_bytes ok st hs body :
  write_response ok st hs body =
    response_bytes st hs (if bool_decide (body = []) then [] else [body]) ok.
Proof.
  unfold write_response, response_bytes, encode_end, body_bytes.
  case_bool_decide; simpl; [done|].
  unfold encode_body_chunk. simpl. by rewrite <-!(assoc_L app), ?app_nil_r.
Qed.

(** ** The write loops *)

Lemma skip_empty_join (slices : list bytes) : mjoin (skip_empty slices) = mjoin slices.
Proof. induction slices as [|[|x s] slices IH]; done. Qed.

Lemma advance_join n (slices : list bytes) : mjoin (advance n slices) = drop n (mjoin slices).
Proof.
  revert n. induction slices as [|s slices IH]; intros [|n]; try done; cbn [advance].
  destruct (Nat.leb_spec (length s) (S n)).
  - rewrite IH. simpl mjoin. rewrite drop_app, (drop_ge s) by lia. done.
  - simpl mjoin. rewrite drop_app. replace (S n - length s)%nat with 0%nat by lia. done.
Qed.

Lemma take_join_le n (slices : list bytes) :
  ∃ d, mjoin slices = mjoin (take n slices) ++ d.
Proof. exists (mjoin (drop n slices)). by rewrite <-join_app, take_drop. Qed.

(** The bytes left after [accepted] bytes of the first [IOV_MAX] slices. *)
Lemma writev_step accepted (slices : list bytes) : (accepted ≤ length (mjoin (take IOV_MAX slices)))%nat →
  mjoin slices = take accepted (mjoin (take IOV_MAX slices)) ++ mjoin (advance accepted slices).
Proof.
  intros H. rewrite advance_join. destruct (take_join_le IOV_MAX slices) as [d ->].
  rewrite drop_app_le by done. by rewrite (assoc_L app), take_drop.
Qed.

(** What [writev_all_fd] leaves on the pipe, and what its result means. *)
Lemma writev_all_fd_spec rets slices w r : writev_all_fd rets slices = (w, r) →
  ∃ d, mjoin slices = w ++ d ∧ (r = Some (Ok tt) → d = []).
Proof.
  revert slices w r. induction rets as [|a rets IH]; intros slices w r;
    rewrite <-(skip_empty_join slices); cbn [writev_all_fd];
    destruct (skip_empty slices) as [|s ss] eqn:Es.
  - intros [= <- <-]. by exists [].
  - intros [= <- <-]. by eexists.
  - intros [= <- <-]. by exists [].
  - destruct a as [n| |c].
    + destruct (writev_all_fd rets _) as [w' r'] eqn:E. intros [= <- <-].
      apply IH in E as (d & E & Hd). exists d. split; [|done].
      rewrite <-(assoc_L app), <-E. apply writev_step. lia.
    + apply IH.
    + intros [= <- <-]. by eexists.
Qed.

(** Answers without a failure; a write takes at least one byte. *)
Definition no_error (a : wret) : Prop :=
  match a with Wrote n => (0 < n)%nat | Eintr => True | Errno _ => False end.

Definition is_write (a : wret) : bool :=
  match a with Wrote _ => true | _ => false end.

Lemma skip_empty_nonempty slices s ss : skip_empty slices = s :: ss → s ≠ [].
Proof. induction slices as [|[|y t] slices IH]; simpl; naive_solver. Qed.

Lemma writev_all_fd_done rets slices : Forall no_error rets →
  (length (mjoin slices) ≤ length (filter is_write rets))%nat →
  (writev_all_fd rets slices).2 = Some (Ok tt).
Proof.
  intros Hr. revert slices. induction Hr as [|a rets Ha Hr IH]; intros slices Hl;
    rewrite <-(skip_empty_join slices) in Hl; cbn [writev_all_fd];
    destruct (skip_empty slices) as [|s ss] eqn:Es; try done;
    pose proof (skip_empty_nonempty _ _ _ Es) as Hs.
  - destruct s; [done|]. simpl in Hl. lia.
  - destruct a as [n| |c]; [| |done].
    + destruct (writev_all_fd rets _) as [w r] eqn:E.
      change r with (w, r).2. rewrite <-E. apply IH. rewrite advance_join, length_drop.
      rewrite filter_cons_True in Hl by done. cbn [length] in Hl.
      assert (0 < length (mjoin (take IOV_MAX (s :: ss))))%nat.
      { destruct s; [done|]. unfold IOV_MAX. rewrite firstn_cons. simpl. lia. }
      simpl in Ha. lia.
    + apply IH. by rewrite filter_cons_False in Hl by naive_solver.
Qed.

(** The slices add up to the bytes [write_response] would write. *)
Lemma response_slices_join ok st hs body :
  mjoin (response_slices ok st hs body) = write_response ok st hs body.
Proof.
  unfold response_slices, write_response, encode_end, encode_body_chunk,
    encode_body_chunk_header.
  case_bool_decide as E; subst; simpl; [done|]. by rewrite <-!(assoc_L app).
Qed.

(** ** Properties *)

(** A request the master encodes starts with the command byte and the
    length of its payload; the worker decodes the payload back to the same
    request, field by field, exactly when no string of it holds a NUL byte, and
    otherwise refuses it. *)
Theorem persistent_request_roundtrip (req : PersistentRequest) :
  request_fits req →
  ∃ payload, encode_request req = [x01] ++ le_bytes 4 (zlen payload) ++ payload ∧
    DecodedRequest_decode payload = if request_nul_free req then Some req else None.
Proof.
  intros H. exists (request_payload req).
  split; [apply encode_request_payload|by apply decode_request_payload].
Qed.

Definition sample_request (target : bytes) : PersistentRequest :=
  {| method := lit "POST"; uri := target; body := [x00; xff]; client_ip := lit "10.0.0.1";
     port := 8443; is_https := true; headers := [(lit "host", lit "example.org")];
     script_filename := lit "/srv/public/index.php"; query_string := lit "a=1";
     document_root := lit "/srv/public"; content_type := []; cookie := lit "sid=7";
     path_info := []; script_name := lit "/index.php" |}.

Lemma persistent_request_roundtrip_witness :
  (∃ payload, encode_request (sample_request (lit "/a")) =
      [x01] ++ le_bytes 4 (zlen payload) ++ payload ∧
    DecodedRequest_decode payload = Some (sample_request (lit "/a"))) ∧
  (∃ payload, encode_request (sample_request [x2f; x00]) =
      [x01] ++ le_bytes 4 (zlen payload) ++ payload ∧
    DecodedRequest_decode payload = None).
Proof.
  split.
  - apply (persistent_request_roundtrip (sample_request (lit "/a"))).
    split_and!; [repeat constructor|done|repeat constructor|done|done].
  - apply (persistent_request_roundtrip (sample_request [x2f; x00])).
    split_and!; [repeat constructor|done|repeat constructor|done|done].
Defined.

(** C4: A response that was written as a [Headers] frame with at most 1024
    headers, any number of chunks and an [End] frame is reassembled by the
    blocking and by the async decoder into its status, its headers and the
    concatenation of its chunks. A status between 200 and 399 becomes 500
    exactly when the worker reported failure. *)
Theorem persistent_response_roundtrip (st : Z) (hs : header_list) (cs : list bytes) (ok : bool)
    (k : bytes) (p : pipe) :
  frame_wf (Headers st hs) → zlen hs ≤ 1024 → chunks_wf cs →
  stream p = response_bytes st hs cs ok ++ k →
  let resp := {| status := if negb ok && (200 <=? st) && (st <? 400) then 500 else st;
                 resp_headers := hs; resp_body := mjoin cs |} in
  decode_response p = Some (Ok resp) ∧
  (∃ p', decode_response_async p = Some (Ok (resp, p')) ∧ stream p' = k ∧ fin p' = fin p).
Proof.
  intros Hh Hn Hc Hp resp. split; [|by apply decode_loop_response].
  unfold decode_response.
  by destruct (decode_loop_response Std (lit "decode_response") st hs cs ok k p)
    as (p' & -> & _).
Qed.

Lemma persistent_response_roundtrip_witness :
  let p := Pipe [response_bytes 200 [(lit "X-A", lit "1")] [lit "ab"; []; lit "c"] false] None in
  let resp := {| status := 500; resp_headers := [(lit "X-A", lit "1")];
                 resp_body := lit "abc" |} in
  decode_response p = Some (Ok resp) ∧
  (∃ p', decode_response_async p = Some (Ok (resp, p')) ∧ stream p' = [] ∧ fin p' = fin p).
Proof.
  intros p resp.
  apply (persistent_response_roundtrip 200 [(lit "X-A", lit "1")] [lit "ab"; []; lit "c"]
           false [] p).
  - split_and!; [done..|]. repeat constructor; vm_compute; done.
  - done.
  - repeat constructor.
  - vm_compute. reflexivity.
Defined.

(** A response that ends before its [End] frame is complete (the worker
    died while writing) is always reported as an error: neither decoder hangs
    on it, and neither takes the part that arrived for a whole response. *)
Theorem truncated_response_is_error (st : Z) (hs : header_list) (cs : list bytes) (ok : bool)
    (k : bytes) (p : pipe) :
  frame_wf (Headers st hs) → zlen hs ≤ 1024 → chunks_wf cs →
  response_bytes st hs cs ok = stream p ++ k → k ≠ [] →
  (∃ e, decode_response p = Some (Err e)) ∧ (∃ e, decode_response_async p = Some (Err e)).
Proof.
  intros Hh Hn Hc Hp Hk. split; [|by eapply decode_loop_truncated].
  unfold decode_response.
  destruct (decode_loop_truncated Std (lit "decode_response") st hs cs ok p k) as [e ->];
    [done..|by exists e].
Qed.

Lemma truncated_response_is_error_witness :
  let p := Pipe [take 20 (response_bytes 200 [] [lit "hello"; lit "world"] true)] None in
  (∃ e, decode_response p = Some (Err e)) ∧ (∃ e, decode_response_async p = Some (Err e)).
Proof.
  intros p.
  apply (truncated_response_is_error 200 [] [lit "hello"; lit "world"] true
           (drop 20 (response_bytes 200 [] [lit "hello"; lit "world"] true)) p).
  - split_and!; [done..|]. constructor.
  - done.
  - repeat constructor.
  - vm_compute. reflexivity.
  - vm_compute. discriminate.
Defined.

(** The scatter-gather write of the buffered path puts the bytes of
    [write_response] on the pipe: however short the kernel's writes are and
    however often it interrupts, what was written is a prefix of them, the call
    succeeds only with all of them written, and it does succeed once the kernel
    has accepted as many non-empty writes as there are bytes. *)
Theorem writev_response_complete (ok : bool) (st : Z) (hs : header_list) (body : bytes)
    (rets : list wret) :
  let '(w, r) := writev_all_fd rets (response_slices ok st hs body) in
  w `prefix_of` write_response ok st hs body ∧
  (r = Some (Ok tt) → w = write_response ok st hs body) ∧
  (Forall no_error rets →
   (length (write_response ok st hs body) ≤ length (filter is_write rets))%nat →
   r = Some (Ok tt)).
Proof.
  rewrite <-response_slices_join. set (slices := response_slices ok st hs body).
  pose proof (writev_all_fd_done rets slices) as Hdone.
  destruct (writev_all_fd rets slices) as [w r] eqn:E.
  apply writev_all_fd_spec in E as (d & E & Hd). split_and!; [by exists d| |done].
  intros Hr. by rewrite E, (Hd Hr), app_nil_r.
Qed.

Lemma writev_response_complete_witness :
  writev_all_fd [Wrote 3; Eintr; Wrote 100; Eintr]
    (response_slices true 200 [] (lit "hello")) =
  (write_response true 200 [] (lit "hello"), Some (Ok tt)).
Proof.
  pose proof (writev_response_complete true 200 [] (lit "hello")
                [Wrote 3; Eintr; Wrote 100; Eintr]) as H.
  destruct (writev_all_fd _ _) as [w r] eqn:E. destruct H as (_ & H & _).
  vm_compute in E. injection E as <- <-. rewrite <-H by reflexivity. reflexivity.
Defined.
