(* ===== verification/OutputCapture.v ===== *)
(** * Capturing PHP's output (turbine-engine/src/output.rs)

    The SAPI callbacks that PHP calls while a script runs, over the
    thread-local state of the module. Output is either collected in a buffer
    or, once the script opted in, written to the response pipe as frames. *)

From S2P Require Import Prelude Utf8 RustStr Stream.

(** ** The response pipe *)

(** What reached the pipe, and how many bytes it still takes before the reader
    is gone ([None]: it never goes). The retry loops over short writes and
    interrupts are the subject of file Persistent. *)
Record wire := Wire { sent : bytes; room : option nat }.

Definition wire_write (data : bytes) (w : wire) : wire * bool :=
  match room w with
  | None => (Wire (sent w ++ data) None, true)
  | Some n =>
      if (length data <=? n)%nat then (Wire (sent w ++ data) (Some (n - length data)%nat), true)
      else (Wire (sent w ++ take n data) (Some 0%nat), false)
  end.

(** ** State *)

Record capture := {
  OUTPUT_BUFFER : bytes;
  HEADER_BUFFER : header_list;
  RESPONSE_CODE : Z;
  STREAM_FD : Z;
  STREAM_ENGAGED : bool;
  (* [SG(sapi_headers).http_response_code] and [engine::is_initialized()] *)
  sg_code : Z;
  initialized : bool;
  resp : wire }.

Definition set_output (b : bytes) (c : capture) : capture :=
  {| OUTPUT_BUFFER := b; HEADER_BUFFER := HEADER_BUFFER c; RESPONSE_CODE := RESPONSE_CODE c;
     STREAM_FD := STREAM_FD c; STREAM_ENGAGED := STREAM_ENGAGED c; sg_code := sg_code c;
     initialized := initialized c; resp := resp c |}.

Definition set_headers (h : header_list) (c : capture) : capture :=
  {| OUTPUT_BUFFER := OUTPUT_BUFFER c; HEADER_BUFFER := h; RESPONSE_CODE := RESPONSE_CODE c;
     STREAM_FD := STREAM_FD c; STREAM_ENGAGED := STREAM_ENGAGED c; sg_code := sg_code c;
     initialized := initialized c; resp := resp c |}.

Definition set_code (v : Z) (c : capture) : capture :=
  {| OUTPUT_BUFFER := OUTPUT_BUFFER c; HEADER_BUFFER := HEADER_BUFFER c; RESPONSE_CODE := v;
     STREAM_FD := STREAM_FD c; STREAM_ENGAGED := STREAM_ENGAGED c; sg_code := sg_code c;
     initialized := initialized c; resp := resp c |}.

Definition set_stream (fd : Z) (engaged : bool) (c : capture) : capture :=
  {| OUTPUT_BUFFER := OUTPUT_BUFFER c; HEADER_BUFFER := HEADER_BUFFER c;
     RESPONSE_CODE := RESPONSE_CODE c; STREAM_FD := fd; STREAM_ENGAGED := engaged;
     sg_code := sg_code c; initialized := initialized c; resp := resp c |}.

Definition set_sg (v : Z) (c : capture) : capture :=
  {| OUTPUT_BUFFER := OUTPUT_BUFFER c; HEADER_BUFFER := HEADER_BUFFER c;
     RESPONSE_CODE := RESPONSE_CODE c; STREAM_FD := STREAM_FD c;
     STREAM_ENGAGED := STREAM_ENGAGED c; sg_code := v; initialized := initialized c;
     resp := resp c |}.

Definition set_resp (w : wire) (c : capture) : capture :=
  {| OUTPUT_BUFFER := OUTPUT_BUFFER c; HEADER_BUFFER := HEADER_BUFFER c;
     RESPONSE_CODE := RESPONSE_CODE c; STREAM_FD := STREAM_FD c;
     STREAM_ENGAGED := STREAM_ENGAGED c; sg_code := sg_code c; initialized := initialized c;
     resp := w |}.

(** ** Frames *)

(** [write_all_fd]: a bad descriptor or a dead reader is ignored. *)
Definition write_all_fd (fd : Z) (data : bytes) (c : capture) : capture :=
  if fd <? 0 then c else set_resp (wire_write data (resp c)).1 c.

(** The status a [Headers] frame carries. *)
Definition headers_status (c : capture) : Z :=
  let v := RESPONSE_CODE c in
  if negb (v =? 200) || negb (initialized c) then v
  else if 0 <? sg_code c then wrap_u 16 (sg_code c) else v.

Definition emit_headers_frame (fd : Z) (c : capture) : capture :=
  let status := headers_status c in
  let headers := HEADER_BUFFER c in
  let c := set_headers [] c in
  let out := [x10] ++ le_bytes 2 status ++ le_bytes 4 (zlen headers) in
  let out := foldl (λ out h,
    out ++ le_bytes 2 (zlen h.1) ++ h.1 ++ le_bytes 2 (zlen h.2) ++ h.2) out headers in
  write_all_fd fd out c.

Definition emit_body_chunk_frame (fd : Z) (chunk : bytes) (c : capture) : capture :=
  let hdr := [x11] ++ le_bytes 4 (zlen chunk) in
  let c := write_all_fd fd hdr c in
  if bool_decide (chunk = []) then c else write_all_fd fd chunk c.

(** ** Opting in to streaming *)

Definition header_requests_streaming (h : bytes * bytes) : bool :=
  let '(k, v) := h in
  (eq_ignore_ascii_case k (lit "Content-Type") &&
   starts_with (lit "text/event-stream") (to_ascii_lowercase (trim_start v)))
  || (eq_ignore_ascii_case k (lit "X-Accel-Buffering") &&
      eq_ignore_ascii_case (trim v) (lit "no")).

Definition headers_request_streaming (c : capture) : bool :=
  existsb header_requests_streaming (HEADER_BUFFER c).

Definition engage_streaming (c : capture) : capture :=
  let fd := STREAM_FD c in
  if fd <? 0 then c
  else if STREAM_ENGAGED c then c
  else
    let c := set_stream fd true c in
    let c := emit_headers_frame fd c in
    let pending := OUTPUT_BUFFER c in
    let c := set_output [] c in
    if bool_decide (pending = []) then c else emit_body_chunk_frame fd pending c.

(** ** The callbacks *)

(** A null pointer and a length of 0 are both the empty slice here. *)
Definition turbine_ub_write (slice : bytes) (c : capture) : capture :=
  if bool_decide (slice = []) then c
  else
    let fd := STREAM_FD c in
    if STREAM_ENGAGED c then emit_body_chunk_frame fd slice c
    else if (0 <=? fd) && headers_request_streaming c then
      emit_body_chunk_frame fd slice (engage_streaming c)
    else set_output (OUTPUT_BUFFER c ++ slice) c.

Definition turbine_sapi_flush (c : capture) : capture :=
  if STREAM_FD c <? 0 then c else engage_streaming c.

Inductive header_op := REPLACE | ADD | DELETE | DELETE_ALL | SET_STATUS | OtherOp.

Section header_handler.

(** [str::to_lowercase]: the Unicode case mapping. *)
Context (to_lowercase : bytes → bytes).

(** What one [header()] call does to the header list and the captured code;
    [hdr] is [None] for a null pointer. *)
Definition header_call (op : header_op) (hdr : option bytes) (hs : header_list) (code : Z)
    : header_list * Z :=
  match op, hdr with
  | DELETE_ALL, _ => ([], code)
  | DELETE, Some s =>
      if (0 <? zlen s) && utf8_valid s then
        let name := to_lowercase (trim s) in
        (filter (λ h, to_lowercase h.1 ≠ name) hs, code)
      else (hs, code)
  | (REPLACE | ADD), Some s =>
      if (0 <? zlen s) && utf8_valid s then
        if starts_with (lit "HTTP/") s then
          match split_whitespace s !! 1%nat with
          | Some code_str =>
              match parse_uint 65535 code_str with
              | Some v => (hs, v)
              | None => (hs, code)
              end
          | None => (hs, code)
          end
        else
          match split_once x3a s with
          | Some (name, value) =>
              let name := trim name in
              let value := trim value in
              match op with
              | REPLACE =>
                  (filter (λ h, negb (eq_ignore_ascii_case h.1 name)) hs ++ [(name, value)],
                   code)
              | _ => (hs ++ [(name, value)], code)
              end
          | None => (hs, code)
          end
      else (hs, code)
  | _, _ => (hs, code)
  end.

Definition turbine_header_handler (op : header_op) (hdr : option bytes) (c : capture)
    : capture :=
  let '(hs, code) := header_call op hdr (HEADER_BUFFER c) (RESPONSE_CODE c) in
  set_code code (set_headers hs c).

(** What PHP does to the module while it runs: it calls the hooks, and sets its
    own response code. *)
Inductive sapi_event :=
| UbWrite (slice : bytes)
| Flush
| Header (op : header_op) (hdr : option bytes)
| HttpResponseCode (code : Z).

Definition sapi_step (c : capture) (e : sapi_event) : capture :=
  match e with
  | UbWrite s => turbine_ub_write s c
  | Flush => turbine_sapi_flush c
  | Header op hdr => turbine_header_handler op hdr c
  | HttpResponseCode v => set_sg v c
  end.

Definition sapi_run (c : capture) (evs : list sapi_event) : capture := foldl sapi_step c evs.

End header_handler.

(** ** The streaming API *)

Definition arm_streaming (fd : Z) (c : capture) : capture := set_stream fd false c.

Definition flush_headers_if_needed : bool := false.

Definition finish_streaming (c : capture) : (bool * Z) * capture :=
  ((STREAM_ENGAGED c, STREAM_FD c), set_stream (-1) false c).

Definition is_streaming (c : capture) : bool := STREAM_ENGAGED c.

Definition clear_output_buffer (c : capture) : capture :=
  set_code 200 (set_headers [] (set_output [] c)).

Definition take_output (c : capture) : bytes * capture := (OUTPUT_BUFFER c, set_output [] c).

Definition take_headers (c : capture) : header_list * capture :=
  (HEADER_BUFFER c, set_headers [] c).

Definition take_response_code (c : capture) : Z * capture :=
  let captured := RESPONSE_CODE c in
  let c := set_code 200 c in
  if negb (captured =? 200) then (captured, c)
  else if negb (initialized c) then (captured, c)
  else if (0 <? sg_code c) && negb (sg_code c =? 200) then (wrap_u 16 (sg_code c), c)
  else (captured, c).

Definition output_len (c : capture) : Z := zlen (OUTPUT_BUFFER c).

(** ** What a script asked for, without buffers or frames *)

Section view.
Context (to_lowercase : bytes → bytes).

(** All output so far, the headers, the captured code and PHP's own code. *)
Record view := View {
  v_out : bytes; v_headers : header_list; v_code : Z; v_sg : Z; v_init : bool }.

Definition view_step (v : view) (e : sapi_event) : view :=
  match e with
  | UbWrite s => View (v_out v ++ s) (v_headers v) (v_code v) (v_sg v) (v_init v)
  | Flush => v
  | Header op hdr =>
      let '(hs, code) := header_call to_lowercase op hdr (v_headers v) (v_code v) in
      View (v_out v) hs code (v_sg v) (v_init v)
  | HttpResponseCode c => View (v_out v) (v_headers v) (v_code v) c (v_init v)
  end.

Definition view_run (v : view) (evs : list sapi_event) : view := foldl view_step v evs.

(** The status of the response: a status line wins over PHP's own code. *)
Definition view_status (v : view) : Z :=
  if (v_code v =? 200) && v_init v && (0 <? v_sg v) then wrap_u 16 (v_sg v) else v_code v.

(** The event that makes the response a streamed one. *)
Definition engages (v : view) (e : sapi_event) : bool :=
  match e with
  | Flush => true
  | UbWrite s => negb (bool_decide (s = [])) && existsb header_requests_streaming (v_headers v)
  | _ => false
  end.

(** The view at the first such event. *)
Fixpoint engaged_at (v : view) (evs : list sapi_event) : option view :=
  match evs with
  | [] => None
  | e :: evs' => if engages v e then Some v else engaged_at (view_step v e) evs'
  end.

Lemma engaged_at_snoc v evs e : engaged_at v (evs ++ [e]) =
  match engaged_at v evs with
  | Some u => Some u
  | None => if engages (view_run v evs) e then Some (view_run v evs) else None
  end.
Proof. revert v. induction evs as [|a evs IH]; intros v; simpl; [done|]. by case_match. Qed.

Lemma view_run_snoc v evs e : view_run v (evs ++ [e]) = view_step (view_run v evs) e.
Proof. unfold view_run. by rewrite foldl_app. Qed.

Lemma sapi_run_snoc c evs e :
  sapi_run to_lowercase c (evs ++ [e]) = sapi_step to_lowercase (sapi_run to_lowercase c evs) e.
Proof. unfold sapi_run. by rewrite foldl_app. Qed.

(** ** Frames are the frames of turbine-worker *)

Definition chunk_frames (cs : list bytes) : bytes := mjoin (encode_frame ∘ BodyChunk <$> cs).

Lemma chunk_frames_snoc cs c :
  chunk_frames (cs ++ [c]) = chunk_frames cs ++ encode_body_chunk [] c.
Proof. unfold chunk_frames. rewrite fmap_app, join_app. simpl. by rewrite app_nil_r. Qed.

(** A state whose pipe takes everything. *)
Definition healthy (c : capture) : Prop := room (resp c) = None.

Lemma write_all_fd_healthy fd data c : 0 ≤ fd → healthy c →
  write_all_fd fd data c = set_resp (Wire (sent (resp c) ++ data) None) c.
Proof.
  intros Hf Hc. unfold write_all_fd, wire_write. rewrite Hc.
  by destruct (Z.ltb_spec fd 0); [lia|].
Qed.

Lemma emit_headers_frame_bytes fd c : 0 ≤ fd → healthy c →
  emit_headers_frame fd c =
    set_resp (Wire (sent (resp c) ++ encode_headers [] (headers_status c) (HEADER_BUFFER c))
                   None) (set_headers [] c).
Proof. intros Hf Hc. unfold emit_headers_frame. by rewrite write_all_fd_healthy. Qed.

Lemma emit_body_chunk_frame_bytes fd chunk c : 0 ≤ fd → healthy c →
  emit_body_chunk_frame fd chunk c =
    set_resp (Wire (sent (resp c) ++ encode_body_chunk [] chunk) None) c.
Proof.
  intros Hf Hc. unfold emit_body_chunk_frame, encode_body_chunk.
  rewrite write_all_fd_healthy by done.
  case_bool_decide; subst; [by rewrite app_nil_r|].
  rewrite write_all_fd_healthy by done. simpl. unfold set_resp; simpl.
  by rewrite <-(assoc_L app).
Qed.

Lemma headers_status_view c v : v_code v = RESPONSE_CODE c → v_sg v = sg_code c →
  v_init v = initialized c → headers_status c = view_status v.
Proof.
  intros H1 H2 H3. unfold headers_status, view_status. rewrite H1, H2, H3.
  destruct (RESPONSE_CODE c =? 200), (initialized c), (0 <? sg_code c); done.
Qed.

Lemma take_response_code_view c v : v_code v = RESPONSE_CODE c → v_sg v = sg_code c →
  v_init v = initialized c → (take_response_code c).1 = view_status v.
Proof.
  intros H1 H2 H3. unfold take_response_code, view_status. rewrite H1, H2, H3. simpl.
  destruct (Z.eqb_spec (RESPONSE_CODE c) 200) as [E|], (initialized c), (Z.ltb_spec 0 (sg_code c));
    try done; simpl. rewrite E.
  destruct (Z.eqb_spec (sg_code c) 200) as [->|]; done.
Qed.

(** ** Running a script on an armed pipe *)

Definition initial_view (c : capture) : view :=
  View [] [] 200 (sg_code c) (initialized c).

(** The state a request starts from, on a pipe that holds [w]. *)
Definition armed (w : bytes) (c : capture) : Prop :=
  OUTPUT_BUFFER c = [] ∧ HEADER_BUFFER c = [] ∧ RESPONSE_CODE c = 200 ∧ 0 ≤ STREAM_FD c ∧
  STREAM_ENGAGED c = false ∧ resp c = Wire w None.

(** The relation between the capture and the view, after the events [evs]. *)
Definition captures (w : bytes) (fd : Z) (v0 : view) (evs : list sapi_event) (c : capture)
    : Prop :=
  let v := view_run v0 evs in
  healthy c ∧ 0 ≤ fd ∧ STREAM_FD c = fd ∧ RESPONSE_CODE c = v_code v ∧ sg_code c = v_sg v ∧
  initialized c = v_init v ∧
  match engaged_at v0 evs with
  | None => STREAM_ENGAGED c = false ∧ OUTPUT_BUFFER c = v_out v ∧
            HEADER_BUFFER c = v_headers v ∧ sent (resp c) = w
  | Some u => STREAM_ENGAGED c = true ∧ OUTPUT_BUFFER c = [] ∧
      ∃ cs, sent (resp c) = w ++ encode_headers [] (view_status u) (v_headers u) ++ chunk_frames cs
            ∧ mjoin cs = v_out v ∧ Forall (λ d, d ≠ []) cs
  end.

Lemma armed_captures w c : armed w c → captures w (STREAM_FD c) (initial_view c) [] c.
Proof.
  intros (H1 & H2 & H3 & H4 & H5 & H6). unfold captures, healthy. simpl. rewrite H6. naive_solver.
Qed.

(** The captured code does not depend on the headers captured so far. *)
Lemma header_call_code op hdr hs hs' code :
  (header_call to_lowercase op hdr hs code).2 = (header_call to_lowercase op hdr hs' code).2.
Proof. unfold header_call. by repeat case_match. Qed.

(** Engaging sends the headers and what was buffered so far. *)
Lemma engage_captures w fd v0 evs c : captures w fd v0 evs c → engaged_at v0 evs = None →
  let v := view_run v0 evs in
  ∃ cs, engage_streaming c =
      set_resp (Wire (w ++ encode_headers [] (view_status v) (v_headers v) ++ chunk_frames cs) None)
        (set_output [] (set_headers [] (set_stream fd true c))) ∧
    mjoin cs = v_out v ∧ Forall (λ d, d ≠ []) cs.
Proof.
  intros (Hh & Hfd & Hf & Hc & Hs & Hi & H) E v. rewrite E in H.
  destruct H as (He & Ho & Hhs & Hw). unfold engage_streaming. rewrite Hf, He.
  destruct (Z.ltb_spec fd 0); [lia|].
  rewrite emit_headers_frame_bytes by done. cbn [OUTPUT_BUFFER set_resp set_headers set_stream].
  rewrite (headers_status_view _ v) by done. cbn [HEADER_BUFFER resp set_resp set_headers set_stream]. rewrite Ho, Hhs. fold v.
  exists (if bool_decide (v_out v = []) then [] else [v_out v]).
  case_bool_decide as Hv.
  - rewrite Hv. split_and!; [|done|done]. unfold set_resp, set_output; simpl.
    by rewrite Hw, app_nil_r.
  - rewrite emit_body_chunk_frame_bytes by done. split_and!; [|apply app_nil_r|by constructor].
    unfold set_resp, set_output, chunk_frames; simpl. by rewrite Hw, <-!(assoc_L app), app_nil_r.
Qed.

Lemma ub_write_captures w fd v0 evs c s : captures w fd v0 evs c →
  captures w fd v0 (evs ++ [UbWrite s]) (turbine_ub_write s c).
Proof.
  intros Hcap. pose proof Hcap as (Hh & Hfd & Hf & Hc & Hs & Hi & H).
  unfold captures. rewrite engaged_at_snoc, view_run_snoc. cbn [view_step engages].
  set (v := view_run v0 evs) in *. unfold turbine_ub_write.
  case_bool_decide as Hnil; simpl.
  { subst s. rewrite app_nil_r. split_and!; [done..|]. by destruct (engaged_at v0 evs). }
  destruct (engaged_at v0 evs) as [u|] eqn:E.
  - destruct H as (He & Ho & cs & Hw & Hj & Hne).
    rewrite He, Hf, emit_body_chunk_frame_bytes by done. simpl. split_and!; [done..|].
    exists (cs ++ [s]). rewrite Hw, chunk_frames_snoc, join_app, Hj. simpl.
    rewrite app_nil_r, <-!(assoc_L app). split_and!; [done..|].
    apply Forall_app. by repeat constructor.
  - pose proof H as (He & Ho & Hhs & Hw). rewrite He, Hf.
    unfold headers_request_streaming. rewrite Hhs.
    destruct (Z.leb_spec 0 fd); [|lia]. simpl.
    destruct (existsb header_requests_streaming (v_headers v)).
    + destruct (engage_captures w fd v0 evs c Hcap E) as (cs & -> & Hj & Hne).
      rewrite emit_body_chunk_frame_bytes by done. simpl. split_and!; [done..|].
      exists (cs ++ [s]). rewrite chunk_frames_snoc, join_app, Hj. simpl.
      rewrite app_nil_r, <-!(assoc_L app). split_and!; [done..|].
      apply Forall_app. by repeat constructor.
    + simpl. split_and!; try done. by rewrite Ho.
Qed.

Lemma flush_captures w fd v0 evs c : captures w fd v0 evs c →
  captures w fd v0 (evs ++ [Flush]) (turbine_sapi_flush c).
Proof.
  intros Hcap. pose proof Hcap as (Hh & Hfd & Hf & Hc & Hs & Hi & H).
  unfold captures. rewrite engaged_at_snoc, view_run_snoc. cbn [view_step engages].
  unfold turbine_sapi_flush. rewrite Hf. destruct (Z.ltb_spec fd 0); [lia|].
  destruct (engaged_at v0 evs) as [u|] eqn:E.
  - unfold engage_streaming. destruct H as (He & Ho & cs & Hw & Hj & Hne).
    rewrite Hf, He. destruct (Z.ltb_spec fd 0); [lia|]. split_and!; naive_solver.
  - destruct (engage_captures w fd v0 evs c Hcap E) as (cs & -> & Hj & Hne).
    simpl. split_and!; try done. by exists cs.
Qed.

Lemma header_captures w fd v0 evs c op hdr : captures w fd v0 evs c →
  captures w fd v0 (evs ++ [Header op hdr]) (turbine_header_handler to_lowercase op hdr c).
Proof.
  intros (Hh & Hfd & Hf & Hc & Hs & Hi & H).
  unfold captures. rewrite engaged_at_snoc, view_run_snoc. cbn [view_step engages].
  set (v := view_run v0 evs) in *. unfold turbine_header_handler. rewrite Hc.
  pose proof (header_call_code op hdr (HEADER_BUFFER c) (v_headers v) (v_code v)) as Hcode.
  destruct (engaged_at v0 evs) as [u|] eqn:E.
  - destruct (header_call _ op hdr (HEADER_BUFFER c) _), (header_call _ op hdr (v_headers v) _).
    simpl in *. subst. split_and!; naive_solver.
  - destruct H as (He & Ho & Hhs & Hw). rewrite Hhs.
    destruct (header_call _ op hdr (v_headers v) _). simpl in *. split_and!; done.
Qed.

Lemma sapi_run_captures w fd v0 evs c : captures w fd v0 [] c →
  captures w fd v0 evs (sapi_run to_lowercase c evs).
Proof.
  intros Hc. induction evs as [|e evs IH] using rev_ind; [done|].
  rewrite sapi_run_snoc. destruct e as [s| |op hdr|code]; simpl.
  - by apply ub_write_captures.
  - by apply flush_captures.
  - by apply header_captures.
  - unfold captures in *. rewrite engaged_at_snoc, view_run_snoc. simpl.
    destruct IH as (? & ? & ? & ? & ? & ? & H). destruct (engaged_at v0 evs); naive_solver.
Qed.
End view.

(** ** Headers as a multimap *)

(** The values a header name has, ignoring case. *)
Definition header_values (name : bytes) (hs : header_list) : list bytes :=
  (filter (λ h, eq_ignore_ascii_case h.1 name) hs).*2.

Lemma header_values_app name hs hs' :
  header_values name (hs ++ hs') = header_values name hs ++ header_values name hs'.
Proof. unfold header_values. by rewrite filter_app, fmap_app. Qed.

Lemma header_values_one name n v :
  header_values name [(n, v)] = if eq_ignore_ascii_case n name then [v] else [].
Proof.
  unfold header_values. destruct (eq_ignore_ascii_case n name) eqn:E.
  - by rewrite filter_cons_True by (simpl; rewrite E; done).
  - by rewrite filter_cons_False by (simpl; rewrite E; intros []).
Qed.

Lemma eq_ignore_ascii_case_trans a x y :
  eq_ignore_ascii_case a x → eq_ignore_ascii_case a y = eq_ignore_ascii_case x y.
Proof.
  unfold eq_ignore_ascii_case. intros H%bool_decide_unpack. by rewrite H.
Qed.

(** Dropping the headers called [n] empties [n] and keeps every other name. *)
Lemma header_values_drop name n hs :
  header_values name (filter (λ h, negb (eq_ignore_ascii_case h.1 n)) hs) =
    if eq_ignore_ascii_case n name then [] else header_values name hs.
Proof.
  unfold header_values. induction hs as [|[k v] hs IH]; [by case_match|].
  destruct (eq_ignore_ascii_case k n) eqn:E1.
  - rewrite filter_cons_False by (simpl; rewrite E1; intros []). rewrite IH.
    destruct (eq_ignore_ascii_case n name) eqn:E2; [done|].
    rewrite filter_cons_False; [done|]. simpl.
    rewrite (eq_ignore_ascii_case_trans k n name) by (by rewrite E1). rewrite E2. intros [].
  - rewrite filter_cons_True by (simpl; rewrite E1; done).
    destruct (eq_ignore_ascii_case k name) eqn:E3.
    + rewrite filter_cons_True by (simpl; rewrite E3; done). rewrite fmap_cons, IH.
      destruct (eq_ignore_ascii_case n name) eqn:E2.
      * exfalso. unfold eq_ignore_ascii_case in *.
        apply bool_decide_eq_true in E2, E3. apply bool_decide_eq_false in E1. congruence.
      * by rewrite filter_cons_True by (simpl; rewrite E3; done).
    + rewrite filter_cons_False by (simpl; rewrite E3; intros []). rewrite IH.
      destruct (eq_ignore_ascii_case n name); [done|].
      by rewrite filter_cons_False by (simpl; rewrite E3; intros []).
Qed.

(** ** Properties *)

(** C16: What a script prints reaches the client exactly once and in order.
    While nothing asked for streaming, the pipe is untouched and the buffer
    holds all the output with the headers and the status set so far; from the
    first [flush()] or opt-in header on, the buffer is empty and the pipe holds
    one [Headers] frame, with the headers and the status of that moment,
    followed by non-empty chunks that add up to all the output. *)
Theorem capture_delivers_output (to_lowercase : bytes → bytes) (w : bytes) (c : capture)
    (evs : list sapi_event) :
  armed w c →
  let v := view_run to_lowercase (initial_view c) evs in
  let c' := sapi_run to_lowercase c evs in
  (take_response_code c').1 = view_status v ∧
  match engaged_at to_lowercase (initial_view c) evs with
  | None => is_streaming c' = false ∧ OUTPUT_BUFFER c' = v_out v ∧
            HEADER_BUFFER c' = v_headers v ∧ sent (resp c') = w
  | Some u => is_streaming c' = true ∧ OUTPUT_BUFFER c' = [] ∧
      ∃ cs, sent (resp c') =
              w ++ encode_headers [] (view_status u) (v_headers u) ++ chunk_frames cs ∧
            mjoin cs = v_out v ∧ Forall (λ d, d ≠ []) cs
  end.
Proof.
  intros H v c'. apply (armed_captures to_lowercase) in H.
  pose proof (sapi_run_captures to_lowercase _ _ _ evs c H) as (_ & _ & _ & Hc & Hs & Hi & Hm).
  split; [by apply take_response_code_view|]. by destruct (engaged_at _ _ evs).
Qed.

Lemma capture_delivers_output_witness :
  let c := {| OUTPUT_BUFFER := []; HEADER_BUFFER := []; RESPONSE_CODE := 200; STREAM_FD := 4;
              STREAM_ENGAGED := false; sg_code := 404; initialized := true;
              resp := Wire [] None |} in
  let evs := [UbWrite (lit "ab"); Header ADD (Some (lit "X-A: 1")); Flush;
              Header ADD (Some (lit "X-B: 2")); UbWrite (lit "cd")] in
  let c' := sapi_run to_ascii_lowercase c evs in
  (take_response_code c').1 = 404 ∧ is_streaming c' = true ∧ OUTPUT_BUFFER c' = [] ∧
  ∃ cs, sent (resp c') =
          [] ++ encode_headers [] 404 [(lit "X-A", lit "1")] ++ chunk_frames cs ∧
        mjoin cs = lit "abcd" ∧ Forall (λ d, d ≠ []) cs.
Proof.
  intros c evs c'.
  apply (capture_delivers_output to_ascii_lowercase [] c evs). by split_and!.
Defined.

(** [header()] keeps a case-insensitive multimap: with replace, the named
    header ends with exactly the new value, without it the value comes last,
    and no other header changes. *)
Theorem header_call_multimap (to_lowercase : bytes → bytes) (s name value other : bytes)
    (hs : header_list) (code : Z) :
  utf8_valid s → starts_with (lit "HTTP/") s = false → split_once x3a s = Some (name, value) →
  let same := eq_ignore_ascii_case (trim name) other in
  header_values other (header_call to_lowercase REPLACE (Some s) hs code).1 =
    (if same then [trim value] else header_values other hs) ∧
  header_values other (header_call to_lowercase ADD (Some s) hs code).1 =
    header_values other hs ++ (if same then [trim value] else []).
Proof.
  intros Hu Hh Hs same. unfold header_call.
  assert ((0 <? zlen s) = true) as ->.
  { apply Z.ltb_lt. destruct s; [done|]. unfold zlen. cbn [length]. lia. }
  rewrite (Is_true_true_1 _ Hu), Hh, Hs. simpl. split.
  - rewrite header_values_app, header_values_drop, header_values_one. fold same.
    by destruct same; [|rewrite app_nil_r].
  - by rewrite header_values_app, header_values_one.
Qed.

Lemma header_call_multimap_witness :
  let hs := [(lit "X-A", lit "0"); (lit "Vary", lit "b"); (lit "x-a", lit "9")] in
  header_values (lit "x-A")
    (header_call to_ascii_lowercase REPLACE (Some (lit "X-a:  1 ")) hs 200).1 = [lit "1"] ∧
  header_values (lit "x-A")
    (header_call to_ascii_lowercase ADD (Some (lit "X-a:  1 ")) hs 200).1 =
    [lit "0"; lit "9"; lit "1"].
Proof.
  intros hs.
  apply (header_call_multimap to_ascii_lowercase (lit "X-a:  1 ") (lit "X-a") (lit "  1 ")
           (lit "x-A") hs 200); vm_compute; done.
Defined.
