(* ===== verification/PersistentWorker.v ===== *)
(** * The persistent worker (turbine-worker/src/persistent.rs)

    The event loop that runs in a worker process after the fork: it boots the
    application, signals that it is ready, and serves requests from the command
    pipe until it is told to stop. PHP itself is a parameter: a state and, for
    each call into it, the SAPI events it raises and the code it returns. *)

From S2P Require Import Prelude Utf8 RustStr Reader Codec Stream Persistent OutputCapture.

(** ** The calls into PHP *)

(** The arguments of [turbine_sapi_set_request]; [None] is a null pointer. *)
Record sapi_request := {
  r_method : bytes;
  r_uri : bytes;
  r_query_string : bytes;
  r_content_type : option bytes;
  r_content_length : Z;
  r_cookie : option bytes;
  r_script : bytes;
  r_document_root : bytes;
  r_addr : bytes;
  r_remote_port : Z;
  r_port : Z;
  r_is_https : Z;
  r_path_info : bytes;
  r_script_name : bytes;
  r_body : option bytes;
  r_headers : header_list }.

Definition non_empty (s : bytes) : option bytes :=
  if bool_decide (s = []) then None else Some s.

Definition sapi_request_of (req : PersistentRequest) : sapi_request :=
  {| r_method := method req; r_uri := uri req; r_query_string := query_string req;
     r_content_type := non_empty (content_type req);
     r_content_length := if bool_decide (body req = []) then -1 else zlen (body req);
     r_cookie := non_empty (cookie req); r_script := script_filename req;
     r_document_root := document_root req; r_addr := client_ip req; r_remote_port := 0;
     r_port := port req; r_is_https := if is_https req then 1 else 0;
     r_path_info := path_info req; r_script_name := script_name req;
     r_body := non_empty (body req); r_headers := headers req |}.

Inductive php_call :=
| turbine_php_is_thread_safe
| turbine_thread_init
| turbine_sapi_install_hooks
| turbine_worker_boot
| zend_eval_string (code name : bytes)
| turbine_sapi_set_request (r : sapi_request)
| turbine_worker_request_startup
| php_request_startup
| turbine_execute_script (path : bytes)
| turbine_worker_request_shutdown
| php_request_shutdown
| turbine_worker_shutdown
| php_embed_init
| php_embed_shutdown
| sapi_send_headers
| turbine_register_uploaded_file (path : bytes) (len : Z).

Definition SUCCESS : Z := 0.

(** ** The loop *)

(** How a worker process ends: out of the loop, or by [exit(code)]. *)
Inductive ending := Finished | Exit (code : Z).

Section worker.
Context (to_lowercase : bytes → bytes).
Context {php : Type} (run_php : php → php_call → php * list sapi_event * Z).
Context (resp_fd : Z) (app_root : bytes).
Context (worker_boot worker_handler worker_cleanup : option bytes).

(** PHP and the capture module; the response pipe is part of the latter. *)
Record worker := Worker { w_php : php; w_cap : capture }.

Definition call (k : php_call) (w : worker) : Z * worker :=
  let '(p, evs, r) := run_php (w_php w) k in
  (r, Worker p (sapi_run to_lowercase (w_cap w) evs)).

Definition on_cap (f : capture → capture) (w : worker) : worker :=
  Worker (w_php w) (f (w_cap w)).

(** A complete write to [resp_fd], and whether it succeeded. *)
Definition resp_write (data : bytes) (w : worker) : bool * worker :=
  let '(r, ok) := wire_write data (resp (w_cap w)) in (ok, on_cap (set_resp r) w).

Definition perform_worker_boot (boot_path : bytes) (w : worker) : bool * worker :=
  let '(r, w) := call turbine_worker_boot w in
  if negb (r =? SUCCESS) then (false, w)
  else
    let c_boot := safe_cstring (lit "require '" ++ boot_path ++ lit "';") in
    let w := on_cap clear_output_buffer w in
    let '(result, w) := call (zend_eval_string c_boot (lit "turbine_worker_boot")) w in
    let w := on_cap (λ c, (take_output c).2) w in
    if negb (result =? SUCCESS) then (false, w)
    else
      let '(_, w) := call turbine_worker_request_shutdown w in (true, w).

(** The scripts a worker runs, resolved once at its start. *)
Definition handler_path (lightweight : bool) : option bytes :=
  if lightweight then (safe_cstring ∘ resolve_worker_script app_root) <$> worker_handler else None.

Definition cleanup_path : option bytes :=
  (safe_cstring ∘ resolve_worker_script app_root) <$> worker_cleanup.

(** Script, cleanup and shutdown: what runs while the pipe is armed. *)
Definition run_script (script : bytes) (shutdown : php_call) (w : worker) : Z * worker :=
  let '(r, w) := call (turbine_execute_script script) w in
  let w := match cleanup_path with
           | Some c_cleanup => (call (turbine_execute_script c_cleanup) w).2
           | None => w
           end in
  let '(_, w) := call shutdown w in (r, w).

(** The lightweight path has a handler, the full lifecycle none. *)
Definition startup_call (handler : option bytes) : php_call :=
  match handler with
  | Some _ => turbine_worker_request_startup
  | None => php_request_startup
  end.

Definition shutdown_call (handler : option bytes) : php_call :=
  match handler with
  | Some _ => turbine_worker_request_shutdown
  | None => php_request_shutdown
  end.

Definition execute_request (handler : option bytes) (req : PersistentRequest) (w : worker)
    : Z * (bytes * header_list * Z * bool) * worker :=
  let '(_, w) := call (turbine_sapi_set_request (sapi_request_of req)) w in
  let '(_, w) := call (startup_call handler) w in
  let w := on_cap (λ c, arm_streaming resp_fd (clear_output_buffer c)) w in
  let script := default (script_filename req) handler in
  let '(r, w) := run_script script (shutdown_call handler) w in
  let '((streamed, _), c) := finish_streaming (w_cap w) in
  let '(b, c) := take_output c in
  let '(h, c) := take_headers c in
  let '(s, c) := take_response_code c in
  (r, (b, h, s, streamed), Worker (w_php w) c).

(** The last part of an iteration: finish the response on the pipe. *)
Definition send_response (ok : bool) (out : bytes * header_list * Z * bool) (w : worker)
    : bool * worker :=
  let '(body, headers, status, streamed) := out in
  if streamed : bool then
    if bool_decide (body = []) then resp_write (write_stream_end ok) w
    else resp_write (encode_end (encode_body_chunk [] body) ok) w
  else resp_write (mjoin (response_slices ok status headers body)) w.

(** One iteration: [None] when the loop breaks. *)
Definition iteration (handler : option bytes) (p : pipe) (w : worker)
    : option pipe * worker :=
  match read_exact Std 1 p with
  | Err _ => (None, w)
  | Ok (cmd, p) =>
      if bool_decide (cmd = [xff]) then (None, w)
      else if negb (bool_decide (cmd = [x01])) then
        (Some p, (resp_write (write_response false 500 [] (lit "Unknown command")) w).2)
      else
        match read_exact Std 4 p with
        | Err _ => (None, w)
        | Ok (len_buf, p) =>
            match read_exact Std (Z.to_nat (le_val len_buf)) p with
            | Err _ => (None, w)
            | Ok (payload, p) =>
                match DecodedRequest_decode payload with
                | None =>
                    (Some p,
                     (resp_write (write_response false 500 []
                        (lit "Failed to decode request")) w).2)
                | Some req =>
                    let '(result, out, w) := execute_request handler req w in
                    let '(ok, w) := send_response (result =? SUCCESS) out w in
                    if ok then (Some p, w) else (None, w)
                end
            end
        end
  end.

(** Every iteration that goes on has read a byte. *)
Fixpoint request_loop (handler : option bytes) (fuel : nat) (p : pipe) (w : worker)
    : option worker :=
  match fuel with
  | O => None
  | S fuel' =>
      match iteration handler p w with
      | (Some p', w') => request_loop handler fuel' p' w'
      | (None, w') => Some w'
      end
  end.

(** What happens before the loop: whether the worker goes on, and with which
    handler. *)
Definition boot (w : worker) : bool * worker :=
  match worker_boot, worker_handler with
  | Some boot_script, Some _ =>
      perform_worker_boot (resolve_worker_script app_root boot_script) w
  | _, _ => (false, w)
  end.

Definition thread_setup (w : worker) : bool * worker :=
  let '(zts, w) := call turbine_php_is_thread_safe w in
  if zts =? 0 then (true, w)
  else let '(r, w) := call turbine_thread_init w in (r =? 0, w).

Definition worker_event_loop_persistent (p : pipe) (w : worker) : option (ending * worker) :=
  let '(ok, w) := thread_setup w in
  if negb ok then Some (Exit 1, w)
  else
    let '(_, w) := call turbine_sapi_install_hooks w in
    let '(lightweight, w) := boot w in
    let '(ok, w) := resp_write write_ready_signal w in
    if negb ok then Some (Exit 1, w)
    else
      w ← request_loop (handler_path lightweight) (S (length (stream p))) p w;
      let w := if lightweight then (call turbine_worker_shutdown w).2 else w in
      Some (Finished, w).

(** ** What a request should get *)

(** The answer to a request, as the script produced it. *)
Record reply := Reply {
  rp_status : Z; rp_headers : header_list; rp_body : bytes; rp_ok : bool }.

(** PHP's state and its response code. *)
Abbreviation php_env := (php * Z)%type.

Definition final_sg (sg : Z) (evs : list sapi_event) : Z :=
  foldl (λ s e, match e with HttpResponseCode c => c | _ => s end) sg evs.

Definition spec_call (k : php_call) (s : php_env) : Z * list sapi_event * php_env :=
  let '(p, evs, r) := run_php s.1 k in (r, evs, (p, final_sg s.2 evs)).

(** The output of script, cleanup and shutdown, under the status and headers
    of the moment the response became a streamed one, or else of the end. *)
Definition spec_request (init : bool) (handler : option bytes) (req : PersistentRequest)
    (s : php_env) : reply * php_env :=
  let '(_, _, s) := spec_call (turbine_sapi_set_request (sapi_request_of req)) s in
  let '(_, _, s) := spec_call (startup_call handler) s in
  let v0 := View [] [] 200 s.2 init in
  let '(r, evs1, s) := spec_call (turbine_execute_script
                                    (default (script_filename req) handler)) s in
  let '(evs2, s) := match cleanup_path with
                    | Some c => let '(_, e, s) := spec_call (turbine_execute_script c) s in (e, s)
                    | None => ([], s)
                    end in
  let '(_, evs3, s) := spec_call (shutdown_call handler) s in
  let evs := evs1 ++ evs2 ++ evs3 in
  let v := view_run to_lowercase v0 evs in
  let u := default v (engaged_at to_lowercase v0 evs) in
  (Reply (view_status u) (v_headers u) (v_out v) (r =? SUCCESS), s).

(** ** One request *)

(** Between requests: nothing armed, a pipe that takes everything. *)
Definition idle (init : bool) (s : php_env) (sent_so_far : bytes) (w : worker) : Prop :=
  w_php w = s.1 ∧ sg_code (w_cap w) = s.2 ∧ initialized (w_cap w) = init ∧
  STREAM_FD (w_cap w) < 0 ∧ STREAM_ENGAGED (w_cap w) = false ∧
  resp (w_cap w) = Wire sent_so_far None.

Lemma view_run_sg v evs : v_sg (view_run to_lowercase v evs) = final_sg (v_sg v) evs.
Proof.
  revert v. induction evs as [|e evs IH]; intros v; [done|]. simpl. rewrite IH.
  destruct e; simpl; repeat case_match; done.
Qed.

Lemma view_run_init v evs : v_init (view_run to_lowercase v evs) = v_init v.
Proof.
  revert v. induction evs as [|e evs IH]; intros v; [done|]. simpl. rewrite IH.
  destruct e; simpl; repeat case_match; done.
Qed.

(** A step without an armed pipe leaves the pipe alone. *)
Lemma sapi_step_idle c e : STREAM_FD c < 0 → STREAM_ENGAGED c = false →
  let c' := sapi_step to_lowercase c e in
  STREAM_FD c' = STREAM_FD c ∧ STREAM_ENGAGED c' = false ∧ resp c' = resp c ∧
  initialized c' = initialized c ∧ sg_code c' = final_sg (sg_code c) [e].
Proof.
  intros Hf He. destruct e as [s| |op hdr|code]; simpl; [| | |done].
  - unfold turbine_ub_write. rewrite He. destruct (Z.leb_spec 0 (STREAM_FD c)); [lia|].
    by case_bool_decide.
  - unfold turbine_sapi_flush. by destruct (Z.ltb_spec (STREAM_FD c) 0); [|lia].
  - unfold turbine_header_handler. by destruct (header_call _ _ _ _ _).
Qed.

Lemma call_idle k init s sent0 w r evs s' : idle init s sent0 w → spec_call k s = (r, evs, s') →
  ∃ w', call k w = (r, w') ∧ idle init s' sent0 w'.
Proof.
  intros (H1 & H2 & H3 & H4 & H5 & H6) E. unfold spec_call, call in *. rewrite H1.
  destruct (run_php s.1 k) as [[p evs'] r']. simplify_eq. eexists. split; [done|].
  destruct s as [p0 sg]; simplify_eq/=.
  assert (∀ c, STREAM_FD c < 0 → STREAM_ENGAGED c = false → resp c = Wire sent0 None →
    idle (initialized c) (p, final_sg (sg_code c) evs) sent0
      (Worker p (sapi_run to_lowercase c evs))) as Hgen; [|by apply Hgen].
  induction evs as [|e evs IH]; intros c Hf He Hr; [done|]. simpl.
  pose proof (sapi_step_idle c e Hf He) as (E1 & E2 & E3 & E4 & E5). simpl in *.
  rewrite <-E4, <-E5. apply IH; [by rewrite E1|done|by rewrite E3].
Qed.

(** The part of a request that runs with the pipe armed. *)
Lemma run_script_run script shutdown p c :
  let '(p1, evs1, r) := run_php p (turbine_execute_script script) in
  let '(p2, evs2) := match cleanup_path with
                     | Some cl => (run_php p1 (turbine_execute_script cl)).1
                     | None => (p1, [])
                     end in
  let '(p3, evs3, _) := run_php p2 shutdown in
  run_script script shutdown (Worker p c) =
    (r, Worker p3 (sapi_run to_lowercase c (evs1 ++ evs2 ++ evs3))).
Proof.
  unfold run_script, call. simpl.
  destruct (run_php p (turbine_execute_script script)) as [[p1 evs1] r]; simpl.
  destruct cleanup_path as [cl|]; simpl.
  - destruct (run_php p1 _) as [[p2 evs2] r2]; simpl.
    destruct (run_php p2 shutdown) as [[p3 evs3] r3].
    unfold sapi_run. by rewrite !foldl_app.
  - destruct (run_php p1 shutdown) as [[p3 evs3] r3]. unfold sapi_run. by rewrite foldl_app.
Qed.

Lemma final_sg_app sg evs evs' : final_sg sg (evs ++ evs') = final_sg (final_sg sg evs) evs'.
Proof. apply foldl_app. Qed.

(** Finishing a captured run puts a whole response on the pipe. *)
Lemma finish_response ok p c sent0 v0 evs :
  captures to_lowercase sent0 resp_fd v0 evs c →
  let v := view_run to_lowercase v0 evs in
  let u := default v (engaged_at to_lowercase v0 evs) in
  let '((streamed, _), c1) := finish_streaming c in
  let '(b, c2) := take_output c1 in
  let '(h, c3) := take_headers c2 in
  let '(s, c4) := take_response_code c3 in
  ∃ w', send_response ok (b, h, s, streamed) (Worker p c4) = (true, w') ∧
    ∃ cs, mjoin cs = v_out v ∧ Forall (λ d, d ≠ []) cs ∧
      idle (v_init v) (p, v_sg v)
        (sent0 ++ response_bytes (view_status u) (v_headers u) cs ok) w'.
Proof.
  intros (Hh & Hfd & Hf & Hc & Hs & Hi & H) v u. simpl.
  destruct (take_response_code _) as [s c4] eqn:Et.
  assert (s = view_status v ∧ resp c4 = resp c ∧ initialized c4 = initialized c ∧
          sg_code c4 = sg_code c ∧ STREAM_FD c4 = -1 ∧ STREAM_ENGAGED c4 = false)
    as (-> & Hr & Hi4 & Hs4 & Hf4 & He4).
  { pose proof (take_response_code_view
      (set_headers [] (set_output [] (set_stream (-1) false c))) v) as Hv.
    rewrite Et in Hv. rewrite <-Hv by done. unfold take_response_code in Et. simpl in Et.
    repeat case_match; by simplify_eq/=. }
  unfold send_response, resp_write, wire_write. simpl. rewrite Hr, Hh. subst u.
  destruct (engaged_at to_lowercase v0 evs) as [u|]; simpl.
  - destruct H as (-> & -> & cs & Hw & Hj & Hne). rewrite bool_decide_eq_true_2 by done.
    eexists. split; [done|]. exists cs. split_and!; [done..|].
    unfold idle. simpl. rewrite Hi4, Hs4, Hf4, He4, Hw. split_and!; try done.
    f_equal. unfold response_bytes, body_bytes, write_stream_end, chunk_frames.
    by rewrite <-!(assoc_L app).
  - destruct H as (-> & -> & -> & Hw). eexists. split; [done|].
    exists (if bool_decide (v_out v = []) then [] else [v_out v]). split_and!.
    + case_bool_decide as E; [by rewrite E|]. apply app_nil_r.
    + case_bool_decide; by repeat constructor.
    + unfold idle. simpl. rewrite Hi4, Hs4, Hf4, He4, Hw. split_and!; try done.
      by rewrite response_slices_join, write_response_bytes.
Qed.

Lemma serve_request init handler req s sent0 w rp s' :
  0 ≤ resp_fd → idle init s sent0 w → spec_request init handler req s = (rp, s') →
  ∃ result out w1 w2, execute_request handler req w = (result, out, w1) ∧
    send_response (result =? SUCCESS) out w1 = (true, w2) ∧
    ∃ cs, mjoin cs = rp_body rp ∧ Forall (λ d, d ≠ []) cs ∧
      idle init s' (sent0 ++ response_bytes (rp_status rp) (rp_headers rp) cs (rp_ok rp)) w2.
Proof.
  intros Hfd Hidle Hspec. unfold spec_request in Hspec. unfold execute_request.
  destruct (spec_call (turbine_sapi_set_request _) s) as [[r1 e1] s1] eqn:E1.
  destruct (call_idle _ _ _ _ _ _ _ _ Hidle E1) as (w1 & -> & Hidle1).
  destruct (spec_call (startup_call handler) s1) as [[r2 e2] [p2 sg2]] eqn:E2.
  destruct (call_idle _ _ _ _ _ _ _ _ Hidle1 E2) as (w2 & -> & (H1 & H2 & H3 & H4 & H5 & H6)).
  destruct w2 as [p c]; simpl in *. subst p.
  set (script := default (script_filename req) handler) in *.
  set (shutdown := shutdown_call handler) in *.
  set (v0 := View [] [] 200 sg2 init) in *.
  pose proof (run_script_run script shutdown p2
                (arm_streaming resp_fd (clear_output_buffer c))) as Hrun.
  unfold on_cap. simpl. unfold spec_call in Hspec. simpl in Hspec.
  destruct (run_php p2 (turbine_execute_script script)) as [[p3 evs1] r3]; simpl in *.
  destruct cleanup_path as [cl|]; simpl in *;
    [destruct (run_php p3 (turbine_execute_script cl)) as [[p4 evs2] r4]; simpl in *|].
  all: destruct (run_php _ shutdown) as [[p5 evs3] r5]; simpl in *.
  all: rewrite Hrun; simplify_eq/=.
  all: match goal with |- context [sapi_run _ ?ca ?evs] =>
    assert (captures to_lowercase sent0 resp_fd v0 evs (sapi_run to_lowercase ca evs)) as Hcap
      by (apply sapi_run_captures; unfold captures, healthy; simpl; rewrite H6; naive_solver);
    pose proof (finish_response (r3 =? SUCCESS) p5 _ _ _ _ Hcap) as Hfin end.
  all: simpl in Hfin |- *; destruct (take_response_code _) as [st4 c4];
    destruct Hfin as (w3 & Es & cs & Hj & Hne & Hi).
  all: do 4 eexists; split; [reflexivity|]; split; [exact Es|].
  all: exists cs; split_and!; [done..|].
  all: rewrite view_run_sg, ?final_sg_app in Hi; rewrite ?view_run_init in Hi; exact Hi.
Qed.

(** ** A session *)

(** A request the protocol can carry; it may hold NUL bytes. *)
Definition request_ok (req : PersistentRequest) : Prop :=
  request_fits req ∧ zlen (request_payload req) < 2 ^ 32.

(** A request with a NUL in a string is answered without PHP. *)
Definition spec_reply (init : bool) (handler : option bytes) (req : PersistentRequest)
    (s : php_env) : reply * php_env :=
  if request_nul_free req then spec_request init handler req s
  else (Reply 500 [] (lit "Failed to decode request") false, s).

Fixpoint spec_session (init : bool) (handler : option bytes) (reqs : list PersistentRequest)
    (s : php_env) : list reply * php_env :=
  match reqs with
  | [] => ([], s)
  | req :: reqs' =>
      let '(rp, s) := spec_reply init handler req s in
      let '(rps, s) := spec_session init handler reqs' s in (rp :: rps, s)
  end.

(** The bytes of a sequence of replies, each body in chunks of any size. *)
Inductive reply_bytes : list reply → bytes → Prop :=
| reply_nil : reply_bytes [] []
| reply_cons rp rps cs d :
    mjoin cs = rp_body rp → Forall (λ c, c ≠ []) cs → reply_bytes rps d →
    reply_bytes (rp :: rps)
      (response_bytes (rp_status rp) (rp_headers rp) cs (rp_ok rp) ++ d).

Lemma read_request req k p : zlen (request_payload req) < 2 ^ 32 →
  stream p = encode_request req ++ k →
  ∃ p1 p2 p3, read_exact Std 1 p = Ok ([x01], p1) ∧
    read_exact Std 4 p1 = Ok (le_bytes 4 (zlen (request_payload req)), p2) ∧
    read_exact Std (Z.to_nat (le_val (le_bytes 4 (zlen (request_payload req))))) p2 =
      Ok (request_payload req, p3) ∧ stream p3 = k.
Proof.
  intros Hl Hp. rewrite encode_request_payload, <-!(assoc_L app) in Hp.
  destruct (reads_exact Std [x01] 1 eq_refl p _ Hp) as (p1 & E1 & Hp1 & _).
  destruct (reads_exact Std (le_bytes 4 (zlen (request_payload req))) 4
              ltac:(by rewrite le_bytes_length) p1 _ Hp1) as (p2 & E2 & Hp2 & _).
  rewrite le_val_le_bytes, Z.mod_small by (split; [eauto with turbine|done]).
  destruct (reads_exact Std (request_payload req) (Z.to_nat (zlen (request_payload req)))
              ltac:(unfold zlen; lia) p2 _ Hp2) as (p3 & E3 & Hp3 & _).
  by exists p1, p2, p3.
Qed.

Lemma resp_write_idle init s sent0 w data : idle init s sent0 w →
  ∃ w', resp_write data w = (true, w') ∧ idle init s (sent0 ++ data) w'.
Proof.
  intros (H1 & H2 & H3 & H4 & H5 & H6). unfold resp_write, wire_write. rewrite H6. simpl.
  eexists. split; [done|]. by split_and!.
Qed.

Lemma iteration_request init handler req k p s sent0 w rp s' :
  0 ≤ resp_fd → request_ok req → stream p = encode_request req ++ k →
  idle init s sent0 w → spec_reply init handler req s = (rp, s') →
  ∃ p' w' cs, iteration handler p w = (Some p', w') ∧ stream p' = k ∧
    mjoin cs = rp_body rp ∧ Forall (λ d, d ≠ []) cs ∧
    idle init s' (sent0 ++ response_bytes (rp_status rp) (rp_headers rp) cs (rp_ok rp)) w'.
Proof.
  intros Hfd [Hfit Hl] Hp Hidle Hspec.
  destruct (read_request req k p Hl Hp) as (p1 & p2 & p3 & E1 & E2 & E3 & Hk).
  unfold iteration. rewrite E1. simpl. rewrite E2, E3.
  rewrite decode_request_payload by done. unfold spec_reply in Hspec.
  destruct (request_nul_free req).
  - destruct (serve_request init handler req s sent0 w rp s' Hfd Hidle Hspec)
      as (result & out & w1 & w2 & -> & -> & cs & Hj & Hne & Hi).
    by exists p3, w2, cs.
  - simplify_eq/=.
    destruct (resp_write_idle _ _ _ _
      (write_response false 500 [] (lit "Failed to decode request")) Hidle) as (w' & -> & Hi).
    exists p3, w', [lit "Failed to decode request"].
    rewrite write_response_bytes in Hi. split_and!; try done. by repeat constructor.
Qed.

Lemma request_loop_session init handler reqs : ∀ fuel p s sent0 w rps s',
  0 ≤ resp_fd → Forall request_ok reqs →
  stream p = mjoin (encode_request <$> reqs) ++ [xff] → (length (stream p) < fuel)%nat →
  idle init s sent0 w → spec_session init handler reqs s = (rps, s') →
  ∃ w' d, request_loop handler fuel p w = Some w' ∧ reply_bytes rps d ∧
          idle init s' (sent0 ++ d) w'.
Proof.
  induction reqs as [|req reqs IH]; intros [|fuel] p s sent0 w rps s' Hfd Hok Hp Hf Hi Hs;
    [lia| |lia|]; simpl in *; cbn [request_loop].
  - destruct (reads_exact Std [xff] 1 eq_refl p [] Hp) as (p1 & E1 & _).
    unfold iteration. rewrite E1. simpl. simplify_eq. exists w, [].
    split_and!; [done|constructor|by rewrite app_nil_r].
  - apply Forall_cons in Hok as [Hreq Hreqs]. rewrite <-(assoc_L app) in Hp.
    destruct (spec_reply init handler req s) as [rp s1] eqn:E1.
    destruct (spec_session init handler reqs s1) as [rps1 s2] eqn:E2. simplify_eq.
    destruct (iteration_request init handler req _ p s sent0 w rp s1 Hfd Hreq Hp Hi E1)
      as (p' & w' & cs & -> & Hp' & Hj & Hne & Hi').
    assert (length (stream p') < fuel)%nat as Hf'.
    { rewrite Hp'. rewrite Hp, encode_request_payload, !length_app in Hf. simpl in Hf.
      rewrite length_app. simpl. lia. }
    destruct (IH fuel p' s1 _ w' rps1 s' Hfd Hreqs Hp' Hf' Hi' E2) as (w2 & d & E3 & Hd & Hi2).
    eexists w2, _. split; [done|]. split; [by constructor|].
    by rewrite <-(assoc_L app) in Hi2.
Qed.

(** ** From the start of the process *)

Definition spec_boot (s : php_env) : bool * php_env :=
  match worker_boot, worker_handler with
  | Some boot_script, Some _ =>
      let '(r, _, s) := spec_call turbine_worker_boot s in
      if negb (r =? SUCCESS) then (false, s)
      else
        let code := lit "require '" ++ resolve_worker_script app_root boot_script ++ lit "';" in
        let '(r, _, s) := spec_call (zend_eval_string (safe_cstring code)
                                       (lit "turbine_worker_boot")) s in
        if negb (r =? SUCCESS) then (false, s)
        else let '(_, _, s) := spec_call turbine_worker_request_shutdown s in (true, s)
  | _, _ => (false, s)
  end.

(** [None] when the thread context cannot be set up. *)
Definition spec_start (s : php_env) : option (bool * php_env) :=
  let '(zts, _, s) := spec_call turbine_php_is_thread_safe s in
  let '(ok, s) := if zts =? 0 then (true, s)
                  else let '(r, _, s) := spec_call turbine_thread_init s in (r =? 0, s) in
  if negb ok then None
  else let '(_, _, s) := spec_call turbine_sapi_install_hooks s in Some (spec_boot s).

Lemma boot_idle init s sent0 w lw s' : idle init s sent0 w → spec_boot s = (lw, s') →
  ∃ w', boot w = (lw, w') ∧ idle init s' sent0 w'.
Proof.
  intros Hi E. unfold boot, spec_boot, perform_worker_boot in *.
  destruct worker_boot as [b|], worker_handler as [h|]; simplify_eq; eauto.
  destruct (spec_call turbine_worker_boot s) as [[r1 e1] s1] eqn:E1.
  destruct (call_idle _ _ _ _ _ _ _ _ Hi E1) as (w1 & -> & Hi1).
  destruct (negb (r1 =? SUCCESS)); [simplify_eq; eauto|].
  destruct (spec_call _ s1) as [[r2 e2] s2] eqn:E2.
  assert (idle init s1 sent0 (on_cap clear_output_buffer w1)) as Hi1' by exact Hi1.
  destruct (call_idle _ _ _ _ _ _ _ _ Hi1' E2) as (w2 & -> & Hi2).
  assert (idle init s2 sent0 (on_cap (λ c, (take_output c).2) w2)) as Hi2' by exact Hi2.
  destruct (negb (r2 =? SUCCESS)); [simplify_eq; eauto|].
  destruct (spec_call turbine_worker_request_shutdown s2) as [[r3 e3] s3] eqn:E3.
  destruct (call_idle _ _ _ _ _ _ _ _ Hi2' E3) as (w3 & -> & Hi3). simplify_eq. eauto.
Qed.

Lemma event_loop_session init p s sent0 w lw s1 reqs rps s2 :
  0 ≤ resp_fd → idle init s sent0 w → spec_start s = Some (lw, s1) →
  Forall request_ok reqs → stream p = mjoin (encode_request <$> reqs) ++ [xff] →
  spec_session init (handler_path lw) reqs s1 = (rps, s2) →
  ∃ w' d, worker_event_loop_persistent p w = Some (Finished, w') ∧ reply_bytes rps d ∧
          sent (resp (w_cap w')) = sent0 ++ write_ready_signal ++ d.
Proof.
  intros Hfd Hi Hs Hok Hp Hsess. unfold spec_start in Hs.
  unfold worker_event_loop_persistent, thread_setup.
  destruct (spec_call turbine_php_is_thread_safe s) as [[zts e1] sa] eqn:E1.
  destruct (call_idle _ _ _ _ _ _ _ _ Hi E1) as (wa & -> & Hia).
  assert (∃ sb wb, (let '(ok, s) := if zts =? 0 then (true, sa)
                  else let '(r, _, s) := spec_call turbine_thread_init sa in (r =? 0, s) in
      if negb ok then None
      else let '(_, _, s) := spec_call turbine_sapi_install_hooks s in Some (spec_boot s)) =
      (let '(_, _, s) := spec_call turbine_sapi_install_hooks sb in Some (spec_boot s)) ∧
    (if zts =? 0 then (true, wa)
     else let '(r, w) := call turbine_thread_init wa in (r =? 0, w)) = (true, wb) ∧
    idle init sb sent0 wb) as (sb & wb & Hsb & -> & Hib).
  { destruct (zts =? 0); [by exists sa, wa|].
    destruct (spec_call turbine_thread_init sa) as [[r e] sb] eqn:E2.
    destruct (call_idle _ _ _ _ _ _ _ _ Hia E2) as (wb & -> & Hib).
    destruct (r =? 0); [by exists sb, wb|done]. }
  rewrite Hsb in Hs. cbn [negb]. clear Hsb.
  destruct (spec_call turbine_sapi_install_hooks sb) as [[r e] sc] eqn:E3.
  destruct (call_idle _ _ _ _ _ _ _ _ Hib E3) as (wc & -> & Hic). injection Hs as Hs.
  destruct (boot_idle _ _ _ _ _ _ Hic Hs) as (wd & -> & Hid).
  destruct (resp_write_idle _ _ _ _ write_ready_signal Hid) as (we & -> & Hie). cbn [negb].
  destruct (request_loop_session init (handler_path lw) reqs (S (length (stream p))) p s1 _ we
              rps s2 Hfd Hok Hp ltac:(lia) Hie Hsess) as (wf & d & Hloop & Hd & Hif). rewrite Hloop. simpl.
  destruct lw; simpl.
  - destruct (spec_call turbine_worker_shutdown s2) as [[r' e'] s3] eqn:E4.
    destruct (call_idle _ _ _ _ _ _ _ _ Hif E4) as (wg & -> & (_ & _ & _ & _ & _ & Hr)).
    exists wg, d. rewrite Hr, <-(assoc_L app). done.
  - destruct Hif as (_ & _ & _ & _ & _ & Hr). exists wf, d. rewrite Hr, <-(assoc_L app). done.
Qed.

(** ** Termination *)

Lemma iteration_shrinks handler p w p' w' : iteration handler p w = (Some p', w') →
  (length (stream p') < length (stream p))%nat.
Proof.
  unfold iteration. intros H. pose proof (read_exact_spec Std 1 p) as S1.
  destruct (read_exact Std 1 p) as [[d p1]|] eqn:E1; [|done].
  destruct S1 as (S1 & S2 & _). rewrite S1, length_app, S2.
  assert (length (stream p') ≤ length (stream p1))%nat; [|lia].
  repeat case_match; simplify_eq; [done| |];
    repeat match goal with E : read_exact _ _ _ = Ok _ |- _ =>
      apply consumes_length in E; [|apply _] end; lia.
Qed.

Lemma request_loop_total handler fuel p w : (length (stream p) < fuel)%nat →
  is_Some (request_loop handler fuel p w).
Proof.
  revert p w. induction fuel as [|fuel IH]; intros p w Hf; [lia|]. cbn [request_loop].
  destruct (iteration handler p w) as [[p'|] w'] eqn:E; [|eauto].
  apply iteration_shrinks in E. apply IH. lia.
Qed.
End worker.

(** ** The master's side *)

(** The master reads one response per request. *)
Fixpoint decode_all (n : nat) (p : pipe) : option (list PersistentResponse * pipe) :=
  match n with
  | O => Some ([], p)
  | S n' =>
      match decode_response_async p with
      | Some (Ok (r, p')) => '(rs, q) ← decode_all n' p'; Some (r :: rs, q)
      | _ => None
      end
  end.

(** A reply whose headers fit the frame, with a body under 4 GiB. *)
Definition deliverable (rp : reply) : Prop :=
  frame_wf (Headers (rp_status rp) (rp_headers rp)) ∧ zlen (rp_headers rp) ≤ 1024 ∧
  zlen (rp_body rp) < 2 ^ 32.

Definition response_of (rp : reply) : PersistentResponse :=
  {| status := override_status (rp_ok rp) (rp_status rp); resp_headers := rp_headers rp;
     resp_body := rp_body rp |}.

Lemma chunks_wf_join cs : zlen (mjoin cs) < 2 ^ 32 → chunks_wf cs.
Proof.
  induction cs as [|c cs IH]; simpl; [constructor|].
  rewrite zlen_app. intros H. pose proof (zlen_nonneg c). pose proof (zlen_nonneg (mjoin cs)).
  constructor; [lia|]. apply IH. lia.
Qed.

Lemma decode_all_replies rps d : reply_bytes rps d → Forall deliverable rps →
  ∀ q k, stream q = d ++ k →
  ∃ q', decode_all (length rps) q = Some (response_of <$> rps, q') ∧ stream q' = k.
Proof.
  induction 1 as [|rp rps cs d Hj Hne Hd IH]; intros Hdel q k Hq; [by exists q|].
  apply Forall_cons in Hdel as [(H1 & H2 & H3) Hdel]. rewrite <-(assoc_L app) in Hq.
  assert (chunks_wf cs) as Hcs by (apply chunks_wf_join; by rewrite Hj).
  destruct (decode_loop_response Tokio (lit "decode_response_async") (rp_status rp)
              (rp_headers rp) cs (rp_ok rp) (d ++ k) q H1 H2 Hcs Hq) as (q1 & E1 & Hq1 & _).
  destruct (IH Hdel q1 k Hq1) as (q2 & E2 & Hq2).
  exists q2. split; [|done]. simpl. unfold decode_response_async. rewrite E1. simpl.
  rewrite E2. simpl. unfold response_of at 2. by rewrite Hj.
Qed.

Lemma read_ready_signal_spec q k : stream q = write_ready_signal ++ k →
  ∃ q', read_ready_signal q = Ok (true, q') ∧ stream q' = k.
Proof.
  intros Hq.
  assert (reads read_ready_signal write_ready_signal true) as H.
  { replace write_ready_signal with (le_bytes 1 0xAA ++ le_bytes 4 0 ++ [])
      by (vm_compute; reflexivity).
    eapply reads_bind; [by apply reads_le|]. simpl.
    eapply reads_bind; [by apply reads_le|]. apply reads_ret. }
  destruct (H q k Hq) as (q' & E & Hs & _). by exists q'.
Qed.

(** ** Properties *)


(** A PHP that prints the script it runs, streams it when it is [s.php], and
    fails on [f.php]. *)
Definition toy_php (s : nat) (k : php_call) : nat * list sapi_event * Z :=
  match k with
  | turbine_execute_script path =>
      (S s, Header ADD (Some (lit "X-N: 1")) :: UbWrite path ::
            (if bool_decide (path = lit "s.php") then [Flush; UbWrite (lit "!")] else []),
       if bool_decide (path = lit "f.php") then -1 else 0)
  | _ => (s, [], 0)
  end.

Definition toy_request (script target : bytes) : PersistentRequest :=
  {| method := lit "GET"; uri := target; body := []; client_ip := lit "10.0.0.1"; port := 80;
     is_https := false; headers := []; script_filename := script; query_string := [];
     document_root := lit "/srv"; content_type := []; cookie := []; path_info := [];
     script_name := script |}.


(** C37: The worker's event loop always comes to an end when the command pipe
    does: on any bytes whatsoever, well-formed or not, and with any PHP, it
    stops reading after finitely many iterations. *)
Theorem worker_event_loop_terminates {php : Type} (to_lowercase : bytes → bytes)
    (run_php : php → php_call → php * list sapi_event * Z) (resp_fd : Z) (app_root : bytes)
    (worker_boot worker_handler worker_cleanup : option bytes) (p : pipe) (w : worker) :
  is_Some (worker_event_loop_persistent to_lowercase run_php resp_fd app_root worker_boot
             worker_handler worker_cleanup p w).
Proof.
  unfold worker_event_loop_persistent.
  destruct (thread_setup _ _ w) as [[] w1]; cbn [negb]; [|eauto].
  destruct (call _ _ _ w1) as [r w2]. destruct (boot _ _ _ _ _ w2) as [lw w3].
  destruct (resp_write _ w3) as [[] w4]; cbn [negb]; [|eauto].
  destruct (request_loop_total to_lowercase run_php resp_fd app_root worker_cleanup
    (handler_path app_root worker_handler lw) (S (length (stream p))) p w4 ltac:(lia))
    as [w5 ->]. simpl. eauto.
Qed.
