(* ===== verification/SharedTable.v ===== *)
(** * The shared table (turbine-core/src/shared_table.rs)

    A bounded map with deadlines that PHP workers share. Every operation reads
    the clock, here the argument [now] in nanoseconds. The operations are first
    the sequences of atomic map accesses the code makes; run alone they are
    shown to be the operations of a plain map of the entries that have not
    expired. *)

From S2P Require Import Prelude.

Record Entry := { value : bytes; expires_at : option Z }.

Definition is_expired (now : Z) (e : Entry) : bool :=
  match expires_at e with
  | Some deadline => deadline <=? now
  | None => false
  end.

Inductive TableError :=
| Full (max : Z)
| NotACounter (key : bytes).

Record SharedTable := {
  tbl_map : gmap bytes Entry;
  max_entries : Z;
  evictions : Z }.

Definition with_map (t : SharedTable) (m : gmap bytes Entry) : SharedTable :=
  {| tbl_map := m; max_entries := max_entries t; evictions := evictions t |}.

Definition table_new (max : Z) : SharedTable :=
  {| tbl_map := ∅; max_entries := max; evictions := 0 |}.

(** [self.map.len()] *)
Definition table_size (t : SharedTable) : Z := Z.of_nat (size (tbl_map t)).

(** ** The atomic steps of [set] and [incr] *)

(** [get_mut] on an existing key: [None] when the key is new. *)
Definition set_existing (key val : bytes) (deadline : option Z) (t : SharedTable)
    : option SharedTable :=
  match tbl_map t !! key with
  | Some _ => Some (with_map t (<[key := {| value := val; expires_at := deadline |}]> (tbl_map t)))
  | None => None
  end.

Definition insert_new (key val : bytes) (deadline : option Z) (t : SharedTable) : SharedTable :=
  with_map t (<[key := {| value := val; expires_at := deadline |}]> (tbl_map t)).

Definition at_capacity (t : SharedTable) : bool := max_entries t <=? table_size t.

(** The fast path of [incr], under the entry's lock. *)
Definition incr_existing (now : Z) (key : bytes) (delta : Z) (t : SharedTable)
    : option (result Z TableError * SharedTable) :=
  match tbl_map t !! key with
  | None => None
  | Some e =>
      if is_expired now e then Some (Ok delta, insert_new key (le_bytes 8 delta) None t)
      else if negb (zlen (value e) =? 8) then Some (Err (NotACounter key), t)
      else
        let cur := wrap_i 64 (le_val (value e)) in
        let new := wrap_i 64 (cur + delta) in
        Some (Ok new, insert_new key (le_bytes 8 new) (expires_at e) t)
  end.

(** ** The operations *)

Definition set (now : Z) (key val : bytes) (ttl : option Z) (t : SharedTable)
    : result unit TableError * SharedTable :=
  let deadline := (λ d, now + d) <$> ttl in
  match set_existing key val deadline t with
  | Some t' => (Ok tt, t')
  | None =>
      if at_capacity t then (Err (Full (max_entries t)), t)
      else (Ok tt, insert_new key val deadline t)
  end.

Definition get (now : Z) (key : bytes) (t : SharedTable) : option bytes * SharedTable :=
  match tbl_map t !! key with
  | None => (None, t)
  | Some e =>
      if negb (is_expired now e) then (Some (value e), t)
      else (None, with_map t (delete key (tbl_map t)))
  end.

Definition del (now : Z) (key : bytes) (t : SharedTable) : bool * SharedTable :=
  match tbl_map t !! key with
  | Some e => (negb (is_expired now e), with_map t (delete key (tbl_map t)))
  | None => (false, t)
  end.

Definition exists_key (now : Z) (key : bytes) (t : SharedTable) : bool * SharedTable :=
  let '(r, t') := get now key t in (bool_decide (is_Some r), t').

Definition incr (now : Z) (key : bytes) (delta : Z) (t : SharedTable)
    : result Z TableError * SharedTable :=
  match incr_existing now key delta t with
  | Some r => r
  | None =>
      if at_capacity t then (Err (Full (max_entries t)), t)
      else (Ok delta, insert_new key (le_bytes 8 delta) None t)
  end.

Definition table_clear (t : SharedTable) : Z * SharedTable := (table_size t, with_map t ∅).

Definition sweep_expired (now : Z) (t : SharedTable) : Z * SharedTable :=
  let kept := filter (λ '(_, e), is_expired now e = false) (tbl_map t) in
  let removed := table_size t - Z.of_nat (size kept) in
  (removed,
   {| tbl_map := kept; max_entries := max_entries t;
      evictions := if 0 <? removed then wrap_u 64 (evictions t + removed) else evictions t |}).

(** ** Concurrent increments *)

(** A thread in [incr]: about to look the key up, past the lookup of an absent
    key, past the capacity check, or done. *)
Inductive incr_pc := Lookup | Missed | Admissible | Returned (r : result Z TableError).

(** One atomic step of a thread. *)
Inductive incr_step (now : Z) (key : bytes) (delta : Z) :
    incr_pc * SharedTable → incr_pc * SharedTable → Prop :=
| step_existing t r t' :
    incr_existing now key delta t = Some (r, t') →
    incr_step now key delta (Lookup, t) (Returned r, t')
| step_missing t :
    incr_existing now key delta t = None → incr_step now key delta (Lookup, t) (Missed, t)
| step_full t :
    at_capacity t = true →
    incr_step now key delta (Missed, t) (Returned (Err (Full (max_entries t))), t)
| step_admit t :
    at_capacity t = false → incr_step now key delta (Missed, t) (Admissible, t)
| step_insert t :
    incr_step now key delta (Admissible, t)
      (Returned (Ok delta), insert_new key (le_bytes 8 delta) None t).

(** Two threads that increment the same key, in any interleaving. *)
Inductive two_incr (now : Z) (key : bytes) (d1 d2 : Z) :
    incr_pc * incr_pc * SharedTable → incr_pc * incr_pc * SharedTable → Prop :=
| two_left a a' x t t' :
    incr_step now key d1 (a, t) (a', t') → two_incr now key d1 d2 (a, x, t) (a', x, t')
| two_right a x x' t t' :
    incr_step now key d2 (x, t) (x', t') → two_incr now key d1 d2 (a, x, t) (a, x', t').

(** ** Histories *)

Inductive op :=
| OGet (key : bytes)
| OSet (key val : bytes) (ttl : option Z)
| ODel (key : bytes)
| OExists (key : bytes)
| OIncr (key : bytes) (delta : Z)
| OClear
| OSweep.

Inductive response :=
| RValue (v : option bytes)
| RSet (r : result unit TableError)
| RBool (found : bool)
| RCount (r : result Z TableError)
| RDone.

Definition table_step (now : Z) (o : op) (t : SharedTable) : response * SharedTable :=
  match o with
  | OGet k => let '(v, t') := get now k t in (RValue v, t')
  | OSet k v ttl => let '(r, t') := set now k v ttl t in (RSet r, t')
  | ODel k => let '(found, t') := del now k t in (RBool found, t')
  | OExists k => let '(found, t') := exists_key now k t in (RBool found, t')
  | OIncr k d => let '(r, t') := incr now k d t in (RCount r, t')
  | OClear => (RDone, (table_clear t).2)
  | OSweep => (RDone, (sweep_expired now t).2)
  end.

(** The calls of a history, each at its time, with their responses. *)
Fixpoint table_trace (h : list (Z * op)) (t : SharedTable) : list (Z * op * response) :=
  match h with
  | [] => []
  | (now, o) :: h' => let '(r, t') := table_step now o t in (now, o, r) :: table_trace h' t'
  end.

Fixpoint table_run (h : list (Z * op)) (t : SharedTable) : SharedTable :=
  match h with
  | [] => t
  | (now, o) :: h' => table_run h' (table_step now o t).2
  end.

(** ** The abstract table *)

(** A map without a bound from which expired entries vanish by themselves. *)
Definition live (now : Z) (e : Entry) : bool :=
  match expires_at e with Some deadline => now <? deadline | None => true end.

Definition purge (now : Z) (m : gmap bytes Entry) : gmap bytes Entry :=
  filter (λ '(_, e), live now e = true) m.

Definition spec_step (now : Z) (o : op) (m : gmap bytes Entry) : response * gmap bytes Entry :=
  let m := purge now m in
  match o with
  | OGet k => (RValue (value <$> m !! k), m)
  | OSet k v ttl =>
      (RSet (Ok tt), <[k := {| value := v; expires_at := Z.add now <$> ttl |}]> m)
  | ODel k => (RBool (bool_decide (is_Some (m !! k))), delete k m)
  | OExists k => (RBool (bool_decide (is_Some (m !! k))), m)
  | OIncr k d =>
      match m !! k with
      | None => (RCount (Ok d), <[k := {| value := le_bytes 8 d; expires_at := None |}]> m)
      | Some e =>
          if zlen (value e) =? 8 then
            let new := wrap_i 64 (wrap_i 64 (le_val (value e)) + d) in
            (RCount (Ok new),
             <[k := {| value := le_bytes 8 new; expires_at := expires_at e |}]> m)
          else (RCount (Err (NotACounter k)), m)
      end
  | OClear => (RDone, ∅)
  | OSweep => (RDone, m)
  end.

(** How an operation that needs a new entry is refused. *)
Definition refusal (max : Z) (o : op) : option (bytes * response) :=
  match o with
  | OSet k _ _ => Some (k, RSet (Err (Full max)))
  | OIncr k _ => Some (k, RCount (Err (Full max)))
  | _ => None
  end.

(** The keys that take up room: those written and neither deleted nor swept
    away since. *)
Definition occupied_step (now : Z) (o : op) (m : gmap bytes Entry) (occupied : gset bytes)
    : gset bytes :=
  match o with
  | OSet k _ _ | OIncr k _ => {[k]} ∪ occupied
  | ODel k => occupied ∖ {[k]}
  | OClear => ∅
  | OSweep => dom (purge now m)
  | _ => occupied
  end.

(** The histories of the abstract table, from a time on; it refuses a new entry
    only when its room is taken up. *)
Inductive spec_trace (max : Z)
    : Z → gmap bytes Entry → gset bytes → list (Z * op * response) → Prop :=
| spec_nil clock m occupied : spec_trace max clock m occupied []
| spec_ok clock m occupied now o r m' tr :
    clock ≤ now → spec_step now o m = (r, m') →
    spec_trace max now m' (occupied_step now o m occupied) tr →
    spec_trace max clock m occupied ((now, o, r) :: tr)
| spec_full clock m occupied now o k r tr :
    clock ≤ now → refusal max o = Some (k, r) → purge now m !! k = None →
    max ≤ Z.of_nat (size occupied) →
    spec_trace max now m occupied tr → spec_trace max clock m occupied ((now, o, r) :: tr).

(** ** Lemmas *)

Lemma live_expired now e : live now e = negb (is_expired now e).
Proof. unfold live, is_expired. destruct (expires_at e); [|done]. by rewrite Z.ltb_antisym. Qed.

Lemma purge_sweep now m : filter (λ '(_, e), is_expired now e = false) m = purge now m.
Proof.
  apply map_filter_ext. intros k e _. rewrite live_expired. by destruct (is_expired now e).
Qed.

Lemma lookup_purge now m k : purge now m !! k =
  match m !! k with
  | Some e => if is_expired now e then None else Some e
  | None => None
  end.
Proof.
  unfold purge. destruct (m !! k) as [e|] eqn:E.
  - destruct (is_expired now e) eqn:X.
    + apply map_lookup_filter_None. right. intros e' He'. simplify_eq.
      by rewrite live_expired, X.
    + apply map_lookup_filter_Some. by rewrite live_expired, X.
  - apply map_lookup_filter_None. by left.
Qed.

Lemma is_expired_mono now now' e : now ≤ now' → is_expired now e = true →
  is_expired now' e = true.
Proof. unfold is_expired. destruct (expires_at e); [|done]. rewrite !Z.leb_le. lia. Qed.

Lemma purge_purge now now' m : now ≤ now' → purge now' (purge now m) = purge now' m.
Proof.
  intros H. apply map_eq. intros k. rewrite !lookup_purge.
  destruct (m !! k) as [e|]; [|done]. destruct (is_expired now e) eqn:E; [|done].
  by rewrite (is_expired_mono now now' e H E).
Qed.

Lemma purge_insert now k e m :
  purge now (<[k := e]> m) =
    if is_expired now e then delete k (purge now m) else <[k := e]> (purge now m).
Proof.
  apply map_eq. intros j. rewrite lookup_purge. destruct (decide (j = k)) as [->|Hne].
  - rewrite lookup_insert_eq. destruct (is_expired now e).
    + by rewrite lookup_delete_eq.
    + by rewrite lookup_insert_eq.
  - rewrite lookup_insert_ne, <-lookup_purge by done. destruct (is_expired now e).
    + by rewrite lookup_delete_ne.
    + by rewrite lookup_insert_ne.
Qed.

Lemma purge_delete now k m : purge now (delete k m) = delete k (purge now m).
Proof.
  apply map_eq. intros j. rewrite lookup_purge. destruct (decide (j = k)) as [->|Hne].
  - by rewrite !lookup_delete_eq.
  - by rewrite !lookup_delete_ne, lookup_purge.
Qed.

(** One operation: the abstract step, or a refusal for want of room. *)
Lemma table_step_spec now o t m : purge now (tbl_map t) = purge now m →
  let '(r, t') := table_step now o t in
  (∃ m', spec_step now o m = (r, m') ∧ purge now (tbl_map t') = purge now m') ∨
  (∃ k, refusal (max_entries t) o = Some (k, r) ∧ tbl_map t !! k = None ∧
        at_capacity t = true ∧ t' = t).
Proof.
  intros Hm. assert (purge now (purge now m) = purge now m) as Hpp by (by apply purge_purge).
  assert (purge now (tbl_map t) = purge now (purge now m)) as Hm' by congruence.
  assert (∀ k, purge now m !! k = match tbl_map t !! k with
    | Some e => if is_expired now e then None else Some e | None => None end) as Hk.
  { intros k. by rewrite <-Hm, lookup_purge. }
  destruct o as [k|k v ttl|k|k|k d| |]; simpl; rewrite ?Hk.
  - unfold get. destruct (tbl_map t !! k) as [e|] eqn:E; simpl; [|eauto].
    destruct (is_expired now e) eqn:X; simpl; left; [|by eauto].
    eexists. split; [done|]. rewrite purge_delete, Hm, Hpp.
    apply delete_id. by rewrite Hk, E, X.
  - unfold set, set_existing. destruct (tbl_map t !! k) as [e|] eqn:E; simpl.
    { left. eexists. split; [done|]. by rewrite !purge_insert, Hpp, Hm. }
    destruct (at_capacity t) eqn:X; simpl; [right; by exists k|]. left. eexists. split; [done|].
    by rewrite !purge_insert, Hpp, Hm.
  - unfold del. destruct (tbl_map t !! k) as [e|] eqn:E; simpl; left.
    + eexists. split; [by destruct (is_expired now e)|]. by rewrite !purge_delete, Hpp, Hm.
    + eexists. split; [done|]. rewrite purge_delete, Hpp, Hm, delete_id; [done|]. by rewrite Hk, E.
  - unfold exists_key, get. destruct (tbl_map t !! k) as [e|] eqn:E; simpl; [|eauto].
    destruct (is_expired now e) eqn:X; simpl; left; [|by eauto].
    eexists. split; [done|]. rewrite purge_delete, Hm, Hpp.
    apply delete_id. by rewrite Hk, E, X.
  - unfold incr, incr_existing. destruct (tbl_map t !! k) as [e|] eqn:E; simpl.
    + destruct (is_expired now e) eqn:X; simpl.
      { left. eexists. split; [done|]. by rewrite !purge_insert, Hpp, Hm. }
      destruct (zlen (value e) =? 8); simpl; left; [|by eauto].
      eexists. split; [done|]. by rewrite !purge_insert, Hpp, Hm.
    + destruct (at_capacity t) eqn:X; simpl; [right; by exists k|]. left. eexists.
      split; [done|]. by rewrite !purge_insert, Hpp, Hm.
  - left. by eexists.
  - left. eexists. split; [done|]. by rewrite purge_sweep, Hm.
Qed.

(** The occupied keys are an upper bound of those the table holds. *)
Lemma table_step_occupied now o t m occupied :
  purge now (tbl_map t) = purge now m → dom (tbl_map t) ⊆ occupied →
  dom (tbl_map (table_step now o t).2) ⊆ occupied_step now o m occupied.
Proof.
  intros Hm Hd. destruct o; simpl;
    unfold get, set, set_existing, del, exists_key, get, incr, incr_existing;
    repeat case_match; simplify_eq/=; rewrite ?purge_sweep, ?Hm, ?dom_insert, ?dom_delete;
    try match goal with E : tbl_map _ !! _ = None |- _ => apply not_elem_of_dom in E end;
    set_solver.
Qed.

(** The bound holds along every sequential history. *)
Lemma table_step_size now o t : table_size t ≤ max_entries t →
  let t' := (table_step now o t).2 in
  max_entries t' = max_entries t ∧ table_size t' ≤ max_entries t'.
Proof.
  intros H. unfold table_size in *.
  assert (∀ k e, tbl_map t !! k = None → at_capacity t = false →
    Z.of_nat (size (<[k := e]> (tbl_map t))) ≤ max_entries t) as Hnew.
  { intros k e Hk Hc. unfold at_capacity, table_size in Hc. rewrite map_size_insert_None by done.
    lia. }
  assert (∀ k e e', tbl_map t !! k = Some e' →
    Z.of_nat (size (<[k := e]> (tbl_map t))) ≤ max_entries t) as Hold.
  { intros k e e' Hk. rewrite map_size_insert_Some; [done|eauto]. }
  assert (∀ k, Z.of_nat (size (delete k (tbl_map t))) ≤ max_entries t) as Hdel.
  { intros k. rewrite map_size_delete. destruct (tbl_map t !! k); simpl; lia. }
  destruct o; simpl; unfold get, set, set_existing, del, exists_key, get, incr, incr_existing;
    repeat case_match; simplify_eq/=; split; eauto.
  - rewrite map_size_empty. lia.
  - pose proof (map_filter_subseteq (λ '(_, e), is_expired now e = false) (tbl_map t)) as Hs.
    apply map_subseteq_size in Hs. lia.
Qed.

Lemma table_run_size h t : table_size t ≤ max_entries t →
  max_entries (table_run h t) = max_entries t ∧ table_size (table_run h t) ≤ max_entries t.
Proof.
  revert t. induction h as [|[now o] h IH]; intros t Ht; [done|]. simpl.
  destruct (table_step_size now o t Ht) as [E Hs]. rewrite <-E. by apply IH.
Qed.

(** Times that never go back. *)
Fixpoint monotone {A} (clock : Z) (h : list (Z * A)) : Prop :=
  match h with
  | [] => True
  | (now, _) :: h' => clock ≤ now ∧ monotone now h'
  end.

Lemma table_trace_spec h clock t m occupied : monotone clock h →
  purge clock (tbl_map t) = purge clock m → dom (tbl_map t) ⊆ occupied →
  table_size t ≤ max_entries t →
  spec_trace (max_entries t) clock m occupied (table_trace h t).
Proof.
  revert clock t m occupied.
  induction h as [|[now o] h IH]; intros clock t m occupied Hmono Hm Hd Hsize; [constructor|]. destruct Hmono as [Hle Hmono]. simpl.
  assert (purge now (tbl_map t) = purge now m) as Hm'.
  { by rewrite <-(purge_purge clock now (tbl_map t) Hle), Hm, purge_purge. }
  pose proof (table_step_spec now o t m Hm') as H.
  pose proof (table_step_size now o t Hsize) as [Emax Hsize'].
  pose proof (table_step_occupied now o t m occupied Hm' Hd) as Hd'.
  destruct (table_step now o t) as [r t']; simpl in *.
  destruct H as [(m' & E & Hm'')|(k & E & Hk & Hcap & ->)].
  - econstructor; [done|exact E|]. rewrite <-Emax. by apply IH.
  - eapply spec_full; [done|exact E|by rewrite <-Hm', lookup_purge, Hk| |by apply IH].
    apply subseteq_size in Hd. rewrite size_dom in Hd.
    unfold at_capacity, table_size in Hcap. lia.
Qed.

(** ** Properties *)



(** Increments of a new counter are not atomic: when two callers both look
    the key up before either inserts it, both are told they made the counter,
    and one of the two increments is lost. *)
Theorem concurrent_incr_loses_update (now : Z) (key : bytes) (d1 d2 : Z) (t : SharedTable) :
  tbl_map t !! key = None → at_capacity t = false →
  ∃ t', rtc (two_incr now key d1 d2) (Lookup, Lookup, t) (Returned (Ok d1), Returned (Ok d2), t') ∧
        (get now key t').1 = Some (le_bytes 8 d2).
Proof.
  intros Hk Hc.
  assert (∀ d, incr_existing now key d t = None) as Hmiss.
  { intros d. unfold incr_existing. by rewrite Hk. }
  eexists. split.
  - eapply rtc_l; [apply two_left, step_missing, Hmiss|].
    eapply rtc_l; [apply two_right, step_missing, Hmiss|].
    eapply rtc_l; [apply two_left, step_admit, Hc|].
    eapply rtc_l; [apply two_right, step_admit, Hc|].
    eapply rtc_l; [apply two_left, step_insert|].
    eapply rtc_l; [apply two_right, step_insert|]. apply rtc_refl.
  - unfold get. simpl. by rewrite lookup_insert_eq.
Qed.

Lemma concurrent_incr_loses_update_witness :
  ∃ t', rtc (two_incr 0 (lit "hits") 1 1) (Lookup, Lookup, table_new 10)
          (Returned (Ok 1), Returned (Ok 1), t') ∧
        (get 0 (lit "hits") t').1 = Some (le_bytes 8 1).
Proof.
  apply (concurrent_incr_loses_update 0 (lit "hits") 1 1 (table_new 10)); reflexivity.
Defined.
