(* ===== verification/Notify.v ===== *)
(** * The wake-up primitive

    [tokio::sync::Notify] as the crates rely on it: its documented behaviour is
    an interface, and what is proved of the task queue and of the coalescer
    holds for everything that has it. *)

From S2P Require Import Prelude.

(** What has become of the [Notified] future of a task: none, created but not
    polled yet, polled and waiting, or notified. *)
Inductive fut_state := Absent | Init | Parked | Ready.

#[global] Instance fut_state_eq_dec : EqDecision fut_state.
Proof. solve_decision. Defined.

(** The operations; a task is a number and has at most one future at a time. *)
Class NotifyOps (N : Type) := {
  notify_new : N;
  notified : nat → N → N;
  poll : nat → N → bool * N;
  drop_notified : nat → N → N;
  notify_one : N → N;
  notify_waiters : N → N;
  permit : N → bool;
  fut : N → nat → fut_state }.

(** The documented behaviour: at most one permit is stored, and only by
    [notify_one] when nobody waits; [notify_waiters] reaches every future that
    exists and stores nothing. *)
Class Notify (N : Type) `{NotifyOps N} : Prop := {
  new_permit : permit (notify_new : N) = false;
  new_fut i : fut (notify_new : N) i = Absent;
  notified_permit i n : permit (notified i n) = permit n;
  notified_fut i n j : fut (notified i n) j = if decide (i = j) then Init else fut n j;
  poll_ready i n : fut n i = Ready →
    (poll i n).1 = true ∧ permit (poll i n).2 = permit n ∧
    ∀ j, fut (poll i n).2 j = if decide (i = j) then Absent else fut n j;
  poll_permit i n : fut n i = Init → permit n = true →
    (poll i n).1 = true ∧ permit (poll i n).2 = false ∧
    ∀ j, fut (poll i n).2 j = if decide (i = j) then Absent else fut n j;
  poll_park i n : fut n i = Init → permit n = false →
    (poll i n).1 = false ∧ permit (poll i n).2 = false ∧
    ∀ j, fut (poll i n).2 j = if decide (i = j) then Parked else fut n j;
  poll_pending i n : fut n i = Parked → poll i n = (false, n);
  notify_one_wakes n i : fut n i = Parked →
    permit (notify_one n) = permit n ∧
    ∃ k, fut n k = Parked ∧ ∀ j, fut (notify_one n) j = if decide (k = j) then Ready else fut n j;
  notify_one_stores n : (∀ i, fut n i ≠ Parked) →
    permit (notify_one n) = true ∧ ∀ j, fut (notify_one n) j = fut n j;
  notify_waiters_permit n : permit (notify_waiters n) = permit n;
  notify_waiters_fut n j : fut (notify_waiters n) j =
    match fut n j with Absent => Absent | _ => Ready end }.

(** ** An implementation *)

Record simple_notify := { sn_permit : bool; sn_futs : gmap nat fut_state }.

Definition sn_fut (n : simple_notify) (i : nat) : fut_state := default Absent (sn_futs n !! i).

Definition sn_set (i : nat) (s : fut_state) (n : simple_notify) : simple_notify :=
  {| sn_permit := sn_permit n; sn_futs := <[i := s]> (sn_futs n) |}.

Definition sn_set_permit (b : bool) (n : simple_notify) : simple_notify :=
  {| sn_permit := b; sn_futs := sn_futs n |}.

Definition sn_poll (i : nat) (n : simple_notify) : bool * simple_notify :=
  match sn_fut n i with
  | Ready => (true, sn_set i Absent n)
  | Init => if sn_permit n then (true, sn_set i Absent (sn_set_permit false n))
            else (false, sn_set i Parked n)
  | Absent | Parked => (false, n)
  end.

Definition sn_notify_one (n : simple_notify) : simple_notify :=
  match list_find (λ '(_, s), s = Parked) (map_to_list (sn_futs n)) with
  | Some (_, (k, _)) => sn_set k Ready n
  | None => sn_set_permit true n
  end.

#[global] Instance simple_notify_ops : NotifyOps simple_notify := {|
  notify_new := {| sn_permit := false; sn_futs := ∅ |};
  notified := λ i, sn_set i Init;
  poll := sn_poll;
  drop_notified := λ i, sn_set i Absent;
  notify_one := sn_notify_one;
  notify_waiters := λ n,
    {| sn_permit := sn_permit n;
       sn_futs := (λ s, match s with Absent => Absent | _ => Ready end) <$> sn_futs n |};
  permit := sn_permit;
  fut := sn_fut |}.

Lemma sn_fut_set i s n j : sn_fut (sn_set i s n) j = if decide (i = j) then s else sn_fut n j.
Proof.
  unfold sn_fut, sn_set. simpl. case_decide; subst.
  - by rewrite lookup_insert_eq.
  - by rewrite lookup_insert_ne.
Qed.

Lemma sn_find_parked n :
  match list_find (λ '(_, s), s = Parked) (map_to_list (sn_futs n)) with
  | Some (_, (k, s)) => sn_fut n k = Parked
  | None => ∀ i, sn_fut n i ≠ Parked
  end.
Proof.
  destruct (list_find _ _) as [[idx [k s]]|] eqn:E.
  - apply list_find_Some in E as (El & -> & _).
    apply list_elem_of_lookup_2, elem_of_map_to_list in El. unfold sn_fut. by rewrite El.
  - intros i Hi. rewrite list_find_None, Forall_forall in E. unfold sn_fut in Hi.
    destruct (sn_futs n !! i) as [s|] eqn:Ei; simplify_eq/=.
    apply (E (i, Parked)); [|done]. by apply elem_of_map_to_list.
Qed.

#[global] Instance simple_notify_laws : Notify simple_notify.
Proof.
  split; simpl; try done.
  - intros. apply sn_fut_set.
  - intros i n E. unfold sn_poll. rewrite E. simpl. split_and!; try done.
    intros. apply sn_fut_set.
  - intros i n E P. unfold sn_poll. rewrite E, P. simpl. split_and!; try done.
    intros. apply (sn_fut_set i Absent (sn_set_permit false n)).
  - intros i n E P. unfold sn_poll. rewrite E, P. simpl. split_and!; try done.
    intros. apply sn_fut_set.
  - intros i n E. unfold sn_poll. by rewrite E.
  - intros n i E. unfold sn_notify_one. pose proof (sn_find_parked n) as H.
    destruct (list_find _ _) as [[idx [k s]]|]; [|by destruct (H i)].
    split; [done|]. exists k. split; [done|]. intros. apply sn_fut_set.
  - intros n Hn. unfold sn_notify_one. pose proof (sn_find_parked n) as H.
    destruct (list_find _ _) as [[idx [k s]]|]; [by destruct (Hn k)|done].
  - intros n j. unfold sn_fut. simpl. rewrite lookup_fmap. by destruct (sn_futs n !! j).
Qed.
