(* ===== verification/TaskQueue.v ===== *)
(** * The task queue (turbine-core/src/task_queue.rs)

    Named bounded FIFO channels. The first part has the operations as a single
    caller sees them, over the map of channels. The second has one channel
    under concurrency: producers and long-polling consumers take the steps of
    [push] and [pop] in any order, with [Notify] as the wake-up. *)

From Stdlib Require Import Sorting.Sorted.
From S2P Require Import Prelude Notify.

Inductive QueueError :=
| QueueFull (channel : bytes) (max : Z)
| TooManyChannels (max : Z).

#[global] Instance queue_error_eq_dec : EqDecision QueueError.
Proof. solve_decision. Defined.

Record Job := { job_id : Z; payload : bytes; enqueued_at : Z }.

Record Channel := { queue : list Job; capacity : Z }.

Record TaskQueue := {
  channels : gmap bytes Channel;
  max_channels : Z;
  default_channel_capacity : Z;
  next_id : Z;
  total_pushed : Z;
  total_popped : Z;
  total_rejected : Z }.

Definition queue_new (max cap : Z) : TaskQueue :=
  {| channels := ∅; max_channels := max; default_channel_capacity := cap; next_id := 1;
     total_pushed := 0; total_popped := 0; total_rejected := 0 |}.

(** ** Updates; the counters are [AtomicU64]s and wrap *)

Definition set_channels (m : gmap bytes Channel) (q : TaskQueue) : TaskQueue :=
  {| channels := m; max_channels := max_channels q;
     default_channel_capacity := default_channel_capacity q; next_id := next_id q;
     total_pushed := total_pushed q; total_popped := total_popped q;
     total_rejected := total_rejected q |}.

Definition bump_id (q : TaskQueue) : TaskQueue :=
  {| channels := channels q; max_channels := max_channels q;
     default_channel_capacity := default_channel_capacity q;
     next_id := wrap_u 64 (next_id q + 1); total_pushed := total_pushed q;
     total_popped := total_popped q; total_rejected := total_rejected q |}.

Definition bump_totals (pushed popped rejected : Z) (q : TaskQueue) : TaskQueue :=
  {| channels := channels q; max_channels := max_channels q;
     default_channel_capacity := default_channel_capacity q; next_id := next_id q;
     total_pushed := wrap_u 64 (total_pushed q + pushed);
     total_popped := wrap_u 64 (total_popped q + popped);
     total_rejected := wrap_u 64 (total_rejected q + rejected) |}.

Definition set_queue (name : bytes) (ch : Channel) (js : list Job) (q : TaskQueue) : TaskQueue :=
  set_channels (<[name := {| queue := js; capacity := capacity ch |}]> (channels q)) q.

(** ** Operations *)

Definition channel_or_create (name : bytes) (q : TaskQueue)
    : result Channel QueueError * TaskQueue :=
  match channels q !! name with
  | Some ch => (Ok ch, q)
  | None =>
      if max_channels q <=? Z.of_nat (size (channels q)) then
        (Err (TooManyChannels (max_channels q)), q)
      else
        let ch := {| queue := []; capacity := default_channel_capacity q |} in
        (Ok ch, set_channels (<[name := ch]> (channels q)) q)
  end.

(** The critical section of [push]: [None] when the channel is full. *)
Definition push_back (ch : Channel) (j : Job) : option (list Job) :=
  if capacity ch <=? zlen (queue ch) then None else Some (queue ch ++ [j]).

Definition push (now : Z) (name data : bytes) (q : TaskQueue) : result Z QueueError * TaskQueue :=
  match channel_or_create name q with
  | (Err e, q) => (Err e, q)
  | (Ok ch, q) =>
      let id := next_id q in
      let q := bump_id q in
      match push_back ch {| job_id := id; payload := data; enqueued_at := now |} with
      | None => (Err (QueueFull name (capacity ch)), bump_totals 0 0 1 q)
      | Some js => (Ok id, bump_totals 1 0 0 (set_queue name ch js q))
      end
  end.

(** The critical section of [pop]. *)
Definition pop_front (js : list Job) : option (Job * list Job) :=
  match js with [] => None | j :: js' => Some (j, js') end.

(** [pop] with a wait of zero. *)
Definition pop (name : bytes) (q : TaskQueue) : option Job * TaskQueue :=
  match channel_or_create name q with
  | (Err _, q) => (None, q)
  | (Ok ch, q) =>
      match pop_front (queue ch) with
      | Some (j, js) => (Some j, bump_totals 0 1 0 (set_queue name ch js q))
      | None => (None, q)
      end
  end.

Definition channel_size (name : bytes) (q : TaskQueue) : Z :=
  match channels q !! name with Some ch => zlen (queue ch) | None => 0 end.

Definition channel_clear (name : bytes) (q : TaskQueue) : Z * TaskQueue :=
  match channels q !! name with
  | Some ch => (zlen (queue ch), set_queue name ch [] q)
  | None => (0, q)
  end.

Definition channel_count (q : TaskQueue) : Z := Z.of_nat (size (channels q)).

Record QueueStats := { qs_channels : Z; qs_pushed : Z; qs_popped : Z; qs_rejected : Z }.

Definition stats (q : TaskQueue) : QueueStats :=
  {| qs_channels := channel_count q; qs_pushed := total_pushed q; qs_popped := total_popped q;
     qs_rejected := total_rejected q |}.

(** ** One channel under concurrency *)

Section concurrent.
Context {N : Type} `{Notify N}.

(** Where a consumer is in [pop]: before the first attempt, at the head of the
    loop, between creating the future and looking again, at the [await], woken,
    or returned. *)
Inductive pop_pc :=
| PFast (long_poll : bool)
| PLoop
| PRecheck
| PAwait
| PWoken
| PDone (r : option Job).

Record chan_state := {
  cs_queue : list Job;
  cs_notify : N;
  (* producers between the critical section and [notify_one] *)
  cs_notifies : nat;
  cs_consumers : nat → pop_pc;
  (* all jobs accepted, and all jobs handed out, in order *)
  cs_pushed : list Job;
  cs_popped : list Job }.

Definition upd (f : nat → pop_pc) (i : nat) (pc : pop_pc) : nat → pop_pc :=
  λ j, if decide (i = j) then pc else f j.

(** Consumer [i] goes on to [pc]; [took] is the job it took, if any. *)
Definition proceed (i : nat) (pc : pop_pc) (n : N) (took : option (Job * list Job))
    (s : chan_state) : chan_state :=
  {| cs_queue := match took with Some (_, js) => js | None => cs_queue s end;
     cs_notify := n; cs_notifies := cs_notifies s;
     cs_consumers := upd (cs_consumers s) i pc; cs_pushed := cs_pushed s;
     cs_popped := match took with Some (j, _) => cs_popped s ++ [j] | None => cs_popped s end |}.

(** Looking for a job: take it and return, or go on to [miss]. *)
Definition attempt (i : nat) (miss : pop_pc) (n_hit n_miss : N) (s : chan_state) : chan_state :=
  match pop_front (cs_queue s) with
  | Some (j, js) => proceed i (PDone (Some j)) n_hit (Some (j, js)) s
  | None => proceed i miss n_miss None s
  end.

Inductive chan_step (cap : Z) : chan_state → chan_state → Prop :=
| step_push j s js :
    push_back {| queue := cs_queue s; capacity := cap |} j = Some js →
    chan_step cap s
      {| cs_queue := js; cs_notify := cs_notify s; cs_notifies := S (cs_notifies s);
         cs_consumers := cs_consumers s; cs_pushed := cs_pushed s ++ [j];
         cs_popped := cs_popped s |}
| step_notify s k :
    cs_notifies s = S k →
    chan_step cap s
      {| cs_queue := cs_queue s; cs_notify := notify_one (cs_notify s); cs_notifies := k;
         cs_consumers := cs_consumers s; cs_pushed := cs_pushed s; cs_popped := cs_popped s |}
| step_fast i long_poll s :
    cs_consumers s i = PFast long_poll →
    chan_step cap s
      (attempt i (if long_poll then PLoop else PDone None) (cs_notify s) (cs_notify s) s)
| step_deadline i s :
    cs_consumers s i = PLoop → chan_step cap s (proceed i (PDone None) (cs_notify s) None s)
| step_notified i s :
    cs_consumers s i = PLoop →
    chan_step cap s (proceed i PRecheck (notified i (cs_notify s)) None s)
| step_recheck i s :
    cs_consumers s i = PRecheck →
    chan_step cap s (attempt i PAwait (drop_notified i (cs_notify s)) (cs_notify s) s)
| step_poll i s :
    cs_consumers s i = PAwait →
    chan_step cap s
      (proceed i (if (poll i (cs_notify s)).1 then PWoken else PAwait)
         (poll i (cs_notify s)).2 None s)
| step_timeout i s :
    cs_consumers s i = PAwait →
    chan_step cap s (proceed i (PDone None) (drop_notified i (cs_notify s)) None s)
| step_woken i s :
    cs_consumers s i = PWoken →
    chan_step cap s (attempt i PLoop (cs_notify s) (cs_notify s) s).

(** Consumers that start with or without a wait, on an empty channel. *)
Definition chan_init (waits : nat → bool) : chan_state :=
  {| cs_queue := []; cs_notify := notify_new; cs_notifies := 0;
     cs_consumers := λ i, PFast (waits i); cs_pushed := []; cs_popped := [] |}.
End concurrent.
Arguments chan_state : clear implicits.

(** ** Histories of one caller *)

Inductive queue_op :=
| QPush (now : Z) (channel data : bytes)
| QPop (channel : bytes)
| QSize (channel : bytes)
| QClear (channel : bytes).

Inductive queue_response :=
| RPush (r : result Z QueueError)
| RPop (r : option Job)
| RSize (n : Z).

Definition queue_step (o : queue_op) (q : TaskQueue) : queue_response * TaskQueue :=
  match o with
  | QPush now c data => let '(r, q') := push now c data q in (RPush r, q')
  | QPop c => let '(r, q') := pop c q in (RPop r, q')
  | QSize c => (RSize (channel_size c q), q)
  | QClear c => let '(n, q') := channel_clear c q in (RSize n, q')
  end.

Fixpoint queue_run (h : list queue_op) (q : TaskQueue)
    : list (queue_op * queue_response) * TaskQueue :=
  match h with
  | [] => ([], q)
  | o :: h' =>
      let '(r, q1) := queue_step o q in
      let '(tr, q2) := queue_run h' q1 in ((o, r) :: tr, q2)
  end.

Definition waiting_jobs (c : bytes) (q : TaskQueue) : list Job :=
  match channels q !! c with Some ch => queue ch | None => [] end.

(** The names of the channels there are, and the jobs that wait on one of them. *)
Definition fifo_state : Type := gset bytes * list (Z * bytes).

(** Whether a call may use a channel, creating it if need be. *)
Definition admits (max : Z) (names : gset bytes) (c : bytes) : bool :=
  bool_decide (c ∈ names) || (Z.of_nat (size names) <? max).

(** What a FIFO of its own would make of one call and its response: the state
    afterwards, or [None] if it would not have responded so. *)
Definition fifo_step (max cap : Z) (c : bytes) (o : queue_op) (r : queue_response)
    (st : fifo_state) : option fifo_state :=
  let '(names, js) := st in
  match o, r with
  | QPush _ c' data, RPush r' =>
      if admits max names c' then
        let names' := {[c']} ∪ names in
        match r' with
        | Ok id =>
            if decide (c = c') then
              if zlen js <? cap then Some (names', js ++ [(id, data)]) else None
            else Some (names', js)
        | Err e =>
            if decide (e = QueueFull c' cap ∧ (c = c' → cap ≤ zlen js))
            then Some (names', js) else None
        end
      else
        match r' with
        | Ok _ => None
        | Err e => if decide (e = TooManyChannels max) then Some (names, js) else None
        end
  | QPop c', RPop r' =>
      let names' := if admits max names c' then {[c']} ∪ names else names in
      if decide (c = c') then
        match r', js with
        | Some j, (id, data) :: js' =>
            if decide (job_id j = id ∧ payload j = data) then Some (names', js') else None
        | None, [] => Some (names', [])
        | _, _ => None
        end
      else Some (names', js)
  | QSize c', RSize n => if decide (c = c' → n = zlen js) then Some (names, js) else None
  | QClear c', RSize n =>
      if decide (c = c') then if decide (n = zlen js) then Some (names, []) else None
      else Some (names, js)
  | _, _ => None
  end.

Fixpoint fifo_run (max cap : Z) (c : bytes) (tr : list (queue_op * queue_response))
    (st : fifo_state) : option fifo_state :=
  match tr with
  | [] => Some st
  | (o, r) :: tr' => st' ← fifo_step max cap c o r st; fifo_run max cap c tr' st'
  end.

Definition tag (j : Job) : Z * bytes := (job_id j, payload j).

(** ** Lemmas *)

#[local] Arguments waiting_jobs : simpl never.

Lemma channel_or_create_waiting c name q :
  waiting_jobs c (channel_or_create name q).2 = waiting_jobs c q.
Proof.
  unfold channel_or_create. destruct (channels q !! name) eqn:E; [done|].
  case_match; [done|]. unfold waiting_jobs. simpl.
  destruct (decide (name = c)) as [->|]; [by rewrite lookup_insert_eq, E|].
  by rewrite lookup_insert_ne.
Qed.

Lemma channel_or_create_Ok name q ch q' : channel_or_create name q = (Ok ch, q') →
  channels q' !! name = Some ch.
Proof.
  unfold channel_or_create. intros H. repeat case_match; simplify_eq/=; [done|].
  by rewrite lookup_insert_eq.
Qed.

Lemma bump_waiting c a x y q : waiting_jobs c (bump_totals a x y q) = waiting_jobs c q.
Proof. done. Qed.

Lemma bump_id_waiting c q : waiting_jobs c (bump_id q) = waiting_jobs c q.
Proof. done. Qed.

Lemma set_queue_waiting c name ch js q :
  waiting_jobs c (set_queue name ch js q) = if decide (c = name) then js else waiting_jobs c q.
Proof.
  unfold waiting_jobs. simpl. case_decide; subst; [by rewrite lookup_insert_eq|].
  by rewrite lookup_insert_ne.
Qed.

Lemma waiting_jobs_lookup c q ch : channels q !! c = Some ch → waiting_jobs c q = queue ch.
Proof. unfold waiting_jobs. by intros ->. Qed.

(** The limits of a queue, which no operation changes. *)
Definition queue_limits (max cap : Z) (q : TaskQueue) : Prop :=
  max_channels q = max ∧ default_channel_capacity q = cap ∧
  map_Forall (λ _ ch, capacity ch = cap) (channels q).

Lemma set_queue_limits max cap name ch js q :
  queue_limits max cap q → channels q !! name = Some ch →
  queue_limits max cap (set_queue name ch js q).
Proof.
  intros (H1 & H2 & H3) Hc. split_and!; [done..|].
  simpl. apply map_Forall_insert_2; [exact (H3 _ _ Hc)|done].
Qed.

Lemma set_queue_dom name ch js q :
  channels q !! name = Some ch → dom (channels (set_queue name ch js q)) = dom (channels q).
Proof. intros H. simpl. rewrite dom_insert_lookup_L; eauto. Qed.

Lemma channel_or_create_spec max cap name q :
  queue_limits max cap q →
  match channel_or_create name q with
  | (Ok ch, q') => admits max (dom (channels q)) name = true ∧ queue_limits max cap q' ∧
      channels q' !! name = Some ch ∧ dom (channels q') = {[name]} ∪ dom (channels q)
  | (Err e, q') => admits max (dom (channels q)) name = false ∧ q' = q ∧
      e = TooManyChannels max ∧ channels q !! name = None
  end.
Proof.
  intros (H1 & H2 & H3). unfold channel_or_create, admits. rewrite size_dom.
  destruct (channels q !! name) as [ch|] eqn:E.
  - assert (name ∈ dom (channels q)) by (apply elem_of_dom; eauto).
    rewrite bool_decide_eq_true_2 by done. split_and!; [done..|set_solver].
  - rewrite bool_decide_eq_false_2 by (by apply not_elem_of_dom). simpl. rewrite H1.
    destruct (Z.leb_spec max (Z.of_nat (size (channels q)))).
    { split_and!; [apply Z.ltb_ge; lia|done..]. }
    split_and!; simpl; [by apply Z.ltb_lt| |by rewrite lookup_insert_eq|by rewrite dom_insert_L].
    split_and!; [done..|]. by apply map_Forall_insert_2.
Qed.

(** The state of the FIFO of a channel that a queue has. *)
Definition fifo_of (c : bytes) (q : TaskQueue) : fifo_state :=
  (dom (channels q), tag <$> waiting_jobs c q).

Lemma fifo_push_spec max cap c now name data q :
  queue_limits max cap q →
  let '(r, q') := push now name data q in
  queue_limits max cap q' ∧
  fifo_step max cap c (QPush now name data) (RPush r) (fifo_of c q) = Some (fifo_of c q').
Proof.
  intros Hq. unfold push, fifo_of. pose proof (channel_or_create_waiting c name q) as Hw.
  pose proof (channel_or_create_spec max cap name q Hq) as H.
  destruct (channel_or_create name q) as [[ch|e] q1]; simpl in *.
  2: { destruct H as (-> & -> & -> & _). by rewrite decide_True. }
  destruct H as (-> & Hq1 & Hc & Hd). rewrite <-Hd, <-Hw. unfold push_back.
  assert (capacity ch = cap) as -> by (by eapply (proj2 (proj2 Hq1))).
  assert (c = name → zlen (tag <$> waiting_jobs c q1) = zlen (queue ch)) as Hl.
  { intros ->. unfold zlen. by rewrite length_fmap, (waiting_jobs_lookup _ _ _ Hc). }
  destruct (Z.leb_spec cap (zlen (queue ch))); simpl.
  - split; [done|]. rewrite decide_True; [done|]. split; [done|]. intros He. by rewrite Hl.
  - split; [by apply (set_queue_limits max cap name ch _ (bump_id q1))|].
    rewrite bump_waiting, set_queue_waiting, bump_id_waiting.
    assert (dom (channels (set_queue name ch (queue ch ++
      [{| job_id := next_id q1; payload := data; enqueued_at := now |}]) (bump_id q1)))
      = dom (channels q1)) as Hd' by (by apply (set_queue_dom name ch _ (bump_id q1))).
    simpl in Hd'. rewrite Hd'. case_decide; [|done]. rewrite Hl by done.
    destruct (Z.ltb_spec (zlen (queue ch)) cap); [|lia]. subst.
    by rewrite (waiting_jobs_lookup _ _ _ Hc), fmap_app.
Qed.

Lemma fifo_pop_spec max cap c name q :
  queue_limits max cap q →
  let '(r, q') := pop name q in
  queue_limits max cap q' ∧
  fifo_step max cap c (QPop name) (RPop r) (fifo_of c q) = Some (fifo_of c q').
Proof.
  intros Hq. unfold pop, fifo_of. pose proof (channel_or_create_waiting c name q) as Hw.
  pose proof (channel_or_create_spec max cap name q Hq) as H.
  destruct (channel_or_create name q) as [[ch|e] q1]; simpl in *.
  2: { destruct H as (-> & -> & -> & Hn). split; [done|]. case_decide; [subst|done].
       unfold waiting_jobs. by rewrite Hn. }
  destruct H as (-> & Hq1 & Hc & Hd). rewrite <-Hd, <-Hw.
  destruct (queue ch) as [|j js] eqn:Ej; simpl.
  - split; [done|]. case_decide; [subst|done]. by rewrite (waiting_jobs_lookup _ _ _ Hc), Ej.
  - split; [by apply (set_queue_limits max cap name ch js q1)|].
    rewrite bump_waiting, set_queue_waiting.
    pose proof (set_queue_dom name ch js q1 Hc) as Hd'. simpl in Hd'. rewrite Hd'.
    case_decide; [subst|done]. rewrite (waiting_jobs_lookup _ _ _ Hc), Ej. simpl.
    by rewrite decide_True.
Qed.

Lemma fifo_step_spec max cap c o q :
  queue_limits max cap q →
  let '(r, q') := queue_step o q in
  queue_limits max cap q' ∧ fifo_step max cap c o r (fifo_of c q) = Some (fifo_of c q').
Proof.
  intros Hq. destruct o as [now name data|name|name|name]; cbn [queue_step].
  - pose proof (fifo_push_spec max cap c now name data q Hq). by destruct (push now name data q).
  - pose proof (fifo_pop_spec max cap c name q Hq). by destruct (pop name q).
  - split; [done|]. unfold fifo_of; simpl. rewrite decide_True; [done|]. intros ->.
    unfold channel_size, waiting_jobs, zlen. rewrite length_fmap.
    by destruct (channels q !! name).
  - unfold channel_clear, fifo_of. destruct (channels q !! name) as [ch|] eqn:E; simpl.
    + split; [by apply set_queue_limits|]. rewrite set_queue_waiting.
      pose proof (set_queue_dom name ch [] q E) as Hd. simpl in Hd. rewrite Hd.
      case_decide; [subst|done]. rewrite (waiting_jobs_lookup _ _ _ E).
      rewrite decide_True; [done|]. unfold zlen. by rewrite length_fmap.
    + split; [done|]. case_decide; [subst|done]. unfold waiting_jobs. by rewrite E.
Qed.

Lemma fifo_run_spec max cap c h q :
  queue_limits max cap q →
  let '(tr, q') := queue_run h q in
  fifo_run max cap c tr (fifo_of c q) = Some (fifo_of c q').
Proof.
  revert q. induction h as [|o h IH]; intros q Hq; [done|]. cbn [queue_run].
  pose proof (fifo_step_spec max cap c o q Hq) as Hs. destruct (queue_step o q) as [r q1].
  destruct Hs as [Hq1 Hs]. specialize (IH q1 Hq1).
  destruct (queue_run h q1) as [tr q2]. cbn [fifo_run]. by rewrite Hs.
Qed.

(** The bounds of a queue with limits [max] and [cap]. *)
Definition queue_bounded (max cap : Z) (q : TaskQueue) : Prop :=
  max_channels q = max ∧ default_channel_capacity q = cap ∧ channel_count q ≤ max ∧
  map_Forall (λ _ ch, capacity ch = cap ∧ zlen (queue ch) ≤ cap) (channels q).

Lemma set_queue_bounded max cap name ch js q :
  queue_bounded max cap q → channels q !! name = Some ch → zlen js ≤ cap →
  queue_bounded max cap (set_queue name ch js q).
Proof.
  intros (H1 & H2 & H3 & H4) Hc Hj. split_and!; try done.
  - unfold channel_count in *. simpl. rewrite map_size_insert_Some; eauto.
  - simpl. apply map_Forall_insert_2; [|done]. split; [|done]. by apply H4 in Hc as [? _].
Qed.

Lemma channel_or_create_bounded max cap name q : 0 ≤ cap → queue_bounded max cap q →
  queue_bounded max cap (channel_or_create name q).2.
Proof.
  intros Hcap Hq. pose proof Hq as (H1 & H2 & H3 & H4). unfold channel_or_create.
  destruct (channels q !! name) as [ch|] eqn:E; [done|].
  destruct (Z.leb_spec (max_channels q) (Z.of_nat (size (channels q)))); [done|].
  split_and!; try done; unfold channel_count in *; simpl.
  - rewrite map_size_insert_None by done. lia.
  - apply map_Forall_insert_2; [|done]. simpl. split; [done|]. unfold zlen. simpl. lia.
Qed.

Lemma queue_step_bounded max cap o q : 0 ≤ cap → queue_bounded max cap q →
  queue_bounded max cap (queue_step o q).2.
Proof.
  intros Hcap Hq. destruct o as [now name data|name|name|name]; simpl; [| |done|].
  - unfold push. pose proof (channel_or_create_bounded max cap name q Hcap Hq) as Hq1.
    destruct (channel_or_create name q) as [[ch|e] q1] eqn:E; [|done]. simpl in Hq1.
    apply channel_or_create_Ok in E. unfold push_back.
    destruct (Z.leb_spec (capacity ch) (zlen (queue ch))); [done|]. simpl.
    assert (queue_bounded max cap (bump_id q1)) as Hq2 by done.
    pose proof (set_queue_bounded max cap name ch
      (queue ch ++ [{| job_id := next_id q1; payload := data; enqueued_at := now |}])
      (bump_id q1) Hq2 E) as Hq3.
    apply Hq3. rewrite zlen_app. destruct Hq1 as (_ & _ & _ & H4). apply H4 in E as [<- _].
    unfold zlen in *. simpl. lia.
  - unfold pop. pose proof (channel_or_create_bounded max cap name q Hcap Hq) as Hq1.
    destruct (channel_or_create name q) as [[ch|e] q1] eqn:E; [|done]. simpl in Hq1.
    apply channel_or_create_Ok in E. destruct (queue ch) as [|j js] eqn:Ej; [done|]. simpl.
    pose proof (set_queue_bounded max cap name ch js q1 Hq1 E) as Hq3. apply Hq3.
    destruct Hq1 as (_ & _ & _ & H4). apply H4 in E as [_ E]. rewrite Ej in E.
    unfold zlen in *. simpl in E. lia.
  - unfold channel_clear. destruct (channels q !! name) as [ch|] eqn:E; [|done]. simpl.
    apply set_queue_bounded; done.
Qed.

(** The ids handed out by the accepted pushes of a trace. *)
Definition accepted_ids (tr : list (queue_op * queue_response)) : list Z :=
  omap (λ x, match x.2 with RPush (Ok id) => Some id | _ => None end) tr.

Lemma channel_or_create_id name q : next_id (channel_or_create name q).2 = next_id q.
Proof. unfold channel_or_create. by repeat case_match. Qed.

(** An accepted push gets the next id; no other call makes ids go back. *)
Lemma queue_step_id o q : 0 ≤ next_id q < 2 ^ 64 - 1 →
  let '(r, q') := queue_step o q in
  next_id q ≤ next_id q' ≤ next_id q + 1 ∧
  match r with RPush (Ok id) => id = next_id q ∧ next_id q' = next_id q + 1 | _ => True end.
Proof.
  intros Hb. destruct o as [now name data|name|name|name]; simpl.
  - unfold push. pose proof (channel_or_create_id name q) as Hi.
    destruct (channel_or_create name q) as [[ch|e] q1]; simpl in *; [|lia].
    assert (wrap_u 64 (next_id q1 + 1) = next_id q + 1) as Hw.
    { unfold wrap_u. rewrite Hi, Z.mod_small; lia. }
    destruct (push_back _ _); simpl; rewrite Hw; lia.
  - unfold pop. pose proof (channel_or_create_id name q) as Hi.
    destruct (channel_or_create name q) as [[ch|e] q1]; simpl in *; [|lia].
    destruct (queue ch); simpl; lia.
  - lia.
  - unfold channel_clear. destruct (channels q !! name); simpl; lia.
Qed.

Lemma queue_run_ids h q : 0 ≤ next_id q → next_id q + zlen h < 2 ^ 64 →
  Forall (λ id, next_id q ≤ id) (accepted_ids (queue_run h q).1) ∧
  StronglySorted Z.lt (accepted_ids (queue_run h q).1).
Proof.
  revert q. induction h as [|o h IH]; intros q Hn Hl; [split; constructor|].
  unfold zlen in *. cbn [length] in Hl. cbn [queue_run].
  pose proof (queue_step_id o q ltac:(lia)) as Hs. destruct (queue_step o q) as [r q1].
  destruct Hs as [Hr Hid]. specialize (IH q1 ltac:(lia) ltac:(lia)).
  destruct (queue_run h q1) as [tr q2]. simpl in *. destruct IH as [HF HS].
  assert (Forall (λ id, next_id q ≤ id) (accepted_ids tr)) as HF'.
  { eapply Forall_impl; [exact HF|]. simpl. lia. }
  destruct r as [[id|e]|j|n]; simpl; try done. destruct Hid as [-> Hid]. split.
  - constructor; [lia|done].
  - constructor; [done|]. eapply Forall_impl; [exact HF|]. simpl. lia.
Qed.

Lemma queue_run_bounded max cap h q : 0 ≤ cap → queue_bounded max cap q →
  queue_bounded max cap (queue_run h q).2.
Proof.
  intros Hcap. revert q. induction h as [|o h IH]; intros q Hq; [done|]. simpl.
  pose proof (queue_step_bounded max cap o q Hcap Hq) as Hq1.
  destruct (queue_step o q) as [r q1]. specialize (IH q1 Hq1).
  by destruct (queue_run h q1) as [tr q2].
Qed.

(** ** The concurrent channel *)

Section channel.
Context {N : Type} `{Notify N}.
Implicit Types s : chan_state N.

(** Jobs are handed out in the order they were accepted, each to one consumer. *)
Definition chan_inv (cap : Z) s : Prop :=
  cs_pushed s = cs_popped s ++ cs_queue s ∧
  zlen (cs_queue s) ≤ Z.max cap 0 ∧
  (∀ i j, cs_consumers s i = PDone (Some j) → j ∈ cs_popped s) ∧
  (NoDup (cs_pushed s) → ∀ i k j, cs_consumers s i = PDone (Some j) →
     cs_consumers s k = PDone (Some j) → i = k).

Lemma chan_init_inv cap waits : chan_inv cap (chan_init waits).
Proof. split_and!; simpl; [done|unfold zlen; simpl; lia|done|done]. Qed.

(** Moving on without taking a job. *)
Lemma proceed_inv cap i pc n s : (∀ j, pc ≠ PDone (Some j)) →
  chan_inv cap s → chan_inv cap (proceed i pc n None s).
Proof.
  intros Hpc (H1 & H2 & H3 & H4). split_and!; simpl; try done; unfold upd.
  - intros k j Hk. case_decide; [naive_solver|eauto].
  - intros Hnd k l j Hk Hl. repeat case_decide; naive_solver.
Qed.

Lemma attempt_inv cap i miss n_hit n_miss s : (∀ j, miss ≠ PDone (Some j)) →
  chan_inv cap s → chan_inv cap (attempt i miss n_hit n_miss s).
Proof.
  intros Hm Hs. unfold attempt. destruct (cs_queue s) as [|j js] eqn:Eq; simpl;
    [by apply proceed_inv|]. destruct Hs as (H1 & H2 & H3 & H4). rewrite Eq in *.
  split_and!; simpl; unfold upd.
  - by rewrite H1, <-(assoc_L app).
  - unfold zlen in *. simpl in H2. lia.
  - intros k j' Hk. apply elem_of_app. case_decide; simplify_eq; [right; set_solver|].
    left. eauto.
  - intros Hnd k l j' Hk Hl.
    assert (∀ x, cs_consumers s x ≠ PDone (Some j)) as Hj.
    { intros x Hx%H3. rewrite H1 in Hnd. apply NoDup_app in Hnd as (_ & Hd & _).
      apply (Hd j Hx). set_solver. }
    destruct (decide (i = k)), (decide (i = l)); simplify_eq; try done;
      [by destruct (Hj l)|by destruct (Hj k)|]. eauto.
Qed.

Lemma chan_step_inv cap s s' : chan_step cap s s' → chan_inv cap s → chan_inv cap s'.
Proof.
  intros Hstep Hs. destruct Hstep as [j s js E| | | | | | | |];
    try (apply attempt_inv; [by repeat case_match|done]);
    try (apply proceed_inv; [by repeat case_match|done]); [|exact Hs].
  destruct Hs as (H1 & H2 & H3 & H4). unfold push_back in E. simpl in E.
  destruct (Z.leb_spec cap (zlen (cs_queue s))); simplify_eq. split_and!; simpl.
  - by rewrite H1, <-(assoc_L app).
  - rewrite zlen_app. unfold zlen in *. simpl. lia.
  - done.
  - intros Hnd. apply H4. by apply NoDup_app in Hnd as [? _].
Qed.

Lemma chan_reachable_inv cap waits s : rtc (chan_step cap) (chan_init waits) s → chan_inv cap s.
Proof.
  intros Hr. remember (chan_init waits) as s0 eqn:E0.
  assert (chan_inv cap s0) as Hinv by (subst; apply chan_init_inv). clear E0.
  induction Hr; [done|]. eauto using chan_step_inv.
Qed.

(** Two consumers have created their futures and not polled them when two
    notifications come: one permit is stored, and serves the first to poll. *)
Lemma notify_one_twice :
  let n := notify_one (notify_one (notified 1 (notified 0 notify_new))) : N in
  let n' := (poll 1%nat (poll 0%nat n).2).2 in
  (poll 0%nat n).1 = true ∧ (poll 1%nat (poll 0%nat n).2).1 = false ∧
  fut n' 1 = Parked ∧ permit n' = false.
Proof.
  set (n0 := notified 1 (notified 0 notify_new) : N).
  assert (∀ i, fut n0 i = if decide (1%nat = i) then Init else
    if decide (0%nat = i) then Init else Absent) as Hn0.
  { intros i. unfold n0. by rewrite !notified_fut, new_fut. }
  destruct (notify_one_stores n0) as [P1 F1].
  { intros i. rewrite Hn0. by repeat case_decide. }
  destruct (notify_one_stores (notify_one n0)) as [P2 F2].
  { intros i. rewrite F1, Hn0. by repeat case_decide. }
  set (n2 := notify_one (notify_one n0)) in *.
  destruct (poll_permit 0 n2) as (R3 & P3 & F3); [by rewrite F2, F1, Hn0|done|].
  destruct (poll_park 1 (poll 0%nat n2).2) as (R4 & P4 & F4); [|done|].
  { rewrite F3. simpl. by rewrite F2, F1, Hn0. }
  by split_and!.
Qed.
End channel.

(** ** Properties *)

(** Each channel is a bounded FIFO of its own. In every history of calls, what
    the queue answered for a channel is what a list would have: a pop returns the
    oldest job waiting and [None] only when none waits, a push is refused exactly
    when [cap] jobs wait or the channel would be one too many, sizes and clears
    count the waiting jobs, calls on other channels change nothing, and the jobs
    left are the ones the list has left. *)
Theorem task_queue_channels_fifo (max cap : Z) (h : list queue_op) (c : bytes) :
  let '(tr, q) := queue_run h (queue_new max cap) in
  ∃ names, fifo_run max cap c tr (∅, []) = Some (names, tag <$> waiting_jobs c q).
Proof.
  pose proof (fifo_run_spec max cap c h (queue_new max cap)) as H.
  destruct (queue_run h (queue_new max cap)) as [tr q]. eexists. apply H.
  split_and!; [done..|]. apply map_Forall_empty.
Qed.

(** The queue keeps its bounds and never reuses an id: after any calls there
    are at most [max_channels] channels with at most [capacity] jobs each, and
    the ids of the accepted jobs increase strictly, for as long as the 64-bit
    counter does not wrap. *)
Theorem task_queue_bounds_and_ids (max cap : Z) (h : list queue_op) :
  0 ≤ max → 0 ≤ cap → zlen h < 2 ^ 64 - 1 →
  let '(tr, q) := queue_run h (queue_new max cap) in
  channel_count q ≤ max ∧ (∀ c, channel_size c q ≤ cap) ∧
  StronglySorted Z.lt (accepted_ids tr).
Proof.
  intros Hmax Hcap Hl.
  pose proof (queue_run_bounded max cap h (queue_new max cap) Hcap) as Hb.
  destruct (queue_run_ids h (queue_new max cap)) as [_ Hs]; [simpl; lia..|].
  destruct (queue_run h (queue_new max cap)) as [tr q]. simpl in *.
  destruct Hb as (_ & _ & Hc & Hf).
  { split_and!; [done..|unfold channel_count; simpl; by rewrite map_size_empty|].
    apply map_Forall_empty. }
  split_and!; [done| |done]. intros c. unfold channel_size.
  destruct (channels q !! c) as [ch|] eqn:E; [|done]. by apply Hf in E as [_ ?].
Qed.

Lemma task_queue_bounds_and_ids_witness :
  let h := [QPush 0 (lit "a") (lit "x"); QPush 1 (lit "b") (lit "y"); QPush 2 (lit "a") (lit "z");
            QPop (lit "a"); QPush 3 (lit "a") []] in
  let '(tr, q) := queue_run h (queue_new 1 1) in
  channel_count q ≤ 1 ∧ (∀ c, channel_size c q ≤ 1) ∧ StronglySorted Z.lt (accepted_ids tr).
Proof. intros h. by apply (task_queue_bounds_and_ids 1 1 h). Defined.



(** A consumer can miss a job that is there for it: when two consumers have
    looked and found nothing but not yet gone to sleep, two pushes leave a
    single permit; one consumer takes the first job, the other sleeps although
    the second job is queued and no notification is on its way, and then
    returns [None] at its deadline with the job still waiting. *)
Theorem task_queue_lost_wakeup {N : Type} `{Notify N} (cap : Z) (j1 j2 : Job) :
  2 ≤ cap →
  ∃ s s', rtc (chan_step cap) (chan_init (λ _, true)) s ∧
    cs_queue s = [j2] ∧ cs_notifies s = 0%nat ∧ cs_consumers s 0 = PDone (Some j1) ∧
    cs_consumers s 1 = PAwait ∧ fut (cs_notify s) 1 = Parked ∧ permit (cs_notify s) = false ∧
    chan_step cap s s' ∧ cs_consumers s' 1 = PDone None ∧ cs_queue s' = [j2].
Proof.
  intros Hcap. destruct (notify_one_twice (N := N)) as (R1 & R2 & F & P).
  do 2 eexists. split.
  - eapply rtc_l; [by apply (step_fast _ 0)|].
    eapply rtc_l; [by apply (step_fast _ 1)|].
    eapply rtc_l; [by apply (step_notified _ 0)|].
    eapply rtc_l; [by apply (step_notified _ 1)|].
    eapply rtc_l; [by apply (step_recheck _ 0)|].
    eapply rtc_l; [by apply (step_recheck _ 1)|].
    eapply rtc_l; [apply (step_push _ j1); unfold push_back; simpl;
      destruct (Z.leb_spec cap (zlen (@nil Job))); [unfold zlen in *; simpl in *; lia|done]|].
    eapply rtc_l; [apply (step_push _ j2); unfold push_back; simpl;
      destruct (Z.leb_spec cap (zlen [j1])); [unfold zlen in *; simpl in *; lia|done]|].
    eapply rtc_l; [by apply step_notify|].
    eapply rtc_l; [by apply step_notify|].
    eapply rtc_l; [by apply (step_poll _ 0)|]. simpl. rewrite R1.
    eapply rtc_l; [by apply (step_woken _ 0)|]. simpl.
    eapply rtc_l; [by apply (step_poll _ 1)|]. simpl. rewrite R2. apply rtc_refl.
  - split_and!; try done; [by apply (step_timeout _ 1)|done|done].
Qed.

Lemma task_queue_lost_wakeup_witness :
  let j i := {| job_id := i; payload := []; enqueued_at := 0 |} in
  ∃ s s' : chan_state simple_notify, rtc (chan_step 8) (chan_init (λ _, true)) s ∧
    cs_queue s = [j 2] ∧ cs_notifies s = 0%nat ∧ cs_consumers s 0 = PDone (Some (j 1)) ∧
    cs_consumers s 1 = PAwait ∧ fut (cs_notify s) 1 = Parked ∧ permit (cs_notify s) = false ∧
    chan_step 8 s s' ∧ cs_consumers s' 1 = PDone None ∧ cs_queue s' = [j 2].
Proof. intros j. by apply (task_queue_lost_wakeup 8 (j 1) (j 2)). Defined.
