(* ===== verification/Coalescer.v ===== *)
(** * Request coalescing (turbine-cache/src/coalescer.rs)

    A request for a key that is already being produced follows the one that
    produces it. Tasks run the steps of [acquire], [publish], [drop] and [wait]
    in any order; each step is what the code does under one lock, or one call
    on the slot's [Notify]. *)

From S2P Require Import Prelude Notify.

Section coalescer.
Context {T N : Type} `{Notify N}.

Record Slot := { sl_notify : N; sl_result : option T }.

(** The in-flight map, and the slots the tasks share, by address. *)
Record Coalescer := { inflight : gmap bytes nat; slots : gmap nat Slot }.

Inductive LeaderOrFollower := Leader (slot : nat) | Follower (slot : nat).

Definition coalescer_new : Coalescer := {| inflight := ∅; slots := ∅ |}.

Definition upd_slot (n : nat) (f : Slot → Slot) (c : Coalescer) : Coalescer :=
  {| inflight := inflight c; slots := alter f n (slots c) |}.

Definition on_notify (f : N → N) (sl : Slot) : Slot :=
  {| sl_notify := f (sl_notify sl); sl_result := sl_result sl |}.

Definition set_result (v : T) (sl : Slot) : Slot :=
  {| sl_notify := sl_notify sl; sl_result := Some v |}.

(** [acquire]; a new slot gets the address [fresh]. *)
Definition acquire (key : bytes) (fresh : nat) (c : Coalescer) : LeaderOrFollower * Coalescer :=
  match inflight c !! key with
  | Some n => (Follower n, c)
  | None =>
      (Leader fresh,
       {| inflight := <[key := fresh]> (inflight c);
          slots := <[fresh := {| sl_notify := notify_new; sl_result := None |}]> (slots c) |})
  end.

(** The three steps of [LeaderGuard::publish]; [drop] takes the last two. *)
Definition publish_result (n : nat) (v : T) (c : Coalescer) : Coalescer :=
  upd_slot n (set_result v) c.
Definition remove_key (key : bytes) (c : Coalescer) : Coalescer :=
  {| inflight := delete key (inflight c); slots := slots c |}.
Definition wake_followers (n : nat) (c : Coalescer) : Coalescer :=
  upd_slot n (on_notify notify_waiters) c.

Definition inflight_count (c : Coalescer) : nat := size (inflight c).

(** ** Tasks *)

(** Where a task is in [run] (or in the request handler's use of [acquire]).
    [CDone] remembers the slot it took part in. *)
Inductive pc :=
| CStart (key : bytes)
| CLead (key : bytes) (slot : nat)
| CPublished (key : bytes) (slot : nat) (v : T)
| CRemoved (slot : nat) (r : option T)
| CFollow (slot : nat)
| CAwait (slot : nat)
| CWoken (slot : nat)
| CDone (slot : nat) (r : option T).

Record co_state := { co : Coalescer; tasks : nat → pc }.

Definition upd_task (f : nat → pc) (i : nat) (p : pc) : nat → pc :=
  λ j, if decide (i = j) then p else f j.

(** Task [i] changes the coalescer and goes on. *)
Definition move (i : nat) (p : pc) (c : Coalescer) (s : co_state) : co_state :=
  {| co := c; tasks := upd_task (tasks s) i p |}.

Definition after_acquire (key : bytes) (r : LeaderOrFollower) : pc :=
  match r with Leader n => CLead key n | Follower n => CFollow n end.

Inductive co_step : co_state → co_state → Prop :=
| step_acquire i key fresh s :
    tasks s i = CStart key → slots (co s) !! fresh = None →
    co_step s (move i (after_acquire key (acquire key fresh (co s)).1)
                 (acquire key fresh (co s)).2 s)
| step_publish i key n v s :
    tasks s i = CLead key n →
    co_step s (move i (CPublished key n v) (publish_result n v (co s)) s)
| step_remove i key n v s :
    tasks s i = CPublished key n v →
    co_step s (move i (CRemoved n (Some v)) (remove_key key (co s)) s)
| step_abort i key n s :
    tasks s i = CLead key n →
    co_step s (move i (CRemoved n None) (remove_key key (co s)) s)
| step_wake i n r s :
    tasks s i = CRemoved n r → co_step s (move i (CDone n r) (wake_followers n (co s)) s)
| step_notified i n s :
    tasks s i = CFollow n →
    co_step s (move i (CAwait n) (upd_slot n (on_notify (notified i)) (co s)) s)
| step_poll i n sl s :
    tasks s i = CAwait n → slots (co s) !! n = Some sl →
    co_step s (move i (if (poll i (sl_notify sl)).1 then CWoken n else CAwait n)
                 (upd_slot n (on_notify (λ x, (poll i x).2)) (co s)) s)
| step_read i n sl s :
    tasks s i = CWoken n → slots (co s) !! n = Some sl →
    co_step s (move i (CDone n (sl_result sl)) (co s) s).

Definition co_init (keys : nat → bytes) : co_state :=
  {| co := coalescer_new; tasks := λ i, CStart (keys i) |}.

(** ** The invariant *)

(** The slot a task leads, until it has woken the followers. *)
Definition leads (p : pc) : option nat :=
  match p with
  | CLead _ n | CPublished _ n _ | CRemoved n _ => Some n
  | _ => None
  end.

(** The slot a task holds. *)
Definition holds (p : pc) : option nat :=
  match p with
  | CStart _ => None
  | CLead _ n | CPublished _ n _ | CRemoved n _ | CFollow n | CAwait n | CWoken n
  | CDone n _ => Some n
  end.

(** The key a task keeps others from producing. *)
Definition locks (p : pc) : option (bytes * nat) :=
  match p with
  | CLead k n | CPublished k n _ => Some (k, n)
  | _ => None
  end.

(** What the leader of an open slot has put into it. *)
Definition stored (p : pc) : option T :=
  match p with
  | CPublished _ _ v => Some v
  | CRemoved _ r => r
  | _ => None
  end.

(** A slot is open while it has a leader: nobody is notified, nobody is done.
    Once closed, its result is what everybody returns. *)
Definition open_slot (s : co_state) (n : nat) (sl : Slot) : Prop :=
  (∀ i, fut (sl_notify sl) i ≠ Ready) ∧
  (∀ i, tasks s i ≠ CWoken n ∧ ∀ r, tasks s i ≠ CDone n r) ∧
  ∃ i, leads (tasks s i) = Some n ∧ sl_result sl = stored (tasks s i).

Definition closed_slot (s : co_state) (n : nat) (sl : Slot) : Prop :=
  (∀ i, leads (tasks s i) ≠ Some n) ∧ (∀ i r, tasks s i = CDone n r → r = sl_result sl).

Record co_inv (s : co_state) : Prop := {
  inv_locks i k n : locks (tasks s i) = Some (k, n) → inflight (co s) !! k = Some n;
  inv_leads i j n : leads (tasks s i) = Some n → leads (tasks s j) = Some n → i = j;
  inv_holds i n : holds (tasks s i) = Some n → is_Some (slots (co s) !! n);
  inv_flight k n : inflight (co s) !! k = Some n → is_Some (slots (co s) !! n);
  inv_await i n sl : tasks s i = CAwait n → slots (co s) !! n = Some sl →
    fut (sl_notify sl) i ≠ Absent;
  inv_slots n sl : slots (co s) !! n = Some sl →
    permit (sl_notify sl) = false ∧ (open_slot s n sl ∨ closed_slot s n sl) }.

Implicit Types s : co_state.

Lemma leads_holds p n : leads p = Some n → holds p = Some n.
Proof. by destruct p. Qed.

Lemma locks_leads p k n : locks p = Some (k, n) → leads p = Some n.
Proof. destruct p; naive_solver. Qed.

Lemma upd_task_eq f i p : upd_task f i p i = p.
Proof. unfold upd_task. by rewrite decide_True. Qed.

Lemma upd_task_ne f i p j : i ≠ j → upd_task f i p j = f j.
Proof. intros. unfold upd_task. by rewrite decide_False. Qed.

(** A step of [i] that does not concern slot [m] leaves it open or closed. *)
Lemma slot_frame s i p c m sl :
  holds (tasks s i) ≠ Some m → holds p ≠ Some m →
  open_slot s m sl ∨ closed_slot s m sl →
  open_slot (move i p c s) m sl ∨ closed_slot (move i p c s) m sl.
Proof.
  intros H1 H2 [(A & B & j & C & D)|(A & B)]; [left|right].
  - split_and!; [done| |].
    + intros x. simpl. destruct (decide (i = x)) as [<-|]; [rewrite upd_task_eq|by rewrite upd_task_ne].
      split; [|intros r]; intros ->; by apply H2.
    + exists j. simpl. destruct (decide (i = j)) as [<-|]; [|by rewrite upd_task_ne].
      by apply leads_holds in C.
  - split.
    + intros x Hx. simpl in Hx. destruct (decide (i = x)) as [<-|].
      * rewrite upd_task_eq in Hx. by apply leads_holds in Hx.
      * rewrite upd_task_ne in Hx by done. by apply (A x).
    + intros x r Hx. simpl in Hx. destruct (decide (i = x)) as [<-|].
      * rewrite upd_task_eq in Hx. subst p. by destruct H2.
      * rewrite upd_task_ne in Hx by done. eauto.
Qed.

(** The parts of the invariant that only look at the tasks and the maps. *)
Lemma inv_locks_move s i p c :
  co_inv s → (∀ k n, locks p = Some (k, n) → inflight c !! k = Some n) →
  (∀ j k n, i ≠ j → locks (tasks s j) = Some (k, n) → inflight (co s) !! k = Some n →
     inflight c !! k = Some n) →
  ∀ j k n, locks (tasks (move i p c s) j) = Some (k, n) → inflight c !! k = Some n.
Proof.
  intros Hs Hp Hj j k n. simpl. destruct (decide (i = j)) as [<-|].
  - rewrite upd_task_eq. apply Hp.
  - rewrite upd_task_ne by done. intros Hl. eapply Hj; eauto. by eapply inv_locks.
Qed.

Lemma inv_leads_move s i p c :
  co_inv s → (∀ n j, leads p = Some n → i ≠ j → leads (tasks s j) ≠ Some n) →
  ∀ j k n, leads (tasks (move i p c s) j) = Some n → leads (tasks (move i p c s) k) = Some n →
  j = k.
Proof.
  intros Hs Hp j k n. simpl.
  destruct (decide (i = j)) as [<-|], (decide (i = k)) as [<-|];
    rewrite ?upd_task_eq, ?upd_task_ne by done; [done|..].
  - intros A B. by destruct (Hp n k A).
  - intros A B. by destruct (Hp n j B).
  - by apply inv_leads.
Qed.

Lemma inv_holds_move s i p c :
  co_inv s → (∀ n, holds p = Some n → is_Some (slots c !! n)) →
  (∀ n, is_Some (slots (co s) !! n) → is_Some (slots c !! n)) →
  ∀ j n, holds (tasks (move i p c s) j) = Some n → is_Some (slots c !! n).
Proof.
  intros Hs Hp Hc j n. simpl. destruct (decide (i = j)) as [<-|].
  - rewrite upd_task_eq. apply Hp.
  - rewrite upd_task_ne by done. intros Hh. apply Hc. by eapply inv_holds.
Qed.

(** A leader that goes on leading the same slot conflicts with nobody. *)
Lemma leads_same s i p n : co_inv s → leads (tasks s i) = Some n →
  (leads p = Some n ∨ leads p = None) →
  ∀ m j, leads p = Some m → i ≠ j → leads (tasks s j) ≠ Some m.
Proof.
  intros Hs Hi Hp m j Hm Hne Hj. destruct Hp as [Hp|Hp]; simplify_eq.
  apply Hne. by eapply inv_leads.
Qed.

Lemma inv_await_move s i p c :
  co_inv s →
  (∀ n sl, p = CAwait n → slots c !! n = Some sl → fut (sl_notify sl) i ≠ Absent) →
  (∀ j n sl', i ≠ j → slots c !! n = Some sl' → tasks s j = CAwait n →
     ∃ sl, slots (co s) !! n = Some sl ∧ (fut (sl_notify sl) j ≠ Absent →
       fut (sl_notify sl') j ≠ Absent)) →
  ∀ j n sl, tasks (move i p c s) j = CAwait n → slots c !! n = Some sl →
  fut (sl_notify sl) j ≠ Absent.
Proof.
  intros Hs Hp Hj j n sl. simpl. destruct (decide (i = j)) as [<-|].
  - rewrite upd_task_eq. eauto.
  - rewrite upd_task_ne by done. intros Ha Hsl.
    destruct (Hj j n sl) as (sl0 & E & Hf); [done..|]. apply Hf. by eapply inv_await.
Qed.

(** What changing the [Notify] or the result of one slot does to the map. *)
Lemma upd_slot_lookup n f (c : Coalescer) m sl' :
  slots (upd_slot n f c) !! m = Some sl' ↔
  ∃ sl, slots c !! m = Some sl ∧ sl' = if decide (n = m) then f sl else sl.
Proof.
  simpl. destruct (decide (n = m)) as [<-|].
  - rewrite lookup_alter_eq. destruct (slots c !! n); naive_solver.
  - rewrite lookup_alter_ne by done. naive_solver.
Qed.

Lemma upd_slot_is_Some n f (c : Coalescer) m :
  is_Some (slots c !! m) → is_Some (slots (upd_slot n f c) !! m).
Proof. intros Hm. simpl. by apply lookup_alter_is_Some. Qed.

(** A slot with a leader is open, one with a woken task is closed. *)
Lemma leader_open s i n sl : co_inv s → leads (tasks s i) = Some n →
  slots (co s) !! n = Some sl →
  permit (sl_notify sl) = false ∧ (∀ j, fut (sl_notify sl) j ≠ Ready) ∧
  (∀ j, tasks s j ≠ CWoken n ∧ ∀ r, tasks s j ≠ CDone n r) ∧ sl_result sl = stored (tasks s i).
Proof.
  intros Hs Hi Hsl. destruct (inv_slots s Hs n sl Hsl) as [Hp [(A & B & j & C & D)|(A & _)]];
    [|by destruct (A i)].
  assert (j = i) as -> by (by eapply inv_leads). done.
Qed.

(** A step of the leader of [n] that keeps the slot open. *)
Lemma open_slot_move s i p c n sl sl' : co_inv s → leads (tasks s i) = Some n →
  slots (co s) !! n = Some sl → leads p = Some n → sl_result sl' = stored p →
  (∀ j, fut (sl_notify sl) j ≠ Ready → fut (sl_notify sl') j ≠ Ready) →
  open_slot (move i p c s) n sl'.
Proof.
  intros Hs Hi Hsl Hp Hr Hf. destruct (leader_open s i n sl Hs Hi Hsl) as (_ & A & B & _).
  split_and!; [auto| |exists i; simpl; by rewrite upd_task_eq].
  intros x. simpl. destruct (decide (i = x)) as [<-|]; [|by rewrite upd_task_ne].
  rewrite upd_task_eq. by split; [|intros r]; intros ->.
Qed.

(** A leader's step that keeps the keys or gives up its own. *)
Lemma leader_step_inv s i n p f keys :
  co_inv s → leads (tasks s i) = Some n → leads p = Some n →
  (∀ sl, sl_notify (f sl) = sl_notify sl) →
  (∀ sl, sl_result sl = stored (tasks s i) → sl_result (f sl) = stored p) →
  (∀ k m, locks p = Some (k, m) → keys !! k = Some m) →
  (∀ j k m, i ≠ j → locks (tasks s j) = Some (k, m) → keys !! k = Some m) →
  (∀ k m, keys !! k = Some m → inflight (co s) !! k = Some m) →
  co_inv (move i p {| inflight := keys; slots := alter f n (slots (co s)) |} s).
Proof.
  intros Hs Hi Hp Hnf Hres Hkp Hkj Hkeys.
  set (c := {| inflight := keys; slots := alter f n (slots (co s)) |}).
  assert (∀ m sl', slots c !! m = Some sl' ↔
    ∃ sl, slots (co s) !! m = Some sl ∧ sl' = if decide (n = m) then f sl else sl) as Hlk
    by (intros; apply (upd_slot_lookup n f (co s))).
  assert (∀ m, is_Some (slots (co s) !! m) → is_Some (slots c !! m)) as Hsome
    by (intros; by apply (upd_slot_is_Some n f (co s))).
  split.
  - apply inv_locks_move; [done|exact Hkp|]. intros j k m Hne Hl _. by apply (Hkj j).
  - apply inv_leads_move; [done|]. eapply leads_same; [done|exact Hi|by left].
  - apply inv_holds_move; [done| |done]. intros m Hm. apply Hsome.
    rewrite (leads_holds _ _ Hp) in Hm. simplify_eq. by eapply inv_holds, leads_holds.
  - intros k m Hk. apply Hsome. by eapply inv_flight, Hkeys.
  - apply inv_await_move; [done| |].
    + intros m sl -> _. done.
    + intros j m sl' _ (sl & E & ->)%Hlk _. exists sl. split; [done|]. case_decide; [|done].
      by rewrite Hnf.
  - intros m sl' (sl & E & ->)%Hlk. destruct (inv_slots s Hs m sl E) as [Hperm Hoc].
    destruct (decide (n = m)) as [<-|Hne].
    + rewrite Hnf. split; [done|]. left.
      eapply open_slot_move; [done|exact Hi|exact E|done| |intros j; by rewrite Hnf].
      apply Hres. by eapply leader_open.
    + split; [done|]. apply slot_frame; [..|done].
      * rewrite (leads_holds _ _ Hi). naive_solver.
      * rewrite (leads_holds _ _ Hp). naive_solver.
Qed.

(** A follower's step on the [Notify] of its slot. *)
Lemma follower_step_inv s i n p f :
  co_inv s → holds (tasks s i) = Some n → leads (tasks s i) = None →
  (p = CAwait n ∨ p = CWoken n) →
  (∀ sl, slots (co s) !! n = Some sl → permit (sl_notify sl) = false →
     permit (f (sl_notify sl)) = false ∧ (p = CAwait n → fut (f (sl_notify sl)) i ≠ Absent) ∧
     (∀ j, i ≠ j → fut (f (sl_notify sl)) j = fut (sl_notify sl) j) ∧
     ((∀ j, fut (sl_notify sl) j ≠ Ready) →
        p = CAwait n ∧ fut (f (sl_notify sl)) i ≠ Ready)) →
  co_inv (move i p (upd_slot n (on_notify f) (co s)) s).
Proof.
  intros Hs Hi Hl Hp Hf.
  assert (leads p = None ∧ locks p = None ∧ holds p = Some n) as (Hp1 & Hp2 & Hp3)
    by (destruct Hp as [-> | ->]; done).
  split.
  - apply inv_locks_move; [done| |done]. intros k m. by rewrite Hp2.
  - apply inv_leads_move; [done|]. intros m j. by rewrite Hp1.
  - apply inv_holds_move; [done| |intros; by apply upd_slot_is_Some].
    intros m Hm. apply upd_slot_is_Some. rewrite Hp3 in Hm. simplify_eq. by eapply inv_holds.
  - intros k m Hk. apply upd_slot_is_Some. by eapply inv_flight.
  - apply inv_await_move; [done| |].
    + intros m sl' -> (sl & E & ->)%upd_slot_lookup. simpl in Hp3. simplify_eq.
      rewrite decide_True by done. simpl. apply Hf; [done|by eapply inv_slots|done].
    + intros j m sl' Hne (sl & E & ->)%upd_slot_lookup _. exists sl. split; [done|].
      case_decide; [subst m|done]. simpl.
      destruct (Hf sl E) as (_ & _ & Hj & _); [by eapply inv_slots|]. by rewrite Hj.
  - intros m sl' (sl & E & ->)%upd_slot_lookup.
    destruct (inv_slots s Hs m sl E) as [Hperm Hoc].
    destruct (decide (n = m)) as [<-|Hne].
    + destruct (Hf sl E Hperm) as (F1 & F2 & F3 & F4). split; [done|].
      destruct Hoc as [(A & B & j & C & D)|(A & B)]; [left|right].
      * destruct (F4 A) as [-> F5]. split_and!.
        -- intros x. simpl. destruct (decide (i = x)) as [<-|]; [done|]. by rewrite F3.
        -- intros x. simpl. destruct (decide (i = x)) as [<-|]; [by rewrite upd_task_eq|].
           by rewrite upd_task_ne.
        -- exists j. simpl. destruct (decide (i = j)) as [<-|]; [congruence|].
           by rewrite upd_task_ne.
      * split.
        -- intros x. simpl. destruct (decide (i = x)) as [<-|]; [by rewrite upd_task_eq, Hp1|].
           by rewrite upd_task_ne.
        -- intros x r. simpl. destruct (decide (i = x)) as [<-|].
           ++ rewrite upd_task_eq. intros ->. by destruct Hp.
           ++ rewrite upd_task_ne by done. apply B.
    + split; [done|]. apply slot_frame; [congruence..|done].
Qed.

Lemma alter_same (m : gmap nat Slot) n : alter (λ sl, sl) n m = m.
Proof.
  apply map_eq. intros k. destruct (decide (n = k)) as [<-|].
  - rewrite lookup_alter_eq. by destruct (m !! n).
  - by rewrite lookup_alter_ne.
Qed.

Lemma publish_inv s i key n v : co_inv s → tasks s i = CLead key n →
  co_inv (move i (CPublished key n v) (publish_result n v (co s)) s).
Proof.
  intros Hs Hi. apply (leader_step_inv s i n); try done; [by rewrite Hi|..].
  - intros k m [= <- <-]. eapply inv_locks; [done|]. by rewrite Hi.
  - intros j k m _. by apply inv_locks.
Qed.

(** Giving up the key, with or without a result. *)
Lemma remove_inv s i key n r : co_inv s → locks (tasks s i) = Some (key, n) →
  stored (tasks s i) = r → co_inv (move i (CRemoved n r) (remove_key key (co s)) s).
Proof.
  intros Hs Hi Hr. unfold remove_key. rewrite <-(alter_same (slots (co s)) n).
  pose proof (locks_leads _ _ _ Hi) as Hl.
  apply (leader_step_inv s i n); try done.
  - intros sl ->. done.
  - intros j k m Hne Hj. rewrite lookup_delete_ne; [by eapply inv_locks|].
    intros ->. apply Hne.
    assert (m = n) as -> by (pose proof (inv_locks s Hs _ _ _ Hi);
      pose proof (inv_locks s Hs _ _ _ Hj); congruence).
    eapply inv_leads; [done|exact Hl|]. by eapply locks_leads.
  - intros k m [_ ?]%lookup_delete_Some. done.
Qed.

Lemma wake_inv s i n r : co_inv s → tasks s i = CRemoved n r →
  co_inv (move i (CDone n r) (wake_followers n (co s)) s).
Proof.
  intros Hs Hi. assert (leads (tasks s i) = Some n) as Hl by (by rewrite Hi).
  assert (is_Some (slots (co s) !! n)) as Hn by (eapply inv_holds; [done|]; by rewrite Hi).
  split.
  - by apply inv_locks_move.
  - by apply inv_leads_move.
  - apply inv_holds_move; [done| |intros; by apply upd_slot_is_Some].
    intros m [= <-]. by apply upd_slot_is_Some.
  - intros k m Hk. apply upd_slot_is_Some. by eapply inv_flight.
  - apply inv_await_move; [done|done|].
    intros j m sl' Hne (sl & E & ->)%upd_slot_lookup _. exists sl. split; [done|].
    case_decide; [|done]. simpl. rewrite notify_waiters_fut. by destruct (fut _ j).
  - intros m sl' (sl & E & ->)%upd_slot_lookup.
    destruct (inv_slots s Hs m sl E) as [Hperm Hoc].
    destruct (decide (n = m)) as [<-|Hne].
    + simpl. rewrite notify_waiters_permit. split; [done|]. right.
      destruct (leader_open s i n sl Hs Hl E) as (_ & _ & B & D). rewrite Hi in D. split.
      * intros x. simpl. destruct (decide (i = x)) as [<-|]; [by rewrite upd_task_eq|].
        rewrite upd_task_ne by done. intros Hx. by destruct (inv_leads s Hs i x n).
      * intros x r'. simpl. destruct (decide (i = x)) as [<-|].
        -- rewrite upd_task_eq. intros [= ->]. done.
        -- rewrite upd_task_ne by done. intros Hx. destruct (B x) as [_ Bx]. by destruct (Bx r').
    + split; [done|]. apply slot_frame; [rewrite Hi; naive_solver|naive_solver|done].
Qed.

Lemma read_inv s i n sl : co_inv s → tasks s i = CWoken n → slots (co s) !! n = Some sl →
  co_inv (move i (CDone n (sl_result sl)) (co s) s).
Proof.
  intros Hs Hi Hsl. split.
  - by apply inv_locks_move.
  - by apply inv_leads_move.
  - apply inv_holds_move; [done| |done]. intros m [= <-]. by eexists.
  - intros k m. apply (inv_flight s Hs).
  - apply inv_await_move; [done|done|]. intros j m sl' _ E _. by exists sl'.
  - intros m sl' E. destruct (inv_slots s Hs m sl' E) as [Hperm Hoc]. split; [done|].
    simpl in E. destruct (decide (n = m)) as [<-|Hne]; simplify_eq.
    + destruct Hoc as [(_ & B & _)|[A B]]; [by destruct (B i)|]. right. split.
      * intros x. simpl. destruct (decide (i = x)) as [<-|]; [by rewrite upd_task_eq|].
        by rewrite upd_task_ne.
      * intros x r. simpl. destruct (decide (i = x)) as [<-|].
        -- rewrite upd_task_eq. intros Hx. by simplify_eq.
        -- rewrite upd_task_ne by done. apply B.
    + apply slot_frame; [rewrite Hi; naive_solver|naive_solver|done].
Qed.

(** A task that becomes a follower. *)
Lemma follow_inv s i key n : co_inv s → tasks s i = CStart key →
  inflight (co s) !! key = Some n → co_inv (move i (CFollow n) (co s) s).
Proof.
  intros Hs Hi Hk. split.
  - by apply inv_locks_move.
  - by apply inv_leads_move.
  - apply inv_holds_move; [done| |done]. intros m [= <-]. exact (inv_flight s Hs key n Hk).
  - intros k m. apply (inv_flight s Hs).
  - apply inv_await_move; [done|done|]. intros j m sl' _ E _. by exists sl'.
  - intros m sl E. destruct (inv_slots s Hs m sl E) as [Hperm Hoc]. split; [done|].
    destruct Hoc as [(A & B & j & C & D)|(A & B)]; [left|right].
    + split_and!; [done| |].
      * intros x. simpl. destruct (decide (i = x)) as [<-|]; [by rewrite upd_task_eq|].
        by rewrite upd_task_ne.
      * exists j. simpl. rewrite upd_task_ne; [done|]. intros ->. by rewrite Hi in C.
    + split; [intros x|intros x r]; simpl; (destruct (decide (i = x)) as [<-|];
        [by rewrite upd_task_eq|rewrite upd_task_ne by done; eauto]).
Qed.

(** A task that becomes a leader, with a new slot. *)
Lemma lead_inv s i key fresh : co_inv s → tasks s i = CStart key →
  inflight (co s) !! key = None → slots (co s) !! fresh = None →
  co_inv (move i (CLead key fresh)
    {| inflight := <[key := fresh]> (inflight (co s));
       slots := <[fresh := {| sl_notify := notify_new; sl_result := None |}]> (slots (co s)) |} s).
Proof.
  intros Hs Hi Hk Hf.
  assert (∀ j, holds (tasks s j) ≠ Some fresh) as Hfresh.
  { intros j Hj. apply (inv_holds s Hs) in Hj as [sl Hj]. congruence. }
  split.
  - apply inv_locks_move; [done|intros k n [= <- <-]; simpl; by rewrite lookup_insert_eq|].
    intros j k n _ _ Hn. simpl. rewrite lookup_insert_ne; [done|]. intros ->. congruence.
  - apply inv_leads_move; [done|]. intros n j [= <-] _ Hj. by apply (Hfresh j), leads_holds.
  - apply inv_holds_move; [done|intros n [= <-]; simpl; rewrite lookup_insert_eq; by eexists|].
    intros n Hn. simpl. by apply lookup_insert_is_Some'; right.
  - intros k n. simpl. intros [[<- <-]|[_ Hn]]%lookup_insert_Some.
    + rewrite lookup_insert_eq. by eexists.
    + apply lookup_insert_is_Some'. right. by eapply inv_flight.
  - apply inv_await_move; [done|done|]. intros j n sl' _. simpl. intros E Hj.
    rewrite lookup_insert_ne in E; [by exists sl'|]. intros <-. apply (Hfresh j). by rewrite Hj.
  - intros n sl. simpl. intros [[<- <-]|[Hne E]]%lookup_insert_Some; simpl.
    + rewrite new_permit. split; [done|]. left. split_and!.
      * intros j. simpl. by rewrite new_fut.
      * intros x. simpl. destruct (decide (i = x)) as [<-|]; [by rewrite upd_task_eq|].
        rewrite upd_task_ne by done. specialize (Hfresh x). split; [|intros r]; intros Hx;
          rewrite Hx in Hfresh; by destruct Hfresh.
      * exists i. simpl. by rewrite upd_task_eq.
    + destruct (inv_slots s Hs n sl E) as [Hperm Hoc]. split; [done|].
      apply slot_frame; [by rewrite Hi|simpl; naive_solver|done].
Qed.

Lemma co_step_inv s s' : co_step s s' → co_inv s → co_inv s'.
Proof.
  intros Hstep Hs. destruct Hstep as [i key fresh s Hi Hf|i key n v s Hi|i key n v s Hi
    |i key n s Hi|i n r s Hi|i n s Hi|i n sl s Hi Hsl|i n sl s Hi Hsl].
  - unfold acquire. destruct (inflight (co s) !! key) as [n|] eqn:Hk; simpl.
    + by eapply follow_inv.
    + by apply lead_inv.
  - by apply publish_inv.
  - apply (remove_inv _ _ key); [done|by rewrite Hi..].
  - apply (remove_inv _ _ key); [done|by rewrite Hi..].
  - by apply wake_inv.
  - apply follower_step_inv; [done|by rewrite Hi..|by left|].
    intros sl Hsl Hp. rewrite notified_permit. split_and!; [done|..].
    + intros _. rewrite notified_fut. by case_decide.
    + intros j Hne. by rewrite notified_fut, decide_False.
    + intros _. rewrite notified_fut. by case_decide.
  - apply follower_step_inv; [done|by rewrite Hi..|by case_match; [right|left]|].
    intros sl0 Hsl0 Hp. assert (sl0 = sl) as -> by congruence. pose proof (inv_await s Hs i n sl Hi Hsl) as Hna.
    destruct (fut (sl_notify sl) i) eqn:Hfut; [done|..].
    + destruct (poll_park i (sl_notify sl) Hfut Hp) as (-> & P & F). split_and!; [done|..].
      * intros _. rewrite F. by case_decide.
      * intros j Hne. by rewrite F, decide_False.
      * intros _. rewrite F. by case_decide.
    + rewrite (poll_pending i _ Hfut). simpl. split_and!; [done|intros _; congruence|done|].
      intros HR. split; [done|]. congruence.
    + destruct (poll_ready i (sl_notify sl) Hfut) as (-> & P & F).
      split_and!; [by rewrite P|done| |].
      * intros j Hne. by rewrite F, decide_False.
      * intros HR. by destruct (HR i).
  - by apply read_inv.
Qed.

Lemma co_reachable_inv keys s : rtc co_step (co_init keys) s → co_inv s.
Proof.
  intros Hr. remember (co_init keys) as s0 eqn:E0.
  assert (co_inv s0) as Hinv.
  { subst. split; simpl; try done; intros k n; by rewrite lookup_empty. }
  clear E0. induction Hr; [done|]. eauto using co_step_inv.
Qed.

(** ** A follower that comes too late *)

(** Task [i] sleeps on slot [n], and nobody is left to wake it. *)
Definition stranded i n s : Prop :=
  tasks s i = CAwait n ∧ (∀ j, leads (tasks s j) ≠ Some n) ∧
  ∃ sl, slots (co s) !! n = Some sl ∧ fut (sl_notify sl) i = Parked.

Lemma stranded_move i n s j p c : i ≠ j → stranded i n s → leads p ≠ Some n →
  (∀ sl, slots (co s) !! n = Some sl → fut (sl_notify sl) i = Parked →
     ∃ sl', slots c !! n = Some sl' ∧ fut (sl_notify sl') i = Parked) →
  stranded i n (move j p c s).
Proof.
  intros Hne (H1 & H2 & sl & H3 & H4) Hp Hc. split_and!; [by simpl; rewrite upd_task_ne|..|eauto].
  intros x. simpl. destruct (decide (j = x)) as [<-|]; [by rewrite upd_task_eq|].
  by rewrite upd_task_ne.
Qed.

Lemma upd_slot_parked m f (c : Coalescer) n i :
  (m = n → ∀ sl, slots c !! n = Some sl → fut (sl_notify sl) i = Parked →
     fut (sl_notify (f sl)) i = Parked) →
  ∀ sl, slots c !! n = Some sl → fut (sl_notify sl) i = Parked →
  ∃ sl', slots (upd_slot m f c) !! n = Some sl' ∧ fut (sl_notify sl') i = Parked.
Proof.
  intros Hf sl E Hp. destruct (decide (m = n)) as [->|Hne].
  - exists (f sl). split; [|by apply Hf]. apply upd_slot_lookup. exists sl. by rewrite decide_True.
  - exists sl. split; [|done]. apply upd_slot_lookup. exists sl. by rewrite decide_False.
Qed.

Lemma poll_other_fut i j (x : N) : i ≠ j → fut x j ≠ Absent → permit x = false →
  fut x i = Parked → fut (poll j x).2 i = Parked.
Proof.
  intros Hne Hj Hp Hi. destruct (fut x j) eqn:E; [done|..].
  - destruct (poll_park j x E Hp) as (_ & _ & F). by rewrite F, decide_False.
  - by rewrite (poll_pending j x E).
  - destruct (poll_ready j x E) as (_ & _ & F). by rewrite F, decide_False.
Qed.

Lemma stranded_step i n s s' : co_inv s → co_step s s' → stranded i n s → stranded i n s'.
Proof.
  intros Hs Hstep Hst. pose proof Hst as (H1 & H2 & sl0 & H3 & H4).
  destruct Hstep as [j key fresh s Hj Hf|j key m v s Hj|j key m v s Hj
    |j key m s Hj|j m r s Hj|j m s Hj|j m sl s Hj Hsl|j m sl s Hj Hsl].
  1-6, 8: apply stranded_move; [congruence|done|..].
  - unfold acquire. destruct (inflight (co s) !! key); simpl; [done|]. intros [= ->]. congruence.
  - unfold acquire. destruct (inflight (co s) !! key); simpl; [eauto|]. intros sl E F.
    exists sl. rewrite lookup_insert_ne; [done|]. intros ->. congruence.
  - specialize (H2 j). rewrite Hj in H2. done.
  - apply upd_slot_parked. done.
  - specialize (H2 j). rewrite Hj in H2. done.
  - simpl. eauto.
  - specialize (H2 j). rewrite Hj in H2. done.
  - simpl. eauto.
  - done.
  - apply upd_slot_parked. intros <-. specialize (H2 j). by rewrite Hj in H2.
  - done.
  - apply upd_slot_parked. intros _ sl _ F. simpl. rewrite notified_fut.
    rewrite decide_False; [done|]. congruence.
  - done.
  - simpl. eauto.
  - destruct (decide (i = j)) as [<-|Hne].
    + assert (m = n) as -> by congruence. assert (sl0 = sl) as -> by congruence.
      rewrite (poll_pending i _ H4). split_and!; [by simpl; rewrite upd_task_eq|..].
      * intros x. simpl. destruct (decide (i = x)) as [<-|]; [by rewrite upd_task_eq|].
        by rewrite upd_task_ne.
      * eexists. split; [by apply upd_slot_lookup; exists sl|]. rewrite decide_True by done.
        simpl. by rewrite (poll_pending i _ H4).
    + apply stranded_move; [done|done|by case_match|].
      apply upd_slot_parked. intros -> sl' E F. simpl. assert (sl' = sl) as -> by congruence.
      apply poll_other_fut; [done|by eapply inv_await| |done]. by eapply inv_slots.
Qed.

Lemma stranded_forever i n s s' : co_inv s → rtc co_step s s' → stranded i n s → stranded i n s'.
Proof.
  intros Hs Hr. induction Hr as [|x y z Hxy Hyz IH]; [done|]. intros Hx.
  apply IH; [by eapply co_step_inv|by eapply stranded_step].
Qed.
End coalescer.
Arguments co_state : clear implicits.
Arguments Coalescer : clear implicits.

(** ** Properties *)

(** At any moment at most one request is producing the response for a key:
    of two tasks that hold the lead of the same key, neither having released
    it, both are the same task. *)
Theorem coalescer_single_leader {T N : Type} `{Notify N} (keys : nat → bytes)
    (s : co_state T N) (i j : nat) (key : bytes) (n m : nat) :
  rtc co_step (co_init keys) s →
  locks (tasks s i) = Some (key, n) → locks (tasks s j) = Some (key, m) → i = j.
Proof.
  intros Hr%co_reachable_inv Hi Hj.
  pose proof (inv_locks s Hr _ _ _ Hi). pose proof (inv_locks s Hr _ _ _ Hj).
  eapply inv_leads; [done|by eapply locks_leads|]. assert (n = m) as -> by congruence.
  by eapply locks_leads.
Qed.

Lemma coalescer_single_leader_witness :
  let s := move 0 (CLead (lit "GET:/") 7) (acquire (lit "GET:/") 7 coalescer_new).2
             (co_init (λ _, lit "GET:/")) : co_state bytes simple_notify in
  (0 = 0)%nat.
Proof.
  intros s.
  apply (coalescer_single_leader (λ _, lit "GET:/") s 0 0 (lit "GET:/") 7 7); [|done..].
  eapply rtc_l; [apply (step_acquire 0 (lit "GET:/") 7); [done|]|apply rtc_refl].
  vm_compute. reflexivity.
Defined.



(** A follower that waits when the leader finishes gets the leader's
    outcome: the leader's wake-up reaches it, and it then returns the published
    value, or nothing after an abort. *)
Theorem coalescer_wakes_waiting_follower {T N : Type} `{Notify N} (keys : nat → bytes)
    (s : co_state T N) (i l n : nat) (r : option T) :
  rtc co_step (co_init keys) s → tasks s i = CAwait n → tasks s l = CRemoved n r →
  ∃ s', rtc co_step s s' ∧ tasks s' l = CDone n r ∧ tasks s' i = CDone n r.
Proof.
  intros Hr%co_reachable_inv Hi Hl.
  destruct (inv_holds s Hr i n) as [sl Hsl]; [by rewrite Hi|].
  assert (leads (tasks s l) = Some n) as Hlead by (by rewrite Hl).
  destruct (leader_open s l n sl Hr Hlead Hsl) as (Hp & HR & _ & Hres). rewrite Hl in Hres.
  pose proof (inv_await s Hr i n sl Hi Hsl) as Hna.
  assert (i ≠ l) as Hne by congruence.
  set (x := notify_waiters (sl_notify sl)).
  assert (fut x i = Ready) as HF.
  { unfold x. rewrite notify_waiters_fut. by destruct (fut (sl_notify sl) i). }
  destruct (poll_ready i x HF) as (Hrdy & _ & _).
  set (s1 := move l (CDone n r) (wake_followers n (co s)) s).
  assert (slots (co s1) !! n = Some {| sl_notify := x; sl_result := sl_result sl |}) as E1.
  { simpl. by rewrite lookup_alter_eq, Hsl. }
  set (s2 := move i (CWoken n) (upd_slot n (on_notify (λ x, (poll i x).2)) (co s1)) s1).
  assert (slots (co s2) !! n = Some {| sl_notify := (poll i x).2; sl_result := sl_result sl |})
    as E2 by (simpl; by rewrite lookup_alter_eq, lookup_alter_eq, Hsl).
  exists (move i (CDone n (sl_result sl)) (co s2) s2). split_and!.
  - eapply rtc_l; [by apply (step_wake l n r)|]. fold s1.
    eapply rtc_l; [eapply (step_poll i n _ s1); [|exact E1]|].
    { simpl. by rewrite upd_task_ne by done. }
    simpl. rewrite Hrdy. fold s2.
    eapply rtc_l; [apply (step_read i n _ s2 ltac:(simpl; by rewrite upd_task_eq) E2)|].
    apply rtc_refl.
  - simpl. rewrite !upd_task_ne by done. by rewrite upd_task_eq.
  - simpl. by rewrite upd_task_eq, Hres.
Qed.

Lemma coalescer_wakes_waiting_follower_witness :
  let k := lit "GET:/" in
  let s0 := co_init (λ _, k) : co_state bytes simple_notify in
  let s1 := move 0 (CLead k 7) (acquire k 7 (co s0)).2 s0 in
  let s2 := move 1 (CFollow 7) (acquire k 8 (co s1)).2 s1 in
  let s3 := move 1 (CAwait 7) (upd_slot 7 (on_notify (notified 1)) (co s2)) s2 in
  let s4 := move 0 (CRemoved 7 None) (remove_key k (co s3)) s3 in
  ∃ s', rtc co_step s4 s' ∧ tasks s' 0 = CDone 7 None ∧ tasks s' 1 = CDone 7 None.
Proof.
  intros k s0 s1 s2 s3 s4.
  apply (coalescer_wakes_waiting_follower (λ _, k) s4 1 0 7 None); [|done..].
  eapply rtc_l; [apply (step_acquire 0 k 7); [done|vm_compute; reflexivity]|].
  eapply rtc_l; [apply (step_acquire 1 k 8); [done|vm_compute; reflexivity]|].
  eapply rtc_l; [by apply (step_notified 1 7)|].
  eapply rtc_l; [by apply (step_abort 0 k 7)|apply rtc_refl].
Defined.

(** A follower can sleep forever: when the leader publishes after the
    follower got its handle but before the follower calls [wait], the wake-up
    finds nobody, and no later step of any task lets the follower return. *)
Theorem coalescer_lost_wakeup {T N : Type} `{Notify N} (keys : nat → bytes) (v : T) :
  keys 0%nat = keys 1%nat →
  ∃ s : co_state T N, rtc co_step (co_init keys) s ∧
    (∃ n, tasks s 0 = CDone n (Some v) ∧
       ∀ s', rtc co_step s s' → tasks s' 1 = CAwait n).
Proof.
  intros Hk.
  assert (∃ s : co_state T N, rtc co_step (co_init keys) s ∧
    tasks s 0 = CDone 0 (Some v) ∧ stranded 1 0 s) as (s & Hr & H0' & Hs).
  { set (sl0 := {| sl_notify := notify_new; sl_result := None |} : Slot (T := T) (N := N)).
    set (x := notified 1 (notify_waiters notify_new) : N).
    assert (fut x 1 = Init) as HF by (unfold x; by rewrite notified_fut, decide_True).
    assert (permit x = false) as HP
      by (unfold x; by rewrite notified_permit, notify_waiters_permit, new_permit).
    destruct (poll_park 1 x HF HP) as (R & _ & F). unfold x in R, F.
    eexists. split.
    - eapply rtc_l; [apply (step_acquire 0 (keys 0%nat) 0); [done|apply lookup_empty]|].
      unfold acquire at 1 2. simpl. rewrite lookup_empty. simpl.
      eapply rtc_l; [apply (step_acquire 1 (keys 1%nat) 1);
        [done|simpl; by rewrite lookup_insert_ne, lookup_empty]|].
      unfold acquire at 1 2. simpl. rewrite <-Hk, lookup_insert_eq. simpl.
      eapply rtc_l; [by apply (step_publish 0 (keys 0%nat) 0 v)|].
      eapply rtc_l; [by apply (step_remove 0 (keys 0%nat) 0 v)|].
      eapply rtc_l; [by apply (step_wake 0 0 (Some v))|].
      eapply rtc_l; [by apply (step_notified 1 0)|].
      eapply rtc_l; [|apply rtc_refl].
      eapply (step_poll 1 0); [done|]. simpl.
      by rewrite !lookup_alter_eq, lookup_insert_eq.
    - split; [done|]. split_and!.
      + simpl. by rewrite R.
      + intros j. simpl. unfold upd_task. repeat case_decide; try done. by rewrite R.
      + eexists. split; [simpl; by rewrite !lookup_alter_eq, lookup_insert_eq|].
        simpl. by rewrite F, decide_True. }
  exists s. split; [done|]. exists 0%nat. split; [done|]. intros s' Hs'.
  assert (co_inv s) as Hinv by (by eapply co_reachable_inv).
  by destruct (stranded_forever 1 0 s s' Hinv Hs' Hs) as [E _].
Qed.

Lemma coalescer_lost_wakeup_witness :
  ∃ s : co_state bytes simple_notify, rtc co_step (co_init (λ _, lit "GET:/")) s ∧
    (∃ n, tasks s 0 = CDone n (Some (lit "page")) ∧
       ∀ s', rtc co_step s s' → tasks s' 1 = CAwait n).
Proof. by apply (coalescer_lost_wakeup (λ _, lit "GET:/") (lit "page")). Defined.
