(* ===== verification/ResponseCache.v ===== *)
(** * The response cache (turbine-cache/src/store.rs)

    Full responses by method and path, each with the hash of the source that
    produced it and a time to live. Times and durations are nanoseconds; the
    order in which the concurrent map is iterated is not specified, so it is a
    parameter. *)

From S2P Require Import Prelude.

Record CacheConfig := { cfg_ttl : Z; cfg_max_entries : Z; cfg_enabled : bool }.

Definition default_config : CacheConfig :=
  {| cfg_ttl := 30 * 10 ^ 9; cfg_max_entries := 1024; cfg_enabled := true |}.

Record CachedResponse := {
  cr_body : bytes;
  cr_content_type : bytes;
  cr_status : Z;
  source_hash : Z;
  created_at : Z;
  ttl : Z }.

(** [created_at.elapsed()] *)
Definition elapsed (now : Z) (r : CachedResponse) : Z := Z.max 0 (now - created_at r).

Definition is_valid (now : Z) (r : CachedResponse) (current_source_hash : Z) : bool :=
  (source_hash r =? current_source_hash) && (elapsed now r <? ttl r).

Definition remaining_ttl_secs (now : Z) (r : CachedResponse) : Z :=
  if elapsed now r <=? ttl r then (ttl r - elapsed now r) / 10 ^ 9 else 0.

Abbreviation store := (gmap bytes CachedResponse).

Definition cache_key (method path : bytes) : bytes := method ++ [x3a] ++ path.

Section cache.
Context (iter : store → list (bytes * CachedResponse)).
Context (iter_spec : ∀ m, iter m ≡ₚ map_to_list m).
Context (config : CacheConfig).

Definition get (now : Z) (method path : bytes) (hash : Z) (m : store)
    : option CachedResponse * store :=
  if negb (cfg_enabled config) then (None, m)
  else
    let key := cache_key method path in
    match m !! key with
    | Some entry =>
        if is_valid now entry hash then (Some entry, m) else (None, delete key m)
    | None => (None, m)
    end.

(** The scan for the oldest entry: the first one met of the greatest age, if
    that is positive. *)
Definition older (now : Z) (acc : option bytes * Z) (kv : bytes * CachedResponse)
    : option bytes * Z :=
  let age := elapsed now kv.2 in
  if acc.2 <? age then (Some kv.1, age) else acc.

Definition evict_oldest (now : Z) (m : store) : store :=
  match (foldl (older now) (None, 0) (iter m)).1 with
  | Some key => delete key m
  | None => m
  end.

Definition put (now : Z) (method path : bytes) (hash status : Z) (content_type body : bytes)
    (m : store) : store :=
  if negb (cfg_enabled config) then m
  else if negb (bool_decide (method = lit "GET")) || negb (status =? 200) then m
  else
    let m := if cfg_max_entries config <=? Z.of_nat (size m) then evict_oldest now m else m in
    <[cache_key method path :=
        {| cr_body := body; cr_content_type := content_type; cr_status := status;
           source_hash := hash; created_at := now; ttl := cfg_ttl config |}]> m.

(** [put_bytes] differs from [put] only in owning the buffer already. *)
Definition put_bytes := put.

Definition invalidate (path : bytes) (m : store) : store := delete (cache_key (lit "GET") path) m.

Definition cache_clear (m : store) : store := ∅.

Definition cache_len (m : store) : Z := Z.of_nat (size m).

Definition purge_expired (now : Z) (m : store) : Z * store :=
  let kept := filter (λ '(_, r), elapsed now r < ttl r) m in
  (Z.of_nat (size m) - Z.of_nat (size kept), kept).

(** ** Histories *)

Inductive cache_op :=
| CGet (method path : bytes) (hash : Z)
| CPut (method path : bytes) (hash status : Z) (content_type body : bytes)
| CInvalidate (path : bytes)
| CClear
| CPurge.

Definition cache_step (now : Z) (o : cache_op) (m : store) : option CachedResponse * store :=
  match o with
  | CGet method path hash => get now method path hash m
  | CPut method path hash status ct body => (None, put now method path hash status ct body m)
  | CInvalidate path => (None, invalidate path m)
  | CClear => (None, cache_clear m)
  | CPurge => (None, (purge_expired now m).2)
  end.

Fixpoint cache_run (h : list (Z * cache_op)) (m : store) : store :=
  match h with
  | [] => m
  | (now, o) :: h' => cache_run h' (cache_step now o m).2
  end.

(** The response last stored under a key, if it was not invalidated since. *)
Definition latest_step (now : Z) (o : cache_op) (m : store) : store :=
  match o with
  | CPut method path hash status ct body =>
      if cfg_enabled config && bool_decide (method = lit "GET") && (status =? 200) then
        <[cache_key method path :=
            {| cr_body := body; cr_content_type := ct; cr_status := status;
               source_hash := hash; created_at := now; ttl := cfg_ttl config |}]> m
      else m
  | CInvalidate path => delete (cache_key (lit "GET") path) m
  | CClear => ∅
  | _ => m
  end.

Fixpoint latest (h : list (Z * cache_op)) (m : store) : store :=
  match h with
  | [] => m
  | (now, o) :: h' => latest h' (latest_step now o m)
  end.

(** The calls that leave a response for the source [hash] under [key] alone:
    not a store, which may evict it, nor its invalidation, nor a lookup for
    another version of the source. *)
Definition keeps (key : bytes) (hash : Z) (o : cache_op) : bool :=
  match o with
  | CGet method path h => negb (bool_decide (cache_key method path = key)) || (h =? hash)
  | CPut method _ _ status _ _ => negb (bool_decide (method = lit "GET")) || negb (status =? 200)
  | CInvalidate path => negb (bool_decide (cache_key (lit "GET") path = key))
  | CClear => false
  | CPurge => true
  end.

(** ** Lemmas *)

Lemma evict_oldest_subseteq now m : evict_oldest now m ⊆ m.
Proof. unfold evict_oldest. case_match; [apply delete_subseteq|done]. Qed.

Lemma cache_step_latest now o m l : m ⊆ l → (cache_step now o m).2 ⊆ latest_step now o l.
Proof.
  intros Hm. destruct o as [method path hash|method path hash status ct body|path| |]; simpl.
  - unfold get. repeat case_match; simpl; try done.
    trans m; [apply delete_subseteq|done].
  - unfold put. destruct (cfg_enabled config); simpl; [|done].
    destruct (bool_decide (method = lit "GET")), (status =? 200); simpl; try done.
    apply insert_mono. case_match; [|done]. trans m; [apply evict_oldest_subseteq|done].
  - unfold invalidate. by apply delete_mono.
  - done.
  - trans m; [apply map_filter_subseteq|done].
Qed.

Lemma cache_run_latest h m l : m ⊆ l → cache_run h m ⊆ latest h l.
Proof.
  revert m l. induction h as [|[now o] h IH]; intros m l Hm; [done|]. simpl.
  by apply IH, cache_step_latest.
Qed.

Lemma older_key now kvs acc key : (foldl (older now) acc kvs).1 = Some key →
  acc.1 = Some key ∨ key ∈ kvs.*1.
Proof.
  revert acc. induction kvs as [|kv kvs IH]; intros acc H; [by left|]. simpl in *.
  apply IH in H as [H|H]; [|right; set_solver]. unfold older in H. case_match; simplify_eq/=.
  - right. set_solver.
  - by left.
Qed.

(** An entry of positive age is found. *)
Lemma older_found now kvs acc : 0 ≤ acc.2 → (acc.1 = None → acc.2 = 0) →
  (is_Some acc.1 ∨ Exists (λ kv, 0 < elapsed now kv.2) kvs) →
  is_Some (foldl (older now) acc kvs).1.
Proof.
  revert acc. induction kvs as [|kv kvs IH]; intros acc H0 H1 H2.
  { destruct H2 as [H2|H2]; [done|by apply Exists_nil in H2]. }
  simpl. unfold older at 2. destruct (Z.ltb_spec acc.2 (elapsed now kv.2)).
  - apply IH; simpl; [lia|done|by left; eexists].
  - apply IH; [done|done|]. destruct H2 as [H2|H2]; [by left|].
    apply Exists_cons in H2 as [H2|H2]; [|by right]. left.
    destruct acc.1; [by eexists|]. specialize (H1 eq_refl). lia.
Qed.

(** Eviction makes room whenever some entry is older than this instant. *)
Lemma evict_oldest_size now m : map_Forall (λ _ r, created_at r < now) m → m ≠ ∅ →
  size (evict_oldest now m) = (size m - 1)%nat.
Proof.
  intros Hm Hne. unfold evict_oldest.
  assert (is_Some (foldl (older now) (None, 0) (iter m)).1) as [key Hkey].
  { apply older_found; [done|done|]. right.
    apply map_choose in Hne as (k & r & Hk).
    apply Exists_exists. exists (k, r). split.
    - rewrite iter_spec. by apply elem_of_map_to_list.
    - simpl. apply Hm in Hk. unfold elapsed. lia. }
  rewrite Hkey. apply older_key in Hkey as [?|Hkey]; [done|].
  apply list_elem_of_fmap in Hkey as ([k r] & -> & Hkr). rewrite iter_spec in Hkr.
  apply elem_of_map_to_list in Hkr. rewrite map_size_delete. simpl. rewrite Hkr. lia.
Qed.

(** The bound, and that every entry is from before [clock]. *)
Definition cache_bounded (clock : Z) (m : store) : Prop :=
  cache_len m ≤ Z.max (cfg_max_entries config) 1 ∧ map_Forall (λ _ r, created_at r ≤ clock) m.

Lemma cache_bounded_subseteq clock m m' : cache_bounded clock m → m' ⊆ m → cache_bounded clock m'.
Proof.
  intros [H1 H2] Hs. split.
  - apply map_subseteq_size in Hs. unfold cache_len in *. lia.
  - intros k r Hk. apply (H2 k). by eapply lookup_weaken.
Qed.

Lemma cache_step_bounded clock now o m : clock < now → cache_bounded clock m →
  cache_bounded now (cache_step now o m).2.
Proof.
  intros Hlt [H1 H2].
  assert (cache_bounded now m) as Hm.
  { split; [done|]. intros k r Hk%H2. simpl. lia. }
  destruct o as [method path hash|method path hash status ct body|path| |]; simpl.
  - unfold get. repeat case_match; simpl; try done.
    eapply cache_bounded_subseteq; [done|apply delete_subseteq].
  - unfold put. repeat (case_match; [done|]). split.
    + unfold cache_len in *.
      assert (∀ m' : store, ∀ k r, Z.of_nat (size (<[k := r]> m')) ≤ Z.of_nat (size m') + 1)
        as Hins.
      { intros m' k r. destruct (m' !! k) as [r'|] eqn:E.
        - rewrite map_size_insert_Some; [lia|eauto].
        - rewrite map_size_insert_None by done. lia. }
      etrans; [apply Hins|].
      destruct (Z.leb_spec (cfg_max_entries config) (Z.of_nat (size m))); [|lia].
      destruct (decide (m = ∅)) as [->|Hne].
      * pose proof (evict_oldest_subseteq now ∅) as Hs. apply map_subseteq_size in Hs.
        rewrite map_size_empty in Hs. lia.
      * rewrite evict_oldest_size; [|intros k r Hk%H2; simpl; lia|done]. lia.
    + apply map_Forall_insert_2; [simpl; lia|].
      case_match; [|by apply Hm]. eapply cache_bounded_subseteq; [done|apply evict_oldest_subseteq].
  - eapply cache_bounded_subseteq; [done|apply delete_subseteq].
  - unfold cache_clear, cache_bounded, cache_len. rewrite map_size_empty.
    split; [lia|apply map_Forall_empty].
  - eapply cache_bounded_subseteq; [done|apply map_filter_subseteq].
Qed.

(** Calls at strictly increasing times. *)
Fixpoint increasing (clock : Z) (h : list (Z * cache_op)) : Prop :=
  match h with
  | [] => True
  | (now, _) :: h' => clock < now ∧ increasing now h'
  end.

Lemma cache_run_bounded h clock m : increasing clock h → cache_bounded clock m →
  cache_len (cache_run h m) ≤ Z.max (cfg_max_entries config) 1.
Proof.
  revert clock m. induction h as [|[now o] h IH]; intros clock m Hh Hm; [apply Hm|].
  destruct Hh as [Hlt Hh]. simpl. eapply IH; [done|]. by eapply cache_step_bounded.
Qed.

Lemma cache_step_keeps now o key r m :
  keeps key (source_hash r) o = true → elapsed now r < ttl r → m !! key = Some r →
  (cache_step now o m).2 !! key = Some r.
Proof.
  intros Hk He Hr. destruct o as [method path h|method path h status ct body|path| |]; simpl in *.
  - unfold get. destruct (cfg_enabled config); [|done]. simpl.
    destruct (m !! cache_key method path) as [r'|] eqn:E; [|done].
    destruct (is_valid now r' h) eqn:V; [done|]. simpl.
    rewrite lookup_delete_ne; [done|]. intros Heq. rewrite bool_decide_eq_true_2 in Hk by done.
    assert (r' = r) as -> by congruence. apply Z.eqb_eq in Hk as ->.
    unfold is_valid in V. rewrite Z.eqb_refl in V. apply Z.ltb_ge in V. lia.
  - unfold put. rewrite Hk. by destruct (cfg_enabled config).
  - unfold invalidate. rewrite lookup_delete_ne; [done|]. by case_bool_decide.
  - done.
  - by apply map_lookup_filter_Some.
Qed.

Lemma cache_run_keeps h now key r m :
  Forall (λ x, keeps key (source_hash r) x.2 = true ∧ x.1 ≤ now) h →
  elapsed now r < ttl r → m !! key = Some r → cache_run h m !! key = Some r.
Proof.
  intros Hh He. revert m. induction Hh as [|[t o] h [Hk Ht] _ IH]; intros m Hm; [done|]. simpl in *.
  apply IH, cache_step_keeps; try done. unfold elapsed in *. lia.
Qed.
End cache.

(** ** Properties *)

(** C22: The cache never serves a wrong or an outdated response. Whatever calls
    came before, and in whatever order the map is scanned for eviction, a hit
    for a method and path is the response last stored under that key by a
    successful [GET] and not invalidated since, it was produced from the source
    with the hash asked for, and it is younger than its time to live. *)
Theorem cache_hit_is_latest_and_fresh (iter : store → list (bytes * CachedResponse))
    (config : CacheConfig) (h : list (Z * cache_op)) (now : Z) (method path : bytes) (hash : Z)
    (r : CachedResponse) :
  (get config now method path hash (cache_run iter config h ∅)).1 = Some r →
  latest config h ∅ !! cache_key method path = Some r ∧
  source_hash r = hash ∧ now - created_at r < ttl r ∧ cfg_enabled config = true.
Proof.
  intros H. unfold get in H. destruct (cfg_enabled config) eqn:En; [|done]. simpl in H.
  destruct (cache_run iter config h ∅ !! cache_key method path) as [r'|] eqn:E; [|done].
  unfold is_valid in H. destruct (Z.eqb_spec (source_hash r') hash); [|done].
  destruct (Z.ltb_spec (elapsed now r') (ttl r')); [|done]. simplify_eq/=. split_and!; try done.
  - eapply lookup_weaken; [exact E|]. by apply cache_run_latest.
  - unfold elapsed in *. lia.
Qed.

Lemma cache_hit_is_latest_and_fresh_witness :
  let h := [(5, CPut (lit "GET") (lit "/a") 7 200 (lit "text/html") (lit "old"));
            (6, CPut (lit "GET") (lit "/a") 7 200 (lit "text/html") (lit "new"));
            (7, CPut (lit "POST") (lit "/a") 7 200 (lit "text/html") (lit "no"))] in
  let r := {| cr_body := lit "new"; cr_content_type := lit "text/html"; cr_status := 200;
              source_hash := 7; created_at := 6; ttl := 30 * 10 ^ 9 |} in
  latest default_config h ∅ !! cache_key (lit "GET") (lit "/a") = Some r ∧
  source_hash r = 7 ∧ 8 - created_at r < ttl r ∧ cfg_enabled default_config = true.
Proof.
  intros h r.
  apply (cache_hit_is_latest_and_fresh map_to_list default_config h 8 (lit "GET") (lit "/a") 7 r).
  vm_compute. reflexivity.
Defined.

(** When the clock advances between calls, the cache never holds more than
    [max_entries] responses (one, if that is zero): a store on a full cache
    evicts a response first. *)
Theorem response_cache_bounded (iter : store → list (bytes * CachedResponse))
    (config : CacheConfig) (h : list (Z * cache_op)) (clock : Z) :
  (∀ m, iter m ≡ₚ map_to_list m) → increasing clock h →
  cache_len (cache_run iter config h ∅) ≤ Z.max (cfg_max_entries config) 1.
Proof.
  intros Hi Hh. eapply cache_run_bounded; [done|exact Hh|].
  split; [unfold cache_len; rewrite map_size_empty; lia|apply map_Forall_empty].
Qed.

Lemma response_cache_bounded_witness :
  let config := {| cfg_ttl := 100; cfg_max_entries := 1; cfg_enabled := true |} in
  let h := [(1, CPut (lit "GET") (lit "/a") 7 200 [] []);
            (2, CPut (lit "GET") (lit "/b") 7 200 [] [])] in
  cache_len (cache_run map_to_list config h ∅) ≤ Z.max (cfg_max_entries config) 1.
Proof.
  intros config h. apply (response_cache_bounded map_to_list config h 0); [done|].
  repeat split; lia.
Defined.

(** A stored response is served: after any calls, a [GET] response stored
    with status 200 in an enabled cache is returned for the same path and source
    until its time to live is over, whatever lookups, purges, refused stores and
    invalidations of other paths come in between. *)
Theorem cache_serves_stored (iter : store → list (bytes * CachedResponse)) (config : CacheConfig)
    (h h' : list (Z * cache_op)) (t0 now hash : Z) (path ct body : bytes) :
  cfg_enabled config = true → t0 ≤ now → now - t0 < cfg_ttl config →
  Forall (λ x, keeps (cache_key (lit "GET") path) hash x.2 = true ∧ x.1 ≤ now) h' →
  ∃ r, (get config now (lit "GET") path hash (cache_run iter config
          (h ++ (t0, CPut (lit "GET") path hash 200 ct body) :: h') ∅)).1 = Some r ∧
    cr_body r = body ∧ cr_content_type r = ct ∧ cr_status r = 200.
Proof.
  intros He H0 Ht Hh.
  set (r := {| cr_body := body; cr_content_type := ct; cr_status := 200; source_hash := hash;
               created_at := t0; ttl := cfg_ttl config |}).
  assert (elapsed now r < ttl r) as Hel by (unfold elapsed; simpl; lia).
  exists r. split_and!; [|done..].
  assert (∀ m, cache_run iter config (h ++ (t0, CPut (lit "GET") path hash 200 ct body) :: h') m
    !! cache_key (lit "GET") path = Some r) as Hrun.
  { intros m. revert m. induction h as [|[t o] h IH]; intros m; simpl; [|apply IH].
    apply (cache_run_keeps iter config h' now); [done..|]. unfold put. rewrite He. simpl.
    rewrite bool_decide_eq_true_2 by done. simpl. by rewrite lookup_insert_eq. }
  assert (is_valid now r hash = true) as Hv.
  { unfold is_valid. apply andb_true_iff. split; [apply Z.eqb_refl|by apply Z.ltb_lt]. }
  unfold get. by rewrite He, Hrun, Hv.
Qed.

Lemma cache_serves_stored_witness :
  ∃ r, (get default_config 9 (lit "GET") (lit "/a") 7 (cache_run map_to_list default_config
          ([] ++ (5, CPut (lit "GET") (lit "/a") 7 200 (lit "text/html") (lit "hi")) ::
           [(6, CPurge); (7, CInvalidate (lit "/b"))]) ∅)).1 = Some r ∧
    cr_body r = lit "hi" ∧ cr_content_type r = lit "text/html" ∧ cr_status r = 200.
Proof.
  apply (cache_serves_stored map_to_list default_config []
    [(6, CPurge); (7, CInvalidate (lit "/b"))] 5 9 7 (lit "/a"));
    [reflexivity|lia|vm_compute; reflexivity|].
  constructor; [split; [reflexivity|simpl; lia]|].
  constructor; [split; [vm_compute; reflexivity|simpl; lia]|constructor].
Defined.
