(* ===== verification/NativeIpc.v ===== *)
(** * The native worker protocol (turbine-worker/src/pool.rs)

    The request and response formats of the non-persistent workers: 16-bit
    length prefixes, NUL-terminated strings in requests, a single response
    message. *)

From S2P Require Import Prelude Utf8 Reader Codec Stream Persistent.

Inductive WorkerCmd := Execute | Shutdown | ExecuteNative.

Definition cmd_byte (c : WorkerCmd) : byte :=
  match c with Execute => x01 | Shutdown => x02 | ExecuteNative => x03 end.

Inductive WorkerResp := RespOk | RespError | RespReady.

Definition resp_byte (r : WorkerResp) : byte :=
  match r with RespOk => x01 | RespError => x02 | RespReady => x03 end.

(** ** Requests *)

Record NativeRequest := {
  n_script_path : bytes;
  n_method : bytes;
  n_uri : bytes;
  n_query_string : bytes;
  n_content_type : bytes;
  n_cookie : bytes;
  n_document_root : bytes;
  n_remote_addr : bytes;
  n_remote_port : Z;
  n_server_port : Z;
  n_is_https : bool;
  n_path_info : bytes;
  n_script_name : bytes;
  n_body : bytes;
  n_headers : header_list }.

Definition decode_native : Dec NativeRequest :=
  script_path ← take_cstr 2;
  method ← take_cstr 2;
  uri ← take_cstr 2;
  query_string ← take_cstr 2;
  content_type ← take_cstr 2;
  _ ← take_le 4;
  cookie ← take_cstr 2;
  document_root ← take_cstr 2;
  remote_addr ← take_cstr 2;
  remote_port ← take_le 2;
  server_port ← take_le 2;
  https ← take_le 1;
  path_info ← take_cstr 2;
  script_name ← take_cstr 2;
  body_len ← take_le 4;
  body ← take_bytes (Z.to_nat body_len);
  header_count ← take_le 2;
  headers ← take_cstr_pairs 2 (Z.to_nat header_count);
  mret {| n_script_path := script_path; n_method := method; n_uri := uri;
          n_query_string := query_string; n_content_type := content_type; n_cookie := cookie;
          n_document_root := document_root; n_remote_addr := remote_addr;
          n_remote_port := remote_port; n_server_port := server_port;
          n_is_https := negb (https =? 0); n_path_info := path_info;
          n_script_name := script_name; n_body := body; n_headers := headers |}.

Definition NativeRequest_decode (data : bytes) : option NativeRequest := fst <$> decode_native data.

(** [write_str] of [encode_native_request_into]. *)
Definition native_write_str (buf s : bytes) : bytes := buf ++ le_bytes 2 (zlen s) ++ s ++ [x00].

Definition encode_native_request_into (_msg : bytes) (content_length : Z) (req : NativeRequest)
    : bytes :=
  let msg := [cmd_byte ExecuteNative] in
  let msg := msg ++ replicate 4 x00 in
  let payload_start := length msg in
  let msg := native_write_str msg (n_script_path req) in
  let msg := native_write_str msg (n_method req) in
  let msg := native_write_str msg (n_uri req) in
  let msg := native_write_str msg (n_query_string req) in
  let msg := native_write_str msg (n_content_type req) in
  let msg := msg ++ le_bytes 4 content_length in
  let msg := native_write_str msg (n_cookie req) in
  let msg := native_write_str msg (n_document_root req) in
  let msg := native_write_str msg (n_remote_addr req) in
  let msg := msg ++ le_bytes 2 (n_remote_port req) in
  let msg := msg ++ le_bytes 2 (n_server_port req) in
  let msg := msg ++ [if n_is_https req then x01 else x00] in
  let msg := native_write_str msg (n_path_info req) in
  let msg := native_write_str msg (n_script_name req) in
  let msg := msg ++ le_bytes 4 (zlen (n_body req)) in
  let msg := msg ++ n_body req in
  let msg := msg ++ le_bytes 2 (zlen (n_headers req)) in
  let msg := foldl (λ msg h, native_write_str (native_write_str msg h.1) h.2) msg
               (n_headers req) in
  let payload_len := zlen msg - Z.of_nat payload_start in
  patch_u32 msg 1 payload_len.

Definition encode_native_request (content_length : Z) (req : NativeRequest) : bytes :=
  encode_native_request_into [] content_length req.

(** ** Responses *)

Record NativeResponse := {
  success : bool;
  http_status : Z;
  nr_headers : header_list;
  nr_body : bytes }.

(** The bytes handed to [write_all], in one or two calls. *)
Definition write_native_response (status : WorkerResp) (st : Z) (hs : header_list) (body : bytes)
    : bytes :=
  let buf := [resp_byte status] ++ le_bytes 2 st ++ le_bytes 2 (zlen hs) in
  let buf := foldl (λ buf h,
    buf ++ le_bytes 2 (zlen h.1) ++ h.1 ++ le_bytes 2 (zlen h.2) ++ h.2) buf hs in
  let buf := buf ++ le_bytes 4 (zlen body) in
  buf ++ body.

Definition is_success (status : Z) : bool :=
  (status =? u8 (resp_byte RespOk)) || (status =? u8 (resp_byte RespReady)).

(** Both readers; each wraps its source in a [BufReader] that it drops. *)
Definition read_native (fl : flavour) : Rd NativeResponse :=
  status ← read_le fl 1;
  st ← read_le fl 2;
  header_count ← read_le fl 2;
  headers ← read_header_list fl (Z.to_nat header_count);
  body ← read_prefixed fl 4;
  mret {| success := is_success status; http_status := st; nr_headers := headers;
          nr_body := body |}.

Definition read_native_response_from_fd (p : pipe) : result NativeResponse io_error :=
  match read_native Std p with Ok (r, _) => Ok r | Err e => Err e end.

Definition read_native_response_async (p : pipe) : result NativeResponse io_error :=
  match read_native Tokio p with Ok (r, _) => Ok r | Err e => Err e end.

(** The code-evaluating workers use a shorter message. *)
Definition write_worker_response (status : WorkerResp) (payload : bytes) : bytes :=
  [resp_byte status] ++ le_bytes 4 (zlen payload) ++ payload.

Definition read_worker : Rd (bool * bytes) :=
  status ← read_le Std 1;
  payload ← read_prefixed Std 4;
  mret (is_success status, payload).

Definition read_response_from_fd (p : pipe) : result (bool * bytes) io_error :=
  match read_worker p with Ok (r, _) => Ok r | Err e => Err e end.

(** ** The request payload *)

Definition native_payload (content_length : Z) (req : NativeRequest) : bytes :=
  put_cstr 2 (n_script_path req) ++ put_cstr 2 (n_method req) ++ put_cstr 2 (n_uri req) ++
  put_cstr 2 (n_query_string req) ++ put_cstr 2 (n_content_type req) ++
  le_bytes 4 content_length ++ put_cstr 2 (n_cookie req) ++
  put_cstr 2 (n_document_root req) ++ put_cstr 2 (n_remote_addr req) ++
  le_bytes 2 (n_remote_port req) ++ le_bytes 2 (n_server_port req) ++
  [if n_is_https req then x01 else x00] ++ put_cstr 2 (n_path_info req) ++
  put_cstr 2 (n_script_name req) ++ le_bytes 4 (zlen (n_body req)) ++ n_body req ++
  le_bytes 2 (zlen (n_headers req)) ++ put_cstr_pairs 2 (n_headers req).

(** The strings before and after the numbers. *)
Definition native_strings (req : NativeRequest) : list bytes :=
  [n_script_path req; n_method req; n_uri req; n_query_string req; n_content_type req;
   n_cookie req; n_document_root req; n_remote_addr req; n_path_info req; n_script_name req].

(** Requests as they come from an HTTP message: no NUL in any string. *)
Definition native_wf (req : NativeRequest) : Prop :=
  Forall (λ s, x00 ∉ s) (native_strings req) ∧
  Forall (λ h, (x00 ∉ h.1) ∧ (x00 ∉ h.2)) (n_headers req) ∧
  0 ≤ n_remote_port req < 2 ^ 16 ∧ 0 ≤ n_server_port req < 2 ^ 16 ∧
  zlen (n_body req) < 2 ^ 32 ∧ zlen (n_headers req) < 2 ^ 16.

Definition native_short (req : NativeRequest) : bool :=
  forallb (λ s, zlen s <? 2 ^ 16) (native_strings req) && pairs_short 2 (n_headers req).

Lemma native_write_str_app buf s : native_write_str buf s = buf ++ put_cstr 2 s.
Proof. done. Qed.

Lemma foldl_native_pairs hs buf :
  foldl (λ msg h, native_write_str (native_write_str msg h.1) h.2) buf hs =
    buf ++ put_cstr_pairs 2 hs.
Proof.
  revert buf. induction hs as [|h hs IH]; intros buf; simpl; [by rewrite app_nil_r|].
  rewrite IH, !native_write_str_app. unfold put_cstr_pairs. simpl. by rewrite <-!(assoc_L app).
Qed.

Lemma encode_native_payload content_length req :
  encode_native_request content_length req =
    [x03] ++ le_bytes 4 (zlen (native_payload content_length req)) ++
    native_payload content_length req.
Proof.
  unfold encode_native_request, encode_native_request_into.
  rewrite foldl_native_pairs, !native_write_str_app. cbn [cmd_byte].
  match goal with |- patch_u32 ?buf _ _ = _ =>
    assert (buf = [x03] ++ replicate 4 x00 ++ native_payload content_length req) as -> end.
  { unfold native_payload. by rewrite <-!(assoc_L app). }
  unfold patch_u32. rewrite !zlen_app. change (zlen [x03]) with 1.
  change (zlen (replicate 4 x00)) with 4. change (length ([x03] ++ replicate 4 x00)) with 5%nat.
  replace (1 + (4 + zlen (native_payload content_length req)) - Z.of_nat 5)
    with (zlen (native_payload content_length req)) by lia.
  cbn [Nat.add take app drop replicate]. done.
Qed.

(** One field of the payload at a time. *)
Ltac decode_native_field :=
  match goal with
  | |- context [take_cstr _ (put_cstr _ ?s ++ _)] =>
      rewrite (take_cstr_put_free _ s) by done; change (256 ^ Z.of_nat 2) with (2 ^ 16);
      destruct (zlen s <? 2 ^ 16); [|by rewrite ?andb_false_r]
  | |- context [take_le _ (le_bytes _ _ ++ _)] =>
      rewrite decodes_le
        by (first [assumption | split; [by eauto with turbine|assumption] | by case_match])
  | |- context [take_bytes _ (?d ++ _)] =>
      rewrite (decodes_bytes d) by (unfold zlen; lia)
  end.

Lemma decode_native_payload content_length req : native_wf req →
  NativeRequest_decode (native_payload content_length req) =
    if native_short req then Some req else None.
Proof.
  intros (Hs & Hh & Hrp & Hsp & Hb & Hn). unfold native_strings in Hs.
  rewrite !Forall_cons in Hs. destruct_and! Hs.
  rewrite <-(app_nil_r (native_payload _ req)).
  unfold NativeRequest_decode, decode_native, native_payload, native_short, native_strings.
  rewrite <-!(assoc_L app). unfold mbind, Dec_bind. cbn [forallb].
  replace [if n_is_https req then x01 else x00]
    with (le_bytes 1 (if n_is_https req then 1 else 0))
    by (destruct (n_is_https req); vm_compute; reflexivity).
  do 5 decode_native_field.
  unfold take_le at 1, mbind at 1, Dec_bind at 1.
  rewrite (decodes_bytes (le_bytes 4 content_length)) by (by rewrite le_bytes_length).
  cbn [mret Dec_ret].
  repeat decode_native_field.
  replace (Z.to_nat (zlen (n_headers req))) with (length (n_headers req)) by (unfold zlen; lia).
  rewrite take_cstr_pairs_put_free by done.
  destruct (pairs_short 2 (n_headers req)); [|done]. simpl.
  destruct req as [? ? ? ? ? ? ? ? ? ? https ? ? ? ?]; simpl in *. by destruct https.
Qed.

(** ** Responses are read back *)

(** Responses the format can carry: 16-bit header count and lengths. *)
Definition native_response_wf (st : Z) (hs : header_list) (body : bytes) : Prop :=
  0 ≤ st < 2 ^ 16 ∧ zlen hs < 2 ^ 16 ∧ Forall header_wf hs ∧ zlen body < 2 ^ 32.

Definition status_success (r : WorkerResp) : bool :=
  match r with RespError => false | RespOk | RespReady => true end.

Lemma native_headers_app hs buf :
  foldl (λ buf h, buf ++ le_bytes 2 (zlen h.1) ++ h.1 ++ le_bytes 2 (zlen h.2) ++ h.2) buf hs =
    buf ++ foldl encode_header [] hs.
Proof. apply foldl_encode_header. Qed.

Lemma reads_native fl status st hs body : native_response_wf st hs body →
  reads (read_native fl) (write_native_response status st hs body)
    {| success := status_success status; http_status := st; nr_headers := hs; nr_body := body |}.
Proof.
  intros (Hst & Hn & Hh & Hb). unfold write_native_response. rewrite native_headers_app.
  replace [resp_byte status] with (le_bytes 1 (u8 (resp_byte status)))
    by (destruct status; vm_compute; reflexivity).
  rewrite <-!(assoc_L app). unfold read_native.
  eapply reads_bind; [by apply reads_le; destruct status|].
  eapply reads_bind; [by apply reads_le|].
  eapply reads_bind; [apply reads_le; split; [eauto with turbine|done]|].
  eapply reads_bind; [apply reads_header_list; [unfold zlen; lia|done]|].
  rewrite <-(app_nil_r (_ ++ body)).
  eapply reads_bind; [by apply reads_prefixed|].
  replace (is_success (u8 (resp_byte status))) with (status_success status)
    by (by destruct status). apply reads_ret.
Qed.

Lemma reads_worker status payload : zlen payload < 2 ^ 32 →
  reads read_worker (write_worker_response status payload) (status_success status, payload).
Proof.
  intros Hb. unfold write_worker_response.
  replace [resp_byte status] with (le_bytes 1 (u8 (resp_byte status)))
    by (destruct status; vm_compute; reflexivity).
  eapply reads_bind; [by apply reads_le; destruct status|].
  rewrite <-(app_nil_r (_ ++ payload)).
  eapply reads_bind; [by apply reads_prefixed|].
  replace (is_success (u8 (resp_byte status))) with (status_success status)
    by (by destruct status). apply reads_ret.
Qed.

(** ** Properties *)

(** The native request codec is safe for every HTTP request, however long
    its parts are. The message is the command, the length and the payload, and
    the worker decodes the payload back to the very same request when all its
    strings are shorter than 64 KiB; when one of them is longer, so that its
    16-bit length wraps, the worker refuses the request: it never mistakes the
    overlong bytes for other fields. *)
Theorem native_request_exact_or_refused (content_length : Z) (req : NativeRequest) :
  native_wf req →
  ∃ payload, encode_native_request content_length req =
      [x03] ++ le_bytes 4 (zlen payload) ++ payload ∧
    NativeRequest_decode payload = if native_short req then Some req else None.
Proof.
  intros H. exists (native_payload content_length req).
  split; [apply encode_native_payload|by apply decode_native_payload].
Qed.

Definition native_sample (target : bytes) : NativeRequest :=
  {| n_script_path := lit "/srv/index.php"; n_method := lit "GET"; n_uri := target;
     n_query_string := []; n_content_type := []; n_cookie := []; n_document_root := lit "/srv";
     n_remote_addr := lit "10.0.0.1"; n_remote_port := 4711; n_server_port := 443;
     n_is_https := true; n_path_info := []; n_script_name := lit "/index.php";
     n_body := [x00; x01]; n_headers := [(lit "host", lit "example.org")] |}.

Lemma native_request_exact_or_refused_witness :
  ∃ payload, encode_native_request (-1) (native_sample (lit "/a")) =
      [x03] ++ le_bytes 4 (zlen payload) ++ payload ∧
    NativeRequest_decode payload = Some (native_sample (lit "/a")).
Proof.
  apply (native_request_exact_or_refused (-1) (native_sample (lit "/a"))).
  split; [|split; [|done]].
  - apply (bool_decide_unpack _). vm_compute. exact I.
  - apply (bool_decide_unpack _). vm_compute. exact I.
Defined.

(** A native response is read back by the blocking and by the async reader
    exactly as the worker produced it, in whatever pieces it arrives. *)
Theorem native_response_roundtrip (status : WorkerResp) (st : Z) (hs : header_list)
    (body k : bytes) (p : pipe) :
  native_response_wf st hs body → stream p = write_native_response status st hs body ++ k →
  let r := {| success := status_success status; http_status := st; nr_headers := hs;
              nr_body := body |} in
  read_native_response_from_fd p = Ok r ∧ read_native_response_async p = Ok r.
Proof.
  intros Hwf Hp r. unfold read_native_response_from_fd, read_native_response_async. split.
  - by destruct (reads_native Std status st hs body Hwf p k Hp) as (p' & -> & _).
  - by destruct (reads_native Tokio status st hs body Hwf p k Hp) as (p' & -> & _).
Qed.

Lemma native_response_roundtrip_witness :
  let hs := [(lit "Location", lit "/login")] in
  let p := Pipe [take 9 (write_native_response RespOk 302 hs (lit "moved"));
                 drop 9 (write_native_response RespOk 302 hs (lit "moved"))] None in
  let r := {| success := true; http_status := 302; nr_headers := hs; nr_body := lit "moved" |} in
  read_native_response_from_fd p = Ok r ∧ read_native_response_async p = Ok r.
Proof.
  intros hs p r. apply (native_response_roundtrip RespOk 302 hs (lit "moved") [] p).
  - split_and!; try done. repeat constructor; vm_compute; done.
  - vm_compute. reflexivity.
Defined.
