(* ===== verification/AsyncPipe.v ===== *)
(** * Pipes in the reactor

    The [AsyncPipe] of turbine-worker/src/async_io.rs: a pipe in non-blocking
    mode whose reads wait for the reactor. A read makes several steps (ask for
    readiness, read, clear the readiness when the read would block), and bytes,
    the end of the stream, signals and events of the reactor may come between
    any two of them; [step] is the transition system that results.

    Decoders are programs that read exact numbers of bytes ([prog]); [denote]
    runs them on the pipes of Reader. The theorems show that a decoder on an
    [AsyncPipe] gives what it gives there, and that it never sleeps while there
    is something to read.

    [tokio::io::unix::AsyncFd] is an interface: what its documentation says of
    readiness and guards is [AsyncFd], which the pair of a counter and a flag
    satisfies. *)

From S2P Require Import Prelude Utf8 RustStr Reader Stream NativeIpc.

(** ** Non-blocking mode *)

Definition O_NONBLOCK : Z := 2048.

(** What [fcntl] answers to [F_GETFL] and, where it is called, to [F_SETFL];
    with the flags the descriptor is left with. *)
Definition set_nonblocking (getfl setfl : Z → result Z io_error) (flags : Z) :
    result unit io_error * Z :=
  match getfl flags with
  | Err e => (Err e, flags)
  | Ok fl =>
      if bool_decide (Z.land fl O_NONBLOCK ≠ 0) then (Ok tt, flags)
      else match setfl (Z.lor fl O_NONBLOCK) with
           | Err e => (Err e, flags)
           | Ok _ => (Ok tt, Z.lor fl O_NONBLOCK)
           end
  end.

(** ** Decoders *)

(** A decoder: it returns, fails, or goes on after [read_exact] of [n] bytes or
    after a [read] into a buffer of one byte, which the end of the pipe leaves
    empty. *)
Inductive prog (A : Type) : Type :=
| Ret (a : A)
| Throw (e : io_error)
| ReadExact (n : nat) (k : bytes → prog A)
| ReadByte (k : option byte → prog A).
Arguments Ret {A} a.
Arguments Throw {A} e.
Arguments ReadExact {A} n k.
Arguments ReadByte {A} k.

Fixpoint prog_bind {A B} (m : prog A) (f : A → prog B) : prog B :=
  match m with
  | Ret a => f a
  | Throw e => Throw e
  | ReadExact n k => ReadExact n (λ d, prog_bind (k d) f)
  | ReadByte k => ReadByte (λ d, prog_bind (k d) f)
  end.

#[global] Instance prog_ret : MRet prog := λ A a, Ret a.
#[global] Instance prog_mbind : MBind prog := λ A B f m, prog_bind m f.

(** The same decoder on a pipe that blocks. *)
Fixpoint denote {A} (m : prog A) : Rd A :=
  match m with
  | Ret a => mret a
  | Throw e => λ _, Err e
  | ReadExact n k => read_exact Tokio n ≫= λ d, denote (k d)
  | ReadByte k => read_u8 ≫= λ d, denote (k d)
  end.

Definition read_exact_async (n : nat) : prog bytes := ReadExact n mret.
Definition read_u8_async : prog byte := ReadExact 1 (λ d, mret (default x00 (head d))).
Definition read_u16_le_async : prog Z := ReadExact 2 (λ d, mret (le_val d)).
Definition read_u32_le_async : prog Z := ReadExact 4 (λ d, mret (le_val d)).

Definition read_bytes_async : prog bytes :=
  len ← read_u32_le_async; read_exact_async (Z.to_nat len).

(** [Utf8Error] as text: where the first bad sequence starts, and how long it is
    unless the input ends in the middle of it. *)
Fixpoint utf8_error_fuel (fuel : nat) (pos : Z) (l : bytes) : bytes :=
  match fuel, next_chunk l with
  | S fuel', Some (true, c, r) => utf8_error_fuel fuel' (pos + zlen c) r
  | S _, Some (false, c, r) =>
      if bool_decide (r = []) && bool_decide (head c ≫= cont_ranges ≠ None) then
        lit "incomplete utf-8 byte sequence from index " ++ dec_string pos
      else lit "invalid utf-8 sequence of " ++ dec_string (zlen c) ++
           lit " bytes from index " ++ dec_string pos
  | _, _ => []
  end.

Definition utf8_error (l : bytes) : bytes := utf8_error_fuel (length l) 0 l.

Definition read_string_async : prog bytes :=
  len ← read_u32_le_async;
  d ← read_exact_async (Z.to_nat len);
  if utf8_valid d then mret d else Throw (IoError InvalidData (utf8_error d)).

(** A read of nothing returns at once, without asking for readiness. *)
Fixpoint settle {A} (m : prog A) : prog A :=
  match m with
  | ReadExact O k => settle (k [])
  | _ => m
  end.

(** ** The reactor's side of a descriptor *)

(** [AsyncFd]: [af_event] is an event that the reactor reports, [af_poll] gives
    a guard when readiness is known, [af_clear] is [clear_ready] of a guard.
    [af_issued] says that a guard was made by this descriptor, [af_current] that
    no event came since. *)
Class AsyncFdOps (F G : Type) := {
  af_new : F;
  af_event : F → F;
  af_poll : F → option G;
  af_clear : G → F → F;
  af_issued : G → F → Prop;
  af_current : G → F → bool }.

(** The documented behaviour: an event makes the descriptor ready; clearing
    removes readiness known before the guard was made, and only that. *)
Class AsyncFd (F G : Type) `{AsyncFdOps F G} : Prop := {
  poll_event f : is_Some (af_poll (af_event f));
  poll_guard f g : af_poll f = Some g → af_issued g f ∧ af_current g f = true;
  event_guard f g : af_issued g f →
    af_issued g (af_event f) ∧ af_current g (af_event f) = false;
  clear_current f g : af_issued g f → af_current g f = true → af_poll (af_clear g f) = None;
  clear_stale f g : af_issued g f → af_current g f = false → af_clear g f = f }.

(** Events are counted, and a guard keeps the count. *)
#[global] Instance counted_ops : AsyncFdOps (nat * bool) nat := {|
  af_new := (0%nat, false);
  af_event f := (S f.1, true);
  af_poll f := if f.2 then Some f.1 else None;
  af_clear g f := if bool_decide (g = f.1) then (f.1, false) else f;
  af_issued g f := (g ≤ f.1)%nat;
  af_current g f := bool_decide (g = f.1) |}.

#[global] Instance counted_fd : AsyncFd (nat * bool) nat.
Proof.
  split; simpl.
  - by eexists.
  - intros [t []] g; simpl; intros [= <-]. split; [done|]. by rewrite bool_decide_true.
  - intros [t b] g; simpl; intros. split; [lia|]. rewrite bool_decide_false; [done|lia].
  - intros [t b] g; simpl; intros _ ->. done.
  - intros [t b] g; simpl; intros _ ->. done.
Qed.

(** ** A task that reads *)

(** Where the task is in [poll_read]: at the head of the loop, with a guard
    before the read, with a guard after a read that would block, or not running
    after [Poll::Pending]. *)
Inductive phase (G : Type) : Type :=
| Polling
| Guarded (g : G)
| Blocked (g : G)
| Asleep.
Arguments Polling {G}.
Arguments Guarded {G} g.
Arguments Blocked {G} g.
Arguments Asleep {G}.

(** The kernel's buffer, how the stream ended, an edge that the reactor has not
    reported yet, signals that will interrupt a read, the error of a reactor
    that was shut down; the descriptor; whether the task was woken, where it is,
    the decoder and what its present read has got. [arrived] is all that was
    written to the pipe. *)
Record st (F G A : Type) := St {
  sys_buf : bytes;
  sys_end : option (option io_error);
  sys_edge : bool;
  signals : nat;
  gone : option io_error;
  af : F;
  woken : bool;
  ph : phase G;
  code : prog A;
  filled : bytes;
  arrived : bytes }.
Arguments St {F G A}.
Arguments sys_buf {F G A}. Arguments sys_end {F G A}. Arguments sys_edge {F G A}.
Arguments signals {F G A}. Arguments gone {F G A}. Arguments af {F G A}.
Arguments woken {F G A}. Arguments ph {F G A}. Arguments code {F G A}.
Arguments filled {F G A}. Arguments arrived {F G A}.

(** What happens next: outside (bytes, the end, a signal, shutdown), or inside
    (the reactor reports the edge, the executor runs a woken task, the task
    makes a step; a read interrupted by a signal is a choice). *)
Inductive label :=
| Arrive (d : bytes)
| Close (e : option io_error)
| Signal
| Shutdown (e : io_error)
| Deliver
| Wake
| Task (k : nat)
| Interrupted.

Definition internal (l : label) : bool :=
  match l with Deliver | Wake | Task _ | Interrupted => true | _ => false end.

(** ** Writing *)

(** What comes of one round of [poll_write]: the descriptor is not ready, asking
    fails, or [write] would block, is interrupted, fails, or takes up to [S n]
    bytes. *)
Inductive wround :=
| NotReady
| PollFails (e : io_error)
| WouldBlock
| WriteInterrupted
| WriteFails (e : io_error)
| Takes (n : nat).

(** [poll_write]: [None] is [Poll::Pending]; with the rounds it did not make. *)
Fixpoint poll_write (rs : list wround) (buf : bytes) :
    option (result nat io_error) * list wround :=
  match rs with
  | [] => (None, [])
  | NotReady :: rs' => (None, rs')
  | PollFails e :: rs' | WriteFails e :: rs' => (Some (Err e), rs')
  | WouldBlock :: rs' | WriteInterrupted :: rs' => poll_write rs' buf
  | Takes n :: rs' => (Some (Ok (Nat.min (S n) (length buf))), rs')
  end.

(** [write_all] of tokio over it, polled again after every [Pending] as long as
    rounds are left: the bytes written, and the result if there is one. *)
Fixpoint write_all_async (fuel : nat) (rs : list wround) (data : bytes) :
    bytes * option (result unit io_error) :=
  match data, fuel with
  | [], _ => ([], Some (Ok tt))
  | _, O => ([], None)
  | _, S fuel' =>
      match poll_write rs data with
      | (None, rs') => write_all_async fuel' rs' data
      | (Some (Err e), _) => ([], Some (Err e))
      | (Some (Ok n), rs') =>
          let '(w, r) := write_all_async fuel' rs' (drop n data) in (take n data ++ w, r)
      end
  end.

Definition write_to_fd_async (rs : list wround) (data : bytes) :
    bytes * option (result unit io_error) :=
  write_all_async (length rs) rs data.

Section Pipe.
Context {F G : Type} `{AsyncFdOps F G} {A : Type}.
Abbreviation state := (st F G A).

(** [AsyncPipe::new] over a pipe that holds [b] already: registering reports
    what is there. *)
Definition start (m : prog A) (b : bytes) : state :=
  St b None (bool_decide (b ≠ [])) 0 None af_new false Polling (settle m) [] b.

Definition set_task (s : state) (p : phase G) (c : prog A) (d : bytes) : state :=
  St (sys_buf s) (sys_end s) (sys_edge s) (signals s) (gone s) (af s) (woken s) p c d (arrived s).

(** Bytes have been read: [read_exact] asks for the rest or gives the buffer to
    the decoder. *)
Definition accept (c : prog A) (d : bytes) : prog A * bytes :=
  match c with
  | ReadExact n k => if bool_decide (length d = n) then (settle (k d), []) else (c, d)
  | ReadByte k => (settle (k (head d)), [])
  | _ => (c, d)
  end.

(** The pipe has ended: [read] returns no bytes, or its error. *)
Definition at_end (c : prog A) (e : option io_error) : prog A :=
  match e, c with
  | Some e, _ => Throw e
  | None, ReadByte k => settle (k None)
  | None, _ => Throw (eof_error Tokio)
  end.

Definition room (c : prog A) (d : bytes) : nat :=
  match c with ReadExact n _ => n - length d | _ => 1 end.

(** [libc::read] into the rest of the buffer; the kernel gives up to [S i]
    bytes. *)
Definition task_read (g : G) (s : state) (i : nat) : state :=
  match sys_buf s with
  | [] => match sys_end s with
          | None => set_task s (Blocked g) (code s) (filled s)
          | Some e => set_task s Polling (at_end (code s) e) []
          end
  | b => let n := Nat.min (S i) (Nat.min (length b) (room (code s) (filled s))) in
         let '(c, d) := accept (code s) (filled s ++ take n b) in
         St (drop n b) (sys_end s) (sys_edge s) (signals s) (gone s) (af s) (woken s)
            Polling c d (arrived s)
  end.

Definition reading (c : prog A) : bool :=
  match c with ReadExact _ _ | ReadByte _ => true | _ => false end.

(** One step of [poll_read]. *)
Definition task_step (i : nat) (s : state) : option state :=
  if reading (code s) then
    match ph s with
    | Polling =>
        match gone s with
        | Some e => Some (set_task s Polling (Throw e) [])
        | None =>
            match af_poll (af s) with
            | Some g => Some (set_task s (Guarded g) (code s) (filled s))
            | None =>
                Some (St (sys_buf s) (sys_end s) (sys_edge s) (signals s) (gone s) (af s)
                         false Asleep (code s) (filled s) (arrived s))
            end
        end
    | Guarded g => Some (task_read g s i)
    | Blocked g =>
        Some (St (sys_buf s) (sys_end s) (sys_edge s) (signals s) (gone s) (af_clear g (af s))
                 (woken s) Polling (code s) (filled s) (arrived s))
    | Asleep => None
    end
  else None.

Definition asleep (p : phase G) : bool := match p with Asleep => true | _ => false end.

Definition step (l : label) (s : state) : option state :=
  match l with
  | Arrive d =>
      match sys_end s with
      | Some _ => None
      | None => if bool_decide (d = []) then None else
          Some (St (sys_buf s ++ d) None true (signals s) (gone s) (af s) (woken s) (ph s)
                   (code s) (filled s) (arrived s ++ d))
      end
  | Close e =>
      match sys_end s with
      | Some _ => None
      | None => Some (St (sys_buf s) (Some e) true (signals s) (gone s) (af s) (woken s) (ph s)
                         (code s) (filled s) (arrived s))
      end
  | Signal => Some (St (sys_buf s) (sys_end s) (sys_edge s) (S (signals s)) (gone s) (af s)
                       (woken s) (ph s) (code s) (filled s) (arrived s))
  | Shutdown e =>
      match gone s with
      | Some _ => None
      | None => Some (St (sys_buf s) (sys_end s) (sys_edge s) (signals s) (Some e) (af s)
                         true (ph s) (code s) (filled s) (arrived s))
      end
  | Deliver =>
      if sys_edge s then
        Some (St (sys_buf s) (sys_end s) false (signals s) (gone s) (af_event (af s))
                 (asleep (ph s) || woken s) (ph s) (code s) (filled s) (arrived s))
      else None
  | Wake =>
      if asleep (ph s) && woken s then
        Some (St (sys_buf s) (sys_end s) (sys_edge s) (signals s) (gone s) (af s) false Polling
                 (code s) (filled s) (arrived s))
      else None
  | Interrupted =>
      match reading (code s), ph s, signals s with
      | true, Guarded _, S n =>
          Some (St (sys_buf s) (sys_end s) (sys_edge s) n (gone s) (af s) (woken s) Polling
                   (code s) (filled s) (arrived s))
      | _, _, _ => None
      end
  | Task i => task_step i s
  end.

Definition steps (s s' : state) : Prop := ∃ l, step l s = Some s'.
Definition runs_on (s s' : state) : Prop := ∃ l, internal l = true ∧ step l s = Some s'.

(** What the decoder has come to. *)
Definition finished (s : state) : option (result A io_error) :=
  match code s with
  | Ret a => Some (Ok a)
  | Throw e => Some (Err e)
  | _ => None
  end.
End Pipe.

(** ** Decoders and pipes *)

#[global] Instance denote_seg {A} (m : prog A) : SegInvariant (denote m).
Proof.
  induction m as [a|e|n k IH|k IH]; simpl; [apply _|by intros ???|apply _..].
Qed.

Lemma denote_settle {A} (m : prog A) p : denote (settle m) p = denote m p.
Proof. revert p. induction m as [a|e|[|n] k IH|k IH]; intros p; simpl; done. Qed.

Lemma settle_read {A} (m : prog A) n k : settle m = ReadExact n k → (0 < n)%nat.
Proof. induction m as [a|e|[|n'] k' IH|k' IH]; simpl; intros E; simplify_eq/=; [by eapply IH|lia]. Qed.

(** The rest of a read of which [filled] is done, and then the decoder. *)
Definition resume {A} (m : prog A) (filled : bytes) : Rd A :=
  match m with
  | ReadExact n k => read_exact Tokio (n - length filled) ≫= λ d, denote (k (filled ++ d))
  | _ => denote m
  end.

Lemma resume_settle {A} (m : prog A) p : resume (settle m) [] p = denote m p.
Proof.
  rewrite <-denote_settle. destruct (settle m) as [a|e|n k|k]; simpl; try done.
  by rewrite Nat.sub_0_r.
Qed.

(** Reading [d] and then the rest is reading all. *)
Lemma read_exact_split n (d rest : bytes) fin (p' : pipe) : p' ≡ Pipe [rest] fin →
  run_equiv (read_exact Tokio (length d + n) (Pipe [d ++ rest] fin))
            (match read_exact Tokio n p' with Ok (d', p'') => Ok (d ++ d', p'') | Err e => Err e end).
Proof.
  intros [Hs Hf]. unfold stream in Hs. simpl in *. rewrite app_nil_r in Hs.
  pose proof (read_exact_spec Tokio (length d + n) (Pipe [d ++ rest] fin)) as Hl.
  pose proof (read_exact_spec Tokio n p') as Hr. unfold stream in *. simpl in Hl.
  rewrite app_nil_r in Hl.
  destruct (read_exact Tokio (length d + n) _) as [[dl pl]|el],
           (read_exact Tokio n p') as [[dr pr]|er]; simpl in *.
  - destruct Hl as (E1 & L1 & F1), Hr as (E2 & L2 & F2).
    rewrite Hs in E2. rewrite E2, (assoc_L app) in E1.
    apply app_inj_1 in E1 as [-> E1]; [|rewrite length_app; lia].
    split; [done|]. split; [done|congruence].
  - destruct Hl as (E1 & L1 & _), Hr as (L2 & _). rewrite Hs in L2.
    apply (f_equal length) in E1. rewrite !length_app in E1. lia.
  - destruct Hl as (L1 & _), Hr as (E2 & L2 & _). rewrite <-Hs, E2, !length_app in L1. lia.
  - destruct Hl as (_ & ->), Hr as (_ & ->). by rewrite Hf.
Qed.

Lemma run_equiv_map {A B} (r r' : result (A * pipe) io_error) (k : A → Rd B) :
  (∀ a, SegInvariant (k a)) → run_equiv r r' →
  run_equiv (match r with Ok (a, p) => k a p | Err e => Err e end)
            (match r' with Ok (a, p) => k a p | Err e => Err e end).
Proof.
  intros Hk Hr. destruct r as [[a p]|e], r' as [[a' p']|e']; simpl in *; try done.
  destruct Hr as [<- Hp]. by apply Hk.
Qed.

(** A decoder that has got [d] more goes on as if it had them from the start. *)
Lemma resume_more {A} n (k : bytes → prog A) f d rest fin :
  (length f + length d ≤ n)%nat →
  run_equiv (resume (ReadExact n k) f (Pipe [d ++ rest] fin))
            (resume (ReadExact n k) (f ++ d) (Pipe [rest] fin)).
Proof.
  intros Hl. simpl. unfold mbind, Rd_bind. rewrite length_app.
  replace (n - length f)%nat with (length d + (n - (length f + length d)))%nat by lia.
  etrans.
  - apply run_equiv_map; [intros; apply denote_seg|].
    apply (read_exact_split _ d rest fin (Pipe [rest] fin)). done.
  - destruct (read_exact Tokio (n - (length f + length d)) (Pipe [rest] fin)) as [[d' p']|e];
      [|done]. by rewrite (assoc_L app).
Qed.

Lemma resume_full {A} n (k : bytes → prog A) f rest fin : length f = n →
  run_equiv (resume (ReadExact n k) f (Pipe [rest] fin))
            (resume (settle (k f)) [] (Pipe [rest] fin)).
Proof.
  intros <-. rewrite resume_settle. simpl. unfold mbind, Rd_bind.
  rewrite Nat.sub_diag. unfold read_exact. simpl. by rewrite app_nil_r.
Qed.

(** Nothing left, and the decoder needs more. *)
Lemma resume_end {A} n (k : bytes → prog A) f fin : (length f < n)%nat →
  resume (ReadExact n k) f (Pipe [[]] fin) = Err (default (eof_error Tokio) fin).
Proof.
  intros Hl. simpl. unfold mbind, Rd_bind.
  pose proof (read_exact_spec Tokio (n - length f) (Pipe [[]] fin)) as H.
  destruct (read_exact Tokio (n - length f) _) as [[d p]|e].
  - destruct H as (E & L & _). unfold stream in E. simpl in E.
    destruct d; simpl in *; [lia|discriminate].
  - by destruct H as [_ ->].
Qed.

(** ** The decoders of the protocols *)

(** A decoder of Stream or NativeIpc that reads as a [prog] does. *)
Class AsyncDecoder {A} (d : Rd A) := {
  decoder : prog A;
  decoder_ok p : denote decoder p = d p }.
Arguments decoder {A} d {_}.

Lemma denote_bind {A B} (m : prog A) (f : A → prog B) p :
  denote (m ≫= f) p = (denote m ≫= λ a, denote (f a)) p.
Proof.
  revert p. induction m as [a|e|n k IH|k IH]; intros p; simpl; [done..| |];
    unfold mbind, Rd_bind in *; case_match; [|done| |done]; case_match; by rewrite <-IH.
Qed.

#[global] Instance ret_decoder {A} (a : A) : AsyncDecoder (mret a : Rd A).
Proof. by exists (Ret a). Defined.

#[global] Instance fail_decoder {A} k msg : AsyncDecoder (rd_fail k msg : Rd A).
Proof. by exists (Throw (IoError k msg)). Defined.

#[global] Instance bind_decoder {A B} (m : Rd A) (k : A → Rd B) :
  AsyncDecoder m → (∀ a, AsyncDecoder (k a)) → AsyncDecoder (m ≫= k).
Proof.
  intros Hm Hk. exists (decoder m ≫= λ a, decoder (k a)). intros p. rewrite denote_bind.
  unfold mbind, Rd_bind. rewrite decoder_ok. destruct (m p) as [[a p']|e]; [|done].
  apply decoder_ok.
Defined.

#[global] Instance exact_decoder n : AsyncDecoder (read_exact Tokio n).
Proof.
  exists (read_exact_async n). intros p. simpl. unfold mbind, Rd_bind.
  by destruct (read_exact Tokio n p) as [[d p']|e].
Defined.

#[global] Instance byte_decoder : AsyncDecoder read_u8.
Proof.
  exists (ReadByte Ret). intros p. simpl. unfold mbind, Rd_bind.
  by destruct (read_u8 p) as [[d p']|e].
Defined.

#[global] Instance le_decoder n : AsyncDecoder (read_le Tokio n).
Proof. unfold read_le. apply _. Defined.

#[global] Instance prefixed_decoder n : AsyncDecoder (read_prefixed Tokio n).
Proof. unfold read_prefixed. apply _. Defined.

#[global] Instance header_list_decoder n : AsyncDecoder (read_header_list Tokio n).
Proof. induction n; simpl; apply _. Defined.

#[global] Instance frame_body_decoder x : AsyncDecoder (read_frame_body Tokio x).
Proof. unfold read_frame_body. repeat case_decide; apply _. Defined.

#[global] Instance frame_decoder : AsyncDecoder read_frame_async.
Proof.
  apply bind_decoder; [apply _|]. intros [x|]; apply _.
Defined.

#[global] Instance native_decoder : AsyncDecoder (read_native Tokio).
Proof. unfold read_native. apply _. Defined.

(** The helpers of the module are the decoders of the protocols, but for the
    check of the text. *)
Lemma read_bytes_async_prefixed p : denote read_bytes_async p = read_prefixed Tokio 4 p.
Proof.
  unfold read_bytes_async, read_prefixed, read_le. rewrite denote_bind.
  unfold mbind, Rd_bind. simpl. unfold mbind, Rd_bind.
  destruct (read_exact Tokio 4 p) as [[d p']|e]; [|done]. simpl.
  by destruct (read_exact Tokio _ p') as [[d' p'']|e].
Qed.

(** ** What holds in every state *)

Section Invariant.
Context {F G : Type} `{AsyncFd F G} {A : Type}.
Abbreviation state := (st F G A).

Definition readable (s : state) : Prop := sys_buf s ≠ [] ∨ sys_end s ≠ None.
Definition ready (s : state) : Prop := is_Some (af_poll (af s)).

(** Nothing readable is forgotten: an edge is still to be reported, or the task
    will ask and find the descriptor ready. *)
Definition no_lost_edge (s : state) : Prop :=
  match ph s with
  | Polling => readable s → sys_edge s = true ∨ ready s
  | Guarded g => af_issued g (af s) ∧ ready s
  | Blocked g => af_issued g (af s) ∧ ready s ∧
      (readable s → sys_edge s = true ∨ af_current g (af s) = false)
  | Asleep => (readable s → sys_edge s = true ∨ woken s = true ∧ ready s) ∧
      (gone s ≠ None → woken s = true)
  end.

(** What may still come: nothing after the end. *)
Definition future (s : state) (rest : bytes) (fin : option io_error) : Prop :=
  match sys_end s with None => True | Some f => rest = [] ∧ fin = f end.

(** A read in progress has room in its buffer. *)
Definition has_room (c : prog A) (d : bytes) : Prop :=
  match c with ReadExact n _ => (length d < n)%nat | _ => d = [] end.

(** The decoder is as far as it would be on a pipe that blocks, whatever comes. *)
Definition in_step (m : prog A) (s : state) : Prop :=
  has_room (code s) (filled s) ∧
  ∀ rest fin, future s rest fin →
    run_equiv (denote m (Pipe [arrived s ++ rest] fin))
              (resume (code s) (filled s) (Pipe [sys_buf s ++ rest] fin)).

Definition simulates (m : prog A) (s : state) : Prop :=
  (∃ e, code s = Throw e ∧ gone s = Some e) ∨ in_step m s.

Lemma has_room_settle (m : prog A) : has_room (settle m) [].
Proof.
  destruct (settle m) as [a|e|n k|k] eqn:E; try done. simpl. by apply (settle_read m n k).
Qed.

Lemma simulates_start m b : simulates m (start m b).
Proof.
  right. split; simpl; [apply has_room_settle|]. intros. by rewrite resume_settle.
Qed.

Lemma no_lost_edge_start m b : no_lost_edge (start m b).
Proof. intros [Hb|Hb]; simpl in *; [|done]. left. by apply bool_decide_eq_true. Qed.

(** ** The steps keep it *)

(** A state that differs only where the decoder does not look. *)
Lemma in_step_same m (s s' : state) : in_step m s → code s' = code s → filled s' = filled s →
  sys_buf s' = sys_buf s → arrived s' = arrived s → (∀ rest fin, future s' rest fin → future s rest fin) →
  in_step m s'.
Proof. intros [Hc Hr] Ec Ef Eb Ea Hf. split; rewrite Ec, Ef; [done|]. rewrite Eb, Ea. auto. Qed.

Lemma accept_spec (c : prog A) f d rest fin : reading c = true →
  d ≠ [] → (length d ≤ room c f)%nat → has_room c f →
  let '(c', f') := accept c (f ++ d) in
  has_room c' f' ∧
  run_equiv (resume c f (Pipe [d ++ rest] fin)) (resume c' f' (Pipe [rest] fin)).
Proof.
  intros Er Hd Hl Hc. destruct c as [a|e|n k|k]; simpl in *; [done..| |].
  - case_bool_decide as Hf; rewrite length_app in Hf.
    + split; [apply has_room_settle|]. etrans.
      * apply (resume_more n k f d rest fin). lia.
      * apply resume_full. by rewrite length_app.
    + split; [simpl; rewrite length_app; lia|]. apply resume_more. lia.
  - subst f. split; [apply has_room_settle|]. rewrite resume_settle.
    destruct d as [|x [|y d]]; [done| |simpl in Hl; lia]. done.
Qed.

Lemma room_pos (c : prog A) d : reading c = true → has_room c d → (0 < room c d)%nat.
Proof. intros Hr. destruct c; simpl; try done; lia. Qed.

Lemma at_end_spec (c : prog A) f fin : reading c = true → has_room c f →
  has_room (at_end c fin) [] ∧
  run_equiv (resume c f (Pipe [[]] fin)) (resume (at_end c fin) [] (Pipe [[]] fin)).
Proof.
  intros Hr Hc. destruct c as [a|e|n k|k]; try done.
  - unfold at_end. rewrite resume_end by done. by destruct fin.
  - simpl in Hc. subst f. unfold at_end. destruct fin as [e|]; [done|].
    split; [apply has_room_settle|]. rewrite resume_settle.
    by apply (denote_seg (k None) (Pipe [] None) (Pipe [[]] None)).
Qed.

Lemma in_step_read m (s : state) g i : in_step m s → reading (code s) = true →
  in_step m (task_read g s i).
Proof.
  intros Hin Er. pose proof Hin as [Hc Hr]. unfold task_read.
  destruct (sys_buf s) as [|x b] eqn:Eb.
  - destruct (sys_end s) as [fin|] eqn:En.
    + destruct (at_end_spec (code s) (filled s) fin Er Hc) as [He1 He2]. split; [done|].
      unfold future. simpl. rewrite En, Eb. intros ?? [-> ->].
      etrans; [|exact He2]. apply (Hr [] fin). unfold future. by rewrite En.
    + by apply (in_step_same m s).
  - set (n := Nat.min _ _). set (d := take n (x :: b)).
    assert (d ≠ [] ∧ (length d ≤ room (code s) (filled s))%nat) as [Hd Hl].
    { split; [|unfold d; rewrite length_take; lia].
      assert (0 < n)%nat; [|by destruct n; [lia|]].
      pose proof (room_pos _ _ Er Hc). unfold n. simpl length. lia. }
    pose proof (λ rest fin, accept_spec (code s) (filled s) d rest fin Er Hd Hl Hc) as Ha.
    destruct (accept (code s) (filled s ++ d)) as [c f].
    split; [apply (Ha [] None)|]. intros rest fin Hf. cbn [arrived code filled sys_buf].
    etrans; [by apply Hr|]. assert ((x :: b) ++ rest = d ++ drop n (x :: b) ++ rest) as ->
      by (unfold d; by rewrite (assoc_L app), take_drop).
    apply Ha.
Qed.

Lemma simulates_task m (s : state) i s' : simulates m s → task_step i s = Some s' →
  simulates m s'.
Proof.
  intros Hs. unfold task_step. destruct (reading (code s)) eqn:Er; [|done].
  destruct Hs as [(e & Ee & _)|Hs]; [by rewrite Ee in Er|].
  destruct (ph s) as [|g|g|]; [| | |done].
  - destruct (gone s) as [e|] eqn:Eg; [intros [= <-]; left; simpl; eauto|].
    destruct (af_poll (af s)); intros [= <-]; right; by apply (in_step_same m s).
  - intros [= <-]. right. by apply in_step_read.
  - intros [= <-]. right. by apply (in_step_same m s).
Qed.

Lemma simulates_arrive m (s : state) d s' : simulates m s → step (Arrive d) s = Some s' →
  simulates m s'.
Proof.
  simpl. intros Hs. destruct (sys_end s) eqn:En; [done|]. case_bool_decide; [done|].
  intros [= <-]. destruct Hs as [Hs|[Hc Hr]]; [by left|right]. split; [done|].
  intros rest fin _. simpl. rewrite <-!(assoc_L app). apply Hr. unfold future. by rewrite En.
Qed.

Lemma simulates_step m (s : state) l s' : simulates m s → step l s = Some s' → simulates m s'.
Proof.
  intros Hs. destruct l as [d|e| |e| | |i|];
    [by apply simulates_arrive| | | | | |by apply simulates_task|]; simpl.
  - destruct (sys_end s) eqn:En; [done|]. intros [= <-].
    destruct Hs as [Hs|Hs]; [by left|right]. apply (in_step_same m s); [done..|].
    unfold future. by rewrite En.
  - intros [= <-]. exact Hs.
  - destruct (gone s) eqn:Eg; [done|]. intros [= <-].
    destruct Hs as [(? & _ & ?)|Hs]; [congruence|right]. by apply (in_step_same m s).
  - destruct (sys_edge s); [|done]. intros [= <-]. exact Hs.
  - destruct (_ && _); [|done]. intros [= <-]. exact Hs.
  - destruct (reading _), (ph s), (signals s); try done. intros [= <-]. exact Hs.
Qed.

Lemma no_lost_edge_task (s : state) i s' : no_lost_edge s → task_step i s = Some s' →
  no_lost_edge s'.
Proof.
  unfold task_step, no_lost_edge at 1. destruct (reading (code s)); [|done].
  destruct (ph s) as [|g|g|]; [| | |done]; intros Hs.
  - destruct (gone s) eqn:Eg; [intros [= <-]; exact Hs|].
    destruct (af_poll (af s)) as [g|] eqn:Ep; intros [= <-]; unfold no_lost_edge; simpl.
    + split; [by apply poll_guard|by eexists].
    + split; [|done]. intros Hr. destruct (Hs Hr) as [?|[g Hg]]; [by left|congruence].
  - intros [= <-]. destruct Hs as [Hi Hr]. unfold task_read.
    destruct (sys_buf s) as [|x b] eqn:Eb;
      [|destruct (accept _ _); unfold no_lost_edge; simpl; by right].
    destruct (sys_end s) as [e|] eqn:En; unfold no_lost_edge; simpl; [by right|].
    split_and!; [done..|]. unfold readable. simpl. rewrite Eb, En. by intros [?|?].
  - intros [= <-]. destruct Hs as (Hi & Hr & He). unfold no_lost_edge. simpl. intros Hd.
    destruct (He Hd) as [?|Hc]; [by left|right]. unfold ready. simpl. by rewrite clear_stale.
Qed.

Lemma no_lost_edge_step (s : state) l s' : no_lost_edge s → step l s = Some s' → no_lost_edge s'.
Proof.
  intros Hs. destruct l as [d|e| |e| | |i|]; [| | | | | |by apply no_lost_edge_task|]; simpl.
  - destruct (sys_end s); [done|]. case_bool_decide; [done|]. intros [= <-].
    unfold no_lost_edge in *. simpl. destruct (ph s); naive_solver.
  - destruct (sys_end s); [done|]. intros [= <-].
    unfold no_lost_edge in *. simpl. destruct (ph s); naive_solver.
  - intros [= <-]. exact Hs.
  - destruct (gone s); [done|]. intros [= <-].
    unfold no_lost_edge in *. simpl. destruct (ph s); naive_solver.
  - destruct (sys_edge s); [|done]. intros [= <-]. pose proof (poll_event (af s)) as Hr.
    unfold no_lost_edge in *. unfold ready. simpl. destruct (ph s) as [|g|g|]; simpl;
      [by right|..|by split; auto].
    + split; [apply event_guard, Hs|done].
    + split_and!; [apply event_guard, Hs|done|]. right. apply event_guard, Hs.
  - destruct (ph s) eqn:Ep, (woken s) eqn:Ew; simpl; try done. intros [= <-].
    unfold no_lost_edge in *. rewrite Ep in Hs. simpl. naive_solver.
  - destruct (reading _), (ph s) as [|g|g|] eqn:Ep, (signals s); try done. intros [= <-].
    unfold no_lost_edge in *. rewrite Ep in Hs. simpl. right. apply Hs.
Qed.

Definition reachable (m : prog A) (b : bytes) (s : state) : Prop := rtc steps (start m b) s.

Lemma reachable_inv m b s : reachable m b s → simulates m s ∧ no_lost_edge s.
Proof.
  intros Hr. eapply (rtc_ind_r (λ s, simulates m s ∧ no_lost_edge s)); [| |exact Hr].
  - split; [apply simulates_start|apply no_lost_edge_start].
  - intros s1 s2 _ [l Hl] [Hs He]. eauto using simulates_step, no_lost_edge_step.
Qed.

(** ** Termination *)

(** How many reads the decoder still makes at the end of the pipe. *)
Fixpoint end_reads (c : prog A) : nat :=
  match c with
  | ReadExact O k => end_reads (k [])
  | ReadExact (S _) _ => 1
  | ReadByte k => S (end_reads (k None))
  | _ => 0
  end.

(** How far the task is from sleep or from the next read. *)
Definition rank (s : state) : nat :=
  match ph s with
  | Asleep => if woken s then (if af_poll (af s) is Some _ then 5 else 2) else 0
  | Polling => if af_poll (af s) is Some _ then 4 else 1
  | Guarded g => if af_current g (af s) then 3 else 6
  | Blocked g => if af_current g (af s) then 2 else 5
  end.

Definition supply (s : state) : nat := signals s + length (sys_buf s).

Definition work (s : state) : nat :=
  7 * (Nat.b2n (sys_edge s) + end_reads (code s)) + rank s.

(** Less is left to take, or as much and less to do. *)
Definition less_left (s' s : state) : Prop :=
  (supply s' < supply s)%nat ∨ (supply s' = supply s ∧ (work s' < work s)%nat).

Lemma rank_bound s : (rank s ≤ 6)%nat.
Proof. unfold rank. repeat case_match; lia. Qed.

Lemma end_reads_settle (c : prog A) : end_reads (settle c) = end_reads c.
Proof. by induction c as [| |[|n] k IH|]; simpl. Qed.

Lemma end_reads_at_end (c : prog A) f fin : reading c = true → has_room c f →
  (end_reads (at_end c fin) < end_reads c)%nat.
Proof.
  intros Hr Hc. destruct c as [| |[|n] k|k], fin; simpl in *; try done; try lia.
  rewrite end_reads_settle. lia.
Qed.

Lemma less_left_read m (s : state) g i : in_step m s → reading (code s) = true →
  ph s = Guarded g → less_left (task_read g s i) s.
Proof.
  intros [Hc _] Er Ep. unfold task_read. destruct (sys_buf s) as [|x b] eqn:Eb.
  - right. destruct (sys_end s) as [fin|] eqn:En; unfold supply, work;
      cbn [code signals sys_buf sys_edge set_task]; rewrite Eb; (split; [done|]).
    + pose proof (end_reads_at_end _ _ fin Er Hc).
      match goal with |- (_ + rank ?s < _)%nat => pose proof (rank_bound s) end. lia.
    + unfold rank. simpl. rewrite Ep. destruct (af_current _ _); lia.
  - left. destruct (accept _ _). unfold supply. cbn [signals sys_buf]. rewrite Eb.
    pose proof (room_pos _ _ Er Hc). rewrite length_drop. cbn [length]. lia.
Qed.

Lemma less_left_task m (s : state) i s' : simulates m s → no_lost_edge s →
  task_step i s = Some s' → less_left s' s.
Proof.
  intros Hs He. unfold task_step. destruct (reading (code s)) eqn:Er; [|done].
  destruct Hs as [(e & Ee & _)|Hs]; [by rewrite Ee in Er|].
  unfold no_lost_edge in He. destruct (ph s) as [|g|g|] eqn:Ep; [| | |done].
  - destruct (gone s) as [e|].
    { intros [= <-]. right. split; [done|].
      pose proof (end_reads_at_end _ _ (Some e) Er (proj1 Hs)).
      unfold work, rank. simpl in *. rewrite Ep. lia. }
    destruct (af_poll (af s)) as [g|] eqn:Ea; intros [= <-]; right; (split; [done|]);
      unfold work, rank; simpl; rewrite ?Ep, ?Ea; [|lia].
    destruct (poll_guard _ _ Ea) as [_ ->]. lia.
  - intros [= <-]. by apply (less_left_read m).
  - intros [= <-]. destruct He as (Hi & _ & _). right. split; [done|].
    unfold work, rank. simpl. rewrite Ep. destruct (af_current g (af s)) eqn:Ea.
    + rewrite clear_current by done. lia.
    + destruct (af_poll _); lia.
Qed.

Lemma less_left_step m (s s' : state) : simulates m s → no_lost_edge s → runs_on s s' →
  less_left s' s.
Proof.
  intros Hs He ([d|e| |e| | |i|] & Hl & Hstep); try done; simpl in Hstep;
    [| |by eapply less_left_task|].
  - destruct (sys_edge s) eqn:Ed; [|done]. injection Hstep as <-. right. split; [done|].
    unfold work. simpl. rewrite Ed.
    match goal with |- (_ + rank ?s < _)%nat => pose proof (rank_bound s) end. simpl. lia.
  - destruct (ph s) eqn:Ep, (woken s) eqn:Ew; simplify_eq/=. right. split; [done|].
    unfold work, rank. simpl. rewrite Ep, Ew. destruct (af_poll _); lia.
  - destruct (reading _), (ph s), (signals s) eqn:Eg; try done. injection Hstep as <-. left.
    unfold supply. simpl. lia.
Qed.

Lemma less_left_wf : well_founded less_left.
Proof.
  intros s. remember (supply s) as a eqn:Ea. revert s Ea.
  induction a as [a IHa] using lt_wf_ind. intros s Ea.
  remember (work s) as b eqn:Eb. revert s Ea Eb.
  induction b as [b IHb] using lt_wf_ind. intros s Ea Eb. constructor.
  intros s' [Hl|[He Hl]]; [eapply IHa; [|done]; lia|eapply IHb; [|congruence|done]; lia].
Qed.

(** The steps inside come to an end, and keep the invariants. *)
Lemma runs_on_ends m (s : state) : simulates m s → no_lost_edge s → sn runs_on s.
Proof.
  induction (less_left_wf s) as [s _ IH]. intros Hs He. constructor. intros s' Hr.
  pose proof (less_left_step m s s' Hs He Hr). destruct Hr as (l & _ & Hl).
  apply IH; eauto using simulates_step, no_lost_edge_step.
Qed.

Lemma runs_on_inv m (s s' : state) : rtc runs_on s s' → simulates m s → no_lost_edge s →
  simulates m s' ∧ no_lost_edge s'.
Proof.
  intros Hr. induction Hr as [|s1 s2 s3 (l & _ & Hl) _ IH]; [done|].
  intros. apply IH; eauto using simulates_step, no_lost_edge_step.
Qed.

(** Where nothing inside can go on, the decoder has finished or nothing can be
    read. *)
Lemma stuck_finished (s : state) : no_lost_edge s → (∀ s', ¬ runs_on s s') →
  finished s = None → ph s = Asleep ∧ sys_buf s = [] ∧ sys_end s = None ∧ gone s = None.
Proof.
  intros He Hst Ho.
  assert (reading (code s) = true) as Er by (unfold finished in Ho; by destruct (code s)).
  assert (sys_edge s = false) as Ed.
  { destruct (sys_edge s) eqn:Ed; [|done]. exfalso.
    eapply Hst. exists Deliver. split; [done|]. simpl. by rewrite Ed. }
  assert (ph s = Asleep) as Ep.
  { destruct (task_step 0 s) as [s'|] eqn:Et.
    - destruct (Hst s'). by exists (Task 0).
    - unfold task_step in Et. rewrite Er in Et. repeat case_match; done. }
  assert (woken s = false) as Ew.
  { destruct (woken s) eqn:Ew; [|done]. exfalso.
    eapply Hst. exists Wake. split; [done|]. simpl. by rewrite Ep, Ew. }
  unfold no_lost_edge in He. rewrite Ep, Ed, Ew in He. destruct He as [Hd Hg].
  split_and!; [done|..].
  - destruct (sys_buf s) eqn:Eb; [done|]. destruct Hd as [?|[? _]]; [|done..].
    left. by rewrite Eb.
  - destruct (sys_end s) eqn:Eb; [|done]. destruct Hd as [?|[? _]]; [|done..].
    right. by rewrite Eb.
  - destruct (gone s); [|done]. by discriminate Hg.
Qed.

(** Bytes that a task leaves where they are, or takes, have all been written;
    inside steps write nothing and end nothing. *)
Lemma runs_on_outside (s s' : state) : rtc runs_on s s' →
  arrived s' = arrived s ∧ sys_end s' = sys_end s ∧ gone s' = gone s.
Proof.
  intros Hr. induction Hr as [|s1 s2 s3 (l & Hl & Hs) _ IH]; [done|].
  assert (arrived s2 = arrived s1 ∧ sys_end s2 = sys_end s1 ∧ gone s2 = gone s1)
    as (<- & <- & <-); [clear IH|exact IH].
  destruct l; try done; unfold step, task_step, task_read in Hs;
    repeat (case_match || case_bool_decide); simplify_eq/=; try done.
Qed.

Lemma in_step_outcome m (s : state) r rest fin : in_step m s → finished s = Some r →
  future s rest fin →
  run_equiv (denote m (Pipe [arrived s ++ rest] fin))
    (match r with Ok a => Ok (a, Pipe [sys_buf s ++ rest] fin) | Err e => Err e end).
Proof.
  intros [_ Hs] Ho Hf. specialize (Hs rest fin Hf).
  unfold finished in Ho. destruct (code s) as [a|e|n k|k]; simplify_eq; exact Hs.
Qed.

(** C11: a decoder on an [AsyncPipe] gives what it gives on a pipe that blocks, in
    whatever pieces the bytes come and whatever happens between the steps of its
    reads: unless the reactor was shut down, its result is that of the bytes
    written so far, whatever may still follow them, and exactly the bytes that it
    did not need are left on the pipe. *)
Theorem async_pipe_refines (m : prog A) (b : bytes) (s : state) (r : result A io_error) :
  reachable m b s → finished s = Some r →
  (∃ e, r = Err e ∧ gone s = Some e) ∨
  ∀ rest fin, future s rest fin →
    run_equiv (denote m (Pipe [arrived s ++ rest] fin))
      (match r with Ok a => Ok (a, Pipe [sys_buf s ++ rest] fin) | Err e => Err e end).
Proof.
  intros Hr Ho. apply reachable_inv in Hr as [[(e & Ee & Eg)|Hs] _].
  - left. exists e. unfold finished in Ho. rewrite Ee in Ho. by injection Ho as <-.
  - right. intros. by apply in_step_outcome.
Qed.

(** C12: a task that reads from an [AsyncPipe] never sleeps through bytes, through
    the end of the pipe or through a shutdown of the reactor: from every state the
    steps of the reactor, of the executor and of the task come to an end, and
    where they do the decoder has finished, or sleeps with a pipe that is empty
    and open. *)
Theorem async_read_completes (m : prog A) (b : bytes) (s : state) : reachable m b s →
  sn runs_on s ∧
  ∀ s', rtc runs_on s s' → (∀ s'', ¬ runs_on s' s'') →
    finished s' ≠ None ∨
    (ph s' = Asleep ∧ sys_buf s' = [] ∧ sys_end s = None ∧ gone s = None).
Proof.
  intros Hr. apply reachable_inv in Hr as [Hs He]. split; [by eapply runs_on_ends|].
  intros s' Hk Hst. destruct (runs_on_outside s s' Hk) as (_ & Ee & Eg).
  destruct (runs_on_inv m s s' Hk Hs He) as [_ He'].
  destruct (finished s') eqn:Eo; [by left|right].
  destruct (stuck_finished s' He' Hst Eo) as (? & ? & ? & ?). by rewrite <-Ee, <-Eg.
Qed.

(** A whole message, and perhaps the start of the next one, has been written:
    when nothing inside can go on the decoder has it, and has left the rest. *)
Theorem async_message_received (d : Rd A) `{!AsyncDecoder d} (msg rest b : bytes) (a : A)
    (s s' : state) :
  reads d msg a → reachable (decoder d) b s → gone s = None → arrived s = msg ++ rest →
  rtc runs_on s s' → (∀ s'', ¬ runs_on s' s'') →
  finished s' = Some (Ok a) ∧ sys_buf s' = rest.
Proof.
  intros Hd Hr Hg Ha Hk Hst. apply reachable_inv in Hr as [Hs He].
  destruct (runs_on_outside s s' Hk) as (Ea & Ee & Eg).
  destruct (runs_on_inv (decoder d) s s' Hk Hs He) as [[(e & _ & Hc)|Hs'] He']; [congruence|].
  assert (∀ fin, ∃ q, denote (decoder d) (Pipe [arrived s'] fin) = Ok (a, q) ∧ stream q = rest)
    as Hq.
  { intros fin. destruct (Hd (Pipe [arrived s'] fin) rest) as (q & Hq & Hq' & _).
    - unfold stream. simpl. by rewrite app_nil_r, Ea.
    - exists q. by rewrite decoder_ok. }
  destruct (finished s') as [r|] eqn:Eo.
  - destruct (Hq (default None (sys_end s'))) as (q & Eq & Hq').
    assert (future s' [] (default None (sys_end s'))) as Hf
      by (unfold future; by destruct (sys_end s')).
    pose proof (in_step_outcome _ _ _ _ _ Hs' Eo Hf) as Hres.
    rewrite !app_nil_r, Eq in Hres. destruct r as [a'|e]; [|done].
    destruct Hres as [-> [Hstr _]]. unfold stream in Hstr. simpl in Hstr.
    rewrite app_nil_r in Hstr. by rewrite <-Hstr.
  - destruct (stuck_finished s' He' Hst Eo) as (_ & Eb & En & _). exfalso.
    destruct Hs' as [Hc Hs']. set (e := eof_error Tokio).
    destruct (Hq (Some e)) as (q & Eq & _).
    specialize (Hs' [] (Some e) ltac:(unfold future; by rewrite En)).
    rewrite app_nil_r, Eq, Eb in Hs'. unfold finished in Eo.
    change ([] ++ [] : bytes) with ([] : bytes) in Hs'.
    destruct (code s') as [x|x|n k|k]; [done..| |done]. by rewrite resume_end in Hs'.
Qed.

End Invariant.

(** Runs along a list of labels. *)
Fixpoint run {F G A} `{AsyncFdOps F G} (ls : list label) (s : st F G A) : option (st F G A) :=
  match ls with
  | [] => Some s
  | l :: ls' => match step l s with Some s' => run ls' s' | None => None end
  end.

Lemma run_steps {F G A} `{AsyncFdOps F G} ls (s s' : st F G A) : run ls s = Some s' → rtc steps s s'.
Proof.
  revert s. induction ls as [|l ls IH]; simpl; intros s; [by intros [= ->]|].
  destruct (step l s) as [s1|] eqn:E; [|done]. intros Hr. eapply rtc_l; [by exists l|auto].
Qed.

(** A frame in two pieces: the task sleeps, is woken, reads half of it; the other
    half comes after its next read would have blocked and before it clears the
    readiness, which it therefore keeps. *)
Definition frame_run : list label :=
  [Task 0; Arrive [x11; x01]; Deliver; Wake; Task 0; Task 0; Signal; Task 0; Interrupted;
   Task 0; Task 9; Task 0; Task 0; Arrive [x00; x00; x00; x41; x12]; Deliver; Task 0; Task 0].

Definition frame_start : st (nat * bool) nat (option Frame) := start (decoder read_frame_async) [].
Definition after (ls : list label) : st (nat * bool) nat (option Frame) :=
  default frame_start (run ls frame_start).

Lemma after_reached ls : (if run ls frame_start is Some _ then true else false) = true →
  reachable (decoder read_frame_async) [] (after ls).
Proof.
  intros H. unfold after, reachable. fold frame_start.
  destruct (run ls frame_start) as [s|] eqn:E; [|done]. by apply (run_steps ls).
Qed.

Lemma async_pipe_refines_witness :
  let s := after (frame_run ++ [Task 9; Task 0; Task 0]) in
  let frame := Some (BodyChunk (lit "A")) in
  finished s = Some (Ok frame) ∧
  ((∃ e, Ok frame = Err e ∧ gone s = Some e) ∨
   ∀ rest fin, future s rest fin →
     run_equiv (denote (decoder read_frame_async) (Pipe [arrived s ++ rest] fin))
       (Ok (frame, Pipe [sys_buf s ++ rest] fin))).
Proof.
  intros s frame. assert (finished s = Some (Ok frame)) as Ho by (vm_compute; reflexivity).
  split; [exact Ho|].
  apply (async_pipe_refines (decoder read_frame_async) [] s (Ok frame)); [|exact Ho].
  apply after_reached. vm_compute. reflexivity.
Defined.

Lemma async_read_completes_witness :
  let s := after frame_run in
  sys_buf s ≠ [] ∧ finished s = None ∧ sn runs_on s ∧
  ∀ s', rtc runs_on s s' → (∀ s'', ¬ runs_on s' s'') →
    finished s' ≠ None ∨
    (ph s' = Asleep ∧ sys_buf s' = [] ∧ sys_end s = None ∧ gone s = None).
Proof.
  intros s. split; [vm_compute; discriminate|]. split; [vm_compute; reflexivity|].
  apply (async_read_completes (decoder read_frame_async) [] s).
  apply after_reached. vm_compute. reflexivity.
Defined.

Lemma async_message_received_witness : ∀ s',
  rtc runs_on (after frame_run) s' → (∀ s'', ¬ runs_on s' s'') →
  finished s' = Some (Ok (Some (BodyChunk (lit "A")))) ∧ sys_buf s' = [x12].
Proof.
  intros s'. eapply (async_message_received read_frame_async (encode_frame (BodyChunk (lit "A"))) [x12] []).
  - by apply reads_frame_gen.
  - apply after_reached. vm_compute. reflexivity.
  - vm_compute. reflexivity.
  - vm_compute. reflexivity.
Defined.

(** A string as the persistent protocol writes it ends with a NUL byte; the
    string reader of the module leaves that byte to the next read. *)
Example string_reader_leaves_nul :
  denote (s ← read_string_async; n ← read_u32_le_async; mret (s, n))
    (Pipe [le_bytes 4 2 ++ lit "hi" ++ [x00] ++ le_bytes 4 7] None) =
  Ok ((lit "hi", 7 * 256), Pipe [[x00]] None).
Proof. vm_compute. reflexivity. Qed.

(** ** Writing *)

Lemma poll_write_result rs buf r rs' : poll_write rs buf = (r, rs') →
  (rs' ⊆ rs) ∧ ∀ e, r = Some (Err e) → PollFails e ∈ rs ∨ WriteFails e ∈ rs.
Proof.
  revert r rs'. induction rs as [|x rs IH]; intros r rs' E; simpl in E; [by simplify_eq|].
  destruct x; simplify_eq; try (split; [set_solver|]; set_solver);
    destruct (IH r rs' E) as [H1 H2]; (split; [set_solver|]); intros e He;
    destruct (H2 e He); set_solver.
Qed.

Lemma write_all_async_spec fuel rs data w r : write_all_async fuel rs data = (w, r) →
  (w `prefix_of` data) ∧
  match r with
  | Some (Ok _) => w = data
  | Some (Err e) => PollFails e ∈ rs ∨ WriteFails e ∈ rs
  | None => True
  end.
Proof.
  revert rs data w r. induction fuel as [|fuel IH]; intros rs [|x data] w r; cbn [write_all_async];
    intros E;
    [by simplify_eq|simplify_eq; split; [apply prefix_nil|done]|by simplify_eq|].
  destruct (poll_write rs (x :: data)) as [[[n|e]|] rs'] eqn:Ep;
    destruct (poll_write_result _ _ _ _ Ep) as [Hsub Herr].
  - destruct (write_all_async fuel rs' (drop n (x :: data))) as [w' r'] eqn:Ew.
    injection E as <- <-. destruct (IH _ _ _ _ Ew) as [Hp Hr].
    rewrite <-(take_drop n (x :: data)) at 2. split; [by apply prefix_app|].
    destruct r' as [[]|]; [|set_solver|done]. by rewrite Hr, take_drop.
  - injection E as <- <-. split; [apply prefix_nil|auto].
  - destruct (IH _ _ _ _ E) as [Hp Hr]. split; [done|]. destruct r as [[]|]; set_solver.
Qed.

(** What [write_to_fd_async] leaves on the pipe is the start of the message, all of
    it when the call succeeds; it fails only with an error of the reactor or of
    [write]. *)
Theorem write_to_fd_async_exact (rs : list wround) (data : bytes) :
  let '(w, r) := write_to_fd_async rs data in
  (w `prefix_of` data) ∧
  match r with
  | Some (Ok _) => w = data
  | Some (Err e) => PollFails e ∈ rs ∨ WriteFails e ∈ rs
  | None => True
  end.
Proof.
  unfold write_to_fd_async. destruct (write_all_async _ rs data) as [w r] eqn:E.
  by apply write_all_async_spec in E.
Qed.

(** ** Non-blocking mode *)

Lemma nonblock_bit i : Z.testbit O_NONBLOCK i = bool_decide (11 = i).
Proof.
  change O_NONBLOCK with (2 ^ 11). rewrite Z.pow2_bits_eqb by lia.
  by destruct (Z.eqb_spec 11 i); case_bool_decide.
Qed.

Lemma nonblock_set f : Z.land f O_NONBLOCK ≠ 0 ↔ Z.testbit f 11 = true.
Proof.
  split; intros Hf.
  - destruct (Z.testbit f 11) eqn:E; [done|]. destruct Hf. apply Z.bits_inj'. intros i Hi.
    rewrite Z.land_spec, nonblock_bit, Z.bits_0. case_bool_decide; subst; by rewrite ?E, ?andb_false_r.
  - intros H. apply (f_equal (λ x, Z.testbit x 11)) in H.
    by rewrite Z.land_spec, nonblock_bit, Z.bits_0, Hf in H.
Qed.

(** [set_nonblocking] sets one flag and keeps the others, and doing it again
    changes nothing. *)
Theorem set_nonblocking_idempotent (flags : Z) :
  ∃ flags', set_nonblocking Ok Ok flags = (Ok tt, flags') ∧
    (∀ i, Z.testbit flags' i = bool_decide (i = 11) || Z.testbit flags i) ∧
    set_nonblocking Ok Ok flags' = (Ok tt, flags').
Proof.
  exists (Z.lor flags O_NONBLOCK).
  assert (∀ i, Z.testbit (Z.lor flags O_NONBLOCK) i = bool_decide (i = 11) || Z.testbit flags i)
    as Hb.
  { intros i. rewrite Z.lor_spec, nonblock_bit, orb_comm. f_equal. apply bool_decide_ext. naive_solver. }
  unfold set_nonblocking. rewrite (bool_decide_true (Z.land (Z.lor flags _) _ ≠ 0)).
  2: { apply nonblock_set. by rewrite Hb. }
  split_and!; [|done..]. case_bool_decide as Hf; [|done].
  f_equal. apply nonblock_set in Hf. apply Z.bits_inj'. intros i _. rewrite Hb.
  case_bool_decide; by subst.
Qed.
