(* ===== verification/NativeWorker.v ===== *)
(** * The native workers (turbine-worker/src/pool.rs)

    The event loops of the workers that start every request afresh: the one
    that evaluates code, the one that executes a script from a pipe, and the
    one that does so from a channel in thread mode. PHP is the parameter it is
    in file PersistentWorker; nothing is streamed here. *)

From S2P Require Import Prelude Utf8 RustStr Reader Codec Stream Persistent OutputCapture.
From S2P Require Import PersistentWorker NativeIpc.

Section native.
Context (to_lowercase : bytes → bytes).
Context {php : Type} (run_php : php → php_call → php * list sapi_event * Z).

#[local] Abbreviation worker := (PersistentWorker.worker (php := php)).
#[local] Abbreviation call := (call to_lowercase run_php).

Definition native_sapi_request (req : NativeRequest) : sapi_request :=
  {| r_method := n_method req; r_uri := n_uri req; r_query_string := n_query_string req;
     r_content_type := non_empty (n_content_type req);
     r_content_length := if bool_decide (n_body req = []) then -1 else zlen (n_body req);
     r_cookie := non_empty (n_cookie req); r_script := n_script_path req;
     r_document_root := n_document_root req; r_addr := n_remote_addr req;
     r_remote_port := n_remote_port req; r_port := n_server_port req;
     r_is_https := if n_is_https req then 1 else 0; r_path_info := n_path_info req;
     r_script_name := n_script_name req; r_body := non_empty (n_body req);
     r_headers := n_headers req |}.

(** What the two native loops do with a decoded request. *)
Definition native_execute (req : NativeRequest) (w : worker)
    : NativeResponse * worker :=
  let '(_, w) := call (turbine_sapi_set_request (native_sapi_request req)) w in
  let '(_, w) := call php_request_startup w in
  let w := on_cap clear_output_buffer w in
  let '(result, w) := call (turbine_execute_script (n_script_path req)) w in
  let '(_, w) := call php_request_shutdown w in
  let '(body, c) := take_output (w_cap w) in
  let '(headers, c) := take_headers c in
  let '(status, c) := take_response_code c in
  ({| success := result =? SUCCESS; http_status := status; nr_headers := headers;
      nr_body := body |}, Worker (w_php w) c).

(** A response on the pipe; write errors are ignored. *)
Definition native_respond (status : WorkerResp) (st : Z) (hs : header_list) (body : bytes)
    (w : worker) : worker :=
  (resp_write (write_native_response status st hs body) w).2.

(** ** From a pipe *)

Definition native_iteration (p : pipe) (w : worker) : option pipe * worker :=
  match read_exact Std 1 p with
  | Err _ => (None, w)
  | Ok (cmd, p) =>
      if bool_decide (cmd = [cmd_byte ExecuteNative]) then
        match read_exact Std 4 p with
        | Err _ => (None, w)
        | Ok (len_buf, p) =>
            match read_exact Std (Z.to_nat (le_val len_buf)) p with
            | Err _ => (None, w)
            | Ok (payload, p) =>
                match NativeRequest_decode payload with
                | None =>
                    (Some p, native_respond RespError 500 []
                               (lit "Failed to decode native request") w)
                | Some req =>
                    let '(r, w) := native_execute req w in
                    (Some p, native_respond (if success r then RespOk else RespError)
                               (http_status r) (nr_headers r) (nr_body r) w)
                end
            end
        end
      else if bool_decide (cmd = [cmd_byte Shutdown]) then (None, w)
      else (Some p, native_respond RespError 500 [] (lit "Unknown command") w)
  end.

Fixpoint native_loop (fuel : nat) (p : pipe) (w : worker) : option worker :=
  match fuel with
  | O => None
  | S fuel' =>
      match native_iteration p w with
      | (Some p', w') => native_loop fuel' p' w'
      | (None, w') => Some w'
      end
  end.

Definition worker_event_loop_native (p : pipe) (w : worker) : option worker :=
  let '(_, w) := call turbine_sapi_install_hooks w in
  let w := native_respond RespReady 200 [] [] w in
  native_loop (S (length (stream p))) p w.

(** ** From a channel *)

(** The responses sent while the messages last, and the worker at the end. *)
Fixpoint channel_loop (msgs : list bytes) (w : worker) : list NativeResponse * worker :=
  match msgs with
  | [] => ([], w)
  | payload :: msgs' =>
      match payload with
      | [] => ([], w)
      | cmd :: rest =>
          if decide (cmd = cmd_byte Shutdown) then ([], w)
          else if decide (cmd = cmd_byte ExecuteNative ∧ 5 < zlen payload) then
            let total_len := le_val (take 4 rest) in
            let request_data :=
              take (Z.to_nat (Z.min total_len (zlen payload - 5))) (drop 4 rest) in
            match NativeRequest_decode request_data with
            | None =>
                let '(rs, w) := channel_loop msgs' w in
                ({| success := false; http_status := 500; nr_headers := [];
                    nr_body := lit "Failed to decode native request" |} :: rs, w)
            | Some req =>
                let '(r, w) := native_execute req w in
                let '(rs, w) := channel_loop msgs' w in (r :: rs, w)
            end
          else channel_loop msgs' w
      end
  end.

Definition worker_event_loop_channel (msgs : list bytes) (w : worker)
    : list NativeResponse * worker :=
  let '(_, w) := call turbine_sapi_install_hooks w in
  let '(rs, w) := channel_loop msgs w in
  ({| success := true; http_status := 200; nr_headers := []; nr_body := [] |} :: rs, w).

(** ** Evaluating code *)

Definition eval_respond (status : WorkerResp) (payload : bytes) (w : worker) : worker :=
  (resp_write (write_worker_response status payload) w).2.

Definition eval_iteration (p : pipe) (w : worker) : option pipe * worker :=
  match read_exact Std 1 p with
  | Err _ => (None, w)
  | Ok (cmd, p) =>
      if bool_decide (cmd = [cmd_byte Execute]) then
        match read_exact Std 4 p with
        | Err _ => (None, w)
        | Ok (len_buf, p) =>
            match read_exact Std (Z.to_nat (le_val len_buf)) p with
            | Err _ => (None, w)
            | Ok (code_buf, p) =>
                let code := from_utf8_lossy code_buf in
                let w := on_cap clear_output_buffer w in
                if bool_decide (x00 ∈ code) then
                  (Some p, eval_respond RespError (lit "Error: PHP code contains null byte") w)
                else
                  let '(result, w) := call (zend_eval_string code (lit "turbine_worker")) w in
                  let '(_, w) := call php_request_shutdown w in
                  let '(captured, c) := take_output (w_cap w) in
                  let '(_, w) := call php_request_startup (Worker (w_php w) c) in
                  if result =? SUCCESS then (Some p, eval_respond RespOk captured w)
                  else (Some p, eval_respond RespError (lit "PHP Error" ++ [x0a] ++ captured) w)
            end
        end
      else if bool_decide (cmd = [cmd_byte Shutdown]) then (None, w)
      else (Some p, eval_respond RespError (lit "Unknown command") w)
  end.

Fixpoint eval_loop (fuel : nat) (p : pipe) (w : worker) : option worker :=
  match fuel with
  | O => None
  | S fuel' =>
      match eval_iteration p w with
      | (Some p', w') => eval_loop fuel' p' w'
      | (None, w') => Some w'
      end
  end.

Definition worker_event_loop (p : pipe) (w : worker) : option worker :=
  eval_loop (S (length (stream p))) p (eval_respond RespReady [] w).

(** ** What a request should get *)

#[local] Abbreviation spec_call := (spec_call run_php).

Definition spec_native (init : bool) (req : NativeRequest) (s : php * Z)
    : NativeResponse * (php * Z) :=
  let '(_, _, s) := spec_call (turbine_sapi_set_request (native_sapi_request req)) s in
  let '(_, _, s) := spec_call php_request_startup s in
  let v0 := View [] [] 200 s.2 init in
  let '(r, evs1, s) := spec_call (turbine_execute_script (n_script_path req)) s in
  let '(_, evs2, s) := spec_call php_request_shutdown s in
  let v := view_run to_lowercase v0 (evs1 ++ evs2) in
  ({| success := r =? SUCCESS; http_status := view_status v; nr_headers := v_headers v;
      nr_body := v_out v |}, s).

Fixpoint spec_natives (init : bool) (reqs : list NativeRequest) (s : php * Z)
    : list NativeResponse * (php * Z) :=
  match reqs with
  | [] => ([], s)
  | req :: reqs' =>
      let '(r, s) := spec_native init req s in
      let '(rs, s) := spec_natives init reqs' s in (r :: rs, s)
  end.

(** ** Buffered capture *)

(** With no pipe armed the buffers hold exactly what the script asked for. *)
Definition buffers (v : view) (c : capture) : Prop :=
  OUTPUT_BUFFER c = v_out v ∧ HEADER_BUFFER c = v_headers v ∧ RESPONSE_CODE c = v_code v ∧
  sg_code c = v_sg v ∧ initialized c = v_init v.

Lemma sapi_step_buffers v c e : STREAM_FD c < 0 → STREAM_ENGAGED c = false → buffers v c →
  buffers (view_step to_lowercase v e) (sapi_step to_lowercase c e).
Proof.
  intros Hf He (H1 & H2 & H3 & H4 & H5). destruct e as [s| |op hdr|code]; simpl.
  - unfold turbine_ub_write. rewrite He. destruct (Z.leb_spec 0 (STREAM_FD c)); [lia|].
    case_bool_decide; subst; simpl.
    + unfold buffers. simpl. by rewrite app_nil_r.
    + unfold buffers. simpl. by rewrite H1.
  - unfold turbine_sapi_flush. by destruct (Z.ltb_spec (STREAM_FD c) 0); [|lia].
  - unfold turbine_header_handler. rewrite H2, H3. by destruct (header_call _ _ _ _ _).
  - done.
Qed.

Lemma sapi_run_buffers v c evs : STREAM_FD c < 0 → STREAM_ENGAGED c = false → buffers v c →
  buffers (view_run to_lowercase v evs) (sapi_run to_lowercase c evs).
Proof.
  revert v c. induction evs as [|e evs IH]; intros v c Hf He Hb; [done|]. simpl.
  destruct (sapi_step_idle to_lowercase c e Hf He) as (F & E & _).
  apply IH; [by rewrite F|done|by apply sapi_step_buffers].
Qed.

#[local] Abbreviation idle := (idle (php := php)).

(** A call, with no pipe armed, adds its events to what the buffers hold. *)
Lemma call_buffers k init s sent0 v w r evs s' : idle init s sent0 w → buffers v (w_cap w) →
  spec_call k s = (r, evs, s') →
  ∃ w', call k w = (r, w') ∧ idle init s' sent0 w' ∧
    buffers (view_run to_lowercase v evs) (w_cap w').
Proof.
  intros Hi Hb E. destruct (call_idle to_lowercase run_php _ _ _ _ _ _ _ _ Hi E) as (w' & Ec & Hi').
  eexists. split_and!; [done|done|]. destruct Hi as (P & _ & _ & F & G & _).
  unfold PersistentWorker.call in Ec. unfold PersistentWorker.spec_call in E. rewrite P in Ec.
  destruct (run_php s.1 k) as [[p ev] q]. simplify_eq/=. by apply sapi_run_buffers.
Qed.

(** Cleared buffers hold nothing but PHP's own response code. *)
Lemma clear_buffers init s sent0 w : idle init s sent0 w →
  idle init s sent0 (on_cap clear_output_buffer w) ∧
  buffers (View [] [] 200 s.2 init) (w_cap (on_cap clear_output_buffer w)).
Proof. intros (P & Hsg & Hin & H). by split_and!. Qed.

Lemma take_response_code_idle init s sent0 w p : idle init s sent0 w → p = w_php w →
  idle init s sent0 (Worker p (take_response_code (w_cap w)).2).
Proof.
  intros (P & S & I & F & G & R) ->. unfold take_response_code. simpl.
  repeat case_match; by split_and!.
Qed.

Lemma native_execute_spec init req s sent0 w r s' :
  idle init s sent0 w → spec_native init req s = (r, s') →
  ∃ w', native_execute req w = (r, w') ∧ idle init s' sent0 w'.
Proof.
  intros Hi Hs. unfold spec_native in Hs. unfold native_execute.
  destruct (spec_call (turbine_sapi_set_request _) s) as [[r1 e1] s1] eqn:E1.
  destruct (call_idle to_lowercase run_php _ _ _ _ _ _ _ _ Hi E1) as (w1 & -> & Hi1).
  destruct (spec_call php_request_startup s1) as [[r2 e2] s2] eqn:E2.
  destruct (call_idle to_lowercase run_php _ _ _ _ _ _ _ _ Hi1 E2) as (w2 & -> & Hi2).
  destruct (clear_buffers _ _ _ _ Hi2) as [Hi2' Hb2].
  destruct (spec_call (turbine_execute_script _) s2) as [[r3 e3] s3] eqn:E3.
  destruct (call_buffers _ _ _ _ _ _ _ _ _ Hi2' Hb2 E3) as (w3 & -> & Hi3 & Hb3).
  destruct (spec_call php_request_shutdown s3) as [[r4 e4] s4] eqn:E4.
  destruct (call_buffers _ _ _ _ _ _ _ _ _ Hi3 Hb3 E4) as (w4 & -> & Hi4 & Hb4).
  unfold view_run in Hs, Hb4. rewrite foldl_app in Hs. simplify_eq/=.
  destruct Hb4 as (B1 & B2 & B3 & B4 & B5).
  pose proof (take_response_code_view (set_headers [] (set_output [] (w_cap w4))) _
    (eq_sym B3) (eq_sym B4) (eq_sym B5)) as Hv.
  pose proof (take_response_code_idle init s' sent0
    (Worker (w_php w4) (set_headers [] (set_output [] (w_cap w4)))) _ Hi4 eq_refl) as Hi5.
  cbn -[take_response_code] in Hv, Hi5. destruct (take_response_code _) as [st c4].
  simpl in Hv, Hi5. rewrite Hv, B1, B2. by eexists.
Qed.

(** ** Sessions *)

(** Requests the worker decodes. *)
Definition native_ok (cl : Z) (req : NativeRequest) : Prop :=
  native_wf req ∧ native_short req = true ∧ zlen (native_payload cl req) < 2 ^ 32.

Definition response_status (r : NativeResponse) : WorkerResp :=
  if success r then RespOk else RespError.

Definition native_bytes (r : NativeResponse) : bytes :=
  write_native_response (response_status r) (http_status r) (nr_headers r) (nr_body r).

Lemma read_native_request cl req k p : zlen (native_payload cl req) < 2 ^ 32 →
  stream p = encode_native_request cl req ++ k →
  ∃ p1 p2 p3, read_exact Std 1 p = Ok ([x03], p1) ∧
    read_exact Std 4 p1 = Ok (le_bytes 4 (zlen (native_payload cl req)), p2) ∧
    read_exact Std (Z.to_nat (le_val (le_bytes 4 (zlen (native_payload cl req))))) p2 =
      Ok (native_payload cl req, p3) ∧ stream p3 = k.
Proof.
  intros Hl Hp. rewrite encode_native_payload, <-!(assoc_L app) in Hp.
  destruct (reads_exact Std [x03] 1 eq_refl p _ Hp) as (p1 & E1 & Hp1 & _).
  destruct (reads_exact Std (le_bytes 4 (zlen (native_payload cl req))) 4
              ltac:(by rewrite le_bytes_length) p1 _ Hp1) as (p2 & E2 & Hp2 & _).
  rewrite le_val_le_bytes, Z.mod_small by (split; [eauto with turbine|done]).
  destruct (reads_exact Std (native_payload cl req) (Z.to_nat (zlen (native_payload cl req)))
              ltac:(unfold zlen; lia) p2 _ Hp2) as (p3 & E3 & Hp3 & _).
  by exists p1, p2, p3.
Qed.

Lemma native_respond_idle init s sent0 w status st hs body : idle init s sent0 w →
  idle init s (sent0 ++ write_native_response status st hs body)
    (native_respond status st hs body w).
Proof.
  intros Hi. unfold native_respond.
  by destruct (resp_write_idle init s sent0 w (write_native_response status st hs body) Hi)
    as (w' & -> & ?).
Qed.

Lemma native_iteration_request cl init req k p s sent0 w r s' :
  native_ok cl req → stream p = encode_native_request cl req ++ k →
  idle init s sent0 w → spec_native init req s = (r, s') →
  ∃ p' w', native_iteration p w = (Some p', w') ∧ stream p' = k ∧
           idle init s' (sent0 ++ native_bytes r) w'.
Proof.
  intros (Hwf & Hsh & Hl) Hp Hi Hs.
  destruct (read_native_request cl req k p Hl Hp) as (p1 & p2 & p3 & E1 & E2 & E3 & Hk).
  unfold native_iteration. rewrite E1. simpl. rewrite E2, E3.
  rewrite decode_native_payload, Hsh by done.
  destruct (native_execute_spec init req s sent0 w r s' Hi Hs) as (w1 & -> & Hi1).
  do 2 eexists. split; [done|]. split; [done|]. by apply native_respond_idle.
Qed.

Lemma native_loop_session cl init reqs : ∀ fuel p s sent0 w rs s',
  Forall (native_ok cl) reqs →
  stream p = mjoin (encode_native_request cl <$> reqs) ++ [x02] →
  (length (stream p) < fuel)%nat → idle init s sent0 w →
  spec_natives init reqs s = (rs, s') →
  ∃ w', native_loop fuel p w = Some w' ∧ idle init s' (sent0 ++ mjoin (native_bytes <$> rs)) w'.
Proof.
  induction reqs as [|req reqs IH]; intros [|fuel] p s sent0 w rs s' Hok Hp Hf Hi Hs;
    [lia| |lia|]; simpl in *; cbn [native_loop].
  - destruct (reads_exact Std [x02] 1 eq_refl p [] Hp) as (p1 & E1 & _).
    unfold native_iteration. rewrite E1. simpl. simplify_eq. exists w. simpl.
    by rewrite app_nil_r.
  - apply Forall_cons in Hok as [Hreq Hreqs]. rewrite <-(assoc_L app) in Hp.
    destruct (spec_native init req s) as [r s1] eqn:E1.
    destruct (spec_natives init reqs s1) as [rs1 s2] eqn:E2. simplify_eq.
    destruct (native_iteration_request cl init req _ p s sent0 w r s1 Hreq Hp Hi E1)
      as (p' & w' & -> & Hp' & Hi').
    assert (length (stream p') < fuel)%nat as Hf'.
    { rewrite Hp'. rewrite Hp, encode_native_payload, !length_app in Hf. simpl in Hf.
      rewrite length_app. simpl. lia. }
    destruct (IH fuel p' s1 _ w' rs1 s' Hreqs Hp' Hf' Hi' E2) as (w2 & E3 & Hi2).
    exists w2. split; [done|]. simpl. by rewrite <-(assoc_L app) in Hi2.
Qed.

(** The message of a request, as the channel loop takes it apart. *)
Lemma channel_message cl req : zlen (native_payload cl req) < 2 ^ 32 →
  ∃ rest, encode_native_request cl req = x03 :: rest ∧
    5 < zlen (encode_native_request cl req) ∧
    take (Z.to_nat (Z.min (le_val (take 4 rest)) (zlen (encode_native_request cl req) - 5)))
      (drop 4 rest) = native_payload cl req.
Proof.
  intros Hl. rewrite encode_native_payload. eexists. split; [done|].
  set (len := le_bytes 4 (zlen (native_payload cl req))).
  assert (length len = 4%nat) as H4 by apply le_bytes_length.
  assert (0 < zlen (native_payload cl req)) as Hpos.
  { unfold native_payload, put_cstr. rewrite !zlen_app.
    unfold zlen. rewrite !le_bytes_length. simpl. lia. }
  rewrite !zlen_app. change (zlen [x03]) with 1.
  replace (zlen len) with 4 by (unfold zlen; by rewrite H4).
  split; [lia|]. rewrite take_app_length', drop_app_length' by done.
  unfold len. rewrite le_val_le_bytes, Z.mod_small by (split; [lia|done]).
  apply take_ge. unfold zlen. lia.
Qed.

Lemma channel_loop_session cl init reqs : ∀ s sent0 w rs s',
  Forall (native_ok cl) reqs → idle init s sent0 w → spec_natives init reqs s = (rs, s') →
  ∃ w', channel_loop (encode_native_request cl <$> reqs) w = (rs, w') ∧ idle init s' sent0 w'.
Proof.
  induction reqs as [|req reqs IH]; intros s sent0 w rs s' Hok Hi Hs; simpl in Hs.
  { simplify_eq. by exists w. }
  apply Forall_cons in Hok as [(Hwf & Hsh & Hl) Hreqs].
  destruct (spec_native init req s) as [r s1] eqn:E1.
  destruct (spec_natives init reqs s1) as [rs1 s2] eqn:E2. simplify_eq.
  destruct (channel_message cl req Hl) as (rest & Em & H5 & Hdata).
  rewrite fmap_cons. cbn [channel_loop]. rewrite Em in H5, Hdata |- *.
  rewrite decide_False by done. rewrite decide_True by done. rewrite Hdata.
  rewrite decode_native_payload, Hsh by done.
  destruct (native_execute_spec init req s sent0 w r s1 Hi E1) as (w1 & -> & Hi1).
  destruct (IH s1 sent0 w1 rs1 s' Hreqs Hi1 E2) as (w2 & -> & Hi2). by exists w2.
Qed.
End native.

(** ** The master's side *)

(** One response per request, read one after the other. *)
Fixpoint read_natives (n : nat) : Rd (list NativeResponse) :=
  match n with
  | O => mret []
  | S n' => r ← read_native Tokio; rs ← read_natives n'; mret (r :: rs)
  end.

Definition ready_response : NativeResponse :=
  {| success := true; http_status := 200; nr_headers := []; nr_body := [] |}.

Definition native_deliverable (r : NativeResponse) : Prop :=
  native_response_wf (http_status r) (nr_headers r) (nr_body r).

Lemma reads_native_bytes r : native_deliverable r → reads (read_native Tokio) (native_bytes r) r.
Proof.
  intros Hr. pose proof (reads_native Tokio (response_status r) _ _ _ Hr) as H.
  unfold native_bytes. destruct r as [[] st hs b]; exact H.
Qed.

Lemma reads_natives rs : Forall native_deliverable rs →
  reads (read_natives (length rs)) (mjoin (native_bytes <$> rs)) rs.
Proof.
  induction 1 as [|r rs Hr Hrs IH]; [apply reads_ret|]. simpl.
  eapply reads_bind; [by apply reads_native_bytes|].
  rewrite <-(app_nil_r (mjoin _)). eapply reads_bind; [exact IH|apply reads_ret].
Qed.

(** ** Properties *)

(** C17: The pipe loop and the channel loop of the native workers answer alike,
    and rightly. Given the same requests, both signal that they are ready and
    then give, for each request in order, the status, the headers and all the
    output of its script: the pipe loop as the bytes of these responses one
    after the other, the channel loop as the responses themselves. *)
Theorem native_loops_agree {php : Type} (to_lowercase : bytes → bytes)
    (run_php : php → php_call → php * list sapi_event * Z) (cl : Z) (init : bool)
    (reqs : list NativeRequest) (rs : list NativeResponse) (p : pipe) (w : worker)
    (s s1 s2 : php * Z) (r0 : Z) (evs0 : list sapi_event) :
  idle init s [] w → Forall (native_ok cl) reqs →
  stream p = mjoin (encode_native_request cl <$> reqs) ++ [cmd_byte Shutdown] →
  spec_call run_php turbine_sapi_install_hooks s = (r0, evs0, s1) →
  spec_natives to_lowercase run_php init reqs s1 = (rs, s2) →
  (∃ w', worker_event_loop_native to_lowercase run_php p w = Some w' ∧
     sent (resp (w_cap w')) =
       write_native_response RespReady 200 [] [] ++ mjoin (native_bytes <$> rs)) ∧
  (∃ w', worker_event_loop_channel to_lowercase run_php (encode_native_request cl <$> reqs) w =
     ({| success := true; http_status := 200; nr_headers := []; nr_body := [] |} :: rs, w')).
Proof.
  intros Hi Hok Hp E0 Hs.
  destruct (call_idle to_lowercase run_php _ _ _ _ _ _ _ _ Hi E0) as (w1 & Ec & Hi1). split.
  - unfold worker_event_loop_native. rewrite Ec.
    destruct (native_loop_session to_lowercase run_php cl init reqs (S (length (stream p))) p s1
      (write_native_response RespReady 200 [] []) (native_respond RespReady 200 [] [] w1) rs s2)
      as (w2 & -> & (_ & _ & _ & _ & _ & R)); try done; [lia| |].
    + by apply (native_respond_idle init s1 []).
    + exists w2. by rewrite R.
  - unfold worker_event_loop_channel. rewrite Ec.
    destruct (channel_loop_session to_lowercase run_php cl init reqs s1 [] w1 rs s2 Hok Hi1 Hs)
      as (w2 & -> & _). by exists w2.
Qed.

Lemma native_loops_agree_witness :
  let c := {| OUTPUT_BUFFER := []; HEADER_BUFFER := []; RESPONSE_CODE := 200; STREAM_FD := -1;
              STREAM_ENGAGED := false; sg_code := 0; initialized := true;
              resp := Wire [] None |} in
  let reqs := [native_sample (lit "/a"); native_sample (lit "/b")] in
  let p := Pipe [mjoin (encode_native_request 2 <$> reqs) ++ [x02]] None in
  let r := {| success := true; http_status := 200; nr_headers := [(lit "X-N", lit "1")];
              nr_body := lit "/srv/index.php" |} in
  (∃ w', worker_event_loop_native to_ascii_lowercase toy_php p (Worker 0%nat c) = Some w' ∧
     sent (resp (w_cap w')) =
       write_native_response RespReady 200 [] [] ++ mjoin (native_bytes <$> [r; r])) ∧
  (∃ w', worker_event_loop_channel to_ascii_lowercase toy_php
           (encode_native_request 2 <$> reqs) (Worker 0%nat c) =
     ({| success := true; http_status := 200; nr_headers := []; nr_body := [] |} :: [r; r], w')).
Proof.
  intros c reqs p r.
  apply (native_loops_agree to_ascii_lowercase toy_php 2 true reqs [r; r] p (Worker 0%nat c)
    (0%nat, 0) (0%nat, 0) (2%nat, 0) 0 []).
  - by split_and!.
  - repeat constructor; try done; apply (bool_decide_unpack _); vm_compute; exact I.
  - vm_compute. reflexivity.
  - reflexivity.
  - vm_compute. reflexivity.
Defined.

(** A worker whose ready message nobody reads shifts all its answers by
    one. The workers that are respawned or added while the server runs send the
    same ready message as those of the start, but only the start reads it: the
    first request on such a worker is answered with an empty 200 response, and
    every later request with the response of the request before it. *)
Theorem unread_ready_shifts_responses {php : Type} (to_lowercase : bytes → bytes)
    (run_php : php → php_call → php * list sapi_event * Z) (cl : Z) (init : bool)
    (reqs : list NativeRequest) (rs : list NativeResponse) (r : NativeResponse) (p : pipe)
    (w : worker) (s s1 s2 : php * Z) (r0 : Z) (evs0 : list sapi_event) :
  idle init s [] w → Forall (native_ok cl) reqs →
  stream p = mjoin (encode_native_request cl <$> reqs) ++ [cmd_byte Shutdown] →
  spec_call run_php turbine_sapi_install_hooks s = (r0, evs0, s1) →
  spec_natives to_lowercase run_php init reqs s1 = (rs ++ [r], s2) →
  Forall native_deliverable rs →
  ∃ w', worker_event_loop_native to_lowercase run_php p w = Some w' ∧
    ∀ q, stream q = sent (resp (w_cap w')) →
    ∃ q', read_natives (S (length rs)) q = Ok (ready_response :: rs, q') ∧
          stream q' = native_bytes r.
Proof.
  intros Hi Hok Hp E0 Hs Hdel.
  destruct (call_idle to_lowercase run_php _ _ _ _ _ _ _ _ Hi E0) as (w1 & Ec & Hi1).
  unfold worker_event_loop_native. rewrite Ec.
  destruct (native_loop_session to_lowercase run_php cl init reqs (S (length (stream p))) p s1
    (write_native_response RespReady 200 [] []) (native_respond RespReady 200 [] [] w1)
    (rs ++ [r]) s2) as (w2 & -> & (_ & _ & _ & _ & _ & R)); try done; [lia| |].
  { by apply (native_respond_idle init s1 []). }
  exists w2. split; [done|]. rewrite R. cbn [sent]. intros q Hq.
  rewrite fmap_app, join_app in Hq. change (mjoin (native_bytes <$> [r])) with (native_bytes r ++ []) in Hq. rewrite app_nil_r, (assoc_L app) in Hq.
  assert (reads (read_natives (S (length rs)))
    (write_native_response RespReady 200 [] [] ++ mjoin (native_bytes <$> rs))
    (ready_response :: rs)) as Hread.
  { eapply reads_bind; [apply (reads_native Tokio RespReady 200 [] []); by split_and!|].
    rewrite <-(app_nil_r (mjoin _)). eapply reads_bind; [by apply reads_natives|apply reads_ret]. }
  destruct (Hread q _ Hq) as (q' & E & Hk & _). by exists q'.
Qed.

Lemma unread_ready_shifts_responses_witness :
  let c := {| OUTPUT_BUFFER := []; HEADER_BUFFER := []; RESPONSE_CODE := 200; STREAM_FD := -1;
              STREAM_ENGAGED := false; sg_code := 0; initialized := true;
              resp := Wire [] None |} in
  let reqs := [native_sample (lit "/a"); native_sample (lit "/b")] in
  let p := Pipe [mjoin (encode_native_request 2 <$> reqs) ++ [x02]] None in
  let r := {| success := true; http_status := 200; nr_headers := [(lit "X-N", lit "1")];
              nr_body := lit "/srv/index.php" |} in
  ∃ w', worker_event_loop_native to_ascii_lowercase toy_php p (Worker 0%nat c) = Some w' ∧
    ∀ q, stream q = sent (resp (w_cap w')) →
    ∃ q', read_natives (S (length [r])) q = Ok (ready_response :: [r], q') ∧
          stream q' = native_bytes r.
Proof.
  intros c reqs p r.
  apply (unread_ready_shifts_responses to_ascii_lowercase toy_php 2 true reqs [r] r p
    (Worker 0%nat c) (0%nat, 0) (0%nat, 0) (2%nat, 0) 0 []).
  - by split_and!.
  - repeat constructor; try done; apply (bool_decide_unpack _); vm_compute; exact I.
  - vm_compute. reflexivity.
  - reflexivity.
  - vm_compute. reflexivity.
  - repeat constructor; vm_compute; done.
Defined.
