(* ===== verification/FdIo.v ===== *)
(** * A worker's descriptors (turbine-worker/src/worker.rs)

    How the master reads and writes a worker's pipes through [ManualFd]: system
    calls that may be interrupted, do less than they were asked to, or fail. The
    calls that follow one another are a script of the kernel's answers. On top of
    them, the messages of [Worker] for the workers that evaluate code, and a session
    with such a worker (NativeWorker.v). *)

From S2P Require Import Prelude Utf8 RustStr Reader Codec Stream Persistent OutputCapture.
From S2P Require Import PersistentWorker NativeIpc NativeWorker.

(** ** Writing *)

(** What a call of [write(2)] does: it takes that many bytes at most, is interrupted,
    or fails. *)
Inductive wrote := Took (n : nat) | WIntr | WFail (e : io_error).

(** [ManualFd::write]: interrupted calls are made again. What was taken, and the
    answers that are left; [None] when the kernel has not answered. *)
Fixpoint fd_write (data : bytes) (ks : list wrote) : option (result nat io_error * list wrote) :=
  match ks with
  | [] => None
  | Took n :: ks => Some (Ok (Nat.min n (length data)), ks)
  | WIntr :: ks => fd_write data ks
  | WFail e :: ks => Some (Err e, ks)
  end.

Definition write_zero : io_error := IoError Other (lit "failed to write whole buffer").

(** [write_all], by the number of bytes that are left: the bytes on the pipe, and how
    it ended. [None]: a call blocks. *)
Fixpoint write_all (fuel : nat) (data : bytes) (ks : list wrote) : bytes * option (result () io_error) :=
  match data, fuel with
  | [], _ => ([], Some (Ok ()))
  | _, O => ([], None)
  | _, S fuel =>
      match fd_write data ks with
      | None => ([], None)
      | Some (Err e, _) => ([], Some (Err e))
      | Some (Ok O, _) => ([], Some (Err write_zero))
      | Some (Ok n, ks) => let '(out, r) := write_all fuel (drop n data) ks in (take n data ++ out, r)
      end
  end.

Definition write_to (data : bytes) (ks : list wrote) : bytes * option (result () io_error) :=
  write_all (length data) data ks.

(** The bytes on the pipe are the data from its beginning on, and all of it exactly
    when the write succeeded. *)
Theorem write_exact (data : bytes) (ks : list wrote) :
  let '(out, r) := write_to data ks in
  out `prefix_of` data ∧ (r = Some (Ok ()) → out = data) ∧ (out = data → data ≠ [] → r = Some (Ok ())).
Proof.
  unfold write_to. assert (length data ≤ length data)%nat as Hf by lia. revert Hf.
  generalize (length data) at 2 3. intros fuel. revert data ks.
  induction fuel as [|fuel IH]; intros data ks Hf; destruct data as [|x data]; simpl in *;
    [by split_and!; try apply prefix_nil|lia|by split_and!; try apply prefix_nil|].
  assert (([] : bytes) `prefix_of` x :: data) as Hnil by apply prefix_nil.
  destruct (fd_write (x :: data) ks) as [[[[|n]|e] ks']|]; [by split_and!| |by split_and!..].
  simpl. specialize (IH (drop n data) ks'). rewrite length_drop in IH. specialize (IH ltac:(lia)).
  destruct (write_all fuel (drop n data) ks') as [out r] eqn:Ew. destruct IH as (Hp & H1 & H2). split_and!.
  - apply prefix_cons. rewrite <-(take_drop n data) at 2. by apply prefix_app.
  - intros Hr. rewrite (H1 Hr). by rewrite take_drop.
  - intros Ho _. assert (out = drop n data) as Hout.
    { injection Ho as Ho. rewrite <-(take_drop n data) in Ho at 2. by apply app_inv_head in Ho. }
    destruct (decide (drop n data = [])) as [E|E]; [|auto]. rewrite E in Ew.
    destruct fuel; by injection Ew as _ <-.
Qed.

(** Interrupted calls change nothing. *)
Definition uninterrupted (ks : list wrote) : list wrote :=
  List.filter (λ k, match k with WIntr => false | _ => true end) ks.

Lemma fd_write_uninterrupted data ks : fd_write data (uninterrupted ks) =
  (λ '(r, ks), (r, uninterrupted ks)) <$> fd_write data ks.
Proof. induction ks as [|[n| |e] ks IH]; simpl; by rewrite ?IH. Qed.

Theorem interruptions_invisible (data : bytes) (ks : list wrote) :
  write_to data (uninterrupted ks) = write_to data ks.
Proof.
  unfold write_to. generalize (length data). intros fuel. revert data ks.
  induction fuel as [|fuel IH]; intros [|x data] ks; simpl; try done.
  rewrite fd_write_uninterrupted.
  destruct (fd_write (x :: data) ks) as [[[[|n]|e] ks']|]; simpl; try done. by rewrite IH.
Qed.

(** ** Reading *)

(** What a call of [read(2)] finds: a piece, of which it gives what fits and keeps the
    rest, or an interruption. *)
Inductive found := Piece (d : bytes) | RIntr.

(** [ManualFd::read] into [n > 0] bytes; after the last answer the pipe is at its
    end, or broken. *)
Fixpoint fd_read (n : nat) (ks : list found) : bytes * list found :=
  match ks with
  | [] => ([], [])
  | RIntr :: ks => fd_read n ks
  | Piece [] :: ks => fd_read n ks
  | Piece d :: ks => (take n d, Piece (drop n d) :: ks)
  end.

Definition fd_pieces (ks : list found) : list bytes :=
  omap (λ k, match k with Piece d => Some d | RIntr => None end) ks.

(** [read_exact] over [ManualFd::read]. *)
Fixpoint fd_read_exact (fuel n : nat) (ks : list found) (fin : option io_error) :
    result (bytes * list found) io_error :=
  match n, fuel with
  | O, _ => Ok ([], ks)
  | S _, O => Err (eof_error Std)
  | S _, S fuel =>
      match fd_read n ks, fin with
      | ([], _), Some e => Err e
      | ([], _), None => Err (eof_error Std)
      | (d, ks), _ =>
          match fd_read_exact fuel (n - length d) ks fin with
          | Ok (d', ks) => Ok (d ++ d', ks)
          | Err e => Err e
          end
      end
  end.

Lemma fd_read_segs n ks : read_segs n (fd_pieces ks) = ((fd_read n ks).1, fd_pieces (fd_read n ks).2).
Proof. induction ks as [|[[|x d]|] ks IH]; simpl; auto. Qed.

(** Reading through the system calls is reading from the pipe (Reader.v), whatever is
    interrupted. *)
Theorem fd_read_refines (n : nat) (ks : list found) (fin : option io_error) :
  read_exact Std n (Pipe (fd_pieces ks) fin) =
    match fd_read_exact n n ks fin with
    | Ok (d, ks') => Ok (d, Pipe (fd_pieces ks') fin)
    | Err e => Err e
    end.
Proof.
  unfold read_exact. generalize n at 1 3 as fuel. intros fuel. revert n ks.
  induction fuel as [|fuel IH]; intros [|n] ks; cbn [read_exact_loop fd_read_exact]; try done.
  unfold pipe_read. cbn [segs Reader.fin]. rewrite fd_read_segs.
  destruct (fd_read (S n) ks) as [[|x d] ks']; cbn [fst snd]; [by destruct fin|].
  assert ((match fin with Some _ => Ok (x :: d, Pipe (fd_pieces ks') fin)
    | None => Ok (x :: d, Pipe (fd_pieces ks') fin) end : result (bytes * pipe) io_error) =
    Ok (x :: d, Pipe (fd_pieces ks') fin)) as E by (by destruct fin).
  destruct fin; rewrite IH; by destruct (fd_read_exact _ _ _ _) as [[]|].
Qed.

(** ** [FdReader] *)

(** The same loop over [read(2)] in persistent.rs, and the numbers and strings read with it. *)
Section fdreader.
Context (fin : option io_error).

Definition FdReader_read : nat → list found → bytes * list found := fd_read.

Definition read_exact_fd (n : nat) (ks : list found) : result (bytes * list found) io_error :=
  fd_read_exact n n ks fin.

Definition read_le_fd (n : nat) (ks : list found) : result (Z * list found) io_error :=
  let? (b, ks) := read_exact_fd n ks in Ok (le_val b, ks).

Definition read_u8_fd : list found → result (Z * list found) io_error := read_le_fd 1.
Definition read_u16_le_fd : list found → result (Z * list found) io_error := read_le_fd 2.
Definition read_u32_le_fd : list found → result (Z * list found) io_error := read_le_fd 4.

Definition read_bytes_fd (ks : list found) : result (bytes * list found) io_error :=
  let? (len, ks) := read_u32_le_fd ks in read_exact_fd (Z.to_nat len) ks.

(** A read through system calls as a read from the pipe. *)
Definition on_pipe {A} (r : result (A * list found) io_error) : result (A * pipe) io_error :=
  match r with Ok (a, ks) => Ok (a, Pipe (fd_pieces ks) fin) | Err e => Err e end.

(** Every read of persistent.rs through a descriptor is the read from the pipe that the models of
    its protocol use, whatever calls are interrupted or cut short. *)
Theorem fdreader_refines (ks : list found) :
  read_le Std 1 (Pipe (fd_pieces ks) fin) = on_pipe (read_u8_fd ks) ∧
  read_le Std 2 (Pipe (fd_pieces ks) fin) = on_pipe (read_u16_le_fd ks) ∧
  read_le Std 4 (Pipe (fd_pieces ks) fin) = on_pipe (read_u32_le_fd ks) ∧
  read_prefixed Std 4 (Pipe (fd_pieces ks) fin) = on_pipe (read_bytes_fd ks).
Proof.
  assert (He : ∀ n ks, read_exact Std n (Pipe (fd_pieces ks) fin) = on_pipe (read_exact_fd n ks))
    by (intros; apply fd_read_refines).
  assert (Hl : ∀ n ks, read_le Std n (Pipe (fd_pieces ks) fin) = on_pipe (read_le_fd n ks)).
  { intros n ks'. unfold read_le, read_le_fd, mbind, Rd_bind. rewrite He.
    by destruct (read_exact_fd n ks') as [[]|]. }
  split_and!; [apply Hl..|]. unfold read_prefixed, read_bytes_fd, read_u32_le_fd, mbind, Rd_bind.
  rewrite Hl. destruct (read_le_fd 4 ks) as [[len ks']|]; [|done]. simpl. apply He.
Qed.
End fdreader.

(** ** The messages of [Worker] *)

Definition send_execute (php_code : bytes) : bytes :=
  [cmd_byte Execute] ++ le_bytes 4 (wrap_u 32 (zlen php_code)) ++ php_code.

Definition shutdown_message : bytes := [cmd_byte Shutdown].

Definition send_request (data : bytes) : bytes := data.

(** [read_response] reads through a buffer that it then drops: here, all that was sent
    belongs to the response. *)
Definition read_response (p : pipe) : result (bool * bytes) io_error :=
  match read_worker p with Ok (r, _) => Ok r | Err e => Err e end.

(** ** A session with a worker that evaluates code *)

Section eval.
Context (to_lowercase : bytes → bytes).
Context {php : Type} (run_php : php → php_call → php * list sapi_event * Z).

#[local] Abbreviation worker := (PersistentWorker.worker (php := php)).
#[local] Abbreviation call := (call to_lowercase run_php).
#[local] Abbreviation spec_call := (PersistentWorker.spec_call run_php).
#[local] Abbreviation idle := (idle (php := php)).

(** What evaluating a piece of code should give: PHP's verdict and all the output, up
    to the end of the request. *)
Definition spec_eval (init : bool) (code : bytes) (s : php * Z) : WorkerResp * bytes * (php * Z) :=
  let code := from_utf8_lossy code in
  if bool_decide (x00 ∈ code) then (RespError, lit "Error: PHP code contains null byte", s)
  else
    let '(r, evs1, s1) := spec_call (zend_eval_string code (lit "turbine_worker")) s in
    let '(_, evs2, s2) := spec_call php_request_shutdown s1 in
    let out := v_out (view_run to_lowercase (View [] [] 200 s.2 init) (evs1 ++ evs2)) in
    let '(_, _, s3) := spec_call php_request_startup s2 in
    if r =? SUCCESS then (RespOk, out, s3) else (RespError, lit "PHP Error" ++ [x0a] ++ out, s3).

Fixpoint spec_evals (init : bool) (codes : list bytes) (s : php * Z) :
    list (WorkerResp * bytes) * (php * Z) :=
  match codes with
  | [] => ([], s)
  | code :: codes =>
      let '(status, out, s) := spec_eval init code s in
      let '(rs, s) := spec_evals init codes s in ((status, out) :: rs, s)
  end.

Lemma eval_respond_idle init s sent0 w status payload : idle init s sent0 w →
  idle init s (sent0 ++ write_worker_response status payload) (eval_respond status payload w).
Proof.
  intros Hi. unfold eval_respond.
  by destruct (resp_write_idle init s sent0 w (write_worker_response status payload) Hi) as (w' & -> & ?).
Qed.

Lemma take_output_idle init s sent0 w : idle init s sent0 w →
  idle init s sent0 (Worker (w_php w) (take_output (w_cap w)).2).
Proof. intros (P & Hsg & Hin & F & G & R). by split_and!. Qed.

Lemma read_execute code k p : zlen code < 2 ^ 32 → stream p = send_execute code ++ k →
  ∃ p1 p2 p3, read_exact Std 1 p = Ok ([x01], p1) ∧
    read_exact Std 4 p1 = Ok (le_bytes 4 (zlen code), p2) ∧
    read_exact Std (Z.to_nat (le_val (le_bytes 4 (zlen code)))) p2 = Ok (code, p3) ∧ stream p3 = k.
Proof.
  intros Hl Hp. unfold send_execute in Hp. unfold wrap_u in Hp.
  rewrite Z.mod_small in Hp by (split; [eauto with turbine|done]).
  rewrite <-!(assoc_L app) in Hp.
  destruct (reads_exact Std [x01] 1 eq_refl p _ Hp) as (p1 & E1 & Hp1 & _).
  destruct (reads_exact Std (le_bytes 4 (zlen code)) 4 ltac:(by rewrite le_bytes_length) p1 _ Hp1)
    as (p2 & E2 & Hp2 & _).
  rewrite le_val_le_bytes, Z.mod_small by (split; [eauto with turbine|done]).
  destruct (reads_exact Std code (Z.to_nat (zlen code)) ltac:(unfold zlen; lia) p2 _ Hp2)
    as (p3 & E3 & Hp3 & _).
  by exists p1, p2, p3.
Qed.

Lemma eval_iteration_spec init code k p s sent0 w status out s' :
  zlen code < 2 ^ 32 → stream p = send_execute code ++ k →
  idle init s sent0 w → spec_eval init code s = (status, out, s') →
  ∃ p' w', eval_iteration to_lowercase run_php p w = (Some p', w') ∧ stream p' = k ∧
           idle init s' (sent0 ++ write_worker_response status out) w'.
Proof.
  intros Hl Hp Hi Hs. destruct (read_execute code k p Hl Hp) as (p1 & p2 & p3 & E1 & E2 & E3 & Hk).
  unfold eval_iteration. rewrite E1. simpl. rewrite E2, E3.
  destruct (clear_buffers _ _ _ _ Hi) as [Hi0 Hb0]. unfold spec_eval in Hs.
  destruct (bool_decide (x00 ∈ from_utf8_lossy code)).
  { simplify_eq. do 2 eexists. split; [done|]. split; [done|]. by apply eval_respond_idle. }
  destruct (spec_call (zend_eval_string _ _) s) as [[r1 e1] s1] eqn:C1.
  destruct (call_buffers to_lowercase run_php _ _ _ _ _ _ _ _ _ Hi0 Hb0 C1) as (w1 & -> & Hi1 & Hb1).
  destruct (spec_call php_request_shutdown s1) as [[r2 e2] s2] eqn:C2.
  destruct (call_buffers to_lowercase run_php _ _ _ _ _ _ _ _ _ Hi1 Hb1 C2) as (w2 & -> & Hi2 & Hb2).
  destruct (spec_call php_request_startup s2) as [[r3 e3] s3] eqn:C3.
  apply take_output_idle in Hi2 as Hi2'. unfold take_output in *. cbn [fst snd] in Hi2'.
  destruct (call_idle to_lowercase run_php _ _ _ _ _ _ _ _ Hi2' C3) as (w3 & Ec & Hi3). rewrite Ec.
  unfold view_run in Hs, Hb2. rewrite foldl_app in Hs. destruct Hb2 as (-> & _).
  destruct (r1 =? SUCCESS); simplify_eq; do 2 eexists; (split; [done|]); (split; [done|]);
    by apply eval_respond_idle.
Qed.

Definition worker_bytes (r : WorkerResp * bytes) : bytes := write_worker_response r.1 r.2.

Lemma eval_loop_session init codes : ∀ fuel p s sent0 w rs s',
  Forall (λ code, zlen code < 2 ^ 32) codes →
  stream p = mjoin (send_execute <$> codes) ++ shutdown_message →
  (length (stream p) < fuel)%nat → idle init s sent0 w → spec_evals init codes s = (rs, s') →
  ∃ w', eval_loop to_lowercase run_php fuel p w = Some w' ∧
    idle init s' (sent0 ++ mjoin (worker_bytes <$> rs)) w'.
Proof.
  induction codes as [|code codes IH]; intros [|fuel] p s sent0 w rs s' Hok Hp Hf Hi Hs;
    [lia| |lia|]; simpl in *; cbn [eval_loop].
  - destruct (reads_exact Std [x02] 1 eq_refl p [] Hp) as (p1 & E1 & _).
    unfold eval_iteration. rewrite E1. simpl. simplify_eq. exists w. simpl. by rewrite app_nil_r.
  - apply Forall_cons in Hok as [Hc Hcs]. rewrite <-(assoc_L app) in Hp.
    destruct (spec_eval init code s) as [[status out] s1] eqn:E1.
    destruct (spec_evals init codes s1) as [rs1 s2] eqn:E2. simplify_eq.
    destruct (eval_iteration_spec init code _ p s sent0 w status out s1 Hc Hp Hi E1)
      as (p' & w' & -> & Hp' & Hi').
    assert (length (stream p') < fuel)%nat as Hf'.
    { rewrite Hp'. apply (f_equal length) in Hp. simpl in Hp. rewrite !length_app in *. lia. }
    destruct (IH fuel p' s1 _ w' rs1 s' Hcs Hp' Hf' Hi' E2) as (w2 & E3 & Hi2).
    exists w2. split; [done|]. simpl. by rewrite <-(assoc_L app) in Hi2.
Qed.

Fixpoint read_workers (n : nat) : Rd (list (bool * bytes)) :=
  match n with
  | O => mret []
  | S n => r ← read_worker; rs ← read_workers n; mret (r :: rs)
  end.

Definition verdict (r : WorkerResp * bytes) : bool * bytes := (status_success r.1, r.2).

Lemma reads_workers rs : Forall (λ r, zlen r.2 < 2 ^ 32) rs →
  reads (read_workers (length rs)) (mjoin (worker_bytes <$> rs)) (verdict <$> rs).
Proof.
  induction 1 as [|r rs Hr _ IH]; [apply reads_ret|]. rewrite fmap_cons.
  change (mjoin (worker_bytes r :: (worker_bytes <$> rs)))
    with (write_worker_response r.1 r.2 ++ mjoin (worker_bytes <$> rs)).
  cbn [length read_workers]. eapply reads_bind; [by apply reads_worker|].
  rewrite <-(app_nil_r (mjoin _)). eapply reads_bind; [exact IH|apply reads_ret].
Qed.

(** A session with a worker that evaluates code works end to end: it says that it is
    ready and then answers every piece of code that was sent, in order, with whether
    PHP succeeded and everything that was printed, until it is told to stop. *)
Theorem eval_session_correct (init : bool) (codes : list bytes) (rs : list (WorkerResp * bytes)) (p : pipe)
    (w : worker) (s s' : php * Z) :
  idle init s [] w → Forall (λ code, zlen code < 2 ^ 32) codes →
  stream p = mjoin (send_execute <$> codes) ++ shutdown_message →
  spec_evals init codes s = (rs, s') → Forall (λ r, zlen r.2 < 2 ^ 32) rs →
  ∃ w', worker_event_loop to_lowercase run_php p w = Some w' ∧
    ∀ q, stream q = sent (resp (w_cap w')) →
    ∃ q', read_workers (S (length rs)) q = Ok ((true, []) :: (verdict <$> rs), q') ∧ stream q' = [].
Proof.
  intros Hi Hok Hp Hs Hrs. unfold worker_event_loop.
  pose proof (eval_respond_idle init s [] w RespReady [] Hi) as Hi1.
  destruct (eval_loop_session init codes (S (length (stream p))) p s _ _ rs s' Hok Hp ltac:(lia) Hi1 Hs)
    as (w' & -> & (_ & _ & _ & _ & _ & R)).
  exists w'. split; [done|]. intros q Hq. rewrite R in Hq. cbn [sent app] in Hq.
  assert (reads (read_workers (S (length rs))) (write_worker_response RespReady [] ++
    mjoin (worker_bytes <$> rs)) ((true, []) :: (verdict <$> rs))) as Hread.
  { cbn [read_workers]. eapply reads_bind; [by apply (reads_worker RespReady [])|].
    rewrite <-(app_nil_r (mjoin _)). eapply reads_bind; [by apply reads_workers|apply reads_ret]. }
  rewrite <-(app_nil_r (_ ++ _)) in Hq. destruct (Hread q [] Hq) as (q' & E & Hk & _). by exists q'.
Qed.
End eval.

Lemma eval_session_correct_witness :
  let c := {| OUTPUT_BUFFER := []; HEADER_BUFFER := []; RESPONSE_CODE := 200; STREAM_FD := -1;
              STREAM_ENGAGED := false; sg_code := 0; initialized := true; resp := Wire [] None |} in
  let codes := [lit "echo 1;"; lit "echo" ++ [x00]] in
  let p := Pipe [mjoin (send_execute <$> codes) ++ shutdown_message] None in
  let rs := (spec_evals to_ascii_lowercase toy_php true codes (0%nat, 0)).1 in
  ∃ w', worker_event_loop to_ascii_lowercase toy_php p (Worker 0%nat c) = Some w' ∧
    ∀ q, stream q = sent (resp (w_cap w')) →
    ∃ q', read_workers (S (length rs)) q = Ok ((true, []) :: (verdict <$> rs), q') ∧ stream q' = [].
Proof.
  intros c codes p rs.
  apply (eval_session_correct to_ascii_lowercase toy_php true codes rs p (Worker 0%nat c) (0%nat, 0)
    (spec_evals to_ascii_lowercase toy_php true codes (0%nat, 0)).2).
  - by split_and!.
  - repeat constructor.
  - vm_compute. reflexivity.
  - vm_compute. reflexivity.
  - repeat constructor.
Defined.
