(* ===== verification/AccessLog.v ===== *)
(** * The access log, and the hint about huge pages (turbine-core/src/http_helpers.rs, main.rs)

    One line for each request, appended to a file and flushed under a lock. The range of
    memory that the process asks huge pages for is here, too: both are side effects that
    no response depends on. *)

From S2P Require Import Prelude RustStr.

(** ** The log *)

Record log_entry := {
  le_client : bytes;
  le_time : Z;
  le_method : bytes;
  le_path : bytes;
  le_status : Z;
  le_elapsed_ms : Z }.

Definition log_text (e : log_entry) : bytes :=
  le_client e ++ lit " - - [" ++ dec_string (le_time e) ++ lit "] " ++ [x22] ++ le_method e ++ lit " " ++
  le_path e ++ [x22] ++ lit " " ++ dec_string (le_status e) ++ lit " " ++ dec_string (le_elapsed_ms e) ++
  lit "ms".

(** The file, when the log is on. *)
Definition write_access_log (e : log_entry) (file : option bytes) : option bytes :=
  (λ f, f ++ ln (log_text e)) <$> file.

(** What a request cannot have in these fields: hyper refuses line ends in a method and in a
    path. *)
Definition one_line (e : log_entry) : Prop :=
  (x0a ∉ le_client e) ∧ (x0a ∉ le_method e) ∧ (x0a ∉ le_path e) ∧
  0 ≤ le_time e ∧ 0 ≤ le_status e ∧ 0 ≤ le_elapsed_ms e.

Lemma dec_digits_no fuel v acc c : digit c = None → 0 ≤ v → c ∉ acc → c ∉ dec_digits fuel v acc.
Proof.
  revert v acc. induction fuel as [|fuel IH]; intros v acc Hc Hv Ha; [done|]. simpl.
  assert (c ∉ as_u8 (48 + v `mod` 10) :: acc) as Hcons.
  { rewrite not_elem_of_cons. split; [|done]. intros ->. unfold digit in Hc.
    pose proof (Z.mod_pos_bound v 10). rewrite u8_as_u8, Z.mod_small in Hc by lia.
    rewrite !(proj2 (Z.leb_le _ _)) in Hc by lia. done. }
  case_match; [done|]. apply IH; [done|apply Z.div_pos; lia|done].
Qed.

Lemma log_text_line e : one_line e → x0a ∉ log_text e.
Proof.
  intros (Hc & Hm & Hp & Ht & Hs & He). unfold log_text, dec_string.
  assert (∀ s : bytes, bool_decide (x0a ∉ s) = true → x0a ∉ s) as Hb by (intros s; apply bool_decide_eq_true).
  rewrite !not_elem_of_app. split_and!; try done; try (by apply dec_digits_no; (done || apply not_elem_of_nil));
    apply Hb; by vm_compute.
Qed.

Lemma split_app_line (s l : bytes) : x0a ∉ l →
  split x0a (s ++ ln l) = removelast (split x0a s) ++ [default [] (last (split x0a s)) ++ l; []].
Proof.
  intros Hl. unfold ln. induction s as [|x s IH]; simpl.
  - induction l as [|y l IHl]; simpl; [done|]. rewrite decide_False by set_solver.
    by rewrite IHl by set_solver.
  - case_decide; subst.
    + rewrite IH. pose proof (split_nonempty x0a s). by destruct (split x0a s) as [|w ws].
    + rewrite IH. pose proof (split_nonempty x0a s). destruct (split x0a s) as [|w [|w' ws]]; [done|done|].
      simpl. by destruct ws.
Qed.

Lemma strip_cr_ms s : strip_cr (s ++ lit "ms") = s ++ lit "ms".
Proof. unfold strip_cr, strip_suffix, ends_with. by rewrite reverse_app. Qed.

(** The log has one line for each request, in the order in which they ended: no request can add
    a line or end one early. *)
Theorem log_lines_exact (es : list log_entry) :
  Forall one_line es →
  lines <$> foldr write_access_log (Some []) (reverse es) = Some (log_text <$> es).
Proof.
  intros Hes.
  assert (∃ f, foldr write_access_log (Some []) (reverse es) = Some f ∧
               split x0a f = (log_text <$> es) ++ [[]]) as (f & -> & Hf).
  { induction es as [|e es IH] using rev_ind; [by exists []|].
    apply Forall_app in Hes as [Hes [He _]%Forall_cons]. destruct (IH Hes) as (f & Ef & Hf).
    rewrite reverse_snoc. simpl. rewrite Ef. simpl. eexists. split; [done|].
    rewrite split_app_line by (by apply log_text_line). rewrite Hf.
    rewrite removelast_last, last_snoc, fmap_app. simpl. by rewrite <-(assoc_L (++)). }
  simpl. f_equal. unfold lines. rewrite Hf, reverse_app. cbn [reverse rev_append app].
  rewrite <-fmap_reverse, reverse_involutive, <-list_fmap_compose. apply list_fmap_ext.
  intros _ e _. simpl. unfold log_text. rewrite !(assoc_L (++)). apply strip_cr_ms.
Qed.

Lemma log_lines_exact_witness :
  let e := {| le_client := lit "::1"; le_time := 1700000000; le_method := lit "GET"; le_path := lit "/a";
              le_status := 200; le_elapsed_ms := 12 |} in
  lines <$> foldr write_access_log (Some []) (reverse [e]) =
  Some [q (lit "::1 - - [1700000000] ~GET /a~ 200 12ms")].
Proof.
  intros e. apply (log_lines_exact [e]). constructor; [|constructor].
  repeat split; try (apply (bool_decide_unpack _); by vm_compute); simpl; lia.
Defined.

(** ** Huge pages *)

Definition HUGE_PAGE : Z := 2 * 1024 * 1024.

Definition next_multiple_of (x n : Z) : Z := (x + n - 1) / n * n.

(** The range between the start of the zeroed data and the end of the program that the
    process gives the hint for: its start and its length. *)
Definition hugepage_range (start stop : Z) : option (Z * Z) :=
  if start <? stop then
    let aligned_start := next_multiple_of start HUGE_PAGE in
    let aligned_end := Z.land stop (Z.lnot (HUGE_PAGE - 1)) in
    if aligned_start <? aligned_end then Some (aligned_start, aligned_end - aligned_start) else None
  else None.

(** The hint is for whole pages of the program's own data: the range is aligned, not empty, and
    within it. *)
Theorem hugepage_range_within (start stop a len : Z) :
  0 ≤ start → hugepage_range start stop = Some (a, len) →
  start ≤ a ∧ 0 < len ∧ a + len ≤ stop ∧ (HUGE_PAGE | a) ∧ (HUGE_PAGE | len).
Proof.
  intros Hs. unfold hugepage_range, next_multiple_of. destruct (start <? stop); [|done].
  assert (Z.land stop (Z.lnot (HUGE_PAGE - 1)) = stop / HUGE_PAGE * HUGE_PAGE) as ->.
  { change (HUGE_PAGE - 1) with (Z.ones 21). change HUGE_PAGE with (2 ^ 21).
    rewrite <-Z.ldiff_land, Z.ldiff_ones_r by lia. by rewrite Z.shiftl_mul_pow2, Z.shiftr_div_pow2 by lia. }
  destruct (Z.ltb_spec ((start + HUGE_PAGE - 1) / HUGE_PAGE * HUGE_PAGE) (stop / HUGE_PAGE * HUGE_PAGE)); [|done].
  intros [= <- <-]. assert (0 < HUGE_PAGE) by done.
  pose proof (Z.div_mod (start + HUGE_PAGE - 1) HUGE_PAGE ltac:(lia)).
  pose proof (Z.mod_pos_bound (start + HUGE_PAGE - 1) HUGE_PAGE ltac:(lia)).
  pose proof (Z.mul_div_le stop HUGE_PAGE ltac:(lia)).
  split_and!; [lia|lia|lia|apply Z.divide_factor_r|].
  apply Z.divide_sub_r; apply Z.divide_factor_r.
Qed.

Lemma hugepage_range_within_witness :
  hugepage_range 1000 5000000 = Some (2097152, 2097152) ∧ 1000 ≤ 2097152.
Proof.
  split; [reflexivity|]. apply (hugepage_range_within 1000 5000000 2097152 2097152); [done|reflexivity].
Defined.
