(* ===== verification/F64.v ===== *)
(** * Double-precision floats

    The [f64] arithmetic the crates use, on the specification floats of the
    standard library (53 bits of precision, exponents up to 1024). *)

From Stdlib Require Import Floats.SpecFloat.
From S2P Require Import Prelude.

Abbreviation f64 := spec_float.

Definition f64_add : f64 → f64 → f64 := SFadd 53 1024.
Definition f64_mul : f64 → f64 → f64 := SFmul 53 1024.
Definition f64_div : f64 → f64 → f64 := SFdiv 53 1024.

(** [v as f64] for an integer [v]. *)
Definition f64_of_Z (v : Z) : f64 := binary_normalize 53 1024 v 0 false.

(** The literals [0.80] and [0.20]: the nearest doubles. *)
Definition f64_0_80 : f64 := S754_finite false 7205759403792794 (-53).
Definition f64_0_20 : f64 := S754_finite false 7205759403792794 (-55).

(** [x.round()], half away from zero, as an integer; [None] for an infinity
    or a NaN. *)
Definition f64_round (x : f64) : option Z :=
  match x with
  | S754_zero _ => Some 0
  | S754_finite s m e =>
      let a := if 0 <=? e then Z.pos m * 2 ^ e
               else (Z.pos m + 2 ^ (- e - 1)) / 2 ^ (- e) in
      Some (if s then - a else a)
  | _ => None
  end.

(** [x as i64]: saturating, and 0 for a NaN. *)
Definition f64_round_as_i64 (x : f64) : Z :=
  match f64_round x with
  | Some v => Z.max (- 2 ^ 63) (Z.min v (2 ^ 63 - 1))
  | None => match x with
            | S754_infinity true => - 2 ^ 63
            | S754_infinity false => 2 ^ 63 - 1
            | _ => 0
            end
  end.

(** [x.ceil() as u64]: saturating, and 0 for a NaN. *)
Definition f64_ceil_as_u64 (x : f64) : Z :=
  match x with
  | S754_finite s m e =>
      let m := if s then - Z.pos m else Z.pos m in
      let v := if 0 <=? e then m * 2 ^ e else - ((- m) / 2 ^ (- e)) in
      Z.max 0 (Z.min v u64_max)
  | S754_infinity false => u64_max
  | _ => 0
  end.

(** The nearest doubles to [0.50], [0.90] and [0.99]. *)
Definition f64_0_50 : f64 := S754_finite false 4503599627370496 (-53).
Definition f64_0_90 : f64 := S754_finite false 8106479329266893 (-53).
Definition f64_0_99 : f64 := S754_finite false 8917127262193582 (-53).

(** The digits of [n / d] rounded to an integer, half to even. *)
Definition round_half_even (n d : Z) : Z :=
  let q := n / d in
  match (2 * (n - q * d) ?= d)%Z with
  | Lt => q
  | Gt => q + 1
  | Eq => if Z.even q then q else q + 1
  end.

(** [format!("{:.k}", x)] of a number that is not negative: the exact value,
    rounded to [k] decimals. *)
Definition f64_scaled (k : Z) (x : f64) : Z :=
  match x with
  | S754_finite _ m e =>
      if 0 <=? e then Z.pos m * 2 ^ e * 10 ^ k
      else round_half_even (Z.pos m * 10 ^ k) (2 ^ (- e))
  | _ => 0
  end.

(** [x <= y] *)
Definition f64_leb : f64 → f64 → bool := SFleb.

(** [x > y] *)
Definition f64_gtb (x y : f64) : bool := SFltb y x.

Definition f64_zero : f64 := S754_zero false.

(** Zero errors are never more than a share that is not negative. *)
Lemma f64_zero_share (count : Z) (rate : f64) :
  f64_leb f64_zero rate = true →
  f64_gtb (f64_div (f64_of_Z 0) (f64_of_Z count)) rate = false.
Proof.
  intros H. change (f64_of_Z 0) with (S754_zero false). unfold f64_gtb, f64_div, SFltb.
  destruct (f64_of_Z count) as [s|s| |s m e]; simpl.
  all: destruct rate as [s'|s'| |s' m' e']; try done; destruct s'; done.
Qed.
