(* ===== verification/WorkerPool.v ===== *)
(** * The worker pool (turbine-worker/src/pool.rs, worker.rs, persistent.rs)

    The master's view of its workers: their states, their request quotas and
    the queue of idle ones. What the operating system answers (the outcome of a
    fork or a thread spawn, whether a child is still there) is an argument of
    each operation, and what the operation asks of it is part of its result. *)

From S2P Require Import Prelude F64.

(** ** Workers *)

Inductive WorkerState := Idle | Busy | Stopping | Exited (code : Z).

#[global] Instance worker_state_eq_dec : EqDecision WorkerState.
Proof. solve_decision. Defined.

Inductive WorkerKind := Process (pid : Z) | Thread (thread_id : Z).

Record Worker := {
  kind : WorkerKind;
  state : WorkerState;
  requests_handled : Z;
  max_requests : Z;
  cmd_fd : Z;
  resp_fd : Z }.

(** [WorkerError]: a failed [pipe], or a failed [fork] or thread spawn. *)
Inductive WorkerError := PipeFailed | ForkFailed.

(** What is asked of the operating system. *)
Inductive effect :=
| SigTerm (pid : Z)
| SigKill (pid : Z)
| WriteFd (fd : Z) (data : bytes)
| CloseFd (fd : Z).

Definition set_state (s : WorkerState) (w : Worker) : Worker :=
  {| kind := kind w; state := s; requests_handled := requests_handled w;
     max_requests := max_requests w; cmd_fd := cmd_fd w; resp_fd := resp_fd w |}.

Definition worker_new (k : WorkerKind) (max cmd resp : Z) : Worker :=
  {| kind := k; state := Idle; requests_handled := 0; max_requests := max; cmd_fd := cmd;
     resp_fd := resp |}.

Definition pid (w : Worker) : Z := match kind w with Process p => p | Thread _ => 0 end.

Definition is_thread (w : Worker) : bool :=
  match kind w with Process _ => false | Thread _ => true end.

Definition mark_busy (w : Worker) : Worker := set_state Busy w.

(** Whether the worker should be recycled, and the worker. *)
Definition mark_idle (w : Worker) : bool * Worker :=
  let handled := wrap_u 64 (requests_handled w + 1) in
  ((0 <? max_requests w) && (max_requests w <=? handled),
   {| kind := kind w; state := Idle; requests_handled := handled;
      max_requests := max_requests w; cmd_fd := cmd_fd w; resp_fd := resp_fd w |}).

(** What [waitpid(WNOHANG)] or the thread's flag says. *)
Inductive liveness := StillAlive | ExitedCode (code : Z) | Signaled | WaitFailed.

#[global] Instance liveness_eq_dec : EqDecision liveness.
Proof. solve_decision. Defined.

Definition is_alive (l : liveness) (w : Worker) : bool * Worker :=
  match kind w, l with
  | _, StillAlive => (true, w)
  | Process _, ExitedCode code => (false, set_state (Exited code) w)
  | Process _, (Signaled | WaitFailed) => (false, set_state (Exited (-1)) w)
  | Thread _, _ => (false, set_state (Exited 0) w)
  end.

(** [send_shutdown] writes the byte of [WorkerCmd::Shutdown]. *)
Definition send_shutdown (w : Worker) : list effect := [WriteFd (cmd_fd w) [x02]].

Definition terminate (w : Worker) : list effect * Worker :=
  let w := set_state Stopping w in
  (match kind w with Process p => [SigTerm p] | Thread _ => send_shutdown w end, w).

Definition kill (w : Worker) : list effect * Worker :=
  let w := set_state Stopping w in
  match kind w with
  | Process p => ([SigKill p], w)
  | Thread _ =>
      ([CloseFd (cmd_fd w)],
       {| kind := kind w; state := state w; requests_handled := requests_handled w;
          max_requests := max_requests w; cmd_fd := -1; resp_fd := resp_fd w |})
  end.

(** [Drop for Worker]; the fields are not used afterwards. *)
Definition drop_worker (w : Worker) : list effect :=
  if bool_decide (state w = Exited (-1)) || bool_decide (state w = Exited 0) then []
  else
    (if 0 <=? cmd_fd w then [CloseFd (cmd_fd w)] else []) ++
    (if 0 <=? resp_fd w then [CloseFd (resp_fd w)] else []) ++
    match state w with Idle | Busy => (terminate w).1 | _ => [] end.

(** ** The pool *)

Inductive WorkerMode := ModeProcess | ModeThread.

(** [pin_workers] is for the workers' threads, which the pool does not see. *)
Record PoolConfig := {
  cfg_workers : nat;
  cfg_max_requests : Z;
  cfg_mode : WorkerMode;
  cfg_pin_workers : bool }.

Definition default_pool_config (cpus : nat) : PoolConfig :=
  {| cfg_workers := cpus; cfg_max_requests := 10000; cfg_mode := ModeProcess;
     cfg_pin_workers := false |}.

Record WorkerPool := {
  config : PoolConfig;
  workers : list Worker;
  idle_queue : list nat }.

Definition pool_new (c : PoolConfig) : WorkerPool :=
  {| config := c; workers := []; idle_queue := [] |}.

Definition staggered_max_requests (base : Z) (slot_idx total : nat) : Z :=
  if (base =? 0) || (Z.of_nat total <=? 1) then base
  else
    let denom := f64_of_Z (Z.of_nat total - 1) in
    let frac :=
      f64_add f64_0_80 (f64_div (f64_mul f64_0_20 (f64_of_Z (Z.of_nat slot_idx))) denom) in
    let scaled := f64_round_as_i64 (f64_mul (f64_of_Z base) frac) in
    Z.max scaled 1.

(** The pid of a child or the id of a thread, with the master's ends of its
    pipes. *)
Definition spawned := result (Z * Z * Z) WorkerError.

Definition push_worker (w : Worker) (p : WorkerPool) : WorkerPool :=
  {| config := config p; workers := workers p ++ [w];
     idle_queue := idle_queue p ++ [length (workers p)] |}.

(** The old worker is dropped. *)
Definition replace_worker (index : nat) (w : Worker) (p : WorkerPool) : list effect * WorkerPool :=
  match workers p !! index with
  | Some old =>
      (drop_worker old,
       {| config := config p; workers := <[index := w]> (workers p);
          idle_queue := idle_queue p ++ [index] |})
  | None => (drop_worker w, p)
  end.

Definition quota (index : nat) (p : WorkerPool) : Z :=
  staggered_max_requests (cfg_max_requests (config p)) index (cfg_workers (config p)).

(** The result of an operation, what it asked of the system, and the pool. *)
Abbreviation pool_result := (result unit WorkerError * list effect * WorkerPool)%type.

(** What every spawn does once the system has answered; the worker goes to the
    end whatever its index. The child does not return. *)
Definition spawn_push (mk : Z → WorkerKind) (max : Z) (o : spawned) (p : WorkerPool)
    : pool_result :=
  match o with
  | Err e => (Err e, [], p)
  | Ok (id, cmd, resp) => (Ok tt, [], push_worker (worker_new (mk id) max cmd resp) p)
  end.

Definition spawn_one (index : nat) (o : spawned) (p : WorkerPool) : pool_result :=
  spawn_push Process (quota index p) o p.

Definition spawn_one_thread (index : nat) (o : spawned) (p : WorkerPool) : pool_result :=
  spawn_push Thread (quota index p) o p.

Definition spawn_one_persistent (index : nat) (o : spawned) (p : WorkerPool) : pool_result :=
  spawn_push Process (quota index p) o p.

(** Persistent threads get the quota of the configuration. *)
Definition spawn_one_persistent_thread (index : nat) (o : spawned) (p : WorkerPool)
    : pool_result :=
  spawn_push Thread (cfg_max_requests (config p)) o p.

(** A loop of spawns that stops at the first error. *)
Fixpoint spawn_each (spawn : nat → spawned → WorkerPool → pool_result)
    (indices : list nat) (os : list spawned) (p : WorkerPool) : pool_result :=
  match indices, os with
  | i :: indices', o :: os' =>
      match spawn i o p with
      | (Ok _, eff, p) =>
          let '(r, eff', p) := spawn_each spawn indices' os' p in (r, eff ++ eff', p)
      | (Err e, eff, p) => (Err e, eff, p)
      end
  | _, _ => (Ok tt, [], p)
  end.

Definition spawn_workers (os : list spawned) (p : WorkerPool) : pool_result :=
  spawn_each spawn_one (seq 0 (cfg_workers (config p))) os p.

Definition spawn_persistent_workers (os : list spawned) (p : WorkerPool) : pool_result :=
  spawn_each spawn_one_persistent (seq 0 (cfg_workers (config p))) os p.

(** Threads need a thread-safe PHP. *)
Definition spawn_workers_threaded (zts : bool) (os : list spawned) (p : WorkerPool)
    : pool_result :=
  if zts then spawn_each spawn_one_thread (seq 0 (cfg_workers (config p))) os p
  else (Err ForkFailed, [], p).

Definition spawn_persistent_workers_threaded (zts : bool) (os : list spawned) (p : WorkerPool)
    : pool_result :=
  if zts then spawn_each spawn_one_persistent_thread (seq 0 (cfg_workers (config p))) os p
  else (Err ForkFailed, [], p).

Definition spawn_additional (o : spawned) (p : WorkerPool) : pool_result :=
  spawn_one (length (workers p)) o p.

Definition spawn_additional_thread (o : spawned) (p : WorkerPool) : pool_result :=
  spawn_one_thread (length (workers p)) o p.

(** A thread with channels instead of pipes. *)
Definition register_channel_thread (thread_id : Z) (p : WorkerPool) : WorkerPool :=
  push_worker (worker_new (Thread thread_id) (quota (length (workers p)) p) (-1) (-1)) p.

(** [while let Some(idx) = idle_queue.pop_back()] *)
Fixpoint pop_idle (ws : list Worker) (reversed : list nat) : option nat * list nat :=
  match reversed with
  | [] => (None, [])
  | idx :: rest =>
      match ws !! idx with
      | Some w => if bool_decide (state w = Idle) then (Some idx, rest) else pop_idle ws rest
      | None => pop_idle ws rest
      end
  end.

Definition get_idle_worker (p : WorkerPool) : option nat * WorkerPool :=
  let '(r, rest) := pop_idle (workers p) (reverse (idle_queue p)) in
  (r, {| config := config p; workers := workers p; idle_queue := reverse rest |}).

Definition upd_worker (idx : nat) (w : Worker) (p : WorkerPool) : WorkerPool :=
  {| config := config p; workers := <[idx := w]> (workers p); idle_queue := idle_queue p |}.

Definition queue_idle (idx : nat) (p : WorkerPool) : WorkerPool :=
  {| config := config p; workers := workers p; idle_queue := idle_queue p ++ [idx] |}.

Definition return_worker (idx : nat) (p : WorkerPool) : list effect * WorkerPool :=
  match workers p !! idx with
  | None => ([], p)
  | Some w =>
      let '(recycle, w) := mark_idle w in
      if recycle then let '(eff, w) := terminate w in (eff, upd_worker idx w p)
      else ([], queue_idle idx (upd_worker idx w p))
  end.

(** A respawn puts the new worker in the place of the old one. *)
Definition spawn_replace (mk : Z → WorkerKind) (max : Z) (index : nat) (o : spawned)
    (p : WorkerPool) : pool_result :=
  match o with
  | Err e => (Err e, [], p)
  | Ok (id, cmd, resp) =>
      let '(eff, p) := replace_worker index (worker_new (mk id) max cmd resp) p in
      (Ok tt, eff, p)
  end.

(** The ready signal of the new worker is read, and its value only logged. *)
Definition respawn_persistent_at (index : nat) (o : spawned) (p : WorkerPool) : pool_result :=
  spawn_replace Process (quota index p) index o p.

Definition respawn_persistent_thread_at (index : nat) (o : spawned) (p : WorkerPool)
    : pool_result :=
  spawn_replace Thread (cfg_max_requests (config p)) index o p.

(** What [reap_and_respawn_threaded] does for each dead worker. *)
Definition respawn_thread_at (index : nat) (o : spawned) (p : WorkerPool) : pool_result :=
  spawn_replace Thread (quota index p) index o p.

(** [reaped]: the child was gone within 10 ms of the shutdown byte. *)
Definition return_worker_persistent (idx : nat) (reaped : bool) (o : spawned) (p : WorkerPool)
    : list effect * WorkerPool :=
  match workers p !! idx with
  | None => ([], p)
  | Some w =>
      let '(recycle, w) := mark_idle w in
      if recycle then
        let eff1 := [WriteFd (cmd_fd w) [xff]] in
        let '(eff2, w) := if reaped then ([], w) else terminate w in
        let '(_, eff3, p) := respawn_persistent_at idx o (upd_worker idx w p) in
        (eff1 ++ eff2 ++ eff3, p)
      else ([], queue_idle idx (upd_worker idx w p))
  end.

(** The scan for dead workers; [ls] has what the system says of each. *)
Fixpoint reap_scan (idx : nat) (ls : list liveness) (ws : list Worker)
    : list nat * list Worker :=
  match ws, ls with
  | w :: ws', l :: ls' =>
      let '(alive, w) := is_alive l w in
      let '(dead, ws'') := reap_scan (S idx) ls' ws' in
      (if alive then dead else idx :: dead, w :: ws'')
  | _, _ => ([], ws)
  end.

Definition reap (spawn : nat → spawned → WorkerPool → pool_result)
    (ls : list liveness) (os : list spawned) (p : WorkerPool) : pool_result :=
  let '(dead, ws) := reap_scan 0 ls (workers p) in
  spawn_each spawn dead os {| config := config p; workers := ws; idle_queue := idle_queue p |}.

(** Process mode spawns with [spawn_one]; the thread and the persistent
    variants replace the dead worker. *)
Definition reap_and_respawn := reap spawn_one.
Definition reap_and_respawn_threaded := reap respawn_thread_at.
Definition reap_and_respawn_persistent := reap respawn_persistent_at.
Definition reap_and_respawn_persistent_threaded := reap respawn_persistent_thread_at.

Definition shrink_one (p : WorkerPool) : bool * list effect * WorkerPool :=
  match reverse (idle_queue p) with
  | [] => (false, [], p)
  | idx :: rest =>
      let p := {| config := config p; workers := workers p; idle_queue := reverse rest |} in
      match workers p !! idx with
      | Some w =>
          if bool_decide (state w = Idle) then
            let '(eff, w) := terminate w in (true, eff, upd_worker idx w p)
          else (false, [], p)
      | None => (false, [], p)
      end
  end.

(** Every worker is told to stop, waited for and dropped. *)
Definition shutdown (p : WorkerPool) : list effect * WorkerPool :=
  (mjoin ((λ w, (terminate w).1) <$> workers p) ++
   mjoin ((λ w, drop_worker (terminate w).2) <$> workers p),
   {| config := config p; workers := []; idle_queue := [] |}).

(** [Drop for WorkerPool] *)
Definition drop_pool (p : WorkerPool) : list effect :=
  if bool_decide (workers p = []) then [] else (shutdown p).1.

Definition worker_count (p : WorkerPool) : nat := length (workers p).
Definition idle_count (p : WorkerPool) : nat := length (idle_queue p).
Definition busy_count (p : WorkerPool) : nat :=
  length (filter (λ w, state w = Busy) (workers p)).
Definition alive_count (p : WorkerPool) : nat :=
  length (filter (λ w, state w = Idle ∨ state w = Busy) (workers p)).

Definition worker_fds (p : WorkerPool) : list (Z * Z) := (λ w, (cmd_fd w, resp_fd w)) <$> workers p.
Definition worker_pids (p : WorkerPool) : list Z := pid <$> workers p.

(** The request handler takes an idle worker and marks it busy. *)
Definition dispatch (p : WorkerPool) : option nat * WorkerPool :=
  match get_idle_worker p with
  | (Some idx, p) =>
      (Some idx,
       match workers p !! idx with Some w => upd_worker idx (mark_busy w) p | None => p end)
  | (None, p) => (None, p)
  end.

(** When there is none it runs the reaper, whose errors it ignores, and tries
    again; without a worker the answer is a 503. *)
Definition claim_reap (mode : WorkerMode) (ls : list liveness) (os : list spawned)
    (p : WorkerPool) : WorkerPool :=
  match mode with
  | ModeThread => (reap_and_respawn_threaded ls os p).2
  | ModeProcess => (reap_and_respawn ls os p).2
  end.

Definition claim_worker (mode : WorkerMode) (ls : list liveness) (os : list spawned)
    (p : WorkerPool) : option nat * WorkerPool :=
  match dispatch p with
  | (Some idx, p) => (Some idx, p)
  | (None, p) => dispatch (claim_reap mode ls os p)
  end.

(** ** Histories *)

(** The operations the master performs on its pool, with what the system
    answered. *)
Inductive pool_op :=
| OpSpawn (index : nat) (o : spawned)
| OpSpawnThread (index : nat) (o : spawned)
| OpSpawnPersistent (index : nat) (o : spawned)
| OpSpawnPersistentThread (index : nat) (o : spawned)
| OpSpawnAdditional (o : spawned)
| OpSpawnAdditionalThread (o : spawned)
| OpRegister (thread_id : Z)
| OpClaim (mode : WorkerMode) (ls : list liveness) (os : list spawned)
| OpReturn (idx : nat)
| OpReturnPersistent (idx : nat) (reaped : bool) (o : spawned)
| OpReap (ls : list liveness) (os : list spawned)
| OpReapThreaded (ls : list liveness) (os : list spawned)
| OpReapPersistent (ls : list liveness) (os : list spawned)
| OpReapPersistentThreaded (ls : list liveness) (os : list spawned)
| OpShrink
| OpShutdown.

Definition pool_apply (p : WorkerPool) (op : pool_op) : WorkerPool :=
  match op with
  | OpSpawn index o => (spawn_one index o p).2
  | OpSpawnThread index o => (spawn_one_thread index o p).2
  | OpSpawnPersistent index o => (spawn_one_persistent index o p).2
  | OpSpawnPersistentThread index o => (spawn_one_persistent_thread index o p).2
  | OpSpawnAdditional o => (spawn_additional o p).2
  | OpSpawnAdditionalThread o => (spawn_additional_thread o p).2
  | OpRegister t => register_channel_thread t p
  | OpClaim mode ls os => (claim_worker mode ls os p).2
  | OpReturn idx => (return_worker idx p).2
  | OpReturnPersistent idx reaped o => (return_worker_persistent idx reaped o p).2
  | OpReap ls os => (reap_and_respawn ls os p).2
  | OpReapThreaded ls os => (reap_and_respawn_threaded ls os p).2
  | OpReapPersistent ls os => (reap_and_respawn_persistent ls os p).2
  | OpReapPersistentThreaded ls os => (reap_and_respawn_persistent_threaded ls os p).2
  | OpShrink => (shrink_one p).2
  | OpShutdown => (shutdown p).2
  end.

Definition pool_run (ops : list pool_op) (p : WorkerPool) : WorkerPool :=
  fold_left pool_apply ops p.

(** A worker that has served its quota. *)
Definition spent (w : Worker) : bool :=
  (0 <? max_requests w) && (max_requests w <=? requests_handled w).

(** A worker that may serve: idle, with requests left of its quota. *)
Definition available (w : Worker) : bool := bool_decide (state w = Idle) && negb (spent w).

(** The idle queue misses no available worker. *)
Definition pool_inv (p : WorkerPool) : Prop :=
  ∀ idx w, workers p !! idx = Some w → available w = true → idx ∈ idle_queue p.

(** The request that was given worker [idx] still has it. *)
Definition held (idx : nat) (p : WorkerPool) : Prop :=
  ∃ w, workers p !! idx = Some w ∧ state w ≠ Idle.

(** The operations that end a request's hold on [idx]: its return, the
    replacement of the worker once it is dead, the shutdown of the pool. *)
Definition releases (idx : nat) (op : pool_op) : bool :=
  match op with
  | OpReturn i | OpReturnPersistent i _ _ => bool_decide (i = idx)
  | OpClaim ModeThread ls _ | OpReapThreaded ls _ | OpReapPersistent ls _
  | OpReapPersistentThreaded ls _ =>
      match ls !! idx with Some StillAlive => false | _ => true end
  | OpShutdown => true
  | _ => false
  end.

Definition exited (w : Worker) : bool := match state w with Exited _ => true | _ => false end.

(** One pass of the reaper in which no further worker dies: a worker that was
    waited for is gone ([waitpid] fails), and every spawn succeeds. *)
Definition quiet_liveness (w : Worker) : liveness := if exited w then WaitFailed else StillAlive.

Definition quiet_reap (o : Z * Z * Z) (p : WorkerPool) : WorkerPool :=
  (reap_and_respawn (quiet_liveness <$> workers p) (replicate (worker_count p) (Ok o)) p).2.

(** ** Lemmas *)

Lemma spawn_each_ind (P : WorkerPool → Prop) spawn indices os p :
  (∀ i o p, i ∈ indices → P p → P (spawn i o p).2) →
  P p → P (spawn_each spawn indices os p).2.
Proof.
  revert os p; induction indices as [|i indices IH]; intros os p Hs Hp; [by destruct os|].
  destruct os as [|o os]; [done|]; simpl.
  pose proof (Hs i o p ltac:(set_solver) Hp) as Hp'.
  destruct (spawn i o p) as [[[[]|e] eff] p']; [|done].
  specialize (IH os p' ltac:(set_solver) Hp').
  by destruct (spawn_each spawn indices os p') as [[??]?].
Qed.

Lemma worker_new_available k m c r : available (worker_new k m c r) = true.
Proof. unfold available, spent; simpl. destruct (0 <? m) eqn:?; simpl; [|done]. apply negb_true_iff; lia. Qed.

Lemma mark_idle_available w : available (mark_idle w).2 = negb (mark_idle w).1.
Proof. done. Qed.

Lemma is_alive_cases l w :
  is_alive l w = (true, w) ∧ l = StillAlive ∨
  ∃ code, is_alive l w = (false, set_state (Exited code) w) ∧ l ≠ StillAlive.
Proof. unfold is_alive; destruct (kind w), l; naive_solver. Qed.

Lemma terminate_state w : state (terminate w).2 = Stopping.
Proof. done. Qed.

Lemma exited_unavailable code w : available (set_state (Exited code) w) = false.
Proof. done. Qed.

Lemma is_alive_dead l w : (is_alive l w).1 = true ↔ l = StillAlive.
Proof. unfold is_alive; destruct (kind w), l; naive_solver. Qed.

(** What the scan makes of the worker [i]. *)
Definition scanned (ls : list liveness) (i : nat) (w : Worker) : Worker :=
  match ls !! i with Some l => (is_alive l w).2 | None => w end.

Lemma reap_scan_workers idx ls ws i :
  (reap_scan idx ls ws).2 !! i = scanned ls i <$> ws !! i.
Proof.
  unfold scanned.
  revert idx ls i; induction ws as [|w ws IH]; intros idx [|l ls] i; simpl; try by destruct i.
  - destruct i; [done|]; simpl. by destruct (ws !! i).
  - destruct (is_alive l w) as [a w'] eqn:E. specialize (IH (S idx) ls).
    destruct (reap_scan (S idx) ls ws) as [d ws']. destruct i; simpl; [by rewrite E|apply IH].
Qed.

Lemma reap_scan_dead idx ls ws j :
  j ∈ (reap_scan idx ls ws).1 ↔
  ∃ k l, j = (idx + k)%nat ∧ is_Some (ws !! k) ∧ ls !! k = Some l ∧ l ≠ StillAlive.
Proof.
  revert idx ls; induction ws as [|w ws IH]; intros idx [|l ls]; simpl.
  1-3: split; [set_solver|intros (k & l' & ? & [??] & ? & ?); by destruct k].
  pose proof (is_alive_dead l w) as Hd. destruct (is_alive l w) as [a w'].
  specialize (IH (S idx) ls). destruct (reap_scan (S idx) ls ws) as [d ws']; simpl in *.
  assert (j ∈ (if a then d else idx :: d) ↔ (a = false ∧ j = idx) ∨ j ∈ d) as ->
    by (destruct a; set_solver).
  rewrite IH. split.
  - intros [[-> ->]|(k & l' & -> & ? & ? & ?)].
    + exists 0%nat, l. split_and!; [lia|done|done|naive_solver].
    + exists (S k), l'. split_and!; [lia|done..].
  - intros ([|k] & l' & -> & ? & ? & ?); simplify_eq/=.
    + left. split; [destruct a; naive_solver|lia].
    + right. exists k, l'. split_and!; [lia|done..].
Qed.

Lemma reap_scan_lengths idx ls ws :
  (length (reap_scan idx ls ws).1 ≤ length ls)%nat ∧
  length (reap_scan idx ls ws).2 = length ws.
Proof.
  revert idx ls; induction ws as [|w ws IH]; intros idx [|l ls]; simpl; try (split; lia).
  specialize (IH (S idx) ls). destruct (is_alive l w) as [[] w'], (reap_scan (S idx) ls ws); simpl in *; lia.
Qed.

Lemma scanned_available ls i w : available (scanned ls i w) = true → scanned ls i w = w.
Proof.
  unfold scanned. destruct (ls !! i) as [l|]; [|done].
  destruct (is_alive_cases l w) as [[-> _]|(code & -> & _)]; [done|by cbn [snd]; rewrite exited_unavailable].
Qed.

(** *** The queue misses no available worker *)

Lemma push_worker_inv w p : pool_inv p → pool_inv (push_worker w p).
Proof.
  intros Hp idx w' Hi Ha; simpl in *. apply elem_of_app.
  apply lookup_app_Some in Hi as [Hi|[Hl Hi]]; [left; by eapply Hp|].
  right. apply list_elem_of_singleton.
  destruct (idx - length (workers p))%nat eqn:E; simplify_eq/=; lia.
Qed.

Lemma replace_worker_inv i w p : pool_inv p → pool_inv (replace_worker i w p).2.
Proof.
  intros Hp. unfold replace_worker. destruct (workers p !! i) as [old|] eqn:E; [|done].
  intros idx w' Hi Ha; simpl in *. apply elem_of_app.
  destruct (decide (idx = i)) as [->|Hn]; [right; set_solver|].
  rewrite list_lookup_insert_ne in Hi by done. left. by eapply Hp.
Qed.

Lemma upd_worker_inv i w p : available w = false → pool_inv p → pool_inv (upd_worker i w p).
Proof.
  intros Hw Hp idx w' Hi Ha; simpl in *.
  destruct (decide (idx = i)) as [->|Hn].
  - apply list_lookup_insert_Some in Hi as [(_ & -> & _)|[? _]]; congruence.
  - rewrite list_lookup_insert_ne in Hi by done. by eapply Hp.
Qed.

Lemma queue_upd_worker_inv i w p : pool_inv p → pool_inv (queue_idle i (upd_worker i w p)).
Proof.
  intros Hp idx w' Hi Ha; simpl in *. apply elem_of_app.
  destruct (decide (idx = i)) as [->|Hn]; [right; set_solver|].
  rewrite list_lookup_insert_ne in Hi by done. left. by eapply Hp.
Qed.

Lemma spawn_push_inv mk max o p : pool_inv p → pool_inv (spawn_push mk max o p).2.
Proof. intros Hp. destruct o as [[[??]?]|]; [by apply push_worker_inv|done]. Qed.

Lemma spawn_replace_inv mk max i o p : pool_inv p → pool_inv (spawn_replace mk max i o p).2.
Proof.
  intros Hp. destruct o as [[[k c] r]|]; [|done]; simpl.
  pose proof (replace_worker_inv i (worker_new (mk k) max c r) p Hp).
  by destruct (replace_worker i _ p).
Qed.

Lemma reap_inv spawn ls os p :
  (∀ i o p, pool_inv p → pool_inv (spawn i o p).2) →
  pool_inv p → pool_inv (reap spawn ls os p).2.
Proof.
  intros Hs Hp. unfold reap. pose proof (reap_scan_workers 0 ls (workers p)) as Hws.
  destruct (reap_scan 0 ls (workers p)) as [dead ws].
  apply spawn_each_ind; [by auto|]. intros idx w Hi Ha; simpl in *.
  rewrite Hws in Hi. destruct (workers p !! idx) as [w0|] eqn:E; simplify_eq/=.
  rewrite scanned_available in Ha by done. by eapply Hp.
Qed.

(** The pop passes over stale entries only. *)
Lemma pop_idle_spec ws q :
  match pop_idle ws q with
  | (Some idx, rest) => ∃ w stale, ws !! idx = Some w ∧ state w = Idle ∧
      q = stale ++ idx :: rest ∧ ∀ i w', i ∈ stale → ws !! i = Some w' → state w' ≠ Idle
  | (None, rest) => rest = [] ∧ ∀ i w', i ∈ q → ws !! i = Some w' → state w' ≠ Idle
  end.
Proof.
  induction q as [|i q IH]; simpl; [set_solver|].
  destruct (ws !! i) as [w|] eqn:E; [case_bool_decide as Hw|].
  1: { exists w, []. set_solver. }
  all: destruct (pop_idle ws q) as [[idx|] rest].
  all: (destruct IH as (w0 & stale & ? & ? & -> & ?); exists w0, (i :: stale)) || destruct IH as [? IH].
  all: split_and?; try done.
  all: intros j w' [->|Hj]%elem_of_cons ?; naive_solver.
Qed.

Lemma get_idle_worker_spec p :
  match get_idle_worker p with
  | (Some idx, p') => ∃ w, workers p !! idx = Some w ∧ state w = Idle ∧
      workers p' = workers p ∧ config p' = config p ∧
      ∀ i w', workers p !! i = Some w' → state w' = Idle → i ∈ idle_queue p → i ≠ idx →
        i ∈ idle_queue p'
  | (None, p') => workers p' = workers p ∧ config p' = config p ∧ idle_queue p' = [] ∧
      ∀ i w', workers p !! i = Some w' → state w' = Idle → i ∉ idle_queue p
  end.
Proof.
  unfold get_idle_worker. pose proof (pop_idle_spec (workers p) (reverse (idle_queue p))) as H.
  destruct (pop_idle _ _) as [[idx|] rest]; simpl.
  - destruct H as (w & stale & ? & ? & Hq & Hst). exists w. split_and!; [done..|].
    intros i w' Hi Hw Hin Hne. apply elem_of_reverse.
    rewrite <- elem_of_reverse, Hq in Hin. set_solver.
  - destruct H as [-> H]. split_and!; [done..|].
    intros i w' Hi Hw Hin%elem_of_reverse. by eapply H.
Qed.

Lemma available_idle w : available w = true → state w = Idle.
Proof. unfold available. case_bool_decide; done. Qed.

Lemma dispatch_inv p : pool_inv p → pool_inv (dispatch p).2.
Proof.
  intros Hp. unfold dispatch. pose proof (get_idle_worker_spec p) as H.
  destruct (get_idle_worker p) as [[idx|] p']; simpl.
  - destruct H as (w & Hw & _ & Hws & _ & Hq). rewrite Hws, Hw.
    intros i w' Hi Ha; simpl in *. rewrite Hws in Hi.
    destruct (decide (i = idx)) as [->|Hn].
    + rewrite list_lookup_insert_eq in Hi by by eapply lookup_lt_Some. by simplify_eq.
    + rewrite list_lookup_insert_ne in Hi by done.
      eapply Hq; [done|by apply available_idle|by eapply Hp|done].
  - destruct H as (Hws & _ & _ & Hq). intros i w' Hi Ha. rewrite Hws in Hi.
    destruct (Hq _ _ Hi (available_idle _ Ha)). by eapply Hp.
Qed.

Lemma return_worker_inv idx p : pool_inv p → pool_inv (return_worker idx p).2.
Proof.
  intros Hp. unfold return_worker. destruct (workers p !! idx) as [w|]; [|done].
  destruct (mark_idle w) as [[] w']; simpl; [by apply upd_worker_inv|by apply queue_upd_worker_inv].
Qed.

Lemma return_worker_persistent_inv idx b o p :
  pool_inv p → pool_inv (return_worker_persistent idx b o p).2.
Proof.
  intros Hp. unfold return_worker_persistent. destruct (workers p !! idx) as [w|]; [|done].
  pose proof (mark_idle_available w) as Hm.
  destruct (mark_idle w) as [[] w']; simpl in *; [|by apply queue_upd_worker_inv].
  assert (∀ w'', available w'' = false →
    pool_inv (respawn_persistent_at idx o (upd_worker idx w'' p)).2) as Hr.
  { intros w'' ?. by apply spawn_replace_inv, upd_worker_inv. }
  destruct b; cbn -[respawn_persistent_at upd_worker].
  - specialize (Hr w' Hm). by destruct (respawn_persistent_at _ _ _) as [[??]?].
  - specialize (Hr (set_state Stopping w') eq_refl).
    by destruct (respawn_persistent_at _ _ _) as [[??]?].
Qed.

Lemma shrink_one_inv p : pool_inv p → pool_inv (shrink_one p).2.
Proof.
  intros Hp. unfold shrink_one.
  destruct (reverse (idle_queue p)) as [|idx rest] eqn:Eq; [done|]; simpl.
  assert (∀ i, i ∈ idle_queue p → i ≠ idx → i ∈ reverse rest) as Hq.
  { intros i Hi%elem_of_reverse ?. rewrite Eq in Hi. apply elem_of_reverse. set_solver. }
  destruct (workers p !! idx) as [w|] eqn:Ew; [case_bool_decide as Hw|]; simpl.
  all: intros i w' Hi Ha; simpl in *.
  1: destruct (decide (i = idx)) as [->|Hn];
    [rewrite list_lookup_insert_eq in Hi by (by eapply lookup_lt_Some); by simplify_eq|].
  1: rewrite list_lookup_insert_ne in Hi by done.
  all: apply Hq; [by eapply Hp|]; try done; intros ->; simplify_eq.
  by apply Hw, available_idle.
Qed.

Lemma claim_reap_inv mode ls os p : pool_inv p → pool_inv (claim_reap mode ls os p).
Proof.
  intros Hp. destruct mode; simpl.
  - apply reap_inv; [intros; by apply spawn_push_inv|done].
  - apply reap_inv; [intros; by apply spawn_replace_inv|done].
Qed.

Lemma claim_worker_inv mode ls os p : pool_inv p → pool_inv (claim_worker mode ls os p).2.
Proof.
  intros Hp%dispatch_inv. unfold claim_worker. destruct (dispatch p) as [[idx|] p']; [done|].
  by apply dispatch_inv, claim_reap_inv.
Qed.

Lemma pool_empty_inv c q : pool_inv {| config := c; workers := []; idle_queue := q |}.
Proof. intros i w Hi; simpl in Hi. by rewrite lookup_nil in Hi. Qed.

Lemma pool_apply_inv p op : pool_inv p → pool_inv (pool_apply p op).
Proof.
  intros Hp. destruct op; simpl; try by apply spawn_push_inv.
  - by apply push_worker_inv.
  - by apply claim_worker_inv.
  - by apply return_worker_inv.
  - by apply return_worker_persistent_inv.
  - apply reap_inv; [intros; by apply spawn_push_inv|done].
  - apply reap_inv; [intros; by apply spawn_replace_inv|done].
  - apply reap_inv; [intros; by apply spawn_replace_inv|done].
  - apply reap_inv; [intros; by apply spawn_replace_inv|done].
  - by apply shrink_one_inv.
  - apply pool_empty_inv.
Qed.

Lemma pool_run_inv ops p : pool_inv p → pool_inv (pool_run ops p).
Proof.
  revert p; induction ops as [|op ops IH]; intros p Hp; simpl; [done|].
  by apply IH, pool_apply_inv.
Qed.

(** *** A request keeps its worker *)

Lemma held_insert (idx i : nat) (w : Worker) (ws : list Worker) :
  i ≠ idx → (∃ w0, ws !! idx = Some w0 ∧ state w0 ≠ Idle) →
  ∃ w0, <[i := w]> ws !! idx = Some w0 ∧ state w0 ≠ Idle.
Proof. intros ? (w0 & ? & ?). exists w0. by rewrite list_lookup_insert_ne. Qed.

Lemma push_worker_held idx w p : held idx p → held idx (push_worker w p).
Proof.
  intros (w0 & ? & ?). exists w0. split; [|done]; simpl.
  rewrite lookup_app_l; [done|by eapply lookup_lt_Some].
Qed.

Lemma replace_worker_held idx i w p :
  i ≠ idx → held idx p → held idx (replace_worker i w p).2.
Proof.
  intros ? Hh. unfold replace_worker. destruct (workers p !! i); [by apply held_insert|done].
Qed.

Lemma spawn_push_held idx mk max o p : held idx p → held idx (spawn_push mk max o p).2.
Proof. intros ?. destruct o as [[[??]?]|]; [by apply push_worker_held|done]. Qed.

Lemma spawn_replace_held idx mk max i o p :
  i ≠ idx → held idx p → held idx (spawn_replace mk max i o p).2.
Proof.
  intros ? Hp. destruct o as [[[k c] r]|]; [|done]; simpl.
  pose proof (replace_worker_held idx i (worker_new (mk k) max c r) p).
  destruct (replace_worker i _ p); naive_solver.
Qed.

Lemma reap_held idx spawn ls os p :
  (∀ i o p, ls !! i ≠ Some StillAlive → held idx p → held idx (spawn i o p).2) →
  held idx p → held idx (reap spawn ls os p).2.
Proof.
  intros Hs (w & Hw & Hi). unfold reap.
  pose proof (reap_scan_workers 0 ls (workers p) idx) as Hws.
  pose proof (λ j, proj1 (reap_scan_dead 0 ls (workers p) j)) as Hd.
  destruct (reap_scan 0 ls (workers p)) as [dead ws]; simpl in *.
  apply spawn_each_ind.
  - intros i o p' (k & l & -> & _ & Hl & ?)%Hd. apply Hs; simpl. congruence.
  - exists (scanned ls idx w); simpl. rewrite Hws, Hw. split; [done|].
    unfold scanned. destruct (ls !! idx) as [l|]; [|done].
    by destruct (is_alive_cases l w) as [[-> _]|(code & -> & _)].
Qed.

Lemma dispatch_held idx p : held idx p → (dispatch p).1 ≠ Some idx ∧ held idx (dispatch p).2.
Proof.
  intros (w & Hw & Hi). unfold dispatch, held. pose proof (get_idle_worker_spec p) as H.
  destruct (get_idle_worker p) as [[i|] p']; simpl.
  - destruct H as (w' & Hw' & ? & Hws & _). rewrite Hws, Hw'; simpl. rewrite Hws.
    assert (i ≠ idx) by congruence. split; [congruence|]. eauto using held_insert.
  - destruct H as (-> & _). eauto.
Qed.

Lemma dispatch_takes idx p : (dispatch p).1 = Some idx → held idx (dispatch p).2.
Proof.
  unfold dispatch, held. pose proof (get_idle_worker_spec p) as H.
  destruct (get_idle_worker p) as [[i|] p']; [|done]; simpl; intros [= ->].
  destruct H as (w & Hw & _ & Hws & _). rewrite Hws, Hw; simpl. exists (mark_busy w).
  rewrite Hws, list_lookup_insert_eq by by eapply lookup_lt_Some. done.
Qed.

Lemma reap_spawn_one_held idx ls os p : held idx p → held idx (reap_and_respawn ls os p).2.
Proof. intros ?. apply reap_held; [intros; by apply spawn_push_held|done]. Qed.

Lemma reap_replace_held idx mk (quota : nat → WorkerPool → Z) ls os p :
  ls !! idx = Some StillAlive →
  held idx p → held idx (reap (λ i o p, spawn_replace mk (quota i p) i o p) ls os p).2.
Proof.
  intros Hl. apply reap_held. intros i o p' Hi. apply spawn_replace_held. congruence.
Qed.

Lemma claim_worker_held idx mode ls os p :
  releases idx (OpClaim mode ls os) = false → held idx p →
  (claim_worker mode ls os p).1 ≠ Some idx ∧ held idx (claim_worker mode ls os p).2.
Proof.
  intros Hr Hp%dispatch_held. unfold claim_worker.
  destruct (dispatch p) as [[i|] p']; [done|]. apply dispatch_held. destruct Hp as [_ Hp].
  destruct mode; simpl in *; [by apply reap_spawn_one_held|].
  apply (reap_replace_held idx Thread quota); [|done]. by destruct (ls !! idx) as [[]|].
Qed.

Lemma return_worker_held idx i p :
  i ≠ idx → held idx p → held idx (return_worker i p).2.
Proof.
  intros ? Hh. unfold return_worker. destruct (workers p !! i) as [w|]; [|done].
  destruct (mark_idle w) as [[] w']; by apply held_insert.
Qed.

Lemma return_worker_persistent_held idx i b o p :
  i ≠ idx → held idx p → held idx (return_worker_persistent i b o p).2.
Proof.
  intros ? Hh. unfold return_worker_persistent. destruct (workers p !! i) as [w|]; [|done].
  destruct (mark_idle w) as [[] w']; [|by apply held_insert].
  assert (∀ w'', held idx (respawn_persistent_at i o (upd_worker i w'' p)).2) as Hr.
  { intros w''. by apply spawn_replace_held, held_insert. }
  destruct b; cbn -[respawn_persistent_at upd_worker].
  - specialize (Hr w'). by destruct (respawn_persistent_at _ _ _) as [[??]?].
  - specialize (Hr (set_state Stopping w')).
    by destruct (respawn_persistent_at _ _ _) as [[??]?].
Qed.

Lemma shrink_one_held idx p : held idx p → held idx (shrink_one p).2.
Proof.
  intros (w & Hw & Hi). unfold shrink_one, held.
  destruct (reverse (idle_queue p)) as [|i rest]; [by eauto|]; simpl.
  destruct (workers p !! i) as [w'|] eqn:Ew; [case_bool_decide as Hb|]; simpl; [|by eauto..].
  apply held_insert; [congruence|by eauto].
Qed.

Lemma pool_apply_held idx p op :
  releases idx op = false → held idx p → held idx (pool_apply p op).
Proof.
  destruct op; simpl; intros Hr Hp; try done; try by apply spawn_push_held.
  - by apply push_worker_held.
  - by apply claim_worker_held.
  - apply return_worker_held; [by apply bool_decide_eq_false in Hr|done].
  - apply return_worker_persistent_held; [by apply bool_decide_eq_false in Hr|done].
  - by apply reap_spawn_one_held.
  - apply (reap_replace_held idx Thread quota); [|done]. by destruct (ls !! idx) as [[]|].
  - apply (reap_replace_held idx Process quota); [|done]. by destruct (ls !! idx) as [[]|].
  - apply (reap_replace_held idx Thread (λ _ p, cfg_max_requests (config p))); [|done].
    by destruct (ls !! idx) as [[]|].
  - by apply shrink_one_held.
Qed.

(** *** Claims on dispatch *)

Lemma dispatch_spec p :
  pool_inv p →
  match dispatch p with
  | (Some idx, p') => ∃ w, workers p !! idx = Some w ∧ state w = Idle ∧
      workers p' = <[idx := mark_busy w]> (workers p)
  | (None, p') => workers p' = workers p ∧ ∀ w, w ∈ workers p → available w = false
  end.
Proof.
  intros Hp. unfold dispatch. pose proof (get_idle_worker_spec p) as H.
  destruct (get_idle_worker p) as [[idx|] p'].
  - destruct H as (w & Hw & Hi & Hws & _). exists w. by rewrite Hws, Hw; simpl; rewrite Hws.
  - destruct H as (Hws & _ & _ & H). split; [done|].
    intros w [i Hi]%list_elem_of_lookup. apply not_true_is_false. intros Ha.
    eapply H; [done|by apply available_idle|by eapply Hp].
Qed.

(** C7: after any history of the pool's operations, a request that gets a worker
    gets an idle one, which becomes busy, and no other changes; the reaper runs
    only when no worker was idle with requests left of its quota, and the
    request is refused only when there is still none after it, whatever stale
    entries the idle queue has gathered. *)
Theorem pool_claim_finds_available c ops mode ls os :
  let p := pool_run ops (pool_new c) in
  let none_available q := ∀ w, w ∈ workers q → available w = false in
  ∃ q, (q = p ∨ none_available p ∧ q = claim_reap mode ls os (dispatch p).2) ∧
    match claim_worker mode ls os p with
    | (Some idx, p') => ∃ w, workers q !! idx = Some w ∧ state w = Idle ∧
        workers p' = <[idx := mark_busy w]> (workers q)
    | (None, p') => workers p' = workers q ∧ none_available p ∧ none_available q
    end.
Proof.
  intros p na. assert (Hp : pool_inv p) by by apply pool_run_inv, pool_empty_inv.
  pose proof (dispatch_spec p Hp) as Hd. pose proof (dispatch_inv p Hp) as Hi.
  unfold claim_worker. destruct (dispatch p) as [[idx|] p'].
  - exists p. auto.
  - destruct Hd as [Hw Hna]. exists (claim_reap mode ls os p'). split; [by right|].
    pose proof (dispatch_spec _ (claim_reap_inv mode ls os _ Hi)) as Hd.
    destruct (dispatch (claim_reap _ _ _ _)) as [[idx|] p'']; naive_solver.
Qed.

(** C6: a worker given to a request is not given to another one before it is
    returned, is replaced after its death, or the pool is shut down: whatever
    the pool does in between, no claim yields it. *)
Theorem pool_claim_exclusive c before ops mode ls os idx mode' ls' os' :
  let p := pool_run before (pool_new c) in
  (claim_worker mode ls os p).1 = Some idx →
  forallb (λ op, negb (releases idx op)) (OpClaim mode' ls' os' :: ops) = true →
  (claim_worker mode' ls' os' (pool_run ops (claim_worker mode ls os p).2)).1 ≠ Some idx.
Proof.
  intros p Hd [Hc Hops]%andb_true_iff. apply claim_worker_held; [by apply negb_true_iff|].
  assert (Hh : held idx (claim_worker mode ls os p).2).
  { revert Hd. unfold claim_worker.
    destruct (dispatch p) as [[i|] p'] eqn:Ed; [|apply dispatch_takes].
    intros Hi. pose proof (dispatch_takes idx p) as Ht. rewrite Ed in Ht. auto. }
  clearbody p. generalize dependent (claim_worker mode ls os p).2. clear Hd.
  induction ops as [|op ops IH]; intros q Hq; simpl in *; [done|].
  apply andb_true_iff in Hops as [Hop Hops]. apply IH; [done|].
  apply pool_apply_held; [by apply negb_true_iff|done].
Qed.

(** *** The reaper *)

(** A loop of respawns in place that all succeed. *)
Lemma spawn_each_replace spawn (mk : nat → Z * Z * Z → WorkerPool → Worker) ids os p :
  (∀ i o p, ∃ eff, spawn i (Ok o) p = (Ok tt, eff, (replace_worker i (mk i o p) p).2)) →
  (∀ i o p, available (mk i o p) = true) →
  Forall (λ i, is_Some (workers p !! i)) ids →
  (length ids ≤ length os)%nat →
  ∃ eff p', spawn_each spawn ids (Ok <$> os) p = (Ok tt, eff, p') ∧
    length (workers p') = length (workers p) ∧
    idle_queue p' = idle_queue p ++ ids ∧
    ∀ i w, workers p !! i = Some w →
      ∃ w', workers p' !! i = Some w' ∧ (i ∉ ids ∧ w' = w ∨ i ∈ ids ∧ available w' = true).
Proof.
  intros Hsp Hmk. revert os p; induction ids as [|j ids IH]; intros os p Hv Hl.
  { exists [], p. split_and!; [by destruct os|done|by rewrite app_nil_r|]. intros i w ->. exists w. set_solver. }
  destruct os as [|o os]; simpl in Hl; [lia|]. rewrite fmap_cons; cbn [spawn_each].
  inversion Hv as [|?? [old Hj] Hv']; subst.
  destruct (Hsp j o p) as [eff ->]. set (p1 := (replace_worker j (mk j o p) p).2).
  assert (workers p1 = <[j := mk j o p]> (workers p)) as Hw1
    by (unfold p1, replace_worker; by rewrite Hj).
  assert (idle_queue p1 = idle_queue p ++ [j]) as Hq1
    by (unfold p1, replace_worker; by rewrite Hj).
  destruct (IH os p1) as (eff' & p' & -> & Hlen & Hq & Hlk); [|lia|].
  { rewrite Hw1. eapply Forall_impl; [done|]. intros i [w Hi]. apply lookup_lt_is_Some.
    rewrite length_insert. by eapply lookup_lt_Some. }
  eexists _, p'. split_and!; [done|by rewrite Hlen, Hw1, length_insert|
    by rewrite Hq, Hq1, <- app_assoc|].
  intros i w Hi. destruct (decide (i = j)) as [->|Hn].
  - destruct (Hlk j (mk j o p)) as (w' & ? & H).
    { rewrite Hw1. apply list_lookup_insert_eq. by eapply lookup_lt_Some. }
    exists w'. split; [done|]. right. split; [set_solver|]. destruct H as [[_ ->]|[_ ?]]; auto.
  - destruct (Hlk i w) as (w' & ? & H); [by rewrite Hw1, list_lookup_insert_ne|].
    exists w'. split; [done|]. set_solver.
Qed.

Lemma reap_replaces spawn mk ls os p :
  (∀ i o p, ∃ eff, spawn i (Ok o) p = (Ok tt, eff, (replace_worker i (mk i o p) p).2)) →
  (∀ i o p, available (mk i o p) = true) →
  length ls = length (workers p) → (length ls ≤ length os)%nat →
  ∃ eff p', reap spawn ls (Ok <$> os) p = (Ok tt, eff, p') ∧
    length (workers p') = length (workers p) ∧
    ∀ i w, workers p !! i = Some w →
      if decide (ls !! i = Some StillAlive) then workers p' !! i = Some w
      else i ∈ idle_queue p' ∧ ∃ w', workers p' !! i = Some w' ∧ available w' = true.
Proof.
  intros Hsp Hmk Hl Ho. unfold reap.
  pose proof (reap_scan_workers 0 ls (workers p)) as Hws.
  pose proof (reap_scan_dead 0 ls (workers p)) as Hd.
  pose proof (reap_scan_lengths 0 ls (workers p)) as [Hdl Hwl].
  destruct (reap_scan 0 ls (workers p)) as [dead ws]; simpl in *.
  destruct (spawn_each_replace spawn mk dead os
    {| config := config p; workers := ws; idle_queue := idle_queue p |})
    as (eff & p' & -> & Hlen & Hq & Hlk); [done..| |lia|]; simpl in *.
  { apply Forall_forall. intros i (k & l & -> & [w Hk] & _)%Hd. rewrite Hws, Hk. by eexists. }
  exists eff, p'. split_and!; [done|congruence|]. intros i w Hi.
  destruct (Hlk i (scanned ls i w)) as (w' & Hw' & Hc); [by rewrite Hws, Hi|].
  destruct (lookup_lt_is_Some_2 ls i) as [l Hll]; [rewrite Hl; by eapply lookup_lt_Some|].
  assert (i ∈ dead ↔ l ≠ StillAlive) as Hdi.
  { rewrite Hd. split; [by intros (k & l' & -> & _ & ? & ?); simplify_eq/=|].
    intros ?. exists i, l. by rewrite Hi. }
  unfold scanned in Hc. rewrite Hll in *. case_decide as Hdec.
  - simplify_eq. destruct Hc as [[_ ->]|[? _]]; [|naive_solver].
    by destruct (is_alive_cases StillAlive w) as [[Hal _]|(? & _ & ?)]; [rewrite Hal in Hw'|].
  - rewrite Hq. destruct Hc as [[? _]|[? ?]]; [naive_solver|]. set_solver.
Qed.

(** A loop of spawns that all succeed. *)
Lemma spawn_each_push ids os p :
  (length ids ≤ length os)%nat →
  ∃ news, workers (spawn_each spawn_one ids (Ok <$> os) p).2 = workers p ++ news ∧
    length news = length ids ∧ filter (λ w, exited w) news = [].
Proof.
  revert os p; induction ids as [|j ids IH]; intros os p Hl.
  { exists []. by rewrite app_nil_r; destruct os. }
  destruct os as [|[[k c] r] os]; simpl in Hl; [lia|]. rewrite fmap_cons; cbn [spawn_each].
  change (spawn_one j (Ok (k, c, r)) p) with
    (@Ok unit WorkerError tt, @nil effect, push_worker (worker_new (Process k) (quota j p) c r) p).
  cbn iota beta.
  destruct (IH os (push_worker (worker_new (Process k) (quota j p) c r) p)) as (news & Hn & Hln & Hf); [lia|].
  destruct (spawn_each _ _ _ _) as [[??]?]; simpl in *. eexists. rewrite Hn, <- app_assoc.
  split_and!; [done|simpl; lia|]. rewrite filter_app, Hf. done.
Qed.

Lemma quiet_scan idx ws :
  let '(dead, ws') := reap_scan idx (quiet_liveness <$> ws) ws in
  length dead = length (filter (λ w, exited w) ws) ∧ length ws' = length ws ∧
  length (filter (λ w, exited w) ws') = length (filter (λ w, exited w) ws).
Proof.
  revert idx; induction ws as [|w ws IH]; intros idx; [done|].
  rewrite fmap_cons; cbn [reap_scan]. specialize (IH (S idx)).
  destruct (reap_scan (S idx) _ ws) as [dead ws']. destruct IH as (Hd & Hl & Hf).
  unfold quiet_liveness. rewrite filter_cons.
  destruct (is_alive_cases (if exited w then WaitFailed else StillAlive) w)
    as [[-> He]|(code & -> & He)]; destruct (exited w) eqn:Ew; try done.
  - rewrite filter_cons, Ew. simpl. auto.
  - rewrite filter_cons. simpl. auto.
Qed.

Lemma quiet_reap_counts o p :
  worker_count (quiet_reap o p) =
    (worker_count p + length (filter (λ w, exited w) (workers p)))%nat ∧
  length (filter (λ w, exited w) (workers (quiet_reap o p))) =
    length (filter (λ w, exited w) (workers p)).
Proof.
  unfold worker_count, quiet_reap, reap_and_respawn, reap.
  pose proof (quiet_scan 0 (workers p)) as H.
  pose proof (reap_scan_lengths 0 (quiet_liveness <$> workers p) (workers p)) as [Hr _].
  destruct (reap_scan 0 _ (workers p)) as [dead ws]. destruct H as (Hd & Hl & Hf).
  rewrite length_fmap in Hr; simpl in Hr.
  replace (replicate (worker_count p) (Ok o)) with
    (@Ok _ WorkerError <$> replicate (worker_count p) o) by apply fmap_replicate.
  destruct (spawn_each_push dead (replicate (worker_count p) o)
    {| config := config p; workers := ws; idle_queue := idle_queue p |}) as (news & -> & Hn & Hfn).
  { by rewrite length_replicate. }
  simpl. rewrite length_app, filter_app, Hfn, app_nil_r. lia.
Qed.

(** *** Claims on the reaper *)

(** when its spawns succeed, the persistent reaper replaces exactly the
    workers found dead: the pool keeps its size, a live worker stays as it was,
    and each dead one's place has a new worker that can be dispatched. *)
Theorem persistent_reap_replaces_dead ls os p :
  length ls = length (workers p) → (length ls ≤ length os)%nat →
  ∃ eff p', reap_and_respawn_persistent ls (Ok <$> os) p = (Ok tt, eff, p') ∧
    worker_count p' = worker_count p ∧
    ∀ i w, workers p !! i = Some w →
      if decide (ls !! i = Some StillAlive) then workers p' !! i = Some w
      else i ∈ idle_queue p' ∧ ∃ w', workers p' !! i = Some w' ∧ available w' = true.
Proof.
  apply (reap_replaces _ (λ i o p, worker_new (Process o.1.1) (quota i p) o.1.2 o.2)).
  - intros i [[k c] r] p'; simpl. destruct (replace_worker _ _ _). by eexists.
  - intros. apply worker_new_available.
Qed.

Lemma persistent_reap_replaces_dead_witness :
  ∃ eff p', reap_and_respawn_persistent [StillAlive; Signaled]
      (Ok <$> [(12, 9, 10); (13, 11, 12)])
      {| config := (default_pool_config 2);
         workers := [worker_new (Process 10) 8000 5 6; worker_new (Process 11) 10000 7 8];
         idle_queue := [0; 1]%nat |} = (Ok tt, eff, p') ∧
    worker_count p' = 2%nat.
Proof.
  destruct (persistent_reap_replaces_dead [StillAlive; Signaled]
    [(12, 9, 10); (13, 11, 12)]
    {| config := (default_pool_config 2);
       workers := [worker_new (Process 10) 8000 5 6; worker_new (Process 11) 10000 7 8];
       idle_queue := [0; 1]%nat |}) as (eff & p' & He & Hc & _);
    [reflexivity|simpl; lia|].
  exists eff, p'. split; [exact He|rewrite Hc; reflexivity].
Defined.

(** The reaper of process mode does not replace dead workers but adds to
    them: they stay in the pool and are found dead again, so that each pass adds
    as many workers as have ever died, even when none died since the last. *)
Theorem process_reap_accumulates o n p :
  worker_count (Nat.iter n (quiet_reap o) p) =
  (worker_count p + n * length (filter (λ w, exited w) (workers p)))%nat.
Proof.
  enough (worker_count (Nat.iter n (quiet_reap o) p) =
    (worker_count p + n * length (filter (λ w, exited w) (workers p)))%nat ∧
    length (filter (λ w, exited w) (workers (Nat.iter n (quiet_reap o) p))) =
    length (filter (λ w, exited w) (workers p))) by tauto.
  induction n as [|n [IH1 IH2]]; [split; simpl; lia|].
  rewrite !Nat.iter_succ.
  destruct (quiet_reap_counts o (Nat.iter n (quiet_reap o) p)) as [-> ->].
  rewrite IH1, IH2. lia.
Qed.

Lemma pool_claim_exclusive_witness :
  (claim_worker ModeProcess [StillAlive; StillAlive] []
    (pool_run [OpReturn 1; OpReap [StillAlive; StillAlive] []; OpClaim ModeProcess [] []]
      (claim_worker ModeProcess [] []
        (pool_run [OpSpawn 0 (Ok (10, 5, 6)); OpSpawn 1 (Ok (11, 7, 8)); OpClaim ModeProcess [] []]
          (pool_new (default_pool_config 2)))).2)).1 ≠ Some 0%nat.
Proof.
  apply (pool_claim_exclusive (default_pool_config 2)
    [OpSpawn 0 (Ok (10, 5, 6)); OpSpawn 1 (Ok (11, 7, 8)); OpClaim ModeProcess [] []]
    [OpReturn 1; OpReap [StillAlive; StillAlive] []; OpClaim ModeProcess [] []]
    ModeProcess [] [] 0 ModeProcess); vm_compute; reflexivity.
Defined.
