(* ===== verification/ThreadDispatch.v ===== *)
(** * Dispatch without the pool lock (turbine-core/src/main.rs)

    [ThreadDispatch] hands out worker slots by a counting semaphore and a queue
    of slot numbers, and [IdleGuard] gives them back. The functions are what one
    caller sees; the relation has the steps of many requests and of the
    background reaper between two accesses to shared state. *)

From S2P Require Import Prelude F64 WorkerPool.

(** The channel ends [request_txs] and [response_rxs] only carry messages to the
    worker of a slot and are left out. *)
Record ThreadDispatch := {
  idle_sem : nat;
  td_queue : list nat;
  td_fds : list (Z * Z);
  td_pids : list Z;
  requests_served : list Z;
  unhealthy : list bool;
  max_requests_per_worker : Z }.

Definition set_idle (permits : nat) (q : list nat) (d : ThreadDispatch) : ThreadDispatch :=
  {| idle_sem := permits; td_queue := q; td_fds := td_fds d; td_pids := td_pids d;
     requests_served := requests_served d; unhealthy := unhealthy d;
     max_requests_per_worker := max_requests_per_worker d |}.

Definition set_health (served : list Z) (bad : list bool) (d : ThreadDispatch) : ThreadDispatch :=
  {| idle_sem := idle_sem d; td_queue := td_queue d; td_fds := td_fds d; td_pids := td_pids d;
     requests_served := served; unhealthy := bad;
     max_requests_per_worker := max_requests_per_worker d |}.

Definition set_fds (fds : list (Z * Z)) (pids : list Z) (d : ThreadDispatch) : ThreadDispatch :=
  {| idle_sem := idle_sem d; td_queue := td_queue d; td_fds := fds; td_pids := pids;
     requests_served := requests_served d; unhealthy := unhealthy d;
     max_requests_per_worker := max_requests_per_worker d |}.

Definition td_new (fds : list (Z * Z)) (pids : list Z) : ThreadDispatch :=
  let count := length fds in
  {| idle_sem := count; td_queue := seq 0 count; td_fds := fds; td_pids := resize count 0 pids;
     requests_served := replicate count 0; unhealthy := replicate count false;
     max_requests_per_worker := 0 |}.

(** Channel workers: every slot is queued, whether its ready message came or
    not. *)
Definition spawn_channel_workers (count : nat) : ThreadDispatch :=
  {| idle_sem := count; td_queue := seq 0 count; td_fds := []; td_pids := [];
     requests_served := replicate count 0; unhealthy := replicate count false;
     max_requests_per_worker := 0 |}.

Definition set_max_requests (max : Z) (d : ThreadDispatch) : ThreadDispatch :=
  {| idle_sem := idle_sem d; td_queue := td_queue d; td_fds := td_fds d; td_pids := td_pids d;
     requests_served := requests_served d; unhealthy := unhealthy d;
     max_requests_per_worker := max |}.

(** The updates of a slot out of range do nothing. *)
Definition mark_unhealthy (idx : nat) (d : ThreadDispatch) : ThreadDispatch :=
  set_health (requests_served d) (<[idx := true]> (unhealthy d)) d.

Definition mark_healthy (idx : nat) (d : ThreadDispatch) : ThreadDispatch :=
  set_health (<[idx := 0]> (requests_served d)) (<[idx := false]> (unhealthy d)) d.

Definition served (d : ThreadDispatch) (idx : nat) : Z := default 0 (requests_served d !! idx).

Definition is_unhealthy (d : ThreadDispatch) (idx : nat) : bool :=
  default false (unhealthy d !! idx).

Definition record_served (idx : nat) (d : ThreadDispatch) : ThreadDispatch :=
  set_health (<[idx := wrap_u 64 (served d idx + 1)]> (requests_served d)) (unhealthy d) d.

Definition quota_for (d : ThreadDispatch) (idx : nat) : Z :=
  staggered_max_requests (max_requests_per_worker d) idx (length (unhealthy d)).

Definition is_pickable (d : ThreadDispatch) (idx : nat) : bool :=
  (idx <? length (unhealthy d))%nat && negb (is_unhealthy d idx) &&
  negb ((0 <? quota_for d idx) && (quota_for d idx <=? served d idx)).

Definition over_quota_indices (d : ThreadDispatch) : list nat :=
  if max_requests_per_worker d =? 0 then []
  else
    filter (λ idx, is_unhealthy d idx = false ∧ 0 < quota_for d idx ≤ served d idx)
      (seq 0 (length (requests_served d))).

Definition max_skips (d : ThreadDispatch) : nat := (length (unhealthy d) `max` 1) * 2.

(** The pops of [get_idle] when nobody interferes: without a permit it waits
    and times out; [n] slots may still be skipped. *)
Fixpoint get_idle_loop (n : nat) (d : ThreadDispatch) : option nat * ThreadDispatch :=
  match n with
  | O => (None, d)
  | S n' =>
      match idle_sem d with
      | O => (None, d)
      | S permits =>
          match reverse (td_queue d) with
          | [] => (None, set_idle (S permits) [] d)
          | idx :: rest =>
              let d := set_idle permits (reverse rest) d in
              if is_pickable d idx then (Some idx, d) else get_idle_loop n' d
          end
      end
  end.

Definition get_idle (d : ThreadDispatch) : option nat * ThreadDispatch :=
  get_idle_loop (max_skips d) d.

Definition return_idle (idx : nat) (d : ThreadDispatch) : ThreadDispatch :=
  set_idle (S (idle_sem d)) (td_queue d ++ [idx]) d.

(** Out of range this panics. *)
Definition fds (d : ThreadDispatch) (idx : nat) : option (Z * Z) := td_fds d !! idx.

Definition td_pid (d : ThreadDispatch) (idx : nat) : Z := default 0 (td_pids d !! idx).

Definition update_fds (idx : nat) (cmd_fd resp_fd : Z) (d : ThreadDispatch) : ThreadDispatch :=
  set_fds (<[idx := (cmd_fd, resp_fd)]> (td_fds d)) (td_pids d) d.

(** *** [refresh_fds] *)

(** The slots to bring back: those that were unhealthy or over their quota. *)
Definition revived (prev_len new_len : nat) (d : ThreadDispatch) : list nat :=
  filter (λ i, (i < prev_len)%nat ∧
               (is_unhealthy d i = true ∨
                0 < max_requests_per_worker d ∧ quota_for d i ≤ served d i))
    (seq 0 (new_len `min` length (unhealthy d))).

(** The flags and the counters of the known slots are reset. *)
Definition reset_health (n : nat) (d : ThreadDispatch) : ThreadDispatch :=
  set_health (replicate (n `min` length (requests_served d)) 0 ++ drop n (requests_served d))
    (replicate (n `min` length (unhealthy d)) false ++ drop n (unhealthy d)) d.

Definition requeue (q : list nat) (idx : nat) : list nat :=
  if bool_decide (idx ∈ q) then q else q ++ [idx].

Definition revive (rs : list nat) (d : ThreadDispatch) : ThreadDispatch :=
  set_idle (idle_sem d + length rs) (foldl requeue (td_queue d) rs) d.

(** Slots beyond the old ones. [None]: the subtraction underflows, when the new
    list is longer than the old one and that longer than the health flags. *)
Definition grow (prev_len new_len : nat) (d : ThreadDispatch) : option ThreadDispatch :=
  if (prev_len <? new_len)%nat then
    let cap := (new_len `min` length (unhealthy d))%nat in
    if (cap <? prev_len)%nat then None
    else
      let growable := (cap - prev_len)%nat in
      Some (set_idle (idle_sem d + growable) (td_queue d ++ seq prev_len growable) d)
  else Some d.

Definition refresh_fds (new_fds : list (Z * Z)) (new_pids : list Z) (d : ThreadDispatch)
    : option ThreadDispatch :=
  let prev_len := length (td_fds d) in
  let new_len := length new_fds in
  let rs := revived prev_len new_len d in
  let d := set_fds new_fds (resize new_len 0 new_pids) d in
  grow prev_len new_len (revive rs (reset_health new_len d)).

(** ** A pass of the background reaper *)

(** Workers over their quota are marked and told to stop. *)
Definition retire (persistent : bool) (p : WorkerPool) (acc : list effect * ThreadDispatch)
    (idx : nat) : list effect * ThreadDispatch :=
  (acc.1 ++ match workers p !! idx with
            | Some w => if persistent then [WriteFd (cmd_fd w) [xff]] else send_shutdown w
            | None => []
            end,
   mark_unhealthy idx acc.2).

(** [None] in place of the dispatch: the refresh panics. *)
Definition reaper_pass (persistent : bool) (mode : WorkerMode) (ls : list liveness)
    (os : list spawned) (p : WorkerPool) (d : ThreadDispatch)
    : list effect * WorkerPool * option ThreadDispatch :=
  let '(eff, d) := foldl (retire persistent p) ([], d) (over_quota_indices d) in
  let reap :=
    match persistent, mode with
    | true, ModeThread => reap_and_respawn_persistent_threaded
    | true, ModeProcess => reap_and_respawn_persistent
    | false, ModeThread => reap_and_respawn_threaded
    | false, ModeProcess => reap_and_respawn
    end in
  let '(_, eff', p) := reap ls os p in
  (eff ++ eff', p, refresh_fds (worker_fds p) (worker_pids p) d).

(** ** The guard of a claimed slot *)

Record IdleGuard := {
  g_idx : option nat;
  poison_on_drop : option Z;
  poison_pid : Z;
  completed : bool }.

Definition guard_new (idx : nat) : IdleGuard :=
  {| g_idx := Some idx; poison_on_drop := None; poison_pid := 0; completed := false |}.

Definition arm_poison (cmd_fd pid : Z) (g : IdleGuard) : IdleGuard :=
  {| g_idx := g_idx g; poison_on_drop := Some cmd_fd; poison_pid := pid;
     completed := completed g |}.

Definition mark_completed (g : IdleGuard) : IdleGuard :=
  {| g_idx := g_idx g; poison_on_drop := poison_on_drop g; poison_pid := poison_pid g;
     completed := true |}.

Definition defuse (g : IdleGuard) : IdleGuard :=
  {| g_idx := None; poison_on_drop := poison_on_drop g; poison_pid := poison_pid g;
     completed := completed g |}.

(** Whether dropping the guard retires the worker, and what it then asks of the
    system. *)
Definition poisoned (g : IdleGuard) : bool :=
  match poison_on_drop g with Some _ => negb (completed g) | None => false end.

Definition poison_effects (g : IdleGuard) : list effect :=
  match poison_on_drop g with
  | Some cmd_fd =>
      WriteFd cmd_fd [xff] :: (if 0 <? poison_pid g then [SigKill (poison_pid g)] else [])
  | None => []
  end.

Definition drop_guard (g : IdleGuard) (d : ThreadDispatch) : list effect * ThreadDispatch :=
  match g_idx g with
  | None => ([], d)
  | Some idx =>
      if poisoned g then (poison_effects g, mark_unhealthy idx d) else ([], return_idle idx d)
  end.

(** ** Many requests and the reaper *)

(** Where a request is: waiting for a permit, with a permit before the pop,
    about to give the permit back after an empty pop, with a popped slot before
    the check, with a claimed slot, after its return to the queue but before the
    permit, done. *)
Inductive td_pc :=
| TAcquire (skipped : nat)
| TPop (skipped : nat)
| TRestore
| TCheck (skipped idx : nat)
| THeld (g : IdleGuard)
| TReturning
| TDone.

(** Where [refresh_fds] is: not running, past the reset of the health flags
    with the slots to revive, past the queue with the permits to add. *)
Inductive reaper_pc := RIdle | RReset (rs : list nat) | RQueued (count : nat).

(** [dropped]: the slots that were taken out of circulation. *)
Record td_state := {
  disp : ThreadDispatch;
  requests : list td_pc;
  reaper : reaper_pc;
  dropped : list nat }.

Definition mv (i : nat) (pc : td_pc) (d : ThreadDispatch) (s : td_state) : td_state :=
  {| disp := d; requests := <[i := pc]> (requests s); reaper := reaper s; dropped := dropped s |}.

Definition mv_drop (i : nat) (pc : td_pc) (idx : nat) (d : ThreadDispatch) (s : td_state)
    : td_state :=
  {| disp := d; requests := <[i := pc]> (requests s); reaper := reaper s;
     dropped := idx :: dropped s |}.

Definition mv_reaper (r : reaper_pc) (d : ThreadDispatch) (lost : list nat) (s : td_state)
    : td_state :=
  {| disp := d; requests := requests s; reaper := r; dropped := lost |}.

(** [get_idle], what the request handlers do with the slot, the drop of the
    guard, and the reaper. The reaper revives the slots it found unhealthy or
    over their quota; the step asks that these are the slots that were dropped,
    and that no worker is added meanwhile. *)
Inductive td_step : td_state → td_state → Prop :=
| step_start s i :
    requests s !! i = Some TDone → td_step s (mv i (TAcquire 0) (disp s) s)
| step_acquire s i k permits :
    requests s !! i = Some (TAcquire k) → idle_sem (disp s) = S permits →
    td_step s (mv i (TPop k) (set_idle permits (td_queue (disp s)) (disp s)) s)
| step_timeout s i k :
    requests s !! i = Some (TAcquire k) → td_step s (mv i TDone (disp s) s)
| step_pop s i k idx q :
    requests s !! i = Some (TPop k) → td_queue (disp s) = q ++ [idx] →
    td_step s (mv i (TCheck k idx) (set_idle (idle_sem (disp s)) q (disp s)) s)
| step_pop_empty s i k :
    requests s !! i = Some (TPop k) → td_queue (disp s) = [] →
    td_step s (mv i TRestore (disp s) s)
| step_restore s i :
    requests s !! i = Some TRestore →
    td_step s (mv i TDone (set_idle (S (idle_sem (disp s))) (td_queue (disp s)) (disp s)) s)
| step_pick s i k idx :
    requests s !! i = Some (TCheck k idx) → is_pickable (disp s) idx = true →
    td_step s (mv i (THeld (guard_new idx)) (disp s) s)
| step_skip s i k idx :
    requests s !! i = Some (TCheck k idx) → is_pickable (disp s) idx = false →
    td_step s
      (mv_drop i (if (max_skips (disp s) <=? S k)%nat then TDone else TAcquire (S k)) idx (disp s) s)
| step_arm s i g idx cmd_fd resp_fd :
    requests s !! i = Some (THeld g) → g_idx g = Some idx →
    fds (disp s) idx = Some (cmd_fd, resp_fd) →
    td_step s (mv i (THeld (arm_poison cmd_fd (td_pid (disp s) idx) g)) (disp s) s)
| step_fail s i g idx :
    requests s !! i = Some (THeld g) → g_idx g = Some idx →
    td_step s (mv i (THeld g) (mark_unhealthy idx (disp s)) s)
| step_served s i g idx :
    requests s !! i = Some (THeld g) → g_idx g = Some idx →
    td_step s (mv i (THeld g) (record_served idx (disp s)) s)
| step_completed s i g :
    requests s !! i = Some (THeld g) → td_step s (mv i (THeld (mark_completed g)) (disp s) s)
| step_drop s i g idx :
    requests s !! i = Some (THeld g) → g_idx g = Some idx → poisoned g = false →
    td_step s
      (mv i TReturning (set_idle (idle_sem (disp s)) (td_queue (disp s) ++ [idx]) (disp s)) s)
| step_return s i :
    requests s !! i = Some TReturning →
    td_step s (mv i TDone (set_idle (S (idle_sem (disp s))) (td_queue (disp s)) (disp s)) s)
| step_poison s i g idx :
    requests s !! i = Some (THeld g) → g_idx g = Some idx → poisoned g = true →
    td_step s (mv_drop i TDone idx (mark_unhealthy idx (disp s)) s)
| step_recycle s idx :
    idx ∈ over_quota_indices (disp s) →
    td_step s (mv_reaper (reaper s) (mark_unhealthy idx (disp s)) (dropped s) s)
| step_reset s new_fds new_pids :
    let n := length new_fds in
    let rs := revived (length (td_fds (disp s))) n (disp s) in
    reaper s = RIdle → n = length (td_fds (disp s)) → rs ⊆ dropped s →
    td_step s
      (mv_reaper (RReset rs) (reset_health n (set_fds new_fds (resize n 0 new_pids) (disp s)))
         (dropped s) s)
| step_requeue s rs :
    reaper s = RReset rs →
    td_step s
      (mv_reaper (RQueued (length rs))
         (set_idle (idle_sem (disp s)) (foldl requeue (td_queue (disp s)) rs) (disp s))
         (filter (λ i, i ∉ rs) (dropped s)) s)
| step_permits s count :
    reaper s = RQueued count →
    td_step s
      (mv_reaper RIdle (set_idle (idle_sem (disp s) + count) (td_queue (disp s)) (disp s))
         (dropped s) s).

(** All slots idle, any number of requests to come. *)
Definition td_init (new_fds : list (Z * Z)) (pids : list Z) (max : Z) (n : nat) : td_state :=
  {| disp := set_max_requests max (td_new new_fds pids); requests := replicate n TDone;
     reaper := RIdle; dropped := [] |}.

(** The slot a request has. *)
Definition slot_of (pc : td_pc) : option nat :=
  match pc with TCheck _ idx => Some idx | THeld g => g_idx g | _ => None end.

(** Whether a request stands for a permit that the semaphore does not count. *)
Definition in_flight (pc : td_pc) : bool :=
  match pc with TPop _ | TRestore | TReturning => true | _ => false end.

Definition owed (r : reaper_pc) : nat := match r with RQueued n => n | _ => 0 end.

(** Every slot is in exactly one place, and permits and queue entries match. *)
Record td_inv (n : nat) (s : td_state) : Prop := {
  inv_slots : td_queue (disp s) ++ omap slot_of (requests s) ++ dropped s ≡ₚ seq 0 n;
  inv_permits : (idle_sem (disp s) + length (filter (λ pc, in_flight pc = true) (requests s)) +
                 owed (reaper s) = length (td_queue (disp s)))%nat;
  inv_restore : TRestore ∉ requests s;
  inv_reaper : ∀ rs, reaper s = RReset rs → NoDup rs ∧ rs ⊆ dropped s }.

(** ** Lemmas *)

Lemma requests_split (i : nat) (pc : td_pc) (ts : list td_pc) :
  ts !! i = Some pc → ∃ k, ts ≡ₚ pc :: k ∧ ∀ pc', <[i := pc']> ts ≡ₚ pc' :: k.
Proof.
  intros Hi. exists (delete i ts). split; [by apply delete_Permutation|]. intros pc'.
  assert (<[i := pc']> ts !! i = Some pc') as Hi'
    by (apply list_lookup_insert_eq; by eapply lookup_lt_Some).
  rewrite (delete_Permutation _ _ _ Hi'). f_equiv.
  by rewrite !delete_take_drop, take_insert_ge, drop_insert_lt by lia.
Qed.

Lemma omap_cons_option {A B} (f : A → option B) (x : A) (l : list A) :
  omap f (x :: l) = option_list (f x) ++ omap f l.
Proof. simpl. by destruct (f x). Qed.

Lemma in_flight_cons pc k :
  length (filter (λ pc, in_flight pc = true) (pc :: k)) =
  (Nat.b2n (in_flight pc) + length (filter (λ pc, in_flight pc = true) k))%nat.
Proof. rewrite filter_cons. destruct (in_flight pc); simpl; by rewrite ?decide_True, ?decide_False. Qed.

(** A step of one request: it may move its slot between the queue, itself and
    the dropped slots, and must account for the permits. *)
Lemma td_inv_move n s i pc pc' d lost :
  td_inv n s → requests s !! i = Some pc → pc' ≠ TRestore →
  td_queue d ++ option_list (slot_of pc') ++ lost
    ≡ₚ td_queue (disp s) ++ option_list (slot_of pc) ++ dropped s →
  (idle_sem d + Nat.b2n (in_flight pc') + length (td_queue (disp s)) =
   idle_sem (disp s) + Nat.b2n (in_flight pc) + length (td_queue d))%nat →
  dropped s ⊆ lost →
  td_inv n {| disp := d; requests := <[i := pc']> (requests s); reaper := reaper s;
              dropped := lost |}.
Proof.
  intros [Hs Hp Hr Hre] Hi Hpc Hslots Hperm Hsub.
  destruct (requests_split i pc _ Hi) as (k & Hk & Hk'). specialize (Hk' pc').
  split; simpl.
  - rewrite Hk', omap_cons_option. rewrite Hk, omap_cons_option in Hs. rewrite <- Hs.
    rewrite <- !app_assoc. rewrite (Permutation_app_comm (omap slot_of k) lost).
    rewrite (Permutation_app_comm (omap slot_of k) (dropped s)).
    rewrite !(app_assoc _ _ (omap slot_of k)). rewrite !(app_assoc (td_queue _)).
    rewrite <- !app_assoc, !(app_assoc _ _ (omap slot_of k)). f_equiv. by rewrite Hslots.
  - rewrite Hk', in_flight_cons. rewrite Hk, in_flight_cons in Hp. lia.
  - rewrite Hk'. rewrite Hk in Hr. set_solver.
  - intros rs Hrs. destruct (Hre rs Hrs). split; [done|set_solver].
Qed.

(** Requeued slots that are out of the queue all come in. *)
Lemma requeue_fresh rs q :
  NoDup rs → (∀ i, i ∈ rs → i ∉ q) → foldl requeue q rs = q ++ rs.
Proof.
  revert q. induction rs as [|i rs IH]; intros q Hnd Hq; simpl; [by rewrite app_nil_r|].
  apply NoDup_cons in Hnd as [Hi Hnd]. unfold requeue at 2.
  rewrite bool_decide_eq_false_2 by set_solver. rewrite IH; [by rewrite <- app_assoc|done|set_solver].
Qed.

Lemma td_inv_disjoint n s :
  td_inv n s →
  NoDup (dropped s) ∧ NoDup (omap slot_of (requests s)) ∧
  ∀ idx, idx ∈ dropped s → idx ∉ td_queue (disp s).
Proof.
  intros [Hs _ _ _]. pose proof (NoDup_seq 0 n) as Hnd. rewrite <- Hs in Hnd.
  apply NoDup_app in Hnd as (_ & Hq & (Ho & _ & Hd)%NoDup_app). set_solver.
Qed.

Lemma revived_NoDup a b d : NoDup (revived a b d).
Proof. apply NoDup_filter, NoDup_seq. Qed.

Lemma remove_dropped (rs lost : list nat) :
  NoDup rs → NoDup lost → rs ⊆ lost → rs ++ filter (λ i, i ∉ rs) lost ≡ₚ lost.
Proof.
  intros Hr Hl Hsub. apply NoDup_Permutation; [|done|].
  - apply NoDup_app. split_and!; [done| |by apply NoDup_filter].
    intros i ? [? _]%list_elem_of_filter. done.
  - intros i. rewrite elem_of_app, list_elem_of_filter.
    destruct (decide (i ∈ rs)); set_solver.
Qed.

Lemma td_step_inv n s s' : td_step s s' → td_inv n s → td_inv n s'.
Proof.
  intros Hstep Hinv. pose proof Hinv as [Hs Hp Hr Hre].
  destruct Hstep as
    [s i Hi|s i k permits Hi Hsem|s i k Hi|s i k idx q Hi Hq|s i k Hi Hq|s i Hi|s i k idx Hi _
    |s i k idx Hi _|s i g idx cmd resp Hi Hg _|s i g idx Hi Hg|s i g idx Hi Hg|s i g Hi
    |s i g idx Hi Hg _|s i Hi|s i g idx Hi Hg _|s idx _|s new_fds new_pids m rs Hrp _ Hrs
    |s rs Hrp|s count Hrp].
  - eapply td_inv_move; [done..|simpl; lia|done].
  - eapply td_inv_move; [done..|simpl; lia|done].
  - eapply td_inv_move; [done..|simpl; lia|done].
  - eapply td_inv_move; [done|done|done| |rewrite Hq; simpl; rewrite length_app; simpl; lia|done].
    simpl. by rewrite Hq, <- app_assoc.
  - exfalso. destruct (requests_split i _ _ Hi) as (k' & Hk & _).
    rewrite Hk, in_flight_cons, Hq in Hp. simpl in Hp. lia.
  - destruct Hr. by eapply list_elem_of_lookup_2.
  - eapply td_inv_move; [done..|simpl; lia|done].
  - eapply td_inv_move; [done|done|by case_match| | |set_solver];
      destruct (max_skips (disp s) <=? S k)%nat; simpl; done || lia.
  - eapply td_inv_move; [done|done|done| |simpl; lia|done]. simpl. done.
  - eapply td_inv_move; [done..|simpl; lia|done].
  - eapply td_inv_move; [done..|simpl; lia|done].
  - eapply td_inv_move; [done|done|done| |simpl; lia|done]. simpl. done.
  - eapply td_inv_move; [done|done|done| |simpl; rewrite length_app; simpl; lia|done].
    simpl. by rewrite Hg, <- app_assoc.
  - eapply td_inv_move; [done..|simpl; lia|done].
  - eapply td_inv_move; [done|done|done| |simpl; lia|set_solver]. simpl. by rewrite Hg.
  - by split.
  - split; simpl; [done| |done|]; [rewrite Hrp in Hp; simpl in Hp; lia|].
    intros rs' [= <-]. split; [apply revived_NoDup|done].
  - destruct (Hre rs Hrp) as [Hnd Hsub]. destruct (td_inv_disjoint n s Hinv) as (Hdn & _ & Hdq).
    rewrite Hrp in Hp. split; simpl; [| |done|done].
    + rewrite requeue_fresh by set_solver. rewrite <- Hs.
      rewrite <- (remove_dropped rs (dropped s)) at 2 by done.
      rewrite <- !app_assoc. f_equiv. by rewrite Permutation_app_swap_app.
    + rewrite requeue_fresh by set_solver. rewrite length_app. simpl in Hp. lia.
  - split; simpl; [done| |done|done]. rewrite Hrp in Hp. simpl in Hp. lia.
Qed.

Lemma td_init_inv new_fds pids max n : td_inv (length new_fds) (td_init new_fds pids max n).
Proof.
  split; simpl.
  - assert (omap slot_of (replicate n TDone) = []) as -> by (induction n; [done|by simpl]).
    by rewrite !app_nil_r.
  - rewrite length_seq. assert (filter (λ pc, in_flight pc = true) (replicate n TDone) = []) as ->
      by (induction n; [done|by rewrite replicate_S, filter_cons]). simpl. lia.
  - intros [? _]%elem_of_replicate. done.
  - done.
Qed.

Lemma held_slots_inj (ts : list td_pc) (i j idx : nat) pc pc' :
  NoDup (omap slot_of ts) → ts !! i = Some pc → ts !! j = Some pc' →
  slot_of pc = Some idx → slot_of pc' = Some idx → i = j.
Proof.
  revert i j. induction ts as [|x ts IH]; intros i j Hnd Hi Hj Hs Hs'; [done|].
  rewrite omap_cons_option in Hnd. apply NoDup_app in Hnd as (_ & Hx & Hnd).
  assert (∀ m pc0, ts !! m = Some pc0 → slot_of pc0 = Some idx → idx ∈ omap slot_of ts) as Hin.
  { intros m pc0 Hm Hs0. apply list_elem_of_omap. exists pc0. split; [|done].
    by eapply list_elem_of_lookup_2. }
  destruct i as [|i], j as [|j]; simplify_eq/=.
  - done.
  - destruct (Hx idx); [by rewrite Hs; left|by eapply Hin].
  - destruct (Hx idx); [by rewrite Hs'; left|by eapply Hin].
  - f_equal. by eapply IH.
Qed.

(** *** One caller *)

Lemma is_pickable_set_idle permits q d : is_pickable (set_idle permits q d) = is_pickable d.
Proof. done. Qed.

Lemma get_idle_loop_spec n d :
  idle_sem d = length (td_queue d) → (length (td_queue d) < n)%nat →
  match get_idle_loop n d with
  | (Some idx, d') => is_pickable d idx = true ∧ ∃ q stale,
      td_queue d = q ++ idx :: stale ∧ Forall (λ i, is_pickable d i = false) stale ∧
      d' = set_idle (length q) q d
  | (None, d') => Forall (λ i, is_pickable d i = false) (td_queue d) ∧ td_queue d' = []
  end.
Proof.
  revert d. induction n as [|n IH]; intros d Hsem Hn; [lia|]. simpl. rewrite Hsem.
  destruct (td_queue d) as [|x q' _] eqn:Eq using rev_ind; [done|].
  rewrite length_app. simpl. rewrite Nat.add_1_r. rewrite reverse_snoc, reverse_involutive.
  rewrite is_pickable_set_idle. rewrite length_app in Hn. simpl in Hn.
  destruct (is_pickable d x) eqn:Ex.
  - split; [done|]. exists q', []. split_and!; done.
  - specialize (IH (set_idle (length q') q' d) eq_refl). simpl in IH.
    destruct (get_idle_loop n (set_idle (length q') q' d)) as [[idx|] d'].
    + destruct IH as (Hpk & q & stale & -> & Hst & ->); [lia|]. split; [done|].
      exists q, (stale ++ [x]). rewrite <- app_assoc. split_and!; [done| |done].
      apply Forall_app. split; [done|]. by constructor.
    + destruct IH as [Hall ->]; [lia|]. split; [|done]. apply Forall_app.
      split; [done|by constructor].
Qed.

(** *** The refresh *)

Lemma filter_snoc_notin (q rs : list nat) (i : nat) :
  i ∉ rs → filter (λ j, j ∈ q ++ [i]) rs = filter (λ j, j ∈ q) rs.
Proof.
  induction rs as [|j rs IH]; intros Hi; [done|]. rewrite !filter_cons, IH by set_solver.
  destruct (decide (j ∈ q ++ [i])), (decide (j ∈ q)); set_solver.
Qed.

Lemma foldl_requeue_length rs q :
  NoDup rs →
  (length (foldl requeue q rs) + length (filter (λ i, i ∈ q) rs) = length q + length rs)%nat.
Proof.
  revert q. induction rs as [|i rs IH]; intros q Hnd; simpl; [lia|].
  apply NoDup_cons in Hnd as [Hi Hnd]. unfold requeue at 2. rewrite filter_cons.
  case_bool_decide as Hq.
  - rewrite decide_True by done. simpl. specialize (IH q Hnd). lia.
  - rewrite decide_False by done. specialize (IH (q ++ [i]) Hnd). rewrite length_app in IH.
    simpl in IH.
    rewrite filter_snoc_notin in IH by done. lia.
Qed.

Lemma foldl_requeue_elem rs q i : i ∈ foldl requeue q rs ↔ i ∈ q ∨ i ∈ rs.
Proof.
  revert q. induction rs as [|j rs IH]; intros q; simpl; [set_solver|].
  rewrite IH. unfold requeue. case_bool_decide; set_solver.
Qed.

Lemma fresh_pickable d i :
  (i < length (unhealthy d))%nat → is_unhealthy d i = false → served d i = 0 →
  is_pickable d i = true.
Proof.
  intros Hi Hu Hs. unfold is_pickable. rewrite Hu, Hs. apply Nat.ltb_lt in Hi as ->. simpl.
  destruct (Z.ltb_spec 0 (quota_for d i)); simpl; [|done]. apply negb_true_iff, Z.leb_gt. lia.
Qed.

Lemma reset_lookup {A} (x : A) (n : nat) (l : list A) (i : nat) :
  (i < n)%nat → default x ((replicate (n `min` length l) x ++ drop n l) !! i) = x.
Proof.
  intros Hi. destruct (decide (i < length l)%nat).
  - rewrite lookup_app_l by (rewrite length_replicate; lia).
    rewrite lookup_replicate_2 by lia. done.
  - rewrite drop_ge, app_nil_r by lia. rewrite lookup_ge_None_2; [done|].
    rewrite length_replicate. lia.
Qed.

Lemma reset_length {A} (x : A) (n : nat) (l : list A) :
  length (replicate (n `min` length l) x ++ drop n l) = length l.
Proof. rewrite length_app, length_replicate, length_drop. lia. Qed.

Lemma reset_served n d i : (i < n)%nat → served (reset_health n d) i = 0.
Proof. intros. by apply reset_lookup. Qed.

Lemma reset_is_unhealthy n d i : (i < n)%nat → is_unhealthy (reset_health n d) i = false.
Proof. intros. by apply (reset_lookup false). Qed.

Lemma reset_quota n d i : quota_for (reset_health n d) i = quota_for d i.
Proof. unfold quota_for. simpl. by rewrite reset_length. Qed.

Lemma reset_pickable n d i :
  (i < n)%nat → (i < length (unhealthy d))%nat → is_pickable (reset_health n d) i = true.
Proof.
  intros Hn Hi. apply fresh_pickable; [|by apply reset_is_unhealthy|by apply reset_served].
  simpl. by rewrite reset_length.
Qed.

Lemma elem_of_revived a b d i :
  i ∈ revived a b d → (i < a)%nat ∧ (i < b)%nat ∧ (i < length (unhealthy d))%nat.
Proof. intros [[? _] ?%elem_of_seq]%list_elem_of_filter. lia. Qed.

(** What growing changes. *)
Lemma grow_spec a b d d' :
  grow a b d = Some d' →
  ∃ k, d' = set_idle (idle_sem d + k) (td_queue d ++ seq a k) d.
Proof.
  unfold grow. repeat case_match; intros; simplify_eq; [by eexists|].
  exists 0%nat. rewrite Nat.add_0_r, app_nil_r. by destruct d'.
Qed.

(** A tick of the reaper between which a worker serves [k] requests and nobody
    else does anything. *)
Definition reaper_tick (idx k : nat) (d : ThreadDispatch) : ThreadDispatch :=
  default d (refresh_fds (td_fds d) (td_pids d) (Nat.iter k (record_served idx) d)).

(** A pass in process mode in which no further worker dies and every spawn
    succeeds. *)
Definition quiet_pass (o : Z * Z * Z) (p : WorkerPool) (d : ThreadDispatch)
    : WorkerPool * option ThreadDispatch :=
  let '(_, p', d') :=
    reaper_pass false ModeProcess (quiet_liveness <$> workers p)
      (replicate (worker_count p) (Ok o)) p d in (p', d').

Lemma retire_all_lengths persistent p idxs eff d :
  let d' := (foldl (retire persistent p) (eff, d) idxs).2 in
  length (unhealthy d') = length (unhealthy d) ∧ td_fds d' = td_fds d.
Proof.
  revert eff d. induction idxs as [|i idxs IH]; intros eff d; [done|]. simpl.
  destruct (IH (eff ++ match workers p !! i with
    | Some w => if persistent then [WriteFd (cmd_fd w) [xff]] else send_shutdown w
    | None => [] end) (mark_unhealthy i d)) as [H1 H2].
  unfold retire at 2 4; simpl. rewrite H1, H2. simpl. by rewrite length_insert.
Qed.

Lemma quiet_pass_spec o p d :
  let p' := quiet_reap o p in
  (quiet_pass o p d).1 = p' ∧
  ∃ d1, length (unhealthy d1) = length (unhealthy d) ∧
    (quiet_pass o p d).2 = grow (length (td_fds d)) (worker_count p') d1 ∧
    td_fds d1 = worker_fds p'.
Proof.
  unfold quiet_pass, reaper_pass, quiet_reap.
  pose proof (retire_all_lengths false p (over_quota_indices d) [] d) as [Hu Hf].
  destruct (foldl (retire false p) ([], d) (over_quota_indices d)) as [eff d0]; simpl in *.
  destruct (reap_and_respawn _ _ p) as [[r eff'] p']; simpl. split; [done|].
  unfold refresh_fds. rewrite Hf.
  assert (length (worker_fds p') = worker_count p') as Hl by apply length_fmap. rewrite Hl.
  eexists. split_and!; [|done|done]. simpl. by rewrite reset_length.
Qed.

(** The slots that [k] requests claim one after the other. *)
Fixpoint claims (k : nat) (d : ThreadDispatch) : list (option nat) :=
  match k with
  | O => []
  | S k' => let '(r, d) := get_idle d in r :: claims k' d
  end.

Lemma claims_pickable k d :
  idle_sem d = length (td_queue d) → (k ≤ length (td_queue d))%nat →
  Forall (λ i, is_pickable d i = true) (td_queue d) →
  claims k d = Some <$> take k (reverse (td_queue d)).
Proof.
  revert d. induction k as [|k IH]; intros d Hs Hk Hp; [done|]. cbn [claims].
  destruct (td_queue d) as [|x q _] eqn:Eq using rev_ind; [simpl in Hk; lia|].
  rewrite length_app in Hk, Hs. simpl in Hk, Hs. rewrite Nat.add_1_r in Hs.
  apply Forall_app in Hp as [Hp [Hx _]%Forall_cons].
  assert (get_idle d = (Some x, set_idle (length q) q d)) as ->.
  { unfold get_idle, max_skips. destruct (length (unhealthy d) `max` 1 * 2)%nat eqn:E; [lia|].
    simpl. by rewrite Hs, Eq, reverse_snoc, reverse_involutive, is_pickable_set_idle, Hx. }
  rewrite reverse_snoc. simpl. f_equal. apply IH; simpl; [done|lia|done].
Qed.

(** Slot [idx] is in use, healthy and fresh. *)
Definition tracked (idx : nat) (d : ThreadDispatch) : Prop :=
  length (td_fds d) = length (unhealthy d) ∧ (idx < length (unhealthy d))%nat ∧
  is_unhealthy d idx = false ∧ served d idx = 0.

Lemma record_served_iter idx k d :
  0 ≤ served d idx →
  let d' := Nat.iter k (record_served idx) d in
  0 ≤ served d' idx ≤ served d idx + Z.of_nat k ∧ unhealthy d' = unhealthy d ∧
  td_fds d' = td_fds d ∧ max_requests_per_worker d' = max_requests_per_worker d.
Proof.
  intros H0. induction k as [|k (IH & Hu & Hf & Hm)]; [simpl; split_and!; (done || lia)|].
  rewrite Nat.iter_succ. set (d1 := Nat.iter k (record_served idx) d) in *.
  split; [|by simpl].
  assert (0 ≤ served (record_served idx d1) idx ≤ served d1 idx + 1); [|lia].
  unfold record_served, served at 1 3; simpl.
  destruct (decide (idx < length (requests_served d1))%nat) as [Hl|Hl].
  - rewrite list_lookup_insert_eq by done. simpl. unfold wrap_u.
    pose proof (Z.mod_pos_bound (served d1 idx + 1) (2 ^ 64) ltac:(lia)).
    pose proof (Z.mod_le (served d1 idx + 1) (2 ^ 64) ltac:(lia) ltac:(lia)). lia.
  - rewrite list_insert_ge by lia. fold (served d1 idx). lia.
Qed.

Lemma reaper_tick_tracked idx k d :
  tracked idx d →
  tracked idx (reaper_tick idx k d) ∧ quota_for (reaper_tick idx k d) idx = quota_for d idx.
Proof.
  intros (Hf & Hi & Hu & Hs). unfold reaper_tick, refresh_fds.
  destruct (record_served_iter idx k d) as (_ & Hu' & Hf' & Hm'); [lia|].
  set (d1 := Nat.iter k (record_served idx) d) in *. rewrite Hf'. unfold grow.
  rewrite Nat.ltb_irrefl. simpl. unfold tracked, quota_for; simpl. rewrite reset_length, Hu', Hm'.
  split_and!; [done|done| | |done].
  - apply (reset_lookup false). lia.
  - apply (reset_lookup 0). lia.
Qed.

Lemma reaper_ticks_tracked idx k d m :
  tracked idx d →
  tracked idx (Nat.iter m (reaper_tick idx k) d) ∧
  quota_for (Nat.iter m (reaper_tick idx k) d) idx = quota_for d idx.
Proof.
  intros Hd. induction m as [|m [IH1 IH2]]; [done|]. rewrite Nat.iter_succ.
  destruct (reaper_tick_tracked idx k _ IH1) as [? ->]. done.
Qed.

Lemma served_below_quota idx k d :
  tracked idx d → Z.of_nat k < quota_for d idx →
  let d' := Nat.iter k (record_served idx) d in
  idx ∉ over_quota_indices d' ∧ is_pickable d' idx = true.
Proof.
  intros (_ & Hi & Hu & Hs) Hk d'.
  destruct (record_served_iter idx k d) as (Hs' & Hu' & _ & Hm'); [lia|]. fold d' in Hs', Hu', Hm'.
  assert (quota_for d' idx = quota_for d idx) as Hq by (unfold quota_for; by rewrite Hu', Hm').
  split.
  - unfold over_quota_indices. case_match; [set_solver|].
    intros [(_ & ?) _]%list_elem_of_filter. lia.
  - unfold is_pickable. rewrite Hq. unfold is_unhealthy. rewrite Hu'. fold (is_unhealthy d idx).
    rewrite Hu. apply Nat.ltb_lt in Hi as ->. simpl.
    destruct (Z.ltb_spec 0 (quota_for d idx)); simpl; [|done]. apply negb_true_iff, Z.leb_gt. lia.
Qed.

(** ** Properties *)



(** [get_idle] is LIFO with health filtering: when permits and queue match
    and no more slots are queued than there are, it returns the most recently queued slot
    that is healthy and within its quota and drops the ones queued after it; it
    returns nothing only when no queued slot qualifies, and its limit on skips
    never gets in the way. *)
Theorem get_idle_most_recent_pickable (d : ThreadDispatch) :
  idle_sem d = length (td_queue d) → (length (td_queue d) ≤ length (unhealthy d))%nat →
  match get_idle d with
  | (Some idx, d') => is_pickable d idx = true ∧ ∃ q stale,
      td_queue d = q ++ idx :: stale ∧ Forall (λ i, is_pickable d i = false) stale ∧
      d' = set_idle (length q) q d
  | (None, d') => Forall (λ i, is_pickable d i = false) (td_queue d) ∧ td_queue d' = []
  end.
Proof.
  intros Hsem Hlen. apply get_idle_loop_spec; [done|]. unfold max_skips. lia.
Qed.

Lemma get_idle_most_recent_pickable_witness :
  let d := mark_unhealthy 1 (td_new [(5, 6); (7, 8)] [41; 42]) in
  get_idle d = (Some 0%nat, set_idle 0 [] d) ∧ is_pickable d 0 = true.
Proof.
  intros d. split; [vm_compute; reflexivity|].
  exact (proj1 (get_idle_most_recent_pickable d eq_refl (le_n 2))).
Defined.

(** A refresh brings back every slot that was unhealthy or over its quota:
    it is queued once and can be picked. The permits added match the entries
    added except for the slots that were still in the queue: each of these
    leaves one permit too many, and so a later request that gets it finds the
    queue empty and is refused at once. *)
Theorem refresh_accounting (new_fds : list (Z * Z)) (new_pids : list Z) (d d' : ThreadDispatch) :
  refresh_fds new_fds new_pids d = Some d' →
  let rs := revived (length (td_fds d)) (length new_fds) d in
  (idle_sem d' + length (td_queue d) =
   idle_sem d + length (td_queue d') + length (filter (λ i, i ∈ td_queue d) rs))%nat ∧
  ∀ idx, idx ∈ rs → idx ∈ td_queue d' ∧ is_pickable d' idx = true.
Proof.
  intros H rs. unfold refresh_fds in H. apply grow_spec in H as [k ->]. fold rs. simpl.
  pose proof (foldl_requeue_length rs (td_queue d) (revived_NoDup _ _ _)) as Hl.
  rewrite length_app, length_seq. split; [lia|].
  intros idx Hidx. split; [apply elem_of_app; left; by apply foldl_requeue_elem; right|].
  rewrite is_pickable_set_idle. apply elem_of_revived in Hidx as (_ & ? & ?).
  unfold revive. rewrite is_pickable_set_idle. by apply reset_pickable.
Qed.

Lemma refresh_accounting_witness :
  let d := mark_unhealthy 1 (td_new [(5, 6); (7, 8)] [41; 42]) in
  ∃ d', refresh_fds [(5, 6); (9, 10)] [41; 43] d = Some d' ∧
    idle_sem d' = 3%nat ∧ td_queue d' = [0; 1]%nat ∧
    (idle_sem d' + 2 = 2 + length (td_queue d') + 1)%nat.
Proof.
  intros d. eexists. split; [reflexivity|]. split; [reflexivity|]. split; [reflexivity|].
  exact (proj1 (refresh_accounting [(5, 6); (9, 10)] [41; 43] d _ eq_refl)).
Defined.

(** The quota of a worker counts only the requests between two passes of the
    reaper, because each refresh resets the counters of all workers, replaced or
    not: a worker that serves fewer requests than its quota per pass is never
    recycled, however many it has served in all. *)
Theorem quota_counts_one_pass (d : ThreadDispatch) (idx k : nat) (m : nat) :
  tracked idx d → Z.of_nat k < quota_for d idx →
  let d' := Nat.iter k (record_served idx) (Nat.iter m (reaper_tick idx k) d) in
  idx ∉ over_quota_indices d' ∧ is_pickable d' idx = true.
Proof.
  intros Hd Hk. destruct (reaper_ticks_tracked idx k d m Hd) as [Ht Hq].
  apply served_below_quota; [done|by rewrite Hq].
Qed.

Lemma quota_counts_one_pass_witness :
  let d := set_max_requests 10 (td_new [(5, 6); (7, 8)] [41; 42]) in
  let d' := Nat.iter 5 (record_served 0) (Nat.iter 1000 (reaper_tick 0 5) d) in
  0%nat ∉ over_quota_indices d' ∧ is_pickable d' 0 = true.
Proof.
  intros d. apply (quota_counts_one_pass d 0 5 1000).
  - repeat split; simpl; lia.
  - vm_compute. reflexivity.
Defined.

(** In process mode one dead worker stops the reaper for good. The pass that
    finds it appends a worker beyond the slots the dispatch was made for, and
    the next pass, which appends another for the same dead worker, panics in the
    refresh of the dispatch: the number of usable new slots underflows. *)
Theorem process_reaper_panics (o : Z * Z * Z) (p : WorkerPool) (d : ThreadDispatch) :
  length (unhealthy d) = worker_count p → td_fds d = worker_fds p →
  filter (λ w, exited w) (workers p) ≠ [] →
  ∃ d1, (quiet_pass o p d).2 = Some d1 ∧ (quiet_pass o (quiet_pass o p d).1 d1).2 = None.
Proof.
  intros Hu Hf He.
  assert (∀ q, length (worker_fds q) = worker_count q) as Hl by (intros; apply length_fmap).
  assert (0 < length (filter (λ w, exited w) (workers p)))%nat as Hpos
    by (destruct (filter _ _); [done|simpl; lia]).
  destruct (quiet_pass_spec o p d) as (-> & d1 & Hu1 & Hg & Hf1).
  destruct (quiet_reap_counts o p) as [Hc He1]. set (p1 := quiet_reap o p) in *.
  assert ((quiet_pass o p d).2 = Some (set_idle (idle_sem d1 + 0) (td_queue d1 ++ []) d1)) as Hg1.
  { rewrite Hg, Hf, Hl. unfold grow. rewrite Hu1, Hu, Hc.
    assert ((worker_count p <? worker_count p + length (filter (λ w, exited w) (workers p)))%nat = true)
      as -> by (apply Nat.ltb_lt; lia).
    rewrite Nat.min_r by lia. rewrite Nat.ltb_irrefl, Nat.sub_diag. done. }
  eexists. split; [exact Hg1|].
  destruct (quiet_pass_spec o p1 (set_idle (idle_sem d1 + 0) (td_queue d1 ++ []) d1))
    as (_ & d2 & Hu2 & -> & _). simpl in *. rewrite Hf1, Hl.
  destruct (quiet_reap_counts o p1) as [-> _]. unfold grow. rewrite Hu2, Hu1, Hu, He1, Hc.
  set (k := length (filter (λ w, exited w) (workers p))) in *.
  assert ((worker_count p + k <? worker_count p + k + k)%nat = true) as -> by (apply Nat.ltb_lt; lia).
  rewrite Nat.min_r by lia.
  by assert ((worker_count p <? worker_count p + k)%nat = true) as -> by (apply Nat.ltb_lt; lia).
Qed.

Lemma process_reaper_panics_witness :
  let p := {| config := default_pool_config 2;
              workers := [worker_new (Process 10) 8000 5 6;
                          set_state (Exited 1) (worker_new (Process 11) 10000 7 8)];
              idle_queue := [0; 1]%nat |} in
  let d := td_new (worker_fds p) (worker_pids p) in
  ∃ d1, (quiet_pass (12, 9, 10) p d).2 = Some d1 ∧
        (quiet_pass (12, 9, 10) (quiet_pass (12, 9, 10) p d).1 d1).2 = None.
Proof.
  intros p d. apply (process_reaper_panics (12, 9, 10) p d); [reflexivity|reflexivity|discriminate].
Defined.

(** In thread mode the first pass of the reaper queues every slot a second
    time: the dispatch of channel workers has no descriptors, so the refresh
    takes all workers of the pool for new ones. The pool of [n] idle workers
    then hands out [2 n] claims, each worker to two requests at once. *)
Theorem channel_slots_duplicated (p : WorkerPool) (max : Z) :
  let n := worker_count p in
  let d := set_max_requests max (spawn_channel_workers n) in
  ∃ d', refresh_fds (worker_fds p) (worker_pids p) d = Some d' ∧
    claims (n + n) d' = Some <$> (reverse (seq 0 n) ++ reverse (seq 0 n)).
Proof.
  intros n d. assert (length (worker_fds p) = n) as Hl by apply length_fmap.
  unfold refresh_fds. rewrite Hl. change (length (td_fds d)) with 0%nat.
  assert (revived 0 n d = []) as ->.
  { destruct (revived 0 n d) as [|i rs] eqn:E; [done|].
    destruct (elem_of_revived 0 n d i) as [? _]; [rewrite E; by left|lia]. }
  set (d1 := revive [] _).
  assert (length (unhealthy d1) = n) as Hu.
  { unfold d1; simpl. by rewrite reset_length, length_replicate. }
  assert (grow 0 n d1 = Some (set_idle (n + n) (seq 0 n ++ seq 0 n) d1)) as ->.
  { assert (idle_sem d1 = n ∧ td_queue d1 = seq 0 n) as [Hs Hq] by (split; [simpl; lia|done]).
    unfold grow. rewrite Hu, Nat.min_id, Hs, Hq. destruct n; [done|].
    by rewrite Nat.sub_0_r. }
  eexists. split; [done|]. rewrite claims_pickable.
  - cbn [td_queue set_idle]. by rewrite reverse_app, take_ge
      by (rewrite length_app, !length_reverse, !length_seq; lia).
  - simpl. by rewrite length_app, length_seq.
  - simpl. by rewrite length_app, length_seq.
  - apply Forall_forall. intros i Hi. rewrite is_pickable_set_idle.
    assert (i < n)%nat by (simpl in Hi; rewrite elem_of_app, elem_of_seq in Hi; lia).
    apply fresh_pickable; [by rewrite Hu|by apply reset_is_unhealthy|by apply reset_served].
Qed.
