(* ===== verification/BehaviourGuard.v ===== *)
(** * Per-client limits (turbine-security/src/behaviour_guard.rs)

    A profile per client address: a window of requests and errors, attempts of
    SQL injection, and a block with a deadline. Times are nanoseconds since the
    start of the guard. Each call is one step here; the code makes it of atomic
    accesses to one profile. *)

From S2P Require Import Prelude F64.

(** Why a request is refused; the code formats these into messages. *)
Inductive block_reason :=
| TemporarilyBlocked
| RateLimit (rps : f64) (max : Z)
| Scanning (error_rate : f64) (requests : Z)
| SqlCached
| SqlPattern (matched : bytes)
| Obfuscation (matched : bytes)
| CodePattern (matched : bytes).

Inductive Verdict := Allow | Block (reason : block_reason).

Definition is_blocked (v : Verdict) : bool := match v with Block _ => true | Allow => false end.

Record BehaviourConfig := {
  max_rps : Z;
  sqli_block_threshold : Z;
  scanning_error_rate : f64;
  scanning_min_requests : Z;
  window_seconds : Z }.

(** 0.5 is exact in binary. *)
Definition default_behaviour : BehaviourConfig :=
  {| max_rps := 0; sqli_block_threshold := 3;
     scanning_error_rate := f64_div (f64_of_Z 1) (f64_of_Z 2);
     scanning_min_requests := 20; window_seconds := 60 |}.

Record IpProfile := {
  request_count : Z;
  error_count : Z;
  sqli_attempts : Z;
  window_start_ns : Z;
  blocked : bool;
  block_until_ns : Z }.

Definition profile_new (now : Z) : IpProfile :=
  {| request_count := 0; error_count := 0; sqli_attempts := 0; window_start_ns := now;
     blocked := false; block_until_ns := 0 |}.

(** [saturating_add], [saturating_sub] and [saturating_mul] of [u64] *)
Definition sat_add (a b : Z) : Z := Z.min (a + b) (2 ^ 64 - 1).
Definition sat_sub (a b : Z) : Z := Z.max (a - b) 0.
Definition sat_mul (a b : Z) : Z := Z.min (a * b) (2 ^ 64 - 1).

Definition set_block (b : bool) (until : Z) (p : IpProfile) : IpProfile :=
  {| request_count := request_count p; error_count := error_count p;
     sqli_attempts := sqli_attempts p; window_start_ns := window_start_ns p; blocked := b;
     block_until_ns := until |}.

Definition set_sqli (n : Z) (p : IpProfile) : IpProfile :=
  {| request_count := request_count p; error_count := error_count p; sqli_attempts := n;
     window_start_ns := window_start_ns p; blocked := blocked p;
     block_until_ns := block_until_ns p |}.

Definition set_requests (n : Z) (p : IpProfile) : IpProfile :=
  {| request_count := n; error_count := error_count p; sqli_attempts := sqli_attempts p;
     window_start_ns := window_start_ns p; blocked := blocked p;
     block_until_ns := block_until_ns p |}.

Definition set_errors (n : Z) (p : IpProfile) : IpProfile :=
  {| request_count := request_count p; error_count := n; sqli_attempts := sqli_attempts p;
     window_start_ns := window_start_ns p; blocked := blocked p;
     block_until_ns := block_until_ns p |}.

Definition set_window (start : Z) (p : IpProfile) : IpProfile :=
  {| request_count := request_count p; error_count := error_count p;
     sqli_attempts := sqli_attempts p; window_start_ns := start; blocked := blocked p;
     block_until_ns := block_until_ns p |}.

(** ** The evaluation of a request *)

(** Step 1: the window. *)
Definition rollover (c : BehaviourConfig) (now : Z) (p : IpProfile) : IpProfile :=
  let window := sat_mul (window_seconds c) 1000000000 in
  if (0 <? window) && (window <? sat_sub now (window_start_ns p)) then
    let p := set_errors 0 (set_requests 0 (set_window now p)) in
    let until := block_until_ns p in
    if negb (until =? 0) && (until <=? now) then set_sqli 0 (set_block false 0 p) else p
  else p.

(** Step 3: the rate. *)
Definition rate_exceeded (c : BehaviourConfig) (now count : Z) (p : IpProfile) : option f64 :=
  if (0 <? max_rps c) && (10 <? count) then
    let elapsed_ns := Z.max (sat_sub now (window_start_ns p)) 1000000 in
    let rps := f64_div (f64_of_Z count)
                 (f64_div (f64_of_Z elapsed_ns) (f64_of_Z 1000000000)) in
    if f64_gtb rps (f64_of_Z (max_rps c)) then Some rps else None
  else None.

(** Step 4: scanning. *)
Definition scanning (c : BehaviourConfig) (count : Z) (p : IpProfile) : option f64 :=
  if scanning_min_requests c <=? count then
    let error_rate := f64_div (f64_of_Z (error_count p)) (f64_of_Z count) in
    if f64_gtb error_rate (scanning_error_rate c) then Some error_rate else None
  else None.

Definition evaluate (c : BehaviourConfig) (now : Z) (p : IpProfile) : Verdict * IpProfile :=
  let p := rollover c now p in
  if blocked p && negb (block_until_ns p =? 0) && (now <? block_until_ns p) then
    (Block TemporarilyBlocked, p)
  else
    let p := if blocked p then set_block false 0 p else p in
    let count := wrap_u 32 (request_count p + 1) in
    let p := set_requests count p in
    match rate_exceeded c now count p with
    | Some rps => (Block (RateLimit rps (max_rps c)), p)
    | None =>
        match scanning c count p with
        | Some error_rate =>
            (Block (Scanning error_rate count), set_block true (sat_add now (300 * 1000000000)) p)
        | None => (Allow, p)
        end
    end.

(** ** The guard *)

Section guard.
Context {ip : Type} `{Countable ip}.

Record BehaviourGuard := {
  bg_config : BehaviourConfig;
  profiles : gmap ip IpProfile;
  total_blocked : Z;
  max_profiles : Z }.

Definition behaviour_new (c : BehaviourConfig) : BehaviourGuard :=
  {| bg_config := c; profiles := ∅; total_blocked := 0; max_profiles := 100000 |}.

Definition set_profile (a : ip) (p : IpProfile) (n : Z) (g : BehaviourGuard) : BehaviourGuard :=
  {| bg_config := bg_config g; profiles := <[a := p]> (profiles g);
     total_blocked := wrap_u 64 (total_blocked g + n); max_profiles := max_profiles g |}.

(** The map is full and does not have the address. *)
Definition untracked (a : ip) (g : BehaviourGuard) : bool :=
  (max_profiles g <=? Z.of_nat (size (profiles g))) && bool_decide (profiles g !! a = None).

Definition profile_of (a : ip) (now : Z) (g : BehaviourGuard) : IpProfile :=
  default (profile_new now) (profiles g !! a).

Definition check_request (a : ip) (now : Z) (g : BehaviourGuard) : Verdict * BehaviourGuard :=
  if untracked a g then (Allow, g)
  else
    let '(v, p) := evaluate (bg_config g) now (profile_of a now g) in
    (v, set_profile a p (if is_blocked v then 1 else 0) g).

Definition record_request (a : ip) (was_error : bool) (g : BehaviourGuard) : BehaviourGuard :=
  if negb was_error then g
  else
    match profiles g !! a with
    | Some p => set_profile a (set_errors (wrap_u 32 (error_count p + 1)) p) 0 g
    | None => g
    end.

Definition record_sqli_attempt (a : ip) (now : Z) (g : BehaviourGuard) : BehaviourGuard :=
  if untracked a g then g
  else
    let p := profile_of a now g in
    let attempts := wrap_u 32 (sqli_attempts p + 1) in
    let p := set_sqli attempts p in
    let p := if sqli_block_threshold (bg_config g) <=? attempts
             then set_block true (sat_add now (600 * 1000000000)) p else p in
    set_profile a p 0 g.

Definition tracked_ips (g : BehaviourGuard) : nat := size (profiles g).

Definition unblock_ip (a : ip) (g : BehaviourGuard) : bool * BehaviourGuard :=
  match profiles g !! a with
  | Some p => (true, set_profile a (set_sqli 0 (set_block false 0 p)) 0 g)
  | None => (false, g)
  end.

(** The blocked addresses with the seconds left, in the order of the map. *)
Definition blocked_ips (now : Z) (g : BehaviourGuard) : list (ip * option Z) :=
  omap (λ '(a, p),
    if blocked p then
      Some (a, if now <? block_until_ns p then Some ((block_until_ns p - now) / 1000000000)
               else None)
    else None) (map_to_list (profiles g)).

(** ** Histories *)

Inductive guard_op :=
| GCheck (a : ip) (now : Z)
| GRecord (a : ip) (was_error : bool)
| GSqli (a : ip) (now : Z)
| GUnblock (a : ip).

Definition guard_step (g : BehaviourGuard) (o : guard_op) : BehaviourGuard :=
  match o with
  | GCheck a now => (check_request a now g).2
  | GRecord a e => record_request a e g
  | GSqli a now => record_sqli_attempt a now g
  | GUnblock a => (unblock_ip a g).2
  end.

Definition guard_run (h : list guard_op) (g : BehaviourGuard) : BehaviourGuard :=
  fold_left guard_step h g.

(** Whether an operation counts against an address. *)
Definition incriminates (a : ip) (o : guard_op) : bool :=
  match o with
  | GRecord a' e => bool_decide (a' = a) && e
  | GSqli a' _ => bool_decide (a' = a)
  | _ => false
  end.

(** Whether an operation happens between two times and does not lift the block
    of an address. *)
Definition within (a : ip) (t0 t1 : Z) (o : guard_op) : bool :=
  match o with
  | GCheck _ now | GSqli _ now => (t0 <=? now) && (now <=? t1)
  | GRecord _ _ => true
  | GUnblock a' => negb (bool_decide (a' = a))
  end.

(** ** Lemmas *)

(** A property of the profile of an address that its own operations keep is
    kept by all: the others do not touch it. *)
Lemma guard_step_profile (P : IpProfile → Prop) a o g :
  (∀ now, o = GCheck a now → untracked a g = false →
     P (evaluate (bg_config g) now (profile_of a now g)).2) →
  (∀ p, o = GRecord a true → profiles g !! a = Some p →
     P (set_errors (wrap_u 32 (error_count p + 1)) p)) →
  (∀ now, o = GSqli a now → untracked a g = false →
     let p := set_sqli (wrap_u 32 (sqli_attempts (profile_of a now g) + 1)) (profile_of a now g) in
     P (if sqli_block_threshold (bg_config g) <=? sqli_attempts p
        then set_block true (sat_add now (600 * 1000000000)) p else p)) →
  (∀ p, o = GUnblock a → profiles g !! a = Some p → P (set_sqli 0 (set_block false 0 p))) →
  (∀ p, profiles g !! a = Some p → P p) →
  ∀ p, profiles (guard_step g o) !! a = Some p → P p.
Proof.
  intros Hc Hr Hs Hu Hp p. destruct o as [a' now|a' e|a' now|a']; simpl.
  - unfold check_request. destruct (untracked a' g) eqn:U; [auto|].
    destruct (evaluate _ _ _) as [v q] eqn:E. simpl.
    intros [[-> ->]|[_ ?]]%lookup_insert_Some; [|auto].
    specialize (Hc now eq_refl U). by rewrite E in Hc.
  - unfold record_request. destruct e; simpl; [|auto].
    destruct (profiles g !! a') as [q|] eqn:E; [|auto]. simpl.
    intros [[-> <-]|[_ ?]]%lookup_insert_Some; auto.
  - unfold record_sqli_attempt, set_profile. destruct (untracked a' g) eqn:U; [auto|].
    cbn [profiles]. intros [[-> <-]|[_ ?]]%lookup_insert_Some; [|auto]. by apply Hs.
  - unfold unblock_ip. destruct (profiles g !! a') as [q|] eqn:E; [|auto]. simpl.
    intros [[-> <-]|[_ ?]]%lookup_insert_Some; auto.
Qed.

Lemma guard_step_tracked a o g :
  is_Some (profiles g !! a) → is_Some (profiles (guard_step g o) !! a).
Proof.
  intros Hs. destruct o; simpl;
    unfold check_request, record_request, record_sqli_attempt, unblock_ip;
    repeat case_match; simplify_eq/=; try done; apply lookup_insert_is_Some'; by right.
Qed.

Lemma guard_step_config o g : bg_config (guard_step g o) = bg_config g.
Proof.
  destruct o; simpl; unfold check_request, record_request, record_sqli_attempt, unblock_ip;
    repeat case_match; by simplify_eq/=.
Qed.

Lemma profile_of_ind (P : IpProfile → Prop) a now g :
  P (profile_new now) → (∀ p, profiles g !! a = Some p → P p) → P (profile_of a now g).
Proof. unfold profile_of. destruct (profiles g !! a); simpl; auto. Qed.

(** *** Clients that do nothing wrong *)

Definition clean (p : IpProfile) : Prop := error_count p = 0 ∧ blocked p = false.

Definition lenient (c : BehaviourConfig) : Prop :=
  max_rps c = 0 ∧ f64_leb f64_zero (scanning_error_rate c) = true.

Lemma rollover_clean c now p : clean p → clean (rollover c now p).
Proof. intros [??]. unfold rollover. repeat case_match; done. Qed.

Lemma evaluate_clean c now p :
  lenient c → clean p → (evaluate c now p).1 = Allow ∧ clean (evaluate c now p).2.
Proof.
  intros [Hm Hr] Hp. apply (rollover_clean c now) in Hp as [He Hb]. unfold evaluate.
  rewrite Hb. cbn [andb]. set (n := wrap_u 32 (request_count (rollover c now p) + 1)).
  assert (rate_exceeded c now n (set_requests n (rollover c now p)) = None) as ->
    by (unfold rate_exceeded; by rewrite Hm).
  assert (scanning c n (set_requests n (rollover c now p)) = None) as ->
    by (unfold scanning; simpl; rewrite He, f64_zero_share by done; by case_match).
  done.
Qed.

Lemma guard_run_clean c h a g :
  lenient c → bg_config g = c → forallb (λ o, negb (incriminates a o)) h = true →
  (∀ p, profiles g !! a = Some p → clean p) →
  bg_config (guard_run h g) = c ∧ ∀ p, profiles (guard_run h g) !! a = Some p → clean p.
Proof.
  intros Hl. revert g. induction h as [|o h IH]; intros g Hc Hh Hp; [done|]. simpl in *.
  apply andb_true_iff in Hh as [Ho Hh]. apply negb_true_iff in Ho.
  apply IH; [by rewrite guard_step_config|done|].
  apply guard_step_profile; [| | | |done].
  - intros now -> _. apply evaluate_clean; [by rewrite Hc|by apply profile_of_ind].
  - intros p ->. simpl in Ho. by rewrite bool_decide_eq_true_2 in Ho.
  - intros now ->. simpl in Ho. by rewrite bool_decide_eq_true_2 in Ho.
  - intros p -> Hq. by destruct (Hp p Hq).
Qed.

(** *** Blocks *)

Definition blocked_until (t : Z) (p : IpProfile) : Prop :=
  blocked p = true ∧ t ≤ block_until_ns p.

Lemma evaluate_blocked c now t p :
  0 ≤ now < t → blocked_until t p →
  (evaluate c now p).1 = Block TemporarilyBlocked ∧ blocked_until t (evaluate c now p).2.
Proof.
  intros Hn [Hb Ht].
  assert (blocked_until t (rollover c now p)) as [Hb' Ht'].
  { unfold rollover. case_match; [|done]. simpl.
    destruct (Z.eqb_spec (block_until_ns p) 0), (Z.leb_spec (block_until_ns p) now); simpl;
      done || lia. }
  unfold evaluate. rewrite Hb'.
  destruct (Z.eqb_spec (block_until_ns (rollover c now p)) 0); [lia|].
  destruct (Z.ltb_spec now (block_until_ns (rollover c now p))); [|lia]. done.
Qed.

Lemma guard_run_blocked h a t0 t1 t g :
  0 ≤ t0 → t1 < t → t ≤ t0 + 600 * 1000000000 → t < 2 ^ 64 →
  forallb (within a t0 t1) h = true → is_Some (profiles g !! a) →
  (∀ p, profiles g !! a = Some p → blocked_until t p) →
  is_Some (profiles (guard_run h g) !! a) ∧
  ∀ p, profiles (guard_run h g) !! a = Some p → blocked_until t p.
Proof.
  intros H0 H1 Ht Hmax. revert g. induction h as [|o h IH]; intros g Hh Hs Hp; [done|].
  simpl in *. apply andb_true_iff in Hh as [Ho Hh].
  assert (∀ now, blocked_until t (profile_of a now g)) as Hpo.
  { intros now. destruct Hs as [p Hs]. unfold profile_of. rewrite Hs. simpl. auto. }
  apply IH; [done|by apply guard_step_tracked|]. apply guard_step_profile; [| | | |done].
  - intros now -> _. simpl in Ho. apply evaluate_blocked; [|done]. lia.
  - intros p -> Hq. destruct (Hp p Hq). done.
  - intros now -> _ p. simpl in Ho. destruct (_ <=? sqli_attempts p).
    + split; [done|]. simpl. unfold sat_add. lia.
    + destruct (Hpo now). done.
  - intros p ->. simpl in Ho. by rewrite bool_decide_eq_true_2 in Ho.
Qed.
End guard.
Arguments BehaviourGuard ip {_ _}.
Arguments guard_op : clear implicits.

(** ** Properties *)

(** A client that does nothing wrong is never refused when no rate limit is
    set, as is the default: whatever all other clients do, an address without a
    recorded error or SQL injection attempt is allowed, however many requests it
    makes. *)
Theorem clean_client_allowed {ip : Type} `{Countable ip} (c : BehaviourConfig)
    (h : list (guard_op ip)) (a : ip) (now : Z) :
  max_rps c = 0 → f64_leb f64_zero (scanning_error_rate c) = true →
  forallb (λ o, negb (incriminates a o)) h = true →
  (check_request a now (guard_run h (behaviour_new c))).1 = Allow.
Proof.
  intros Hm Hr Hh. assert (lenient c) as Hl by done.
  destruct (guard_run_clean c h a (behaviour_new c)) as [Hc Hp]; [done..|].
  unfold check_request. case_match; [done|]. rewrite Hc.
  pose proof (evaluate_clean c now (profile_of a now (guard_run h (behaviour_new c))) Hl) as He.
  destruct (evaluate c now _) as [v p]. by destruct He; [apply profile_of_ind|].
Qed.

Lemma clean_client_allowed_witness :
  (check_request 1%positive 9 (guard_run
     [GCheck 1%positive 5; GCheck 2%positive 6; GSqli 2%positive 7; GRecord 2%positive true]
     (behaviour_new default_behaviour))).1 = Allow.
Proof.
  apply clean_client_allowed; [reflexivity|vm_compute; reflexivity|vm_compute; reflexivity].
Defined.

(** C20: An address that reaches the threshold of SQL injection attempts is
    refused every request of the next ten minutes, whatever requests, errors and
    attempts of any address come in between, unless an operator unblocks it. *)
Theorem sqli_block_holds {ip : Type} `{Countable ip} (g : BehaviourGuard ip) (a : ip) (t now : Z)
    (h : list (guard_op ip)) (p : IpProfile) :
  0 ≤ t → t ≤ now < t + 600 * 1000000000 → t + 600 * 1000000000 < 2 ^ 64 →
  untracked a g = false → profiles (record_sqli_attempt a t g) !! a = Some p →
  sqli_block_threshold (bg_config g) ≤ sqli_attempts p →
  forallb (within a t now) h = true →
  (check_request a now (guard_run h (record_sqli_attempt a t g))).1 = Block TemporarilyBlocked.
Proof.
  intros H0 Hn Hmax Hu Hp Hth Hh. set (g1 := record_sqli_attempt a t g) in *.
  destruct (guard_run_blocked h a t now (t + 600 * 1000000000) g1) as [[q Hq] Hb];
    [lia..|done|by eexists| |].
  { intros p' Hp'. assert (p' = p) as -> by congruence. revert Hp Hth. unfold g1.
    unfold record_sqli_attempt, set_profile. rewrite Hu. cbn [profiles].
    rewrite lookup_insert_eq. intros [= <-].
    destruct (Z.leb_spec (sqli_block_threshold (bg_config g))
      (wrap_u 32 (sqli_attempts (profile_of a t g) + 1))); simpl; [|lia].
    intros _. split; [done|]. simpl. unfold sat_add. lia. }
  unfold check_request, untracked, profile_of. rewrite Hq.
  rewrite bool_decide_eq_false_2, andb_false_r by done. simpl.
  pose proof (evaluate_blocked (bg_config (guard_run h g1)) now (t + 600 * 1000000000) q) as He.
  destruct (evaluate _ _ _) as [v p']. simpl. apply He; [lia|by apply Hb].
Qed.

Lemma sqli_block_holds_witness :
  let g := guard_run [GSqli 1%positive 1; GSqli 1%positive 2] (behaviour_new default_behaviour) in
  (check_request 1%positive 500000000000 (guard_run
     [GCheck 2%positive 6; GCheck 1%positive 7; GUnblock 2%positive; GRecord 1%positive true]
     (record_sqli_attempt 1%positive 5 g))).1 = Block TemporarilyBlocked.
Proof.
  intros g. eapply (sqli_block_holds g 1%positive 5 500000000000);
    [lia|lia|lia|reflexivity|reflexivity|vm_compute; discriminate|vm_compute; reflexivity].
Defined.
