(* ===== verification/Security.v ===== *)
(** * The security layer (turbine-security/src/lib.rs, sql_guard.rs, code_guard.rs)

    The pattern guards, the cache of the SQL guard, and the layer that runs the
    per-client limits (file BehaviourGuard) and the guards over the parameters
    of a request. The Aho-Corasick automaton and xxHash are libraries: the first
    is a class with its documented behaviour, the second any function. *)

From S2P Require Import Prelude RustStr F64 BehaviourGuard.

(** ** Matching *)

(** [p] occurs in [s], up to ASCII case. *)
Definition occurs (p s : bytes) : Prop :=
  ∃ a m b, s = a ++ m ++ b ∧ to_ascii_lowercase m = to_ascii_lowercase p.

Definition slice (i j : nat) (s : bytes) : bytes := take (j - i) (drop i s).

(** [AhoCorasick::find] with [ascii_case_insensitive]: the span of a match of
    one of the patterns, or nothing when none occurs. *)
Class AhoCorasick (find : list bytes → bytes → option (nat * nat)) : Prop := {
  find_match ps s i j : find ps s = Some (i, j) →
    ∃ p, p ∈ ps ∧ (i ≤ j ≤ length s)%nat ∧
      to_ascii_lowercase (slice i j s) = to_ascii_lowercase p;
  find_miss ps s : find ps s = None → ∀ p, p ∈ ps → ¬ occurs p s }.

(** A search that tries every pattern at every position has this behaviour. *)
Fixpoint naive_from (i : nat) (ps : list bytes) (s : bytes) : option (nat * nat) :=
  match list_find (λ p, starts_with (to_ascii_lowercase p) (to_ascii_lowercase s) = true) ps with
  | Some (_, p) => Some (i, i + length p)%nat
  | None => match s with [] => None | _ :: s' => naive_from (S i) ps s' end
  end.

Definition naive_find : list bytes → bytes → option (nat * nat) := naive_from 0.

(** ** The SQL guard *)

Definition SQL_PATTERNS_PL1 : list bytes :=
  [lit "union select"; lit "union all select"; lit "' or '1'='1"; lit "' or 1=1";
   x22 :: lit " or 1=1"; lit "or 1=1--"; lit "or 1=1#"; lit "' or ''='"; lit "sleep(";
   lit "benchmark("; lit "waitfor delay"; lit "pg_sleep("; lit "load_file("; lit "into outfile";
   lit "into dumpfile"; lit "char(0x"; lit "concat(0x"; lit "extractvalue("; lit "updatexml(";
   lit "exp(~("].

Definition SQL_PATTERNS_PL2 : list bytes :=
  [lit "drop table"; lit "drop database"; lit "truncate table"; lit "group_concat("; lit "/**/";
   lit "-- -"; lit "; drop"; lit "; delete"; lit "; insert"; lit "; update"].

Definition SQL_PATTERNS_PL3 : list bytes :=
  [lit "delete from"; lit "insert into"; lit "update set"; lit "information_schema";
   lit "table_name"; lit "column_name"].

Definition MAX_CACHE_ENTRIES : Z := 8192.

(** The patterns of a paranoia level, from those each level adds. *)
Definition at_level (level : Z) (pl1 pl2 pl3 : list bytes) : list bytes :=
  (if 1 <=? level then pl1 else []) ++ (if 2 <=? level then pl2 else []) ++
  (if 3 <=? level then pl3 else []).

Record SqlGuard := { sql_patterns : list bytes; sql_cache : gmap Z bool }.

Definition sql_with_paranoia (level : Z) : SqlGuard :=
  {| sql_patterns := at_level level SQL_PATTERNS_PL1 SQL_PATTERNS_PL2 SQL_PATTERNS_PL3;
     sql_cache := ∅ |}.

Definition cache_size (g : SqlGuard) : Z := Z.of_nat (size (sql_cache g)).

Definition clear_cache (g : SqlGuard) : SqlGuard :=
  {| sql_patterns := sql_patterns g; sql_cache := ∅ |}.

(** ** The code guard *)

Definition CODE_PATTERNS_PL1 : list bytes :=
  [lit "eval("; lit "assert("; lit "create_function("; lit "exec("; lit "shell_exec(";
   lit "system("; lit "passthru("; lit "popen("; lit "proc_open("; lit "pcntl_exec("].

Definition OBFUSCATION_CHAINS : list bytes :=
  [lit "base64_decode(base64_decode("; lit "eval(base64_decode(";
   lit "eval(gzinflate(base64_decode("; lit "assert(base64_decode("; lit "eval(str_rot13("].

Definition CODE_PATTERNS_PL2 : list bytes :=
  [lit "call_user_func("; lit "call_user_func_array("; lit "base64_decode("; lit "gzinflate(";
   lit "gzuncompress("; lit "gzdecode("; lit "str_rot13("; lit "chr("; lit "pack("; lit "`";
   lit "$$"; lit "ReflectionFunction"].

Definition CODE_PATTERNS_PL3 : list bytes :=
  [lit "include("; lit "include_once("; lit "require("; lit "require_once("; lit "str_replace(";
   lit "$_GET["; lit "$_POST["; lit "$_REQUEST["; lit "$_COOKIE["; lit "->__construct(";
   lit "::__callStatic("].

Record CodeGuard := { basic_patterns : list bytes; obfuscation_patterns : list bytes }.

Definition code_with_paranoia (level : Z) : CodeGuard :=
  {| basic_patterns := at_level level CODE_PATTERNS_PL1 CODE_PATTERNS_PL2 CODE_PATTERNS_PL3;
     obfuscation_patterns := if level =? 0 then [] else OBFUSCATION_CHAINS |}.

(** ** The layer *)

Record SecurityConfig := {
  sc_enabled : bool;
  sc_sql_guard : bool;
  sc_code_injection_guard : bool;
  sc_behaviour_guard : bool;
  paranoia_level : Z;
  exclude_paths : list bytes }.

Definition default_security : SecurityConfig :=
  {| sc_enabled := true; sc_sql_guard := true; sc_code_injection_guard := true;
     sc_behaviour_guard := true; paranoia_level := 1; exclude_paths := [] |}.

Section layer.
Context {ip : Type} `{Countable ip}.
Context (find : list bytes → bytes → option (nat * nat)) `{!AhoCorasick find}.
Context (xxh3 : bytes → Z).

Definition sql_check (input : bytes) (g : SqlGuard) : Verdict * SqlGuard :=
  if bool_decide (input = []) then (Allow, g)
  else
    let hash := xxh3 input in
    match sql_cache g !! hash with
    | Some safe => (if safe : bool then Allow else Block SqlCached, g)
    | None =>
        let cache := if MAX_CACHE_ENTRIES <=? cache_size g then ∅ else sql_cache g in
        match find (sql_patterns g) input with
        | Some (i, j) =>
            (Block (SqlPattern (slice i j input)),
             {| sql_patterns := sql_patterns g; sql_cache := <[hash := false]> cache |})
        | None =>
            (Allow, {| sql_patterns := sql_patterns g; sql_cache := <[hash := true]> cache |})
        end
    end.

Definition code_check (g : CodeGuard) (input : bytes) : Verdict :=
  if bool_decide (input = []) || (length input <? 4)%nat then Allow
  else
    match find (obfuscation_patterns g) input with
    | Some (i, j) => Block (Obfuscation (slice i j input))
    | None =>
        match find (basic_patterns g) input with
        | Some (i, j) => Block (CodePattern (slice i j input))
        | None => Allow
        end
    end.

Record SecurityLayer := {
  sl_sql : SqlGuard;
  sl_code : CodeGuard;
  sl_behaviour : BehaviourGuard ip;
  sl_config : SecurityConfig }.

Definition with_behaviour_config (c : SecurityConfig) (b : BehaviourConfig) : SecurityLayer :=
  {| sl_sql := sql_with_paranoia (paranoia_level c);
     sl_code := code_with_paranoia (paranoia_level c); sl_behaviour := behaviour_new b;
     sl_config := c |}.

Definition with_config (c : SecurityConfig) : SecurityLayer :=
  with_behaviour_config c default_behaviour.

Definition is_excluded (c : SecurityConfig) (path : bytes) : bool :=
  existsb (λ prefix, starts_with prefix path) (exclude_paths c).

Definition set_behaviour (b : BehaviourGuard ip) (s : SecurityLayer) : SecurityLayer :=
  {| sl_sql := sl_sql s; sl_code := sl_code s; sl_behaviour := b; sl_config := sl_config s |}.

(** The loop over the parameters stops at the first one that is refused. *)
Fixpoint sql_params (params : list (bytes * bytes)) (g : SqlGuard) : Verdict * SqlGuard :=
  match params with
  | [] => (Allow, g)
  | (_, value) :: params' =>
      let '(v, g) := sql_check value g in
      if is_blocked v then (v, g) else sql_params params' g
  end.

Fixpoint code_params (g : CodeGuard) (params : list (bytes * bytes)) : Verdict :=
  match params with
  | [] => Allow
  | (_, value) :: params' =>
      let v := code_check g value in if is_blocked v then v else code_params g params'
  end.

(** The part after the per-client limits and the exclusions. *)
Definition scan_params (a : ip) (now : Z) (params : list (bytes * bytes)) (s : SecurityLayer)
    : Verdict * SecurityLayer :=
  let c := sl_config s in
  let '(v, g) := if sc_sql_guard c then sql_params params (sl_sql s) else (Allow, sl_sql s) in
  let s := {| sl_sql := g; sl_code := sl_code s; sl_behaviour := sl_behaviour s; sl_config := c |} in
  if is_blocked v then
    (v, if 2 <=? paranoia_level c
        then set_behaviour (record_sqli_attempt a now (sl_behaviour s)) s else s)
  else if sc_code_injection_guard c then (code_params (sl_code s) params, s)
  else (Allow, s).

Definition check_input (a : ip) (now : Z) (path : bytes) (params : list (bytes * bytes))
    (s : SecurityLayer) : Verdict * SecurityLayer :=
  let c := sl_config s in
  if negb (sc_enabled c) then (Allow, s)
  else
    let '(bv, b) := if sc_behaviour_guard c then check_request a now (sl_behaviour s)
                    else (Allow, sl_behaviour s) in
    let s := set_behaviour b s in
    if is_blocked bv then (bv, s)
    else if is_excluded c path then (Allow, s)
    else if paranoia_level c =? 0 then (Allow, s)
    else scan_params a now params s.

Definition needs_input_scan (c : SecurityConfig) : bool :=
  sc_enabled c && (0 <? paranoia_level c) && (sc_sql_guard c || sc_code_injection_guard c).

Definition needs_behaviour_check (c : SecurityConfig) : bool :=
  sc_enabled c && sc_behaviour_guard c.

(** ** Histories *)

(** The calls to [check_input], with their times. *)
Definition call : Type := ip * Z * bytes * list (bytes * bytes).

Fixpoint layer_run (h : list call) (s : SecurityLayer) : SecurityLayer :=
  match h with
  | [] => s
  | (a, now, path, params) :: h' => layer_run h' (check_input a now path params s).2
  end.

(** The values the guards have seen. *)
Definition values (h : list call) : list bytes := h ≫= λ c, c.2.*2.

Definition no_collision (vs : list bytes) : Prop :=
  ∀ v w, v ∈ vs → w ∈ vs → xxh3 v = xxh3 w → v = w.

(** ** Lemmas *)

(** Some pattern is found in a non-empty value. *)
Definition hit (ps : list bytes) (v : bytes) : bool :=
  negb (bool_decide (v = [])) && bool_decide (is_Some (find ps v)).

Lemma find_occurs ps s : is_Some (find ps s) ↔ ∃ p, p ∈ ps ∧ occurs p s.
Proof.
  split.
  - intros [[i j] E]. destruct (find_match ps s i j E) as (p & Hp & Hij & Hm).
    exists p. split; [done|]. exists (take i s), (slice i j s), (drop j s). split; [|done].
    unfold slice. rewrite <- (take_drop i s) at 1. f_equal.
    rewrite <- (take_drop (j - i) (drop i s)) at 1. f_equal. rewrite drop_drop. f_equal. lia.
  - intros (p & Hp & Ho). destruct (find ps s) eqn:E; [eauto|].
    by destruct (find_miss ps s E p Hp).
Qed.

Lemma hit_occurs ps v :
  (∀ p, p ∈ ps → p ≠ []) → hit ps v = true ↔ ∃ p, p ∈ ps ∧ occurs p v.
Proof.
  intros Hne. unfold hit. rewrite andb_true_iff, negb_true_iff, bool_decide_eq_false,
    bool_decide_eq_true, find_occurs. split; [naive_solver|].
  intros (p & Hp & Ho). split; [|eauto]. intros ->. destruct (Hne p Hp).
  destruct Ho as (a & m & b & Hs & Hm). destruct a, m; try done. simpl in Hm. by destruct p.
Qed.

(** The cache holds the results for values that were seen, and is bounded. *)
Definition sql_ok (vs : list bytes) (g : SqlGuard) : Prop :=
  cache_size g ≤ MAX_CACHE_ENTRIES ∧
  ∀ h safe, sql_cache g !! h = Some safe →
    ∃ v, v ∈ vs ∧ v ≠ [] ∧ xxh3 v = h ∧ safe = negb (hit (sql_patterns g) v).

Lemma sql_insert_ok vs v g cache :
  v ∈ vs → v ≠ [] → sql_ok vs g →
  cache = (if MAX_CACHE_ENTRIES <=? cache_size g then ∅ else sql_cache g) →
  sql_ok vs {| sql_patterns := sql_patterns g;
               sql_cache := <[xxh3 v := negb (hit (sql_patterns g) v)]> cache |}.
Proof.
  intros Hv Hne [Hsz Hok] ->. split.
  - unfold cache_size in *; simpl.
    destruct (Z.leb_spec MAX_CACHE_ENTRIES (Z.of_nat (size (sql_cache g)))).
    + rewrite insert_empty, map_size_singleton. unfold MAX_CACHE_ENTRIES. lia.
    + rewrite map_size_insert. case_match; unfold id; lia.
  - intros h safe; simpl. intros [[<- <-]|[_ Hl]]%lookup_insert_Some; [by exists v|].
    apply Hok. by destruct (MAX_CACHE_ENTRIES <=? cache_size g).
Qed.

Lemma sql_check_ok vs v g :
  no_collision vs → v ∈ vs → sql_ok vs g →
  let '(r, g') := sql_check v g in
  is_blocked r = hit (sql_patterns g) v ∧ sql_patterns g' = sql_patterns g ∧ sql_ok vs g'.
Proof.
  intros Hc Hv Hok. unfold sql_check. case_bool_decide as Hne.
  { subst. by unfold hit. }
  destruct (sql_cache g !! xxh3 v) as [safe|] eqn:E.
  - destruct (proj2 Hok _ _ E) as (w & Hw & _ & Hh & ->).
    assert (w = v) as -> by auto. by destruct (hit (sql_patterns g) v).
  - assert (hit (sql_patterns g) v = bool_decide (is_Some (find (sql_patterns g) v))) as Hh
      by (unfold hit; by rewrite bool_decide_eq_false_2).
    pose proof (sql_insert_ok vs v g _ Hv Hne Hok eq_refl) as Hins. rewrite Hh in Hins.
    destruct (find (sql_patterns g) v) as [[i j]|]; by split_and!.
Qed.

Lemma sql_params_ok vs params g :
  no_collision vs → params.*2 ⊆ vs → sql_ok vs g →
  let '(r, g') := sql_params params g in
  is_blocked r = existsb (λ kv, hit (sql_patterns g) kv.2) params ∧
  sql_patterns g' = sql_patterns g ∧ sql_ok vs g'.
Proof.
  intros Hc. revert g. induction params as [|[k v] params IH]; intros g Hv Hok; [done|].
  cbn [sql_params]. pose proof (sql_check_ok vs v g Hc) as Hs.
  destruct (sql_check v g) as [r g1]. destruct Hs as (Hr & Hp & Hok1); [set_solver|done|].
  simpl. rewrite Hr. destruct (hit (sql_patterns g) v); [done|]. simpl.
  specialize (IH g1 ltac:(set_solver) Hok1). destruct (sql_params params g1) as [r' g2].
  rewrite Hp in IH. done.
Qed.

Definition code_hit (g : CodeGuard) (v : bytes) : bool :=
  (4 <=? length v)%nat && (hit (obfuscation_patterns g) v || hit (basic_patterns g) v).

Lemma code_check_hit g v : is_blocked (code_check g v) = code_hit g v.
Proof.
  unfold code_check, code_hit, hit. case_bool_decide as Hv; cbn [negb andb orb]; [by subst|].
  destruct (Nat.ltb_spec (length v) 4), (Nat.leb_spec 4 (length v)); try lia; simpl; [done|].
  destruct (find (obfuscation_patterns g) v) as [[]|]; [done|].
  by destruct (find (basic_patterns g) v) as [[]|].
Qed.

Lemma code_params_hit g params :
  is_blocked (code_params g params) = existsb (λ kv, code_hit g kv.2) params.
Proof.
  induction params as [|[k v] params IH]; [done|]. simpl. rewrite code_check_hit.
  destruct (code_hit g v) eqn:E; [by rewrite code_check_hit|done].
Qed.

(** What no call changes. *)
Definition layer_ok (vs : list bytes) (c : SecurityConfig) (s : SecurityLayer) : Prop :=
  sl_config s = c ∧ sl_code s = code_with_paranoia (paranoia_level c) ∧
  sql_patterns (sl_sql s) = sql_patterns (sql_with_paranoia (paranoia_level c)) ∧
  sql_ok vs (sl_sql s).

Lemma set_behaviour_ok vs c b s : layer_ok vs c s → layer_ok vs c (set_behaviour b s).
Proof. done. Qed.

Lemma scan_params_ok vs c a now params s :
  no_collision vs → params.*2 ⊆ vs → layer_ok vs c s →
  let '(r, s') := scan_params a now params s in
  layer_ok vs c s' ∧
  is_blocked r =
    sc_sql_guard c && existsb (λ kv, hit (sql_patterns (sl_sql s)) kv.2) params ||
    sc_code_injection_guard c && existsb (λ kv, code_hit (sl_code s) kv.2) params.
Proof.
  intros Hc Hv (Hcfg & Hcode & Hpat & Hok). unfold scan_params. rewrite Hcfg.
  pose proof (sql_params_ok vs params (sl_sql s) Hc Hv Hok) as Hs.
  destruct (sc_sql_guard c).
  - destruct (sql_params params (sl_sql s)) as [r g]. destruct Hs as (Hr & Hp & Hg).
    rewrite Hr. destruct (existsb _ params) eqn:E; simpl.
    + split; [|done]. case_match; (split_and!; [done|done|exact (eq_trans Hp Hpat)|done]).
    + rewrite <- code_params_hit. destruct (sc_code_injection_guard c); simpl;
        (split; [split_and!; [done|done|exact (eq_trans Hp Hpat)|done]|done]).
  - simpl. rewrite <- code_params_hit. by destruct (sc_code_injection_guard c).
Qed.

Lemma check_input_ok vs c a now path params s :
  no_collision vs → params.*2 ⊆ vs → layer_ok vs c s →
  layer_ok vs c (check_input a now path params s).2.
Proof.
  intros Hc Hv Hs. pose proof Hs as [Hcfg _]. unfold check_input. rewrite Hcfg.
  destruct (sc_enabled c); [|done]. simpl.
  destruct (if sc_behaviour_guard c then _ else _) as [bv b].
  destruct (is_blocked bv); [done|]. destruct (is_excluded c path); [done|].
  destruct (paranoia_level c =? 0); [done|].
  pose proof (scan_params_ok vs c a now params (set_behaviour b s) Hc Hv) as H1.
  destruct (scan_params a now params (set_behaviour b s)). by apply H1.
Qed.

Lemma layer_run_ok vs c h s :
  no_collision vs → values h ⊆ vs → layer_ok vs c s → layer_ok vs c (layer_run h s).
Proof.
  intros Hc. revert s. induction h as [|[[[a now] path] params] h IH]; intros s Hv Hs; [done|].
  simpl in *. apply IH; [set_solver|]. apply check_input_ok; [done|set_solver|done].
Qed.

Lemma layer_new_ok vs c b : layer_ok vs c (with_behaviour_config c b).
Proof.
  split_and!; [done..|]. split; [|done]. unfold cache_size, MAX_CACHE_ENTRIES. simpl.
  rewrite map_size_empty. lia.
Qed.

(** The verdict as a boolean. *)
Lemma check_input_verdict vs c a now path params s :
  no_collision vs → params.*2 ⊆ vs → layer_ok vs c s →
  sc_enabled c = true → is_excluded c path = false → 1 ≤ paranoia_level c →
  is_blocked (check_input a now path params s).1 =
    sc_behaviour_guard c && is_blocked (check_request a now (sl_behaviour s)).1 ||
    (sc_sql_guard c && existsb (λ kv, hit (sql_patterns (sl_sql s)) kv.2) params ||
     sc_code_injection_guard c && existsb (λ kv, code_hit (sl_code s) kv.2) params).
Proof.
  intros Hc Hv Hs He Hx Hl. pose proof Hs as [Hcfg _]. unfold check_input.
  rewrite Hcfg, He, Hx. cbn [negb].
  destruct (Z.eqb_spec (paranoia_level c) 0); [lia|].
  pose proof (λ b, scan_params_ok vs c a now params (set_behaviour b s) Hc Hv Hs) as H1.
  destruct (sc_behaviour_guard c); simpl.
  - destruct (check_request a now (sl_behaviour s)) as [[|r] b]; simpl; [|done].
    specialize (H1 b). destruct (scan_params a now params (set_behaviour b s)). apply H1.
  - specialize (H1 (sl_behaviour s)). destruct (scan_params a now params _). apply H1.
Qed.

Lemma existsb_elem {A} (f : A → bool) (l : list A) :
  existsb f l = true ↔ ∃ x, x ∈ l ∧ f x = true.
Proof.
  rewrite existsb_exists. by setoid_rewrite list_elem_of_In.
Qed.
End layer.

(** No pattern is empty. *)
Lemma level_patterns_nonempty level pl1 pl2 pl3 p :
  forallb (λ p, negb (bool_decide (p = []))) (pl1 ++ pl2 ++ pl3) = true →
  p ∈ at_level level pl1 pl2 pl3 → p ≠ [].
Proof.
  intros Hall Hp ->. rewrite forallb_forall in Hall.
  assert ([] ∈ pl1 ++ pl2 ++ pl3) as Hin.
  { unfold at_level in Hp. rewrite !elem_of_app in Hp. rewrite !elem_of_app.
    repeat case_match; set_solver. }
  apply list_elem_of_In, Hall in Hin. done.
Qed.

Lemma code_hit_occurs find `{!AhoCorasick find} level v :
  1 ≤ level →
  code_hit find (code_with_paranoia level) v = true ↔
  (4 ≤ length v)%nat ∧ ∃ p, p ∈ OBFUSCATION_CHAINS ++ at_level level CODE_PATTERNS_PL1
    CODE_PATTERNS_PL2 CODE_PATTERNS_PL3 ∧ occurs p v.
Proof.
  intros Hl. unfold code_hit, code_with_paranoia.
  destruct (Z.eqb_spec level 0); [lia|]. cbn [obfuscation_patterns basic_patterns].
  rewrite andb_true_iff, orb_true_iff, Nat.leb_le.
  rewrite !hit_occurs; [|done| |done|].
  - generalize (at_level level CODE_PATTERNS_PL1 CODE_PATTERNS_PL2 CODE_PATTERNS_PL3).
    generalize OBFUSCATION_CHAINS. intros l1 l2. setoid_rewrite elem_of_app. split.
    + intros [? [(p & ? & ?)|(p & ? & ?)]]; eauto.
    + intros (? & p & [?|?] & ?); eauto 6.
  - intros p. by apply level_patterns_nonempty.
  - intros p Hp. apply (level_patterns_nonempty 1 OBFUSCATION_CHAINS [] []); [done|].
    unfold at_level. apply elem_of_app. by left.
Qed.

(** *** The naive search *)

Lemma starts_with_lower p s :
  starts_with (to_ascii_lowercase p) (to_ascii_lowercase s) = true ↔
  (length p ≤ length s)%nat ∧ to_ascii_lowercase (take (length p) s) = to_ascii_lowercase p.
Proof.
  unfold starts_with, to_ascii_lowercase. rewrite bool_decide_eq_true, length_fmap, fmap_take.
  split; [|tauto]. intros E. split; [|done].
  apply (f_equal length) in E. rewrite length_take, !length_fmap in E. lia.
Qed.

Lemma naive_from_eq i ps s :
  naive_from i ps s =
  match list_find (λ p, starts_with (to_ascii_lowercase p) (to_ascii_lowercase s) = true) ps with
  | Some (_, p) => Some (i, i + length p)%nat
  | None => match s with [] => None | _ :: s' => naive_from (S i) ps s' end
  end.
Proof. by destruct s. Qed.

Lemma naive_from_match i ps s a b :
  naive_from i ps s = Some (a, b) →
  ∃ p k, p ∈ ps ∧ a = (i + k)%nat ∧ b = (a + length p)%nat ∧ (k + length p ≤ length s)%nat ∧
    to_ascii_lowercase (take (length p) (drop k s)) = to_ascii_lowercase p.
Proof.
  revert i. induction s as [|x s IH]; intros i; rewrite naive_from_eq;
    destruct (list_find _ ps) as [[n p]|] eqn:E; intros Hs; simplify_eq.
  1, 2: apply list_find_Some in E as (Hp%list_elem_of_lookup_2 & Hsw & _);
    first [apply (starts_with_lower p []) in Hsw|apply starts_with_lower in Hsw];
    destruct Hsw as [Hl Hm]; exists p, 0%nat; rewrite Nat.add_0_r; by split_and!.
  destruct (IH _ Hs) as (p & k & Hp & -> & -> & Hl & Hm). exists p, (S k).
  simpl. split_and!; [done|lia|lia|lia|done].
Qed.

Lemma naive_from_miss i ps s : naive_from i ps s = None → ∀ p, p ∈ ps → ¬ occurs p s.
Proof.
  revert i. induction s as [|x s IH]; intros i; rewrite naive_from_eq;
    destruct (list_find _ ps) as [[n q]|] eqn:E; try done; intros Hs p Hp (a & m & b & Hab & Hm).
  all: apply list_find_None in E; rewrite Forall_forall in E; specialize (E p Hp).
  all: assert (length m = length p) as Hlen
    by (apply (f_equal length) in Hm; unfold to_ascii_lowercase in Hm; by rewrite !length_fmap in Hm).
  all: destruct a as [|y a]; simplify_eq/=.
  - destruct E. apply (starts_with_lower p []). rewrite Hab, length_app, take_app_length' by done.
    split; [lia|done].
  - destruct E. apply (starts_with_lower p (x :: s)). rewrite Hab, length_app, take_app_length' by done.
    split; [lia|done].
  - destruct (IH _ Hs p Hp). by exists a, m, b.
Qed.

#[global] Instance naive_aho_corasick : AhoCorasick naive_find.
Proof.
  split.
  - intros ps s i j Hf. destruct (naive_from_match 0 ps s i j Hf) as (p & k & Hp & -> & -> & Hl & Hm).
    exists p. split_and!; [done|lia|lia|]. unfold slice. simpl. by rewrite Nat.add_comm, Nat.add_sub.
  - intros ps s Hf. by apply (naive_from_miss 0).
Qed.

(** ** Properties *)

(** C19: The verdict on a request that is scanned is exact. Whatever requests came
    before, and although the SQL guard answers from a cache of hashes, a request
    is refused exactly when the per-client limits refuse it, or one of its values
    has a SQL pattern of the configured level, or one of four bytes or more has
    a code pattern of that level, all up to ASCII case; as long as the hash does
    not collide on the values seen. *)
Theorem security_verdict_exact {ip : Type} `{Countable ip}
    (find : list bytes → bytes → option (nat * nat)) `{!AhoCorasick find} (xxh3 : bytes → Z)
    (c : SecurityConfig) (b : BehaviourConfig) (h : list (call (ip := ip))) (a : ip) (now : Z)
    (path : bytes) (params : list (bytes * bytes)) :
  no_collision xxh3 (values h ++ params.*2) →
  sc_enabled c = true → is_excluded c path = false → 1 ≤ paranoia_level c →
  let s := layer_run find xxh3 h (with_behaviour_config c b) in
  let has (ps : list bytes) (v : bytes) := ∃ p, p ∈ ps ∧ occurs p v in
  is_blocked (check_input find xxh3 a now path params s).1 = true ↔
    (sc_behaviour_guard c = true ∧ is_blocked (check_request a now (sl_behaviour s)).1 = true) ∨
    (∃ k v, (k, v) ∈ params ∧ sc_sql_guard c = true ∧
       has (at_level (paranoia_level c) SQL_PATTERNS_PL1 SQL_PATTERNS_PL2 SQL_PATTERNS_PL3) v) ∨
    (∃ k v, (k, v) ∈ params ∧ sc_code_injection_guard c = true ∧ (4 ≤ length v)%nat ∧
       has (OBFUSCATION_CHAINS ++
            at_level (paranoia_level c) CODE_PATTERNS_PL1 CODE_PATTERNS_PL2 CODE_PATTERNS_PL3) v).
Proof.
  intros Hc He Hx Hl s has.
  assert (layer_ok find xxh3 (values h ++ params.*2) c s) as Hs
    by (apply (layer_run_ok find xxh3); first [done|apply layer_new_ok|set_solver]).
  rewrite (check_input_verdict find xxh3 (values h ++ params.*2) c) by (done || set_solver).
  destruct Hs as (_ & -> & -> & _).
  rewrite !orb_true_iff, !andb_true_iff, !existsb_elem. simpl.
  assert (∀ v, hit find (at_level (paranoia_level c) SQL_PATTERNS_PL1 SQL_PATTERNS_PL2
    SQL_PATTERNS_PL3) v = true ↔ has (at_level (paranoia_level c) SQL_PATTERNS_PL1
    SQL_PATTERNS_PL2 SQL_PATTERNS_PL3) v) as Hsql.
  { intros v. apply hit_occurs; [done|]. intros p. by apply level_patterns_nonempty. }
  assert (∀ v, code_hit find (code_with_paranoia (paranoia_level c)) v = true ↔
    (4 ≤ length v)%nat ∧ has (OBFUSCATION_CHAINS ++ at_level (paranoia_level c)
      CODE_PATTERNS_PL1 CODE_PATTERNS_PL2 CODE_PATTERNS_PL3) v) as Hcode.
  { intros v. by apply code_hit_occurs. }
  split.
  - intros [?|[[? ([k v] & Hin & Hh)]|[? ([k v] & Hin & Hh)]]]; [by left|right; left|right; right].
    + exists k, v. split_and!; [done..|by apply Hsql].
    + apply Hcode in Hh as [??]. by exists k, v.
  - intros [?|[(k & v & ? & ? & ?)|(k & v & ? & ? & ? & ?)]]; [by left|right; left|right; right].
    + split; [done|]. exists (k, v). split; [done|by apply Hsql].
    + split; [done|]. exists (k, v). split; [done|by apply Hcode].
Qed.

Lemma security_verdict_exact_witness :
  let h := [(1%positive, 5, lit "/a", [(lit "q", lit "hello")])] in
  let s := layer_run naive_find le_val h (with_behaviour_config default_security default_behaviour) in
  is_blocked (check_input naive_find le_val 1%positive 6 (lit "/b")
    [(lit "q", lit "hello"); (lit "r", lit "1 UNION select 2")] s).1 = true.
Proof.
  intros h s. apply (security_verdict_exact naive_find le_val default_security default_behaviour h
    1%positive 6 (lit "/b") [(lit "q", lit "hello"); (lit "r", lit "1 UNION select 2")]).
  - intros v w Hv Hw. vm_compute in Hv, Hw.
    repeat (apply elem_of_cons in Hv as [->|Hv]; [|]); try by apply elem_of_nil in Hv.
    all: repeat (apply elem_of_cons in Hw as [->|Hw]; [|]); try by apply elem_of_nil in Hw.
    all: vm_compute; congruence.
  - reflexivity.
  - reflexivity.
  - simpl. lia.
  - right. left. exists (lit "r"), (lit "1 UNION select 2"). split; [set_solver|].
    split; [reflexivity|]. exists (lit "union select"). split; [unfold SQL_PATTERNS_PL1; set_solver|].
    exists (lit "1 "), (lit "UNION select"), (lit " 2"). split; vm_compute; reflexivity.
Defined.
