(* ===== verification/PathGuard.v ===== *)
(** * Request paths (turbine-core/src/path_guard.rs, and the application
    structure of compat.rs)

    Paths are byte strings, with Rust's reading of them on Unix: [components],
    [push] and [join]. The file system is a parameter: which paths name regular
    files, and which exist. Lower-casing is Unicode's and a parameter too. *)

From S2P Require Import Prelude RustStr.

(** ** std::path on Unix *)

Inductive Component := RootDir | CurDir | ParentDir | Normal (c : bytes).

#[global] Instance component_eq_dec : EqDecision Component.
Proof. solve_decision. Defined.

Definition slash : byte := x2f.

(** A piece between two separators that is not the first of a relative path:
    empty pieces and dots are skipped. *)
Definition component_of (w : bytes) : option Component :=
  if decide (w = []) then None
  else if decide (w = lit ".") then None
  else if decide (w = lit "..") then Some ParentDir
  else Some (Normal w).

Definition is_absolute (p : bytes) : bool := starts_with [slash] p.

(** [path.components()] *)
Definition components (p : bytes) : list Component :=
  match split slash p with
  | [] => []
  | w :: ws =>
      (if is_absolute p then [RootDir]
       else if decide (w = lit ".") then [CurDir]
       else option_list (component_of w)) ++ omap component_of ws
  end.

(** [path.starts_with(base)]: by components. *)
Definition path_starts_with (base p : bytes) : bool :=
  bool_decide (take (length (components base)) (components p) = components base).

(** [buf.push(p)] and [buf.join(p)]: an absolute path replaces the buffer, and
    a separator is added unless the buffer is empty or ends with one. *)
Definition path_push (buf p : bytes) : bytes :=
  if is_absolute p then p
  else match last buf with
       | None => p
       | Some c => if decide (c = slash) then buf ++ p else buf ++ slash :: p
       end.

Definition path_join (buf p : bytes) : bytes := path_push buf p.

(** ** RequestGuard *)

Inductive PathGuardError :=
| PathTraversal (path : bytes)
| NullByte (path : bytes)
| BlockedPath (path : bytes).

Definition BLOCKED_PATHS : list bytes :=
  [ lit "/etc"; lit "/var"; lit "/home"; lit "/root"; lit "/proc"; lit "/sys"; lit "/dev";
    lit "/tmp"; lit "/usr/sbin"; lit "/usr/bin"; lit "/sbin"; lit "/bin" ].

Record RequestGuard := { root : bytes }.

Section guard.
Context (to_lowercase : bytes → bytes).
Context (is_file : bytes → bool).

(** The loop of [normalize_path] over the components. *)
Fixpoint normalize_loop (path : bytes) (cs : list Component) (normalized : bytes)
    : result bytes PathGuardError :=
  match cs with
  | [] => Ok normalized
  | Normal c :: cs' => normalize_loop path cs' (path_push normalized c)
  | ParentDir :: _ => Err (PathTraversal path)
  | CurDir :: cs' | RootDir :: cs' => normalize_loop path cs' normalized
  end.

Definition normalize_path (path : bytes) : result bytes PathGuardError :=
  normalize_loop path (components path) [].

Definition check_blocked_path (path : bytes) : result () PathGuardError :=
  let lower := to_lowercase path in
  if existsb (λ b, starts_with b lower) BLOCKED_PATHS then Err (BlockedPath path)
  else if contains (lit "c:\") lower || contains (lit "c:/") lower then Err (BlockedPath path)
  else Ok ().

Definition validate (path : bytes) : result bytes PathGuardError :=
  if contains [x00] path then Err (NullByte path)
  else
    let? normalized := normalize_path path in
    let? _ := check_blocked_path path in
    Ok normalized.

Definition guard_exists (g : RequestGuard) (path : bytes) : bool :=
  if contains [x00] path then false
  else match normalize_path path with
       | Ok normalized => is_file (path_join (root g) normalized)
       | Err _ => false
       end.

Definition is_data_directory (path : bytes) (data_dirs : list bytes) : bool :=
  existsb (λ dir, starts_with (to_lowercase dir) (to_lowercase path)) data_dirs.

Definition is_whitelisted (path : bytes) (whitelist : list bytes) : bool :=
  existsb (λ w, bool_decide (path = w) || ends_with w path) whitelist.
End guard.

(** ** AppDetector and AppStructure *)

(** [document_root_str] is the display of [document_root], the same string for
    the valid UTF-8 that the paths here are. *)
Record AppStructure := {
  document_root : bytes;
  entry_point : bytes;
  front_controller : bool;
  has_composer : bool;
  has_env : bool;
  autoload_path : option bytes;
  document_root_str : bytes }.

Section app.
Context (path_exists : bytes → bool).
Context (is_file : bytes → bool).

Definition detect (app_root : bytes) : AppStructure :=
  let autoload := path_join (path_join app_root (lit "vendor")) (lit "autoload.php") in
  let composer := path_exists autoload in
  let env := path_exists (path_join app_root (lit ".env")) in
  let autoload_path := if composer then Some autoload else None in
  if path_exists (path_join (path_join app_root (lit "public")) (lit "index.php")) then
    let doc_root := path_join app_root (lit "public") in
    {| document_root := doc_root; document_root_str := doc_root; entry_point := lit "index.php";
       front_controller := true; has_composer := composer; has_env := env;
       autoload_path := autoload_path |}
  else if path_exists (path_join app_root (lit "index.php")) then
    {| document_root := app_root; document_root_str := app_root; entry_point := lit "index.php";
       front_controller := composer; has_composer := composer; has_env := env;
       autoload_path := autoload_path |}
  else
    {| document_root := app_root; document_root_str := app_root; entry_point := lit "index.php";
       front_controller := false; has_composer := false; has_env := false;
       autoload_path := None |}.

Definition resolve_path (app : AppStructure) (uri_path : bytes) : bytes :=
  let clean := default uri_path (head (split x3f uri_path)) in
  let relative := trim_start_matches slash clean in
  let php := ends_with (lit ".php") clean in
  let empty := bool_decide (relative = []) in
  if php && negb empty && is_file (path_join (document_root app) relative) then relative
  else if negb empty && negb php && is_file (path_join (document_root app) relative) then relative
  else
    let trimmed := trim_end_matches slash relative in
    let dir_index := trimmed ++ lit "/index.php" in
    if negb (bool_decide (trimmed = [])) && is_file (path_join (document_root app) dir_index)
    then dir_index
    else if front_controller app || bool_decide (clean = lit "/") || empty
    then entry_point app
    else relative.
End app.

(** The tests of the sources. *)
Example validate_tests :
  validate to_ascii_lowercase (lit "index.php") = Ok (lit "index.php") ∧
  validate to_ascii_lowercase (lit "../../../etc/passwd") =
    Err (PathTraversal (lit "../../../etc/passwd")) ∧
  validate to_ascii_lowercase (lit "src/../../etc/shadow") =
    Err (PathTraversal (lit "src/../../etc/shadow")) ∧
  validate to_ascii_lowercase (lit "index.php" ++ x00 :: lit ".jpg") =
    Err (NullByte (lit "index.php" ++ x00 :: lit ".jpg")) ∧
  validate to_ascii_lowercase (lit "/etc/passwd") = Err (BlockedPath (lit "/etc/passwd")) ∧
  validate to_ascii_lowercase (lit ".//a/./b/") = Ok (lit "a/b").
Proof. vm_compute. done. Qed.

Example resolve_tests :
  let app fc := {| document_root := lit "/app"; document_root_str := lit "/app";
    entry_point := lit "index.php"; front_controller := fc; has_composer := fc;
    has_env := fc; autoload_path := None |} in
  let fs p := bool_decide (p = lit "/app/info.php" ∨ p = lit "/app/admin/index.php") in
  resolve_path fs (app true) (lit "/api/users") = lit "index.php" ∧
  resolve_path fs (app true) (lit "/login?redirect=/") = lit "index.php" ∧
  resolve_path fs (app false) (lit "/info.php?x=1") = lit "info.php" ∧
  resolve_path fs (app false) (lit "/admin/") = lit "admin/index.php" ∧
  resolve_path fs (app false) (lit "/api/users.php?id=1") = lit "api/users.php".
Proof. vm_compute. done. Qed.

(** ** Lemmas *)

(** The pieces of a path that name something: neither empty nor a dot. *)
Definition names (w : bytes) : bool := negb (bool_decide (w = []) || bool_decide (w = lit ".")).

Definition pieces (p : bytes) : list bytes := List.filter names (split slash p).

(** A piece that [push] appends below the buffer. *)
Definition plain (w : bytes) : Prop := w ≠ [] ∧ slash ∉ w.

Lemma path_starts_with_spec base p : path_starts_with base p = true →
  ∃ rest, components p = components base ++ rest.
Proof.
  intros E%bool_decide_eq_true. exists (drop (length (components base)) (components p)).
  transitivity (take (length (components base)) (components p) ++
                drop (length (components base)) (components p)); [by rewrite take_drop|by rewrite E].
Qed.

Lemma split_no_sep c s : Forall (λ w, c ∉ w) (split c s).
Proof.
  induction s as [|x s IH]; simpl; [by repeat constructor; apply not_elem_of_nil|].
  case_decide; [by constructor; [apply not_elem_of_nil|]|].
  destruct (split c s) as [|w ws]; [by repeat constructor; set_solver|].
  apply Forall_cons in IH as [Hw IH]. constructor; [set_solver|done].
Qed.

Lemma split_app c s t : split c (s ++ c :: t) = split c s ++ split c t.
Proof.
  induction s as [|x s IH]; simpl; [by rewrite decide_True|]. case_decide; [by rewrite IH|].
  rewrite IH. pose proof (split_nonempty c s). by destruct (split c s).
Qed.

Lemma split_single c w : c ∉ w → split c w = [w].
Proof.
  induction w as [|x w IH]; intros Hw; [done|]. simpl.
  rewrite decide_False by set_solver. by rewrite IH by set_solver.
Qed.

Lemma split_join c ws : ws ≠ [] → Forall (λ w, c ∉ w) ws → split c (RustStr.join c ws) = ws.
Proof.
  induction ws as [|w ws IH]; [done|]. intros _ [Hw Hws]%Forall_cons.
  destruct ws as [|w' ws]; [by apply split_single|].
  change (RustStr.join c (w :: w' :: ws)) with (w ++ c :: RustStr.join c (w' :: ws)).
  by rewrite split_app, (split_single c w Hw), IH by done.
Qed.

Lemma pieces_plain p : Forall plain (pieces p).
Proof.
  apply Forall_forall. intros w [Hin Hn]%list_elem_of_In%filter_In.
  pose proof (split_no_sep slash p) as Hs. rewrite Forall_forall in Hs.
  split; [|by apply Hs, list_elem_of_In]. intros ->. done.
Qed.

Lemma is_absolute_split p : is_absolute p = true ↔ ∃ q, p = slash :: q.
Proof. rewrite <-Is_true_true. apply starts_with_spec. Qed.

Lemma plain_relative w : plain w → is_absolute w = false.
Proof.
  intros [_ Hs]. destruct (is_absolute w) eqn:E; [|done].
  apply is_absolute_split in E as [q ->]. set_solver.
Qed.

Lemma component_of_spec w :
  component_of w = if names w then Some (if decide (w = lit "..") then ParentDir else Normal w)
                   else None.
Proof. unfold component_of, names. repeat case_decide; repeat case_bool_decide; by simplify_eq/=. Qed.

Definition classify (w : bytes) : Component :=
  if decide (w = lit "..") then ParentDir else Normal w.

Lemma omap_component ws : omap component_of ws = classify <$> List.filter names ws.
Proof.
  induction ws as [|w ws IH]; [done|]. csimpl. rewrite component_of_spec.
  destruct (names w); csimpl; by rewrite IH.
Qed.

(** The components are those of the pieces, after at most a mark of the start. *)
Lemma components_pieces p : ∃ pre, components p = pre ++ (classify <$> pieces p) ∧
  (pre = [] ∨ pre = [RootDir] ∨ pre = [CurDir]).
Proof.
  unfold components, pieces. pose proof (split_nonempty slash p) as Hne.
  destruct (split slash p) as [|w ws] eqn:E; [done|]. rewrite omap_component.
  destruct (is_absolute p) eqn:Ea.
  - apply is_absolute_split in Ea as [q ->]. simpl in E.
    simplify_eq. exists [RootDir]. simpl. auto.
  - case_decide as Hd; [exists [CurDir]; subst w; simpl; auto|].
    exists []. simpl. rewrite component_of_spec. split; [|auto]. by destruct (names w).
Qed.

Lemma join_snoc c ws w : ws ≠ [] → RustStr.join c (ws ++ [w]) = RustStr.join c ws ++ c :: w.
Proof.
  induction ws as [|w1 ws IH]; [done|]. intros _. destruct ws as [|w2 ws]; [done|].
  change (w1 ++ c :: RustStr.join c ((w2 :: ws) ++ [w]) =
          (w1 ++ c :: RustStr.join c (w2 :: ws)) ++ c :: w).
  rewrite IH by done. by rewrite <-(assoc_L app).
Qed.

Lemma last_join ws : ws ≠ [] → Forall plain ws → ∃ x, last (RustStr.join slash ws) = Some x ∧ x ≠ slash.
Proof.
  intros Hne Hws. destruct ws as [|w ws] using rev_ind; [done|]. clear IHws Hne.
  apply Forall_app in Hws as [_ [[Hw Hs] _]%Forall_cons].
  assert (∃ x, last w = Some x ∧ x ≠ slash) as (x & Hx & Hxs).
  { destruct w as [|y w _] using rev_ind; [done|]. exists y. rewrite last_snoc. set_solver. }
  exists x. split; [|done]. destruct ws as [|w' ws]; [done|].
  rewrite join_snoc by done. rewrite last_app, last_cons, Hx. done.
Qed.

Lemma path_push_join ws w : Forall plain ws → plain w →
  path_push (RustStr.join slash ws) w = RustStr.join slash (ws ++ [w]).
Proof.
  intros Hws Hw. unfold path_push. rewrite plain_relative by done.
  destruct (decide (ws = [])) as [->|Hne]; [done|].
  destruct (last_join ws Hne Hws) as (x & -> & Hx). by rewrite decide_False, join_snoc.
Qed.

Lemma normalize_loop_pieces path ws done : Forall plain done → Forall plain ws →
  normalize_loop path (classify <$> ws) (RustStr.join slash done) =
  if decide (lit ".." ∈ ws) then Err (PathTraversal path)
  else Ok (RustStr.join slash (done ++ ws)).
Proof.
  revert done. induction ws as [|w ws IH]; intros done Hd Hws.
  { by rewrite app_nil_r. }
  apply Forall_cons in Hws as [Hw Hws]. simpl. unfold classify at 1.
  destruct (decide (w = lit "..")) as [Ew|Hdd].
  { rewrite decide_True; [done|]. rewrite Ew. apply list_elem_of_here. }
  rewrite path_push_join, IH by first [done|by apply Forall_app; auto].
  rewrite <-(assoc_L app). simpl. repeat case_decide; set_solver.
Qed.

Lemma normalize_path_pieces path : normalize_path path =
  if decide (lit ".." ∈ pieces path) then Err (PathTraversal path)
  else Ok (RustStr.join slash (pieces path)).
Proof.
  unfold normalize_path. destruct (components_pieces path) as (pre & -> & Hpre).
  etransitivity;
    [|exact (normalize_loop_pieces path (pieces path) [] (Forall_nil_2 _) (pieces_plain path))].
  by destruct Hpre as [->|[->| ->]].
Qed.

(** The names of a joined path are the names of both, and a normalised path has
    the names of the path it comes from. *)
Lemma pieces_below r p : pieces (r ++ slash :: p) = pieces r ++ pieces p.
Proof. unfold pieces. by rewrite split_app, List.filter_app. Qed.

Lemma pieces_join_pieces p : pieces (RustStr.join slash (pieces p)) = pieces p.
Proof.
  destruct (decide (pieces p = [])) as [->|Hne]; [done|]. unfold pieces at 1.
  rewrite split_join.
  - unfold pieces. induction (split slash p) as [|w ws IH]; [done|]. simpl.
    destruct (names w) eqn:E; [|done]. simpl. by rewrite E, IH.
  - done.
  - eapply Forall_impl; [apply pieces_plain|]. by intros w [_ ?].
Qed.

Lemma path_join_pieces r p : is_absolute p = false → pieces (path_join r p) = pieces r ++ pieces p.
Proof.
  intros Ha. unfold path_join, path_push. rewrite Ha.
  destruct r as [|c r _] using rev_ind; [done|]. rewrite last_snoc.
  case_decide; [|by rewrite pieces_below]. subst. rewrite <-(assoc_L app). simpl.
  rewrite pieces_below. replace (r ++ [slash]) with (r ++ slash :: []) by done.
  rewrite pieces_below. unfold pieces at 4. simpl. by rewrite app_nil_r.
Qed.

Lemma contains_byte c s : contains [c] s = bool_decide (c ∈ s).
Proof.
  apply Bool.eq_iff_eq_true. rewrite bool_decide_eq_true, <-Is_true_true, contains_spec.
  split; [intros (l & r & ->); set_solver|]. intros (l & r & ->)%list_elem_of_split. by exists l, r.
Qed.

Lemma dotdot_pieces p : lit ".." ∈ pieces p ↔ lit ".." ∈ split slash p.
Proof. unfold pieces. rewrite !list_elem_of_In, filter_In. intuition. Qed.

Lemma join_relative ws : Forall plain ws → is_absolute (RustStr.join slash ws) = false.
Proof.
  intros Hws. destruct ws as [|w ws]; [done|]. apply Forall_cons in Hws as [[Hw Hs] _].
  destruct w as [|x w]; [done|]. unfold is_absolute, starts_with.
  apply bool_decide_eq_false. assert (x ≠ slash) by set_solver. by destruct ws; intros [=].
Qed.

(** ** The guard *)

(** Validation in one equation: a NUL byte is refused first, then a [..] between
    separators, then a lower-cased path that starts with a system path or contains a
    drive letter; any other path is accepted, and what comes back is its names joined by
    single separators, a relative path with the same names and nothing else. *)
Theorem validate_exact (to_lowercase : bytes → bytes) (path : bytes) :
  validate to_lowercase path =
    (if decide (x00 ∈ path) then Err (NullByte path)
     else if decide (lit ".." ∈ split slash path) then Err (PathTraversal path)
     else if decide (Exists (λ b, starts_with b (to_lowercase path) = true) BLOCKED_PATHS ∨
                     contains (lit "c:\") (to_lowercase path) = true ∨
                     contains (lit "c:/") (to_lowercase path) = true) then Err (BlockedPath path)
     else Ok (RustStr.join slash (pieces path))) ∧
  pieces (RustStr.join slash (pieces path)) = pieces path ∧
  is_absolute (RustStr.join slash (pieces path)) = false.
Proof.
  split; [|split; [apply pieces_join_pieces|apply join_relative, pieces_plain]].
  unfold validate. rewrite contains_byte, normalize_path_pieces.
  destruct (decide (x00 ∈ path)); [by rewrite bool_decide_true|].
  rewrite bool_decide_false by done. pose proof (dotdot_pieces path) as Hd.
  destruct (decide (lit ".." ∈ pieces path)), (decide (lit ".." ∈ split slash path)); try tauto.
  simpl. unfold check_blocked_path.
  destruct (existsb (λ b, starts_with b (to_lowercase path)) BLOCKED_PATHS) eqn:E1.
  - apply existsb_exists in E1 as (b & Hb & Hs). rewrite decide_True; [done|]. left.
    apply Exists_exists. exists b. by rewrite list_elem_of_In.
  - assert (¬ Exists (λ b, starts_with b (to_lowercase path) = true) BLOCKED_PATHS) as Hn.
    { rewrite Exists_exists. intros (b & Hb & Hs). rewrite <-not_true_iff_false, existsb_exists in E1.
      apply E1. exists b. by rewrite <-list_elem_of_In. }
    destruct (contains _ _) eqn:E2, (contains (lit "c:/") _) eqn:E3; simpl; case_decide; intuition done.
Qed.
