(* ===== verification/Http.v ===== *)
(** * HTTP responses (turbine-core/src/http_helpers.rs, compression.rs, and the
    outer request handler of main.rs)

    Building responses, CORS, query parameters, content types, and the
    negotiation of a compression. hyper's header map is a finite map from
    lower-case names to the values in order; which names, values and status
    codes hyper accepts, the codecs and the version of the crate are parameters. *)

From S2P Require Import Prelude RustStr.

(** ** hyper *)

Abbreviation header_map := (gmap bytes (list bytes)).

Definition hm_append (name value : bytes) (h : header_map) : header_map :=
  partial_alter (λ vs, Some (default [] vs ++ [value])) (to_ascii_lowercase name) h.

Definition hm_insert (name value : bytes) (h : header_map) : header_map :=
  <[to_ascii_lowercase name := [value]]> h.

Definition hm_remove (name : bytes) (h : header_map) : header_map :=
  delete (to_ascii_lowercase name) h.

(** [headers.get(name)]: the first value. *)
Definition hm_get (name : bytes) (h : header_map) : option bytes :=
  h !! to_ascii_lowercase name ≫= head.

Definition hm_contains (name : bytes) (h : header_map) : bool :=
  bool_decide (is_Some (h !! to_ascii_lowercase name)).

(** A body in memory, or the items that come out of a channel until it closes. *)
Inductive Body := Full (data : bytes) | Channel (items : list (result bytes ())).

Record Response := { rs_status : Z; rs_headers : header_map; rs_body : Body }.

(** [body.collect().await] *)
Fixpoint collect_items (items : list (result bytes ())) : option bytes :=
  match items with
  | [] => Some []
  | Ok data :: items' => app data <$> collect_items items'
  | Err _ :: _ => None
  end.

Definition collect (b : Body) : option bytes :=
  match b with Full data => Some data | Channel items => collect_items items end.

(** ** CORS *)

Record CorsConfig := {
  cors_enabled : bool;
  allow_origins : list bytes;
  allow_credentials : bool;
  allow_methods : list bytes;
  allow_headers : list bytes;
  expose_headers : list bytes;
  max_age : Z }.

Definition cors_origin_allowed (cors : CorsConfig) (origin : bytes) : bool :=
  existsb (λ o, bool_decide (o = lit "*") || bool_decide (o = origin)) (allow_origins cors).

(** [xs.join(", ")] *)
Fixpoint join_comma (xs : list bytes) : bytes :=
  match xs with
  | [] => []
  | [x] => x
  | x :: xs' => x ++ lit ", " ++ join_comma xs'
  end.

(** ** Small parsers *)

Definition query_param (qs name : bytes) : option bytes :=
  let pairs := (λ pair, match split_once x3d pair with
                        | Some (k, v) => (k, Some v)
                        | None => (pair, None)
                        end) <$> split x26 qs in
  match list_find (λ p, p.1 = name) pairs with
  | Some (_, (_, v)) => v
  | None => None
  end.

Definition parse_php_size (s : bytes) : option Z :=
  let trimmed := trim s in
  if bool_decide (trimmed = []) || bool_decide (trimmed = lit "0") then None
  else
    let cut := take (length trimmed - 1) trimmed in
    let '(num_part, mult) :=
      match last trimmed with
      | Some x4b | Some x6b => (cut, 1024)
      | Some x4d | Some x6d => (cut, 1024 * 1024)
      | Some x47 | Some x67 => (cut, 1024 * 1024 * 1024)
      | _ => (trimmed, 1)
      end in
    n ← parse_uint u64_max (trim num_part);
    if n * mult <=? u64_max then Some (n * mult) else None.

Definition detect_content_type (output : bytes) : bytes :=
  let prefix := take 256 output in
  if starts_with (lit "{") prefix || starts_with (lit "[") prefix then lit "application/json"
  else if contains (lit "<html>") prefix || contains (lit "<HTML>") prefix ||
          contains (lit "<!DOCTYPE") prefix || contains (lit "<!doctype") prefix
  then lit "text/html; charset=utf-8"
  else lit "text/plain; charset=utf-8".

Fixpoint response_should_stream (headers : list (bytes * bytes)) : bool :=
  match headers with
  | [] => false
  | (k, v) :: hs =>
      if eq_ignore_ascii_case k (lit "Content-Type") then
        if starts_with (lit "text/event-stream") (to_ascii_lowercase (trim_start v)) then true
        else response_should_stream hs
      else if eq_ignore_ascii_case k (lit "X-Accel-Buffering") &&
              eq_ignore_ascii_case (trim v) (lit "no") then true
      else response_should_stream hs
  end.

(** ** Compression *)

Definition is_compressible_content_type (ct : bytes) : bool :=
  contains (lit "text/") ct || contains (lit "application/json") ct ||
  contains (lit "application/javascript") ct || contains (lit "application/xml") ct ||
  contains (lit "image/svg+xml") ct || contains (lit "application/manifest+json") ct.

Section http.
Context (to_lowercase : bytes → bytes).
(** What hyper accepts, and the version of the crate. *)
Context (valid_status : Z → bool) (valid_name valid_value : bytes → bool) (version : bytes).
(** The encoders at a level, when they succeed. *)
Context (gzip brotli zstd : Z → bytes → option bytes).

Definition gzip_compress (data : bytes) (level : Z) : bytes := default data (gzip level data).

Definition brotli_compress (data : bytes) (level : Z) : bytes :=
  default data (brotli (Z.min level 11) data).

Definition zstd_compress (data : bytes) (level : Z) : bytes :=
  default data (zstd (Z.min level 19) data).

Fixpoint negotiate_compression (accept_encoding : bytes) (server_prefs : list bytes) (data : bytes)
    (level : Z) : option (bytes * bytes) :=
  let ae := to_lowercase accept_encoding in
  match server_prefs with
  | [] => None
  | pref :: prefs =>
      if bool_decide (pref = lit "br") && contains (lit "br") ae then
        Some (lit "br", brotli_compress data level)
      else if bool_decide (pref = lit "zstd") && contains (lit "zstd") ae then
        Some (lit "zstd", zstd_compress data level)
      else if bool_decide (pref = lit "gzip") && contains (lit "gzip") ae then
        Some (lit "gzip", gzip_compress data level)
      else negotiate_compression accept_encoding prefs data level
  end.

(** ** Building responses *)

Definition status_code (status : Z) : Z := if valid_status status then status else 500.

Definition add_valid (h : header_map) (nv : bytes * bytes) : header_map :=
  if valid_name nv.1 && valid_value nv.2 then hm_append nv.1 nv.2 h else h.

Definition security_headers (h : header_map) : header_map :=
  foldl (λ h nv, hm_append nv.1 nv.2 h) h
    [ (lit "Server", lit "Turbine/" ++ version);
      (lit "X-Content-Type-Options", lit "nosniff");
      (lit "X-Frame-Options", lit "SAMEORIGIN");
      (lit "X-XSS-Protection", lit "0");
      (lit "Referrer-Policy", lit "strict-origin-when-cross-origin");
      (lit "Permissions-Policy", lit "camera=(), microphone=(), geolocation=()") ].

(** A content type that hyper refuses makes the builder fail. *)
Definition build_response (status : Z) (content_type data : bytes)
    (extra_headers : list (bytes * bytes)) : Response :=
  if valid_value content_type then
    let h := hm_append (lit "Content-Length") (dec_string (zlen data))
               (hm_append (lit "Content-Type") content_type ∅) in
    {| rs_status := status_code status;
       rs_headers := foldl add_valid (security_headers h) extra_headers;
       rs_body := Full data |}
  else {| rs_status := 500; rs_headers := ∅; rs_body := Full (lit "Internal response build error") |}.

(** One header of a streamed response. *)
Definition stream_header (h : header_map) (nv : bytes * bytes) : header_map :=
  if eq_ignore_ascii_case nv.1 (lit "Content-Length") then h
  else
    let h := if eq_ignore_ascii_case nv.1 (lit "Cache-Control") ||
                eq_ignore_ascii_case nv.1 (lit "X-Accel-Buffering")
             then hm_remove nv.1 h else h in
    add_valid h nv.

Definition build_streaming_response (status : Z) (headers : list (bytes * bytes))
    (items : list (result bytes ())) : Response :=
  let h := hm_append (lit "X-Accel-Buffering") (lit "no")
             (hm_append (lit "Cache-Control") (lit "no-cache") (security_headers ∅)) in
  let h := foldl stream_header h headers in
  let seen_ct := existsb (λ nv, eq_ignore_ascii_case nv.1 (lit "Content-Type")) headers in
  {| rs_status := status_code status;
     rs_headers := (if seen_ct then h
                    else hm_append (lit "Content-Type") (lit "application/octet-stream") h);
     rs_body := Channel items |}.

Definition insert_valid (name value : bytes) (h : header_map) : header_map :=
  if valid_value value then hm_insert name value h else h.

Definition apply_cors_headers (cors : CorsConfig) (origin : bytes) (h : header_map) : header_map :=
  let any := existsb (λ o, bool_decide (o = lit "*")) (allow_origins cors) in
  let origin_value := if any && negb (allow_credentials cors) then lit "*" else origin in
  let h := insert_valid (lit "Access-Control-Allow-Origin") origin_value h in
  let h := if allow_credentials cors
           then hm_insert (lit "Access-Control-Allow-Credentials") (lit "true") h else h in
  let h := insert_valid (lit "Access-Control-Allow-Methods") (join_comma (allow_methods cors)) h in
  let h := insert_valid (lit "Access-Control-Allow-Headers") (join_comma (allow_headers cors)) h in
  let h := if negb (bool_decide (expose_headers cors = []))
           then insert_valid (lit "Access-Control-Expose-Headers")
                  (join_comma (expose_headers cors)) h else h in
  if 0 <? max_age cors
  then hm_insert (lit "Access-Control-Max-Age") (dec_string (max_age cors)) h else h.

(** ** The outer handler *)

Record HttpConfig := {
  hc_is_tls : bool;
  hc_cors : CorsConfig;
  compression_enabled : bool;
  compression_min_size : Z;
  compression_level : Z;
  compression_algorithms : list bytes }.

(** Of the request, the method and the headers that are text. *)
Record outer_request := {
  or_method : bytes;
  or_origin : option bytes;
  or_accept_encoding : option bytes }.

(** The origin is echoed when it is allowed. *)
Definition with_cors (cfg : HttpConfig) (origin : option bytes) (r : Response) : Response :=
  match origin with
  | Some o =>
      if cors_enabled (hc_cors cfg) && cors_origin_allowed (hc_cors cfg) o then
        {| rs_status := rs_status r; rs_headers := apply_cors_headers (hc_cors cfg) o (rs_headers r);
           rs_body := rs_body r |}
      else r
  | None => r
  end.

(** [unwrap_or_default]: a body that breaks off is taken as empty. *)
Definition compress (cfg : HttpConfig) (accept_encoding : bytes) (r : Response) : Response :=
  let ct := default [] (hm_get (lit "Content-Type") (rs_headers r)) in
  if compression_enabled cfg && negb (bool_decide (accept_encoding = [])) &&
     negb (hm_contains (lit "Content-Encoding") (rs_headers r)) &&
     is_compressible_content_type ct then
    let data := default [] (collect (rs_body r)) in
    let plain := {| rs_status := rs_status r; rs_headers := rs_headers r; rs_body := Full data |} in
    if compression_min_size cfg <=? zlen data then
      match negotiate_compression accept_encoding (compression_algorithms cfg) data
              (compression_level cfg) with
      | Some (encoding, compressed) =>
          {| rs_status := rs_status r;
             rs_headers := hm_insert (lit "Content-Length") (dec_string (zlen compressed))
               (hm_insert (lit "Vary") (lit "Accept-Encoding")
                 (hm_insert (lit "Content-Encoding") encoding (rs_headers r)));
             rs_body := Full compressed |}
      | None => plain
      end
    else plain
  else r.

(** [inner] is the response of [handle_request_inner], when it is reached. *)
Definition handle_request (cfg : HttpConfig) (req : outer_request) (inner : Response) : Response :=
  let accept_encoding := default [] (or_accept_encoding req) in
  let is_preflight := bool_decide (or_method req = lit "OPTIONS") &&
                      bool_decide (is_Some (or_origin req)) in
  let allowed := from_option (cors_origin_allowed (hc_cors cfg)) false (or_origin req) in
  if cors_enabled (hc_cors cfg) && is_preflight && allowed then
    with_cors cfg (or_origin req) (build_response 204 (lit "text/plain") [] [])
  else
    let r := inner in
    let r := if hc_is_tls cfg then
               {| rs_status := rs_status r;
                  rs_headers := hm_insert (lit "Strict-Transport-Security")
                    (lit "max-age=63072000; includeSubDomains; preload") (rs_headers r);
                  rs_body := rs_body r |}
             else r in
    compress cfg accept_encoding (with_cors cfg (or_origin req) r).
End http.

(** The tests of the sources. *)
Example query_param_ex : query_param (lit "a=1&b=2&c&b=3") (lit "b") = Some (lit "2") ∧
  query_param (lit "a=1&c") (lit "c") = None ∧ query_param (lit "a=x=y") (lit "a") = Some (lit "x=y").
Proof. vm_compute. done. Qed.

Example parse_php_size_ex :
  parse_php_size (lit "64M") = Some 67108864 ∧ parse_php_size (lit " 2g ") = Some 2147483648 ∧
  parse_php_size (lit "1024") = Some 1024 ∧ parse_php_size (lit "0") = None ∧
  parse_php_size (lit "abc") = None ∧ parse_php_size (lit "18014398509481984K") = None.
Proof. vm_compute. done. Qed.

(** ** Lemmas *)

Lemma hm_get_insert name v h : hm_get name (hm_insert name v h) = Some v.
Proof. unfold hm_get, hm_insert. by rewrite lookup_insert_eq. Qed.

Lemma hm_lookup_insert_ne name name' v h :
  to_ascii_lowercase name' ≠ to_ascii_lowercase name →
  hm_insert name' v h !! to_ascii_lowercase name = h !! to_ascii_lowercase name.
Proof. intros Hn. unfold hm_insert. by rewrite lookup_insert_ne. Qed.

Lemma hm_get_insert_ne name name' v h :
  to_ascii_lowercase name' ≠ to_ascii_lowercase name →
  hm_get name (hm_insert name' v h) = hm_get name h.
Proof. intros Hn. unfold hm_get. by rewrite hm_lookup_insert_ne. Qed.

(** The headers that the handler adds itself are none of the ones of the body. *)
Definition entity_headers : list bytes :=
  [lit "Content-Type"; lit "Content-Length"; lit "Content-Encoding"].

Section lemmas.
Context (valid_value : bytes → bool).

Lemma insert_valid_ne name name' v h :
  to_ascii_lowercase name' ≠ to_ascii_lowercase name →
  insert_valid valid_value name' v h !! to_ascii_lowercase name = h !! to_ascii_lowercase name.
Proof. intros Hn. unfold insert_valid. case_match; [by apply hm_lookup_insert_ne|done]. Qed.

Lemma cors_entity cors o h name : name ∈ entity_headers →
  apply_cors_headers valid_value cors o h !! to_ascii_lowercase name = h !! to_ascii_lowercase name.
Proof.
  intros Hin. unfold apply_cors_headers.
  assert (Forall (λ n, Forall (λ n', to_ascii_lowercase n' ≠ to_ascii_lowercase n)
    [lit "Access-Control-Allow-Origin"; lit "Access-Control-Allow-Credentials";
     lit "Access-Control-Allow-Methods"; lit "Access-Control-Allow-Headers";
     lit "Access-Control-Expose-Headers"; lit "Access-Control-Max-Age"]) entity_headers) as Hall
    by (apply (bool_decide_unpack _); by vm_compute).
  rewrite Forall_forall in Hall. specialize (Hall name Hin).
  rewrite !Forall_cons in Hall. destruct Hall as (? & ? & ? & ? & ? & ? & _).
  repeat case_match; rewrite ?hm_lookup_insert_ne, ?insert_valid_ne by done;
    repeat (rewrite ?hm_lookup_insert_ne, ?insert_valid_ne by done); done.
Qed.

Lemma with_cors_entity cfg origin r name : name ∈ entity_headers →
  rs_headers (with_cors valid_value cfg origin r) !! to_ascii_lowercase name =
  rs_headers r !! to_ascii_lowercase name.
Proof.
  intros Hin. unfold with_cors. repeat case_match; [|done..]. by apply cors_entity.
Qed.

Lemma with_cors_rest cfg origin r :
  rs_status (with_cors valid_value cfg origin r) = rs_status r ∧
  rs_body (with_cors valid_value cfg origin r) = rs_body r.
Proof. unfold with_cors. by repeat case_match. Qed.
End lemmas.

(** ** What the client sees *)

(** A decoder that inverts an encoder. *)
Class Codec (enc : Z → bytes → option bytes) (dec : bytes → option bytes) : Prop :=
  codec_roundtrip level d e : enc level d = Some e → dec e = Some d.

Section client.
Context (to_lowercase : bytes → bytes) (valid_status : Z → bool).
Context (valid_name valid_value : bytes → bool) (version : bytes).
Context (gzip brotli zstd : Z → bytes → option bytes).
Context (gunzip unbrotli unzstd : bytes → option bytes).
Context `{!Codec gzip gunzip, !Codec brotli unbrotli, !Codec zstd unzstd}.

#[local] Abbreviation negotiate := (negotiate_compression to_lowercase gzip brotli zstd).
#[local] Abbreviation handle :=
  (handle_request to_lowercase valid_status valid_name valid_value version gzip brotli zstd).

Definition decode (encoding data : bytes) : option bytes :=
  if bool_decide (encoding = lit "br") then unbrotli data
  else if bool_decide (encoding = lit "zstd") then unzstd data
  else if bool_decide (encoding = lit "gzip") then gunzip data
  else None.

(** The body after the content encoding is undone. *)
Definition client_body (r : Response) : option bytes :=
  data ← collect (rs_body r);
  match hm_get (lit "Content-Encoding") (rs_headers r) with
  | None => Some data
  | Some encoding => decode encoding data
  end.

Lemma negotiate_decodes accept prefs data level enc e :
  (∀ l, is_Some (gzip l data) ∧ is_Some (brotli l data) ∧ is_Some (zstd l data)) →
  negotiate accept prefs data level = Some (enc, e) → decode enc e = Some data.
Proof.
  intros Hs. induction prefs as [|p prefs IH]; [done|]. simpl.
  destruct (bool_decide (p = lit "br") && _); [|destruct (bool_decide (p = lit "zstd") && _);
    [|destruct (bool_decide (p = lit "gzip") && _); [|exact IH]]];
    intros [= <- <-]; unfold decode; simpl.
  - destruct (Hs (Z.min level 11)) as (_ & [e He] & _). unfold brotli_compress. rewrite He.
    by eapply codec_roundtrip.
  - destruct (Hs (Z.min level 19)) as (_ & _ & [e He]). unfold zstd_compress. rewrite He.
    by eapply codec_roundtrip.
  - destruct (Hs level) as ([e He] & _ & _). unfold gzip_compress. rewrite He.
    by eapply codec_roundtrip.
Qed.

(** What the handler does before compression leaves the entity alone. *)
Definition same_entity (r r' : Response) : Prop :=
  rs_status r = rs_status r' ∧ rs_body r = rs_body r' ∧
  ∀ name, name ∈ entity_headers →
    rs_headers r !! to_ascii_lowercase name = rs_headers r' !! to_ascii_lowercase name.

Lemma same_entity_get r r' name : same_entity r r' → name ∈ entity_headers →
  hm_get name (rs_headers r) = hm_get name (rs_headers r').
Proof. intros (_ & _ & H) Hn. unfold hm_get. by rewrite H. Qed.

Lemma same_entity_client r r' : same_entity r r' → client_body r = client_body r'.
Proof.
  intros H. unfold client_body. rewrite (same_entity_get r r') by (done || set_solver).
  by destruct H as (_ & -> & _).
Qed.

(** The preflight request that is answered at once. *)
Definition preflight (cfg : HttpConfig) (req : outer_request) : bool :=
  cors_enabled (hc_cors cfg) && bool_decide (or_method req = lit "OPTIONS") &&
  from_option (cors_origin_allowed (hc_cors cfg)) false (or_origin req).

Lemma handle_compress cfg req inner : preflight cfg req = false →
  ∃ r, same_entity r inner ∧
    handle cfg req inner =
      compress to_lowercase gzip brotli zstd cfg (default [] (or_accept_encoding req)) r.
Proof.
  unfold preflight, handle_request. intros Hp.
  assert (cors_enabled (hc_cors cfg) && (bool_decide (or_method req = lit "OPTIONS") &&
    bool_decide (is_Some (or_origin req))) &&
    from_option (cors_origin_allowed (hc_cors cfg)) false (or_origin req) = false) as ->.
  { destruct (or_origin req) as [o|]; simpl in *; [|by rewrite !andb_false_r].
    by rewrite andb_true_r. }
  eexists. split; [|done]. set (r0 := if hc_is_tls cfg then _ else _).
  destruct (with_cors_rest valid_value cfg (or_origin req) r0) as [E1 E2].
  split; [|split]; [rewrite E1; unfold r0; by destruct (hc_is_tls cfg)|
                    rewrite E2; unfold r0; by destruct (hc_is_tls cfg)|].
  intros name Hn. rewrite with_cors_entity by done. unfold r0. destruct (hc_is_tls cfg); [|done].
  simpl. apply hm_lookup_insert_ne. revert name Hn. apply Forall_forall.
  apply (bool_decide_unpack _). by vm_compute.
Qed.

(** C23: Compression is transparent: with encoders that succeed, a client that undoes the
    content encoding of the response gets the body that the inner handler produced, with
    its status, and the length that the response declares is that of the bytes sent. *)
Theorem compression_transparent (cfg : HttpConfig) (req : outer_request) (inner : Response)
    (data : bytes) :
  preflight cfg req = false → rs_body inner = Full data →
  (∀ l, is_Some (gzip l data) ∧ is_Some (brotli l data) ∧ is_Some (zstd l data)) →
  hm_get (lit "Content-Length") (rs_headers inner) = Some (dec_string (zlen data)) →
  let r := handle cfg req inner in
  rs_status r = rs_status inner ∧ client_body r = client_body inner ∧
  ∃ sent, rs_body r = Full sent ∧
    hm_get (lit "Content-Length") (rs_headers r) = Some (dec_string (zlen sent)).
Proof.
  intros Hp Hb Hs Hl. destruct (handle_compress cfg req inner Hp) as (r & He & ->).
  rewrite <-(same_entity_client r inner He).
  pose proof (same_entity_get _ _ (lit "Content-Length") He ltac:(set_solver)) as Hl'.
  rewrite Hl in Hl'. destruct He as (Hst & Hbody & Hh). rewrite Hb in Hbody. unfold compress.
  destruct (_ && is_compressible_content_type _) eqn:Ec; [|by rewrite <-Hst; eauto].
  rewrite Hbody. simpl. destruct (_ <=? _); [|rewrite <-Hst; unfold client_body; simpl; rewrite Hbody; eauto].
  destruct (negotiate _ _ _ _) as [[enc e]|] eqn:En;
    [|rewrite <-Hst; unfold client_body; simpl; rewrite Hbody; eauto].
  apply negotiate_decodes in En; [|done]. simpl. split_and!; [done| |].
  - unfold client_body. simpl. rewrite Hbody. simpl.
    rewrite hm_get_insert_ne, hm_get_insert_ne, hm_get_insert by (by vm_compute). rewrite En.
    rewrite !andb_true_iff in Ec. destruct Ec as [[_ Hn] _].
    unfold hm_contains in Hn. apply negb_true_iff, bool_decide_eq_false, eq_None_not_Some in Hn.
    unfold hm_get. by rewrite Hn.
  - eexists. split; [done|]. by rewrite hm_get_insert.
Qed.
End client.

(** A codec that marks its output. *)
Definition mark (m : byte) (_ : Z) (d : bytes) : option bytes := Some (m :: d).
Definition unmark (m : byte) (d : bytes) : option bytes :=
  match d with x :: d' => if decide (x = m) then Some d' else None | [] => None end.

#[global] Instance mark_codec m : Codec (mark m) (unmark m).
Proof. intros level d e [= <-]. simpl. by rewrite decide_True. Qed.

Definition no_cors : CorsConfig :=
  {| cors_enabled := false; allow_origins := []; allow_credentials := false; allow_methods := [];
     allow_headers := []; expose_headers := []; max_age := 0 |}.

Definition compressing : HttpConfig :=
  {| hc_is_tls := true; hc_cors := no_cors; compression_enabled := true;
     compression_min_size := 2; compression_level := 6;
     compression_algorithms := [lit "br"; lit "gzip"] |}.

Lemma compression_transparent_witness :
  let data := lit "hello" in
  let inner := build_response (λ _, true) (λ _, true) (λ _, true) (lit "0") 200 (lit "text/html") data [] in
  let req := {| or_method := lit "GET"; or_origin := None; or_accept_encoding := Some (lit "gzip, deflate") |} in
  let r := handle_request to_ascii_lowercase (λ _, true) (λ _, true) (λ _, true) (lit "0")
             (mark x1f) (mark xbb) (mark x28) compressing req inner in
  rs_status r = 200 ∧ client_body (unmark x1f) (unmark xbb) (unmark x28) r = Some data.
Proof.
  intros data inner req r.
  destruct (compression_transparent to_ascii_lowercase (λ _, true) (λ _, true) (λ _, true) (lit "0")
    (mark x1f) (mark xbb) (mark x28) (unmark x1f) (unmark xbb) (unmark x28) compressing req inner
    data eq_refl eq_refl) as (E1 & E2 & _).
  - intros l. split_and!; by eexists.
  - vm_compute. reflexivity.
  - split; [exact E1|]. etransitivity; [exact E2|]. vm_compute. reflexivity.
Defined.

(** When an encoder fails, the plain bytes go out under the name of the encoding. *)
Example compression_failure_mislabelled :
  let inner := build_response (λ _, true) (λ _, true) (λ _, true) (lit "0") 200 (lit "text/html")
                 (lit "hello") [] in
  let req := {| or_method := lit "GET"; or_origin := None; or_accept_encoding := Some (lit "gzip") |} in
  let r := handle_request to_ascii_lowercase (λ _, true) (λ _, true) (λ _, true) (lit "0")
             (λ _ _, None) (mark xbb) (mark x28) compressing req inner in
  rs_body r = Full (lit "hello") ∧
  hm_get (lit "Content-Encoding") (rs_headers r) = Some (lit "gzip").
Proof. vm_compute. done. Qed.

Section streams.
Context (to_lowercase : bytes → bytes) (valid_status : Z → bool).
Context (valid_name valid_value : bytes → bool) (version : bytes).
Context (gzip brotli zstd : Z → bytes → option bytes).

#[local] Abbreviation handle :=
  (handle_request to_lowercase valid_status valid_name valid_value version gzip brotli zstd).

(** A streamed response does not stay one: with compression on, a server-sent event
    stream to a client that accepts any encoding is first collected to its end, and sent as
    one body; and if it breaks off, all that was sent of it is dropped and the client gets
    an empty body with the status of success. *)
Theorem event_stream_buffered (cfg : HttpConfig) (req : outer_request) (status : Z)
    (items : list (result bytes ())) (encoding : bytes) :
  let inner := build_streaming_response valid_status valid_name valid_value version status
                 [(lit "Content-Type", lit "text/event-stream")] items in
  valid_name (lit "Content-Type") = true → valid_value (lit "text/event-stream") = true →
  compression_enabled cfg = true → or_accept_encoding req = Some encoding → encoding ≠ [] →
  preflight cfg req = false →
  (∃ sent, rs_body (handle cfg req inner) = Full sent) ∧
  (Err tt ∈ items → 0 < compression_min_size cfg →
   rs_body (handle cfg req inner) = Full [] ∧
   rs_status (handle cfg req inner) = status_code valid_status status).
Proof.
  intros inner Hn Hv Hc Hae Hne Hp.
  destruct (handle_compress to_lowercase valid_status valid_name valid_value version gzip brotli zstd
    cfg req inner Hp) as (r & He & ->).
  pose proof (same_entity_get _ _ (lit "Content-Type") He ltac:(set_solver)) as Hct.
  destruct He as (Hst & Hb & Hh).
  assert (hm_get (lit "Content-Type") (rs_headers inner) = Some (lit "text/event-stream")) as E.
  { unfold inner, build_streaming_response, stream_header, add_valid. simpl foldl. rewrite Hn, Hv.
    vm_compute. reflexivity. }
  rewrite E in Hct.
  assert (hm_contains (lit "Content-Encoding") (rs_headers r) = false) as Hce.
  { unfold hm_contains. rewrite Hh by set_solver. unfold inner, build_streaming_response,
      stream_header, add_valid. simpl foldl. rewrite Hn, Hv. vm_compute. reflexivity. }
  assert (is_compressible_content_type
    (default [] (hm_get (lit "Content-Type") (rs_headers r))) = true) as Hcomp
    by (rewrite Hct; vm_compute; reflexivity).
  rewrite Hae. unfold compress. rewrite Hc, Hce, Hcomp, (bool_decide_false (_ = [])), Hb by done.
  cbn [negb andb]. split.
  - destruct (_ <=? _); [|by eexists]. destruct (negotiate_compression _ _ _ _ _ _ _ _) as [[]|]; by eexists.
  - intros Hi Hm. assert (collect_items items = None) as Hcoll.
    { clear -Hi. induction items as [|[d|[]] items IH]; [set_solver| |done].
      simpl. rewrite IH; [done|set_solver]. }
    change (collect (rs_body inner)) with (collect_items items). rewrite Hcoll. simpl.
    destruct (Z.leb_spec (compression_min_size cfg) (zlen (@nil byte))) as [H|]; [unfold zlen in H; simpl in H; lia|].
    split; [done|]. simpl. rewrite Hst. unfold inner. done.
Qed.

(** With a wildcard and credentials, every origin is trusted: the answer to a request
    from any site names that site and allows credentials, which is what browsers refuse
    a literal wildcard for. *)
Theorem cors_wildcard_credentials (cfg : HttpConfig) (req : outer_request) (inner : Response)
    (origin : bytes) :
  cors_enabled (hc_cors cfg) = true → lit "*" ∈ allow_origins (hc_cors cfg) →
  allow_credentials (hc_cors cfg) = true → or_origin req = Some origin → valid_value origin = true →
  let h := rs_headers (with_cors valid_value cfg (or_origin req) inner) in
  hm_get (lit "Access-Control-Allow-Origin") h = Some origin ∧
  hm_get (lit "Access-Control-Allow-Credentials") h = Some (lit "true").
Proof.
  intros He Hw Hc Ho Hv. rewrite Ho. unfold with_cors. rewrite He.
  assert (cors_origin_allowed (hc_cors cfg) origin = true) as ->.
  { apply existsb_exists. exists (lit "*"). rewrite <-list_elem_of_In. by rewrite bool_decide_true. }
  simpl. unfold apply_cors_headers. rewrite Hc, andb_false_r. unfold insert_valid. rewrite Hv.
  split; repeat case_match;
    repeat first [rewrite hm_get_insert|rewrite hm_get_insert_ne by by vm_compute]; done.
Qed.
End streams.

Lemma event_stream_buffered_witness :
  let inner := build_streaming_response (λ _, true) (λ _, true) (λ _, true) (lit "0") 200
                 [(lit "Content-Type", lit "text/event-stream")]
                 [Ok (lit "data: 1"); Ok (lit "data: 2"); Err tt] in
  let req := {| or_method := lit "GET"; or_origin := None; or_accept_encoding := Some (lit "gzip") |} in
  let r := handle_request to_ascii_lowercase (λ _, true) (λ _, true) (λ _, true) (lit "0")
             (mark x1f) (mark xbb) (mark x28) compressing req inner in
  rs_body r = Full [] ∧ rs_status r = 200.
Proof.
  intros inner req r.
  apply (event_stream_buffered to_ascii_lowercase (λ _, true) (λ _, true) (λ _, true) (lit "0")
    (mark x1f) (mark xbb) (mark x28) compressing req 200
    [Ok (lit "data: 1"); Ok (lit "data: 2"); Err tt] (lit "gzip"));
    [reflexivity..|done|reflexivity|set_solver|done].
Defined.

Lemma cors_wildcard_credentials_witness :
  let cors := {| cors_enabled := true; allow_origins := [lit "*"]; allow_credentials := true;
    allow_methods := [lit "GET"]; allow_headers := []; expose_headers := []; max_age := 0 |} in
  let cfg := {| hc_is_tls := false; hc_cors := cors; compression_enabled := false;
    compression_min_size := 0; compression_level := 1; compression_algorithms := [] |} in
  let req := {| or_method := lit "GET"; or_origin := Some (lit "https://evil.example");
                or_accept_encoding := None |} in
  let h := rs_headers (with_cors (λ _, true) cfg (or_origin req)
             {| rs_status := 200; rs_headers := ∅; rs_body := Full [] |}) in
  hm_get (lit "Access-Control-Allow-Origin") h = Some (lit "https://evil.example") ∧
  hm_get (lit "Access-Control-Allow-Credentials") h = Some (lit "true").
Proof.
  intros cors cfg req h.
  apply (cors_wildcard_credentials (λ _, true) cfg req
    {| rs_status := 200; rs_headers := ∅; rs_body := Full [] |});
    [reflexivity|set_solver|reflexivity..].
Defined.

(** ** The headers of a built response *)

Definition values (name : bytes) (h : header_map) : list bytes :=
  default [] (h !! to_ascii_lowercase name).

Lemma values_append name n v h : values name (hm_append n v h) =
  values name h ++ if eq_ignore_ascii_case n name then [v] else [].
Proof.
  unfold values, hm_append, eq_ignore_ascii_case. case_bool_decide as E.
  - rewrite E. by rewrite lookup_partial_alter_eq.
  - rewrite lookup_partial_alter_ne by done. by rewrite app_nil_r.
Qed.

Lemma values_add_valid valid_name valid_value name h extra :
  values name (foldl (add_valid valid_name valid_value) h extra) =
  values name h ++ (List.filter (λ nv, valid_name nv.1 && valid_value nv.2 &&
    eq_ignore_ascii_case nv.1 name) extra).*2.
Proof.
  revert h. induction extra as [|[n v] extra IH]; intros h; [by rewrite app_nil_r|]. simpl.
  rewrite IH. unfold add_valid. simpl. destruct (valid_name n && valid_value v); simpl; [|done].
  rewrite values_append, <-(assoc_L app). by destruct (eq_ignore_ascii_case n name).
Qed.

(** The names that every response has. *)
Definition base_names : list bytes :=
  [lit "Content-Type"; lit "Content-Length"; lit "Server"; lit "X-Content-Type-Options";
   lit "X-Frame-Options"; lit "X-XSS-Protection"; lit "Referrer-Policy"; lit "Permissions-Policy"].

(** The headers that PHP sets reach the client: a response with a content type that
    hyper accepts has its body and status, its exact length, and for each further name the
    values given for it in order, without the ones that hyper refuses; one whose content
    type hyper refuses is the internal error, whatever the rest. *)
Theorem build_response_exact (valid_status : Z → bool) (valid_name valid_value : bytes → bool)
    (version : bytes) (status : Z) (content_type data : bytes) (extra : list (bytes * bytes)) :
  let r := build_response valid_status valid_name valid_value version status content_type data extra in
  if valid_value content_type then
    rs_status r = status_code valid_status status ∧ rs_body r = Full data ∧
    hm_get (lit "Content-Type") (rs_headers r) = Some content_type ∧
    hm_get (lit "Content-Length") (rs_headers r) = Some (dec_string (zlen data)) ∧
    ∀ name, forallb (λ n, negb (eq_ignore_ascii_case n name)) base_names = true →
      values name (rs_headers r) = (List.filter (λ nv, valid_name nv.1 && valid_value nv.2 &&
        eq_ignore_ascii_case nv.1 name) extra).*2
  else rs_status r = 500 ∧ rs_headers r = ∅.
Proof.
  intros r. subst r. unfold build_response. destruct (valid_value content_type); [|done].
  assert (∀ name h, hm_get name h = head (values name h)) as Hget.
  { intros name h. unfold hm_get, values. by destruct (h !! _). }
  split_and!; [done|done|..].
  - rewrite Hget. simpl rs_headers. rewrite values_add_valid. unfold security_headers. simpl foldl.
    by rewrite !values_append.
  - rewrite Hget. simpl rs_headers. rewrite values_add_valid. unfold security_headers. simpl foldl.
    by rewrite !values_append.
  - intros name Hn. simpl in Hn. rewrite !andb_true_iff, !negb_true_iff in Hn.
    destruct Hn as (H1 & H2 & H3 & H4 & H5 & H6 & H7 & H8 & _). simpl rs_headers.
    rewrite values_add_valid. unfold security_headers. simpl foldl. rewrite !values_append.
    by rewrite H1, H2, H3, H4, H5, H6, H7, H8.
Qed.
