(* ===== verification/StreamedReply.v ===== *)
(** * Framed responses of a pool (turbine-core/src/main.rs, [handle_request_inner])

    How the handler reads the response of a persistent worker of a pool: the head
    first, then either a response whose body is forwarded as it comes, or the whole
    body, which goes the way of every other response ([finish] of HandleRequest). The
    worker goes back to its pool when the reading has ended, however it ended. *)

From S2P Require Import Prelude Utf8 Reader RustStr Stream Http.

(** What the handler does next; the messages are those of the responses. *)
Inductive framed_reply :=
| Failed (status : Z) (message : bytes)
| Streaming (r : Response) (done : result bool io_error)
| Complete (status : Z) (headers : header_list) (body : bytes).

(** The errors of a body do not reach the client. *)
Definition body_item_of (i : body_item) : result bytes () :=
  match i with Ok d => Ok d | Err _ => Err tt end.

Section framed.
Context (valid_status : Z → bool) (valid_name valid_value : bytes → bool) (version : bytes).

(** [opened] is the pipe when its descriptor could be registered; [alive] whether the
    client is still there at each item. The pipe is left as the last component, when
    reading did not fail; [None] is a run out of fuel. *)
Definition framed_read (alive : nat → bool) (opened : option pipe) : option (framed_reply * option pipe) :=
  match opened with
  | None => Some (Failed 502 (lit "Worker pipe error"), None)
  | Some p =>
      match read_response_head p with
      | Err _ => Some (Failed 500 (lit "Worker decode error"), None)
      | Ok ((status, headers), p) =>
          if response_should_stream headers then
            '(items, done) ← start_streaming_forwarder alive p;
            Some (Streaming (build_streaming_response valid_status valid_name valid_value version
                               status headers (body_item_of <$> items))
                    (match done with Ok (ok, _) => Ok ok | Err e => Err e end),
                  match done with Ok (_, p) => Some p | Err _ => None end)
          else
            r ← drain_body_buffered p;
            match r with
            | Err _ => Some (Failed 500 (lit "Worker body error"), None)
            | Ok ((body, _), p) => Some (Complete status headers body, Some p)
            end
      end
  end.

Lemma collect_ok cs : collect_items (body_item_of <$> (Ok <$> cs)) = Some (mjoin cs).
Proof. induction cs as [|c cs IH]; [done|]. csimpl. by rewrite IH. Qed.

(** Reading always ends, in a reply or an error. *)
Lemma framed_read_total alive opened : is_Some (framed_read alive opened).
Proof.
  destruct opened as [p|]; [|by eexists]. simpl.
  destruct (read_response_head p) as [[[st hs] q]|e]; [|by eexists].
  destruct (response_should_stream hs).
  - destruct (drive_loop_total alive [] (S (length (stream q))) q ltac:(lia)) as [[items out] E].
    unfold start_streaming_forwarder. rewrite E. by eexists.
  - destruct (proj1 (drain_body_buffered_reference q)) as [[[[b ok] q']|e] ->]; by eexists.
Qed.

(** A response arrives whole, streamed or not: the client that stays gets the status and exactly
    the bytes of the body, as a stream when the headers ask for it and as one body otherwise;
    whatever the client does, the pipe is left where the next response begins. *)
Theorem framed_response_exact (alive : nat → bool) (st : Z) (hs : header_list) (cs : list bytes)
    (ok : bool) (k : bytes) (p : pipe) :
  frame_wf (Headers st hs) → chunks_wf cs →
  stream p = encode_frame (Headers st hs) ++ body_bytes cs ok ++ k →
  ∃ r p', framed_read alive (Some p) = Some (r, Some p') ∧ stream p' = k ∧
    if response_should_stream hs then
      ∃ resp, r = Streaming resp (Ok ok) ∧ rs_status resp = status_code valid_status st ∧
        ((∀ i, alive i = true) → collect (rs_body resp) = Some (mjoin cs))
    else r = Complete st hs (mjoin cs).
Proof.
  intros Hf Hcs Hp. unfold framed_read.
  destruct (read_frame_at Tokio (Headers st hs) p (body_bytes cs ok ++ k) Hf Hp) as (q & Eq & Hq & Hfin).
  assert (read_response_head p = Ok ((st, hs), q)) as ->.
  { unfold read_response_head, mbind, Rd_bind, read_frame_async. by rewrite Eq. }
  destruct (response_should_stream hs) eqn:Es.
  - destruct (drive_loop_body alive cs ok k [] (S (length (stream q))) q Hcs Hq ltac:(lia)) as (p' & E & Hk & _).
    unfold start_streaming_forwarder. rewrite E. simpl. eexists _, p'. split_and!; [done..|].
    eexists. split_and!; [done..|]. intros Ha. simpl.
    assert (delivered alive 0 cs = cs) as ->; [|apply collect_ok].
    clear -Ha. generalize 0%nat. induction cs as [|c cs IH]; intros i; [done|]. simpl. by rewrite Ha, IH.
  - destruct (drain_ref_body cs ok k [] (S (length (stream q))) q Hcs Hq ltac:(lia)) as (p' & E & Hk & _).
    apply (proj2 (drain_body_buffered_reference q)) in E. rewrite E. simpl. by eexists _, p'.
Qed.
End framed.

Lemma framed_response_exact_witness :
  let hs := [(lit "Content-Type", lit "text/event-stream")] in
  let p := Pipe [encode_frame (Headers 200 hs) ++ body_bytes [lit "data: 1"; lit "data: 2"] true ++ lit "next"] None in
  ∃ r p', framed_read (λ _, true) (λ _, true) (λ _, true) (lit "1") (λ _, true) (Some p) = Some (r, Some p') ∧
    stream p' = lit "next" ∧
    ∃ resp, r = Streaming resp (Ok true) ∧ rs_status resp = 200 ∧
      ((∀ i : nat, true = true) → collect (rs_body resp) = Some (lit "data: 1data: 2")).
Proof.
  intros hs p.
  apply (framed_response_exact (λ _, true) (λ _, true) (λ _, true) (lit "1") (λ _, true) 200 hs
           [lit "data: 1"; lit "data: 2"] true (lit "next") p); [|by repeat constructor|by vm_compute].
  split; [lia|]. split; [done|]. repeat constructor.
Defined.
