(* ===== verification/WsHub.v ===== *)
(** * The WebSocket hub (turbine-core/src/websocket.rs)

    Named channels that fan messages out to the clients subscribed to them.
    tokio's broadcast channel is an interface: its documented behaviour, in terms
    of the messages it has taken and the position of each receiver, is what the
    theorems rely on, and one implementation shows that it can be had. A session
    is the loop of [run_ws_session], one round per event; [select!] is free to
    take either branch, so the events come in any order. The hub is used by one
    caller at a time: [channel] looks a name up, compares the number of channels
    with the bound and inserts in three accesses, and concurrent callers can each
    pass the comparison. *)

From S2P Require Import Prelude RustStr Http.

(** ** Broadcast channels *)

(** What [recv] finds: nothing yet, a message, or that [lost] messages were
    overwritten. The senders live in the hub, so the channel never closes. *)
Inductive recv_result := Pending | Value (m : bytes) | Lagged (lost : nat).

Class BroadcastOps (B : Type) := {
  bc_new : Z → B;
  bc_send : bytes → B → option nat * B;
  bc_subscribe : B → nat * B;
  bc_recv : nat → B → recv_result * B;
  bc_drop : nat → B → B;
  (** the messages taken so far, those it can still hold, and the position of a
      receiver *)
  bc_sent : B → list bytes;
  bc_room : B → nat;
  bc_pos : B → gmap nat nat }.

Class Broadcast (B : Type) `{BroadcastOps B} : Prop := {
  new_sent c : bc_sent (bc_new c : B) = [];
  new_pos c : bc_pos (bc_new c : B) = ∅;
  new_room c : 0 < c → (Z.to_nat c ≤ bc_room (bc_new c : B))%nat;
  send_nobody m b : bc_pos b = ∅ → bc_send m b = (None, b);
  send_count m b : bc_pos b ≠ ∅ → (bc_send m b).1 = Some (size (bc_pos b));
  send_sent m b : bc_pos b ≠ ∅ → bc_sent (bc_send m b).2 = bc_sent b ++ [m];
  send_pos m b : bc_pos (bc_send m b).2 = bc_pos b;
  send_room m b : bc_room (bc_send m b).2 = bc_room b;
  subscribe_fresh b : bc_pos b !! (bc_subscribe b).1 = None;
  subscribe_sent b : bc_sent (bc_subscribe b).2 = bc_sent b;
  subscribe_pos b :
    bc_pos (bc_subscribe b).2 = <[(bc_subscribe b).1 := length (bc_sent b)]> (bc_pos b);
  subscribe_room b : bc_room (bc_subscribe b).2 = bc_room b;
  recv_pending i b p : bc_pos b !! i = Some p → p = length (bc_sent b) →
    bc_recv i b = (Pending, b);
  recv_value i b p m : bc_pos b !! i = Some p → bc_sent b !! p = Some m →
    (length (bc_sent b) - p ≤ bc_room b)%nat →
    (bc_recv i b).1 = Value m ∧ bc_pos (bc_recv i b).2 = <[i := S p]> (bc_pos b);
  recv_lagged i b p : bc_pos b !! i = Some p → (bc_room b < length (bc_sent b) - p)%nat →
    (bc_recv i b).1 = Lagged (length (bc_sent b) - bc_room b - p) ∧
    bc_pos (bc_recv i b).2 = <[i := (length (bc_sent b) - bc_room b)%nat]> (bc_pos b);
  recv_sent i b : bc_sent (bc_recv i b).2 = bc_sent b;
  recv_room i b : bc_room (bc_recv i b).2 = bc_room b;
  drop_sent i b : bc_sent (bc_drop i b) = bc_sent b;
  drop_pos i b : bc_pos (bc_drop i b) = delete i (bc_pos b);
  drop_room i b : bc_room (bc_drop i b) = bc_room b }.

(** ** The hub *)

Record WsConfig := {
  max_channels : Z;
  channel_capacity : Z;
  max_frame_size : Z;
  idle_timeout_secs : Z }.

Definition default_ws_config : WsConfig :=
  {| max_channels := 128; channel_capacity := 256; max_frame_size := 65536;
     idle_timeout_secs := 300 |}.

Record WsStats := { ws_channels : Z; ws_published : Z; ws_subscribed : Z; ws_rejected : Z }.

Definition WS_MAGIC : bytes := lit "258EAFA5-E914-47DA-95CA-C5AB0DC85B11".

(** What a client sends and what it is sent. *)
Inductive inbound := Ping (p : bytes) | CloseFrame | End_of_stream | Data (d : bytes) | ReadError.

Inductive message := Binary (data : bytes) | Pong (p : bytes) | ClosePolicy (reason : bytes) | CloseNormal.

(** What [select!] finds ready: the receiver, the client, or the timer. *)
Inductive ws_event := EvReceiver | EvInbound (i : inbound) | EvIdle.

Inductive ws_status := Open | Ended | Failed.

#[global] Instance ws_status_eq_dec : EqDecision ws_status.
Proof. solve_decision. Defined.

(** The headers of an upgrade request that are text. *)
Record upgrade_request := {
  up_upgrade : option bytes;
  up_connection : option bytes;
  up_key : option bytes }.

Definition is_upgrade (req : upgrade_request) : bool :=
  from_option (λ v, eq_ignore_ascii_case v (lit "websocket")) false (up_upgrade req) &&
  from_option (λ v, contains (lit "upgrade") (to_ascii_lowercase v)) false (up_connection req).

Section hub.
Context {B : Type} `{BroadcastOps B}.
(** SHA-1 and base64. *)
Context (sha1_base64 : bytes → bytes).

Record WsHub := {
  hub_channels : gmap bytes B;
  hub_config : WsConfig;
  published : Z;
  subscribed : Z;
  rejected : Z }.

Definition hub_new (cfg : WsConfig) : WsHub :=
  {| hub_channels := ∅; hub_config := cfg; published := 0; subscribed := 0; rejected := 0 |}.

Definition set_channel (name : bytes) (b : B) (h : WsHub) : WsHub :=
  {| hub_channels := <[name := b]> (hub_channels h); hub_config := hub_config h;
     published := published h; subscribed := subscribed h; rejected := rejected h |}.

Definition bump_hub (p s r : Z) (h : WsHub) : WsHub :=
  {| hub_channels := hub_channels h; hub_config := hub_config h;
     published := wrap_u 64 (published h + p); subscribed := wrap_u 64 (subscribed h + s);
     rejected := wrap_u 64 (rejected h + r) |}.

Definition channel (name : bytes) (h : WsHub) : option B * WsHub :=
  match hub_channels h !! name with
  | Some b => (Some b, h)
  | None =>
      if max_channels (hub_config h) <=? Z.of_nat (size (hub_channels h)) then
        (None, bump_hub 0 0 1 h)
      else
        let b := bc_new (channel_capacity (hub_config h)) in
        (Some b, set_channel name b h)
  end.

Definition publish (name data : bytes) (h : WsHub) : option nat * WsHub :=
  match channel name h with
  | (None, h) => (None, h)
  | (Some b, h) =>
      let '(n, b) := bc_send data b in
      (Some (default O n), bump_hub 1 0 0 (set_channel name b h))
  end.

Definition subscribe (name : bytes) (h : WsHub) : option nat * WsHub :=
  match channel name h with
  | (None, h) => (None, h)
  | (Some b, h) =>
      let h := bump_hub 0 1 0 h in
      let '(rx, b) := bc_subscribe b in
      (Some rx, set_channel name b h)
  end.

(** [receiver_count]: how many receivers have a position. *)
Definition subscriber_count (name : bytes) (h : WsHub) : nat :=
  match hub_channels h !! name with Some b => size (bc_pos b) | None => O end.

Definition ws_stats (h : WsHub) : WsStats :=
  {| ws_channels := Z.of_nat (size (hub_channels h)); ws_published := published h;
     ws_subscribed := subscribed h; ws_rejected := rejected h |}.

(** ** Upgrades *)

Definition compute_accept (key : bytes) : bytes := sha1_base64 (key ++ WS_MAGIC).

(** The responses of this file have no security headers. *)
Definition ws_response (status : Z) (content_type body : bytes) : Response :=
  {| rs_status := status;
     rs_headers := hm_append (lit "Content-Length") (dec_string (zlen body))
                     (hm_append (lit "Content-Type") content_type ∅);
     rs_body := Full body |}.

(** The response, the receiver of the session that is spawned when there is one,
    and the hub. *)
Definition handle_ws_upgrade (req : upgrade_request) (name : bytes) (h : WsHub)
    : Response * option nat * WsHub :=
  if negb (is_upgrade req) then
    (ws_response 400 (lit "text/plain") (lit "expected WebSocket upgrade"), None, h)
  else match up_key req with
       | None => (ws_response 400 (lit "text/plain") (lit "missing Sec-WebSocket-Key"), None, h)
       | Some key =>
           match subscribe name h with
           | (None, h) =>
               (ws_response 507 (lit "application/json")
                  ([x7b; x22] ++ lit "error" ++ [x22; x3a; x22] ++ lit "ws channel cap reached" ++
                   [x22; x7d]), None, h)
           | (Some rx, h) =>
               ({| rs_status := 101;
                   rs_headers := hm_append (lit "Sec-WebSocket-Accept") (compute_accept key)
                     (hm_append (lit "Upgrade") (lit "websocket")
                       (hm_append (lit "Connection") (lit "Upgrade") ∅));
                   rs_body := Full [] |}, Some rx, h)
           end
       end.

(** ** Sessions *)

Record session := {
  se_channel : bytes;
  se_rx : nat;
  se_out : list message;
  se_status : ws_status }.

Definition set_session (out : list message) (st : ws_status) (s : session) : session :=
  {| se_channel := se_channel s; se_rx := se_rx s; se_out := se_out s ++ out; se_status := st |}.

(** One round of the loop on the channel [b] of the session; [send_ok] says whether
    a frame can be written. The receiver is not ready when nothing is there. *)
Definition session_round (ev : ws_event) (send_ok : bool) (s : session) (b : B) : session * B :=
  let sent m := if send_ok then set_session [m] Open s else set_session [] Failed s in
  let last_words m := set_session (if send_ok then [m] else []) Ended s in
  match ev with
  | EvReceiver =>
      match bc_recv (se_rx s) b with
      | (Pending, b) => (s, b)
      | (Value m, b) => (sent (Binary m), b)
      | (Lagged _, b) => (last_words (ClosePolicy (lit "lagging")), b)
      end
  | EvInbound (Ping p) => (sent (Pong p), b)
  | EvInbound CloseFrame | EvInbound End_of_stream => (set_session [] Ended s, b)
  | EvInbound (Data _) => (s, b)
  | EvInbound ReadError => (set_session [] Failed s, b)
  | EvIdle => (last_words CloseNormal, b)
  end.

(** A session that has ended lets go of its receiver. *)
Definition run_ws_session (ev : ws_event) (send_ok : bool) (s : session) (h : WsHub)
    : session * WsHub :=
  match hub_channels h !! se_channel s with
  | None => (s, h)
  | Some b =>
      let '(s, b) := session_round ev send_ok s b in
      (s, set_channel (se_channel s)
            (if decide (se_status s = Open) then b else bc_drop (se_rx s) b) h)
  end.
End hub.
Arguments WsHub : clear implicits.

(** ** An implementation of the interface *)

Record simple_broadcast := {
  sb_sent : list bytes;
  sb_room : nat;
  sb_pos : gmap nat nat }.

Definition sb_set_pos (m : gmap nat nat) (b : simple_broadcast) : simple_broadcast :=
  {| sb_sent := sb_sent b; sb_room := sb_room b; sb_pos := m |}.

Definition sb_send (m : bytes) (b : simple_broadcast) : option nat * simple_broadcast :=
  if decide (sb_pos b = ∅) then (None, b)
  else (Some (size (sb_pos b)),
        {| sb_sent := sb_sent b ++ [m]; sb_room := sb_room b; sb_pos := sb_pos b |}).

Definition sb_fresh (b : simple_broadcast) : nat := S (max_list (fst <$> map_to_list (sb_pos b))).

Definition sb_recv (i : nat) (b : simple_broadcast) : recv_result * simple_broadcast :=
  match sb_pos b !! i with
  | None => (Pending, b)
  | Some p =>
      if (sb_room b <? length (sb_sent b) - p)%nat then
        (Lagged (length (sb_sent b) - sb_room b - p),
         sb_set_pos (<[i := (length (sb_sent b) - sb_room b)%nat]> (sb_pos b)) b)
      else match sb_sent b !! p with
           | Some m => (Value m, sb_set_pos (<[i := S p]> (sb_pos b)) b)
           | None => (Pending, b)
           end
  end.

#[global] Instance simple_broadcast_ops : BroadcastOps simple_broadcast := {|
  bc_new := λ c, {| sb_sent := []; sb_room := Z.to_nat c; sb_pos := ∅ |};
  bc_send := sb_send;
  bc_subscribe := λ b, (sb_fresh b, sb_set_pos (<[sb_fresh b := length (sb_sent b)]> (sb_pos b)) b);
  bc_recv := sb_recv;
  bc_drop := λ i b, sb_set_pos (delete i (sb_pos b)) b;
  bc_sent := sb_sent;
  bc_room := sb_room;
  bc_pos := sb_pos |}.

#[global] Instance simple_broadcast_laws : Broadcast simple_broadcast.
Proof.
  split; simpl; try done.
  - intros m b Hb. unfold sb_send. by rewrite decide_True.
  - intros m b Hb. unfold sb_send. by rewrite decide_False.
  - intros m b Hb. unfold sb_send. by rewrite decide_False.
  - intros m b. unfold sb_send. by case_decide.
  - intros m b. unfold sb_send. by case_decide.
  - intros b. destruct (sb_pos b !! sb_fresh b) eqn:E; [|done].
    apply elem_of_map_to_list, (list_elem_of_fmap_2 fst), max_list_elem_of_le in E.
    unfold sb_fresh in E. simpl in E. lia.
  - intros i b p Hp ->. unfold sb_recv. rewrite Hp, (proj2 (Nat.ltb_ge _ _)) by lia.
    by rewrite lookup_ge_None_2.
  - intros i b p m Hp Hm Hr. unfold sb_recv. rewrite Hp, (proj2 (Nat.ltb_ge _ _)) by lia.
    by rewrite Hm.
  - intros i b p Hp Hr. unfold sb_recv. by rewrite Hp, (proj2 (Nat.ltb_lt _ _)) by lia.
  - intros i b. unfold sb_recv. by repeat case_match.
  - intros i b. unfold sb_recv. by repeat case_match.
Qed.

(** ** All clients and publishers together *)

Section system.
Context {B : Type} `{Broadcast B}.
Context (sha1_base64 : bytes → bytes).

(** The hub, the sessions with the length of the log when they began, and the log
    of the messages accepted, each with its channel. *)
Record system := {
  sys_hub : WsHub B;
  sys_sessions : list (session * nat);
  sys_log : list (bytes * bytes) }.

Definition sys_init (cfg : WsConfig) : system :=
  {| sys_hub := hub_new cfg; sys_sessions := []; sys_log := [] |}.

Definition new_session (name : bytes) (rx : nat) : session :=
  {| se_channel := name; se_rx := rx; se_out := []; se_status := Open |}.

Inductive sys_step : system → system → Prop :=
| sys_publish c m n h' y :
    publish c m (sys_hub y) = (n, h') →
    sys_step y {| sys_hub := h'; sys_sessions := sys_sessions y;
                  sys_log := sys_log y ++ (if n is Some _ then [(c, m)] else []) |}
| sys_upgrade req c resp rx h' y :
    handle_ws_upgrade sha1_base64 req c (sys_hub y) = (resp, rx, h') →
    sys_step y {| sys_hub := h';
                  sys_sessions := sys_sessions y ++
                    (if rx is Some i then [(new_session c i, length (sys_log y))] else []);
                  sys_log := sys_log y |}
| sys_round k s start ev send_ok s' h' y :
    sys_sessions y !! k = Some (s, start) → se_status s = Open →
    run_ws_session ev send_ok s (sys_hub y) = (s', h') →
    sys_step y {| sys_hub := h'; sys_sessions := <[k := (s', start)]> (sys_sessions y);
                  sys_log := sys_log y |}.

(** The messages of a channel in a log, and those a client was sent. *)
Definition payloads (c : bytes) (log : list (bytes * bytes)) : list bytes :=
  snd <$> List.filter (λ e, bool_decide (e.1 = c)) log.

Definition binaries (out : list message) : list bytes :=
  omap (λ m, match m with Binary d => Some d | _ => None end) out.

(** What holds of an open session: its channel has taken every message of the log
    since it began, and it was sent those before its position. *)
Definition attached (h : WsHub B) (log : list (bytes * bytes)) (s : session) (start : nat) : Prop :=
  ∃ b p from, hub_channels h !! se_channel s = Some b ∧ bc_pos b !! se_rx s = Some p ∧
    (from ≤ p ≤ length (bc_sent b))%nat ∧
    payloads (se_channel s) (drop start log) = drop from (bc_sent b) ∧
    binaries (se_out s) = take (p - from) (drop from (bc_sent b)).

Definition session_ok (h : WsHub B) (log : list (bytes * bytes)) (e : session * nat) : Prop :=
  (e.2 ≤ length log)%nat ∧
  binaries (se_out e.1) `prefix_of` payloads (se_channel e.1) (drop e.2 log) ∧
  (se_status e.1 = Open → attached h log e.1 e.2).

(** Two open sessions of a channel have receivers of their own. *)
Definition rx_distinct (ss : list (session * nat)) : Prop :=
  ∀ j k s s', ss !! j = Some s → ss !! k = Some s' → j ≠ k →
    se_status s.1 = Open → se_status s'.1 = Open → se_channel s.1 = se_channel s'.1 →
    se_rx s.1 ≠ se_rx s'.1.

(** What every operation of the hub keeps: its configuration, the bound on the
    channels and the room of each channel. *)
Definition hub_ok (cfg : WsConfig) (h : WsHub B) : Prop :=
  hub_config h = cfg ∧ Z.of_nat (size (hub_channels h)) ≤ Z.max 0 (max_channels cfg) ∧
  ∀ c b, hub_channels h !! c = Some b → 0 < channel_capacity cfg →
    (Z.to_nat (channel_capacity cfg) ≤ bc_room b)%nat.

Record sys_inv (cfg : WsConfig) (y : system) : Prop := {
  inv_hub : hub_ok cfg (sys_hub y);
  inv_sessions : Forall (session_ok (sys_hub y) (sys_log y)) (sys_sessions y);
  inv_rx : rx_distinct (sys_sessions y) }.

(** [channel] creates an empty channel at most, within the bound. *)
Lemma channel_spec c (h : WsHub B) r h' : channel c h = (r, h') →
  hub_config h' = hub_config h ∧
  (∀ c' b, hub_channels h !! c' = Some b → hub_channels h' !! c' = Some b) ∧
  (∀ b, r = Some b → hub_channels h' !! c = Some b ∧
     (hub_channels h !! c = Some b ∨ b = bc_new (channel_capacity (hub_config h)))) ∧
  (∀ c' b, hub_channels h' !! c' = Some b →
     hub_channels h !! c' = Some b ∨ b = bc_new (channel_capacity (hub_config h))) ∧
  Z.of_nat (size (hub_channels h')) ≤
    Z.max (Z.of_nat (size (hub_channels h))) (max_channels (hub_config h)).
Proof.
  unfold channel. destruct (hub_channels h !! c) as [b|] eqn:E.
  { intros [= <- <-]. split_and!; eauto; [|lia]. intros b' [= <-]. auto. }
  destruct (Z.leb_spec (max_channels (hub_config h)) (Z.of_nat (size (hub_channels h))));
    intros [= <- <-]; simpl; split_and!; eauto; try done; [lia|..].
  - intros c' b Hb. rewrite lookup_insert_ne; [done|]. intros ->. congruence.
  - intros b [= <-]. rewrite lookup_insert_eq. auto.
  - intros c' b. destruct (decide (c = c')) as [->|].
    + rewrite lookup_insert_eq. intros [= <-]. auto.
    + rewrite lookup_insert_ne by done. auto.
  - rewrite map_size_insert_None by done. lia.
Qed.

(** Changes that leave the messages and the position of a session alone. *)
Lemma attached_frame h h' log s start :
  (∀ b p, hub_channels h !! se_channel s = Some b → bc_pos b !! se_rx s = Some p →
     ∃ b', hub_channels h' !! se_channel s = Some b' ∧ bc_sent b' = bc_sent b ∧
           bc_pos b' !! se_rx s = Some p) →
  attached h log s start → attached h' log s start.
Proof.
  intros Hf (b & p & from & Hb & Hp & Hle & Hpay & Hout).
  destruct (Hf b p Hb Hp) as (b' & Hb' & Hs & Hp'). exists b', p, from.
  by rewrite Hs.
Qed.

Lemma payloads_app c l k : payloads c (l ++ k) = payloads c l ++ payloads c k.
Proof. unfold payloads. by rewrite List.filter_app, fmap_app. Qed.

Lemma payloads_grow c log k start : (start ≤ length log)%nat →
  payloads c (drop start (log ++ k)) = payloads c (drop start log) ++ payloads c k.
Proof.
  intros Hl. rewrite drop_app, (proj2 (Nat.sub_0_le start (length log))) by done.
  by rewrite drop_0, payloads_app.
Qed.

Lemma session_ok_grow h h' log k e : session_ok h log e →
  (se_status e.1 = Open → attached h log e.1 e.2 → attached h' (log ++ k) e.1 e.2) →
  session_ok h' (log ++ k) e.
Proof.
  intros (Hl & Hpre & Hat) Hf. split_and!.
  - rewrite length_app. lia.
  - rewrite payloads_grow by done. by apply prefix_app_r.
  - intros Ho. auto.
Qed.

Lemma rx_distinct_snoc ss e : rx_distinct ss →
  (∀ j s, ss !! j = Some s → se_status s.1 = Open → se_channel s.1 = se_channel e.1 →
     se_rx s.1 ≠ se_rx e.1) → rx_distinct (ss ++ [e]).
Proof.
  intros Hd Hnew j k s s' Hj Hk Hjk Ho Ho' Hc.
  apply lookup_app_Some in Hj as [Hj|[Hlj Hj]], Hk as [Hk|[Hlk Hk]].
  - by eapply Hd.
  - apply list_lookup_singleton_Some in Hk as [_ <-]. eapply Hnew; eauto.
  - apply list_lookup_singleton_Some in Hj as [_ <-]. intros E. eapply Hnew; eauto.
  - apply list_lookup_singleton_Some in Hj as [? _], Hk as [? _]. lia.
Qed.

(** A message reaches the channel when somebody listens, and its log. *)
Lemma publish_attached c m (h : WsHub B) n h' log s start :
  publish c m h = (Some n, h') → (start ≤ length log)%nat →
  attached h log s start → attached h' (log ++ [(c, m)]) s start.
Proof.
  unfold publish. destruct (channel c h) as [[b0|] h0] eqn:Ec; [|done].
  apply channel_spec in Ec as (_ & Hkeep & Hget & _ & _).
  destruct (Hget b0 eq_refl) as [Hb0 _].
  destruct (bc_send m b0) as [r b1] eqn:Es. intros [= _ <-] Hl (b & p & from & Hb & Hp & Hle & Hpay & Hout).
  apply Hkeep in Hb. destruct (decide (c = se_channel s)) as [->|Hne].
  - assert (b = b0) as -> by congruence.
    assert (bc_pos b0 ≠ ∅) as Hsome by (intros E; by rewrite E in Hp).
    pose proof (send_sent m b0 Hsome) as Hsent. pose proof (send_pos m b0) as Hpos.
    rewrite Es in Hsent, Hpos. simpl in Hsent, Hpos.
    exists b1, p, from. simpl. rewrite lookup_insert_eq, Hpos, Hsent, payloads_grow, Hpay by done.
    split_and!; try done.
    + lia.
    + rewrite length_app. simpl. lia.
    + rewrite drop_app_le by lia. f_equal. unfold payloads. simpl. by rewrite bool_decide_eq_true_2.
    + rewrite drop_app_le, take_app_le by (rewrite ?length_drop; lia). done.
  - exists b, p, from. simpl. rewrite lookup_insert_ne by done.
    rewrite payloads_grow by done. unfold payloads at 2. simpl.
    rewrite bool_decide_eq_false_2 by done. simpl. by rewrite app_nil_r.
Qed.

Lemma subscribe_attached c (h : WsHub B) rx h' log s start :
  subscribe c h = (rx, h') → attached h log s start → attached h' log s start.
Proof.
  unfold subscribe. destruct (channel c h) as [[b0|] h0] eqn:Ec;
    apply channel_spec in Ec as (_ & Hkeep & Hget & _ & _).
  - destruct (Hget b0 eq_refl) as [Hb0 _]. destruct (bc_subscribe b0) as [i b1] eqn:Es.
    intros [= _ <-]. apply attached_frame. intros b p Hb Hp. apply Hkeep in Hb. simpl.
    destruct (decide (c = se_channel s)) as [->|Hne].
    + assert (b = b0) as -> by congruence. rewrite lookup_insert_eq. exists b1.
      pose proof (subscribe_sent b0) as Hs. pose proof (subscribe_pos b0) as Hpos.
      pose proof (subscribe_fresh b0) as Hf. rewrite Es in Hs, Hpos, Hf. simpl in *.
      split_and!; [done..|]. rewrite Hpos, lookup_insert_ne; [done|]. intros ->. congruence.
    + rewrite lookup_insert_ne by done. eauto.
  - intros [= _ <-]. apply attached_frame. intros b p Hb Hp. apply Hkeep in Hb. eauto.
Qed.

(** The new receiver stands at the end, and nobody else has it. *)
Lemma subscribe_new c (h : WsHub B) i h' log : subscribe c h = (Some i, h') →
  attached h' log (new_session c i) (length log) ∧
  ∀ s start, attached h log s start → se_channel s = c → se_rx s ≠ i.
Proof.
  unfold subscribe. destruct (channel c h) as [[b0|] h0] eqn:Ec; [|done].
  apply channel_spec in Ec as (_ & Hkeep & Hget & _ & _).
  destruct (Hget b0 eq_refl) as [Hb0 _]. destruct (bc_subscribe b0) as [i' b1] eqn:Es.
  intros [= -> <-]. pose proof (subscribe_sent b0) as Hs. pose proof (subscribe_pos b0) as Hpos.
  pose proof (subscribe_fresh b0) as Hf. rewrite Es in Hs, Hpos, Hf. simpl in *. split.
  - exists b1, (length (bc_sent b0)), (length (bc_sent b0)). simpl.
    rewrite lookup_insert_eq, Hpos, lookup_insert_eq, Hs, !drop_ge by lia.
    rewrite Nat.sub_diag. split_and!; try done; lia.
  - intros s start (b & p & from & Hb & Hp & _) <-. apply Hkeep in Hb. intros <-. congruence.
Qed.

(** One round sends the next message or none, and moves only its own receiver. *)
Lemma session_round_spec ev send_ok s (b : B) s' b' p :
  session_round ev send_ok s b = (s', b') → bc_pos b !! se_rx s = Some p →
  (p ≤ length (bc_sent b))%nat → se_status s = Open →
  se_channel s' = se_channel s ∧ se_rx s' = se_rx s ∧
  bc_sent b' = bc_sent b ∧ bc_room b' = bc_room b ∧
  (∀ i, i ≠ se_rx s → bc_pos b' !! i = bc_pos b !! i) ∧
  ∃ n, binaries (se_out s') = binaries (se_out s) ++ take n (drop p (bc_sent b)) ∧
    (p + n ≤ length (bc_sent b))%nat ∧ (se_status s' = Open → bc_pos b' !! se_rx s = Some (p + n)%nat).
Proof.
  intros Hr Hp Hle Ho.
  assert (Hnone : ∀ s1, (∃ out st, s1 = set_session out st s ∧ binaries out = []) ∨ s1 = s →
    (s', b') = (s1, b) → se_channel s' = se_channel s ∧ se_rx s' = se_rx s ∧
    bc_sent b' = bc_sent b ∧ bc_room b' = bc_room b ∧
    (∀ i, i ≠ se_rx s → bc_pos b' !! i = bc_pos b !! i) ∧
    ∃ n, binaries (se_out s') = binaries (se_out s) ++ take n (drop p (bc_sent b)) ∧
    (p + n ≤ length (bc_sent b))%nat ∧
    (se_status s' = Open → bc_pos b' !! se_rx s = Some (p + n)%nat)).
  { intros s1 Hs [= -> ->]. assert (se_channel s1 = se_channel s ∧ se_rx s1 = se_rx s ∧
      binaries (se_out s1) = binaries (se_out s)) as (-> & -> & ->).
    { destruct Hs as [(out & st & -> & Hout)| ->]; [|done]. simpl. split_and!; try done.
      unfold binaries in *. by rewrite omap_app, Hout, app_nil_r. }
    split_and!; try done. exists O. rewrite app_nil_r, Nat.add_0_r. auto. }
  destruct ev as [|i|]; simpl in Hr.
  - pose proof (recv_sent (se_rx s) b) as Hsent. pose proof (recv_room (se_rx s) b) as Hroom.
    destruct (decide (p = length (bc_sent b))) as [E|Hlt].
    { rewrite (recv_pending _ _ p) in Hr by done. apply (Hnone s); auto. }
    destruct (decide (length (bc_sent b) - p ≤ bc_room b)%nat) as [Hroom'|Hlag].
    + destruct (lookup_lt_is_Some_2 (bc_sent b) p) as [m Hm]; [lia|].
      destruct (recv_value _ _ p m Hp Hm Hroom') as [Hv Hpos].
      destruct (bc_recv (se_rx s) b) as [r b1]. simpl in *. subst r.
      destruct send_ok; injection Hr as <- <-; simpl; (split_and!; try done).
      * intros i Hi. by rewrite Hpos, lookup_insert_ne.
      * exists 1%nat. split_and!; [|lia|].
        -- unfold binaries. rewrite omap_app. simpl. by rewrite (drop_S _ m p).
        -- intros _. rewrite Hpos, lookup_insert_eq. f_equal. lia.
      * intros i Hi. by rewrite Hpos, lookup_insert_ne.
      * exists O. rewrite !app_nil_r. split_and!; [done|lia|done].
    + destruct (recv_lagged _ _ p Hp) as [Hv Hpos]; [lia|].
      destruct (bc_recv (se_rx s) b) as [r b1]. simpl in *. subst r.
      injection Hr as <- <-. simpl. split_and!; try done.
      * intros i Hi. by rewrite Hpos, lookup_insert_ne.
      * exists O. unfold binaries. rewrite omap_app. destruct send_ok; simpl;
          rewrite !app_nil_r; (split_and!; [done|lia|done]).
  - destruct i; (eapply Hnone; [|symmetry; exact Hr]); try (by right);
      left; (try destruct send_ok); eexists _, _; done.
  - eapply Hnone; [|symmetry; exact Hr]. left. destruct send_ok; eexists _, _; done.
Qed.

Lemma run_session_attached ev send_ok s (h : WsHub B) s' h' log start :
  run_ws_session ev send_ok s h = (s', h') → se_status s = Open → (start ≤ length log)%nat →
  attached h log s start → session_ok h' log (s', start) ∧
  se_channel s' = se_channel s ∧ se_rx s' = se_rx s.
Proof.
  unfold run_ws_session. intros Hr Ho Hl (b & p & from & Hb & Hp & Hle & Hpay & Hout).
  rewrite Hb in Hr. destruct (session_round ev send_ok s b) as [s1 b1] eqn:Er.
  destruct (session_round_spec _ _ _ _ _ _ p Er Hp ltac:(lia) Ho)
    as (Hc & Hrx & Hsent & Hroom & Hpos & n & Hbin & Hn & Hopen).
  injection Hr as <- <-. split; [|done].
  assert (Htake : binaries (se_out s1) = take (p + n - from) (drop from (bc_sent b))).
  { rewrite Hbin, Hout. replace (p + n - from)%nat with ((p - from) + n)%nat by lia.
    rewrite <-(take_take_drop (drop from (bc_sent b)) (p - from) n).
    f_equal. rewrite drop_drop. do 2 f_equal. lia. }
  split_and!; simpl; [done|..].
  - rewrite Hc, Hpay, Htake. apply prefix_take.
  - intros Ho1. rewrite decide_True by done. exists b1, (p + n)%nat, from. simpl.
    rewrite Hc, Hrx, lookup_insert_eq, Hsent, Hopen by done. split_and!; try done; lia.
Qed.

(** Setting a channel that is there keeps the number of channels. *)
Lemma set_channel_size c b (h : WsHub B) : is_Some (hub_channels h !! c) →
  size (hub_channels (set_channel c b h)) = size (hub_channels h).
Proof. intros Hs. simpl. by rewrite map_size_insert_Some. Qed.

Lemma hub_ok_channel cfg c (h : WsHub B) r h' : hub_ok cfg h → channel c h = (r, h') → hub_ok cfg h'.
Proof.
  intros (Hcfg & Hn & Hroom) (Hcfg' & _ & _ & Hold & Hsize)%channel_spec.
  rewrite Hcfg in *. split_and!; [done|lia|].
  intros c' b [Hb| ->]%Hold Hcap; [eauto|by apply new_room].
Qed.

Lemma hub_ok_set cfg c b b' (h : WsHub B) : hub_ok cfg h → hub_channels h !! c = Some b →
  bc_room b' = bc_room b → hub_ok cfg (set_channel c b' h).
Proof.
  intros (Hcfg & Hn & Hroom) Hb Hr. split_and!; [done|by rewrite set_channel_size|].
  simpl. intros c' b1. destruct (decide (c = c')) as [->|].
  - rewrite lookup_insert_eq. intros [= <-] Hcap. rewrite Hr. eauto.
  - rewrite lookup_insert_ne by done. eauto.
Qed.

Lemma hub_ok_bump cfg p s r (h : WsHub B) : hub_ok cfg h → hub_ok cfg (bump_hub p s r h).
Proof. done. Qed.

Lemma hub_ok_publish cfg c m (h : WsHub B) r h' :
  hub_ok cfg h → publish c m h = (r, h') → hub_ok cfg h'.
Proof.
  unfold publish. intros Hok Hp. destruct (channel c h) as [[b|] h0] eqn:Ec;
    pose proof (hub_ok_channel _ _ _ _ _ Hok Ec) as Hok0; [|by simplify_eq].
  apply channel_spec in Ec as (_ & _ & Hget & _). destruct (Hget b eq_refl) as [Hb _].
  pose proof (send_room m b) as Hr. destruct (bc_send m b) as [n b1]. injection Hp as _ <-.
  eapply hub_ok_bump, hub_ok_set; eauto.
Qed.

Lemma hub_ok_subscribe cfg c (h : WsHub B) r h' :
  hub_ok cfg h → subscribe c h = (r, h') → hub_ok cfg h'.
Proof.
  unfold subscribe. intros Hok Hp. destruct (channel c h) as [[b|] h0] eqn:Ec;
    pose proof (hub_ok_channel _ _ _ _ _ Hok Ec) as Hok0; [|by simplify_eq].
  apply channel_spec in Ec as (_ & _ & Hget & _). destruct (Hget b eq_refl) as [Hb _].
  pose proof (subscribe_room b) as Hr. destruct (bc_subscribe b) as [n b1]. injection Hp as _ <-.
  eapply (hub_ok_set _ _ b); eauto.
Qed.

Lemma hub_ok_session cfg ev send_ok s (h : WsHub B) s' h' log start :
  hub_ok cfg h → attached h log s start → se_status s = Open →
  run_ws_session ev send_ok s h = (s', h') → hub_ok cfg h'.
Proof.
  intros Hok (b & p & from & Hb & Hp & [_ Hle] & _) Ho.
  unfold run_ws_session. rewrite Hb. destruct (session_round ev send_ok s b) as [s1 b1] eqn:Er.
  destruct (session_round_spec _ _ _ _ _ _ p Er Hp Hle Ho) as (Hc & _ & _ & Hr & _).
  intros [= <- <-]. rewrite Hc. eapply hub_ok_set; [done..|].
  case_decide; [done|]. by rewrite drop_room.
Qed.

(** A round of one session leaves the others where they are. *)
Lemma run_session_others ev send_ok s (h : WsHub B) s' h' log start s2 start2 :
  run_ws_session ev send_ok s h = (s', h') → se_status s = Open → attached h log s start →
  (se_channel s2 = se_channel s → se_rx s2 ≠ se_rx s) →
  attached h log s2 start2 → attached h' log s2 start2.
Proof.
  unfold run_ws_session. intros Hr Ho (b & p & from & Hb & Hp & [_ Hle] & _) Hne.
  rewrite Hb in Hr. destruct (session_round ev send_ok s b) as [s1 b1] eqn:Er.
  destruct (session_round_spec _ _ _ _ _ _ p Er Hp Hle Ho) as (Hc & Hrx & Hsent & _ & Hpos & _).
  injection Hr as <- <-. apply attached_frame. intros b2 p2 Hb2 Hp2. simpl. rewrite Hc.
  destruct (decide (se_channel s = se_channel s2)) as [E|?].
  - rewrite E, lookup_insert_eq. eexists. split; [done|]. assert (b2 = b) as -> by congruence.
    rewrite <-(Hpos (se_rx s2)) in Hp2 by auto.
    case_decide; [done|]. rewrite drop_sent, drop_pos, Hrx, lookup_delete_ne by (apply not_eq_sym; auto).
    done.
  - rewrite lookup_insert_ne by done. eauto.
Qed.

Lemma sys_inv_init cfg : sys_inv cfg (sys_init cfg).
Proof.
  split; simpl; [|done|by intros j k s s' Hj].
  split_and!; [done| |by intros c b]. change (size _) with (size (∅ : gmap bytes B)).
  rewrite map_size_empty. lia.
Qed.

Lemma publish_sessions c m y n h' : publish c m (sys_hub y) = (n, h') →
  Forall (session_ok (sys_hub y) (sys_log y)) (sys_sessions y) →
  Forall (session_ok h' (sys_log y ++ (if n is Some _ then [(c, m)] else []))) (sys_sessions y).
Proof.
  intros Hp Hss. eapply Forall_impl; [done|]. intros e He.
  apply (session_ok_grow (sys_hub y)); [done|]. intros _ Hat. destruct n as [n|].
  - eapply publish_attached; [done| |done]. apply He.
  - rewrite app_nil_r. unfold publish in Hp. destruct (channel c _) as [[b|] h0] eqn:Ec;
      [by destruct (bc_send m b)|]. injection Hp as <-.
    apply channel_spec in Ec as (_ & Hkeep & _). eapply attached_frame; [|done].
    intros b p Hb Hp. eauto.
Qed.

Lemma upgrade_cases req c (h : WsHub B) resp rx h' :
  handle_ws_upgrade sha1_base64 req c h = (resp, rx, h') →
  (rx = None ∧ h' = h) ∨ subscribe c h = (rx, h').
Proof.
  unfold handle_ws_upgrade. intros Hu. destruct (is_upgrade req); simpl in Hu; [|simplify_eq; auto].
  destruct (up_key req); [|simplify_eq; auto]. right.
  by destruct (subscribe c h) as [[i|] h1]; simplify_eq.
Qed.

Lemma sys_inv_upgrade cfg req c resp rx h' y : sys_inv cfg y →
  handle_ws_upgrade sha1_base64 req c (sys_hub y) = (resp, rx, h') →
  sys_inv cfg {| sys_hub := h';
    sys_sessions := sys_sessions y ++
      (if rx is Some i then [(new_session c i, length (sys_log y))] else []);
    sys_log := sys_log y |}.
Proof.
  intros [Hhub Hss Hrx] [[-> ->]|Hs]%upgrade_cases.
  { split; simpl; rewrite ?app_nil_r; done. }
  assert (Hok : Forall (session_ok h' (sys_log y)) (sys_sessions y)).
  { eapply Forall_impl; [done|]. intros e (? & ? & Hat). split_and!; [done..|].
    intros Ho. eapply subscribe_attached; eauto. }
  destruct rx as [i|]; split; simpl; rewrite ?app_nil_r; try done;
    try by eapply hub_ok_subscribe.
  - apply Forall_app. split; [done|]. constructor; [|done].
    destruct (subscribe_new _ _ _ _ (sys_log y) Hs) as [Hat _]. split_and!; simpl; [lia| |done].
    apply prefix_nil.
  - apply rx_distinct_snoc; [done|]. intros j [s st] Hj Ho Hc.
    destruct (subscribe_new _ _ _ _ (sys_log y) Hs) as [_ Hne].
    eapply Forall_lookup_1 in Hss as (_ & _ & Hat); [|done]. eapply Hne; [by apply Hat|done].
Qed.

Lemma sys_inv_round cfg y k s start ev send_ok s' h' : sys_inv cfg y →
  sys_sessions y !! k = Some (s, start) → se_status s = Open →
  run_ws_session ev send_ok s (sys_hub y) = (s', h') →
  sys_inv cfg {| sys_hub := h'; sys_sessions := <[k := (s', start)]> (sys_sessions y);
                 sys_log := sys_log y |}.
Proof.
  intros [Hhub Hss Hrx] Hk Ho Hr.
  pose proof (Forall_lookup_1 _ _ _ _ Hss Hk) as (Hl & _ & Hat). specialize (Hat Ho). simpl in *.
  destruct (run_session_attached _ _ _ _ _ _ _ _ Hr Ho Hl Hat) as (Hok & Hc & Hi).
  split; simpl; [by eapply hub_ok_session|..].
  - apply Forall_lookup. intros j e Hj.
    apply list_lookup_insert_Some in Hj as [(<- & <- & _)|[Hjk Hj]]; [done|].
    pose proof (Forall_lookup_1 _ _ _ _ Hss Hj) as (Hl2 & Hpre2 & Hat2). split_and!; [done..|].
    intros Ho2. eapply run_session_others; [done..| |by apply Hat2].
    intros Hc2. eapply (Hrx j k e (s, start)); eauto.
  - intros i j e e' Hi' Hj' Hij Hoe Hoe' Hce.
    apply list_lookup_insert_Some in Hi' as [(<- & <- & _)|[? Hi']],
      Hj' as [(<- & <- & _)|[? Hj']]; simpl in *; [done|..].
    + rewrite Hi. eapply (Hrx k j (s, start) e'); simpl; eauto. congruence.
    + rewrite Hi. eapply (Hrx i k e (s, start)); simpl; eauto. congruence.
    + by eapply Hrx.
Qed.

Lemma sys_inv_step cfg y y' : sys_inv cfg y → sys_step y y' → sys_inv cfg y'.
Proof.
  intros Hinv Hs. revert Hinv.
  destruct Hs as [c m n h' y0 Hp|req c resp rx h' y0 Hu|k s start ev send_ok s' h' y0 Hk Ho Hr];
    intros Hinv.
  - destruct Hinv as [Hhub Hss Hrx]. split; simpl;
      [by eapply hub_ok_publish|by apply publish_sessions|done].
  - by eapply sys_inv_upgrade.
  - by eapply sys_inv_round.
Qed.

Lemma sys_inv_reachable cfg y : rtc sys_step (sys_init cfg) y → sys_inv cfg y.
Proof.
  apply (rtc_ind_r (R := sys_step) (sys_inv cfg)); [apply sys_inv_init|].
  intros y1 y2 _ Hs Hi. by eapply sys_inv_step.
Qed.


(** The steps as functions. *)
Definition do_publish (c m : bytes) (y : system) : system :=
  let '(n, h') := publish c m (sys_hub y) in
  {| sys_hub := h'; sys_sessions := sys_sessions y;
     sys_log := sys_log y ++ (if n is Some _ then [(c, m)] else []) |}.

Definition do_upgrade (req : upgrade_request) (c : bytes) (y : system) : system :=
  let '(_, rx, h') := handle_ws_upgrade sha1_base64 req c (sys_hub y) in
  {| sys_hub := h';
     sys_sessions := sys_sessions y ++
       (if rx is Some i then [(new_session c i, length (sys_log y))] else []);
     sys_log := sys_log y |}.

Definition do_round (k : nat) (ev : ws_event) (y : system) : system :=
  match sys_sessions y !! k with
  | Some (s, start) =>
      if decide (se_status s = Open) then
        let '(s', h') := run_ws_session ev true s (sys_hub y) in
        {| sys_hub := h'; sys_sessions := <[k := (s', start)]> (sys_sessions y);
           sys_log := sys_log y |}
      else y
  | None => y
  end.

Lemma do_publish_step c m y y' : rtc sys_step y' y → rtc sys_step y' (do_publish c m y).
Proof.
  intros Hr. eapply rtc_r; [done|]. unfold do_publish.
  destruct (publish c m _) eqn:E. by eapply sys_publish.
Qed.

Lemma do_upgrade_step req c y y' : rtc sys_step y' y → rtc sys_step y' (do_upgrade req c y).
Proof.
  intros Hr. eapply rtc_r; [done|]. unfold do_upgrade.
  destruct (handle_ws_upgrade _ _ _ _) as [[resp rx] h'] eqn:E. by eapply sys_upgrade.
Qed.

Lemma do_round_step k ev y y' : rtc sys_step y' y → rtc sys_step y' (do_round k ev y).
Proof.
  intros Hr. unfold do_round. destruct (sys_sessions y !! k) as [[s start]|] eqn:Ek; [|done].
  case_decide; [|done]. eapply rtc_r; [done|].
  destruct (run_ws_session _ _ _ _) eqn:E. by eapply sys_round.
Qed.
End system.
Arguments system : clear implicits.

(** Two clients on one channel, of which the second comes and reads later. *)
Definition ex_cfg : WsConfig :=
  {| max_channels := 8; channel_capacity := 4; max_frame_size := 65536; idle_timeout_secs := 300 |}.

Definition ex_upgrade : upgrade_request :=
  {| up_upgrade := Some (lit "websocket"); up_connection := Some (lit "keep-alive, Upgrade");
     up_key := Some (lit "dGhlIHNhbXBsZSBub25jZQ==") |}.

Definition ex_system : system simple_broadcast :=
  do_round 0 EvReceiver (do_publish (lit "chat") (lit "m2") (do_upgrade id ex_upgrade (lit "chat")
    (do_round 0 EvReceiver (do_publish (lit "chat") (lit "m1") (do_publish (lit "news") (lit "n1")
      (do_upgrade id ex_upgrade (lit "chat") (sys_init ex_cfg))))))).

Definition ex_session (rx : nat) (out : list message) : session :=
  {| se_channel := lit "chat"; se_rx := rx; se_out := out; se_status := Open |}.

