(* ===== verification/AsyncIo.v ===== *)
(** * Asynchronous I/O for scripts (turbine-core/src/async_io.rs)

    File reads and writes below configured roots, and timers that push to the
    task queue. The file system is a parameter with its own state: what a path
    canonicalises to, what opening it for reading gives, and what writing it does. *)

From S2P Require Import Prelude RustStr PathGuard TaskQueue.

Inductive AsyncIoError :=
| PathNotAllowed
| TooLarge (max : Z)
| Io (kind : bytes)
| TimerWithoutQueue
| DelayTooLong (max : Z).

#[global] Instance async_io_error_eq_dec : EqDecision AsyncIoError.
Proof. solve_decision. Defined.

Record AsyncIo := {
  allowed_roots : list bytes;
  max_io_bytes : Z;
  max_timer_ms : Z;
  timers_scheduled : Z;
  timers_fired : Z;
  reads : Z;
  writes : Z }.

Record AsyncIoStats := {
  as_reads : Z;
  as_writes : Z;
  as_timers_scheduled : Z;
  as_timers_fired : Z;
  as_allowed_roots : Z }.

Definition bump_io (scheduled fired rd wr : Z) (io : AsyncIo) : AsyncIo :=
  {| allowed_roots := allowed_roots io; max_io_bytes := max_io_bytes io;
     max_timer_ms := max_timer_ms io;
     timers_scheduled := wrap_u 64 (timers_scheduled io + scheduled);
     timers_fired := wrap_u 64 (timers_fired io + fired);
     reads := wrap_u 64 (reads io + rd); writes := wrap_u 64 (writes io + wr) |}.

(** [path.parent()] and [path.file_name()]; the parent is spelled without the
    repeated separators and dots that the file system ignores. *)
Definition component_bytes (c : Component) : bytes :=
  match c with RootDir => [slash] | CurDir => lit "." | ParentDir => lit ".." | Normal n => n end.

Definition path_parent (p : bytes) : option bytes :=
  match last (components p) with
  | None | Some RootDir => None
  | Some _ => Some (foldl path_push [] (component_bytes <$> removelast (components p)))
  end.

Definition path_file_name (p : bytes) : option bytes :=
  match last (components p) with Some (Normal n) => Some n | _ => None end.

Example parent_ex :
  path_parent (lit "/srv//data/./new.txt") = Some (lit "/srv/data") ∧
  path_parent (lit "new.txt") = Some [] ∧ path_parent (lit "/") = None ∧
  path_file_name (lit "/srv/..") = None.
Proof. by vm_compute. Qed.

(** A timer that sleeps: its channel and its payload. *)
Record timer := { tm_channel : bytes; tm_payload : bytes; tm_delay_ms : Z }.

Section io.
Context {FS : Type}.
Context (canonicalize : FS → bytes → option bytes).
(** The content of a file that can be opened and read, or the kind of the error. *)
Context (open_read : FS → bytes → result bytes bytes).
(** Opening with [create], appending or truncating, and writing all the data. *)
Context (open_write : FS → bytes → bool → bytes → result FS bytes).

Definition io_new (fs : FS) (roots : list bytes) (max_bytes max_ms : Z) : AsyncIo :=
  {| allowed_roots := omap (canonicalize fs) roots; max_io_bytes := max_bytes;
     max_timer_ms := max_ms; timers_scheduled := 0; timers_fired := 0; reads := 0; writes := 0 |}.

Definition resolve (fs : FS) (io : AsyncIo) (path : bytes) (allow_create : bool)
    : result bytes AsyncIoError :=
  if bool_decide (allowed_roots io = []) then Err PathNotAllowed
  else
    let? canon :=
      match canonicalize fs path with
      | Some c => Ok c
      | None =>
          if allow_create then
            match path_parent path, path_file_name path with
            | Some parent, Some file_name =>
                match canonicalize fs parent with
                | Some parent_canon => Ok (path_join parent_canon file_name)
                | None => Err PathNotAllowed
                end
            | _, _ => Err PathNotAllowed
            end
          else Err PathNotAllowed
      end in
    if existsb (λ root, path_starts_with root canon) (allowed_roots io) then Ok canon
    else Err PathNotAllowed.

(** [SeekFrom::Start] takes a position that fits the system's signed offset. *)
Definition io_read (fs : FS) (path : bytes) (offset length : Z) (io : AsyncIo)
    : result bytes AsyncIoError * AsyncIo :=
  match resolve fs io path false with
  | Err e => (Err e, io)
  | Ok target =>
      match open_read fs target with
      | Err kind => (Err (Io kind), io)
      | Ok data =>
          if 2 ^ 63 <=? offset then (Err (Io (lit "InvalidInput")), io)
          else
            let cap := if length =? 0 then max_io_bytes io else Z.min length (max_io_bytes io) in
            (Ok (take (Z.to_nat cap) (drop (Z.to_nat offset) data)), bump_io 0 0 1 0 io)
      end
  end.

Definition io_write (fs : FS) (path data : bytes) (append : bool) (io : AsyncIo)
    : result Z AsyncIoError * AsyncIo * FS :=
  if max_io_bytes io <? zlen data then (Err (TooLarge (max_io_bytes io)), io, fs)
  else
    match resolve fs io path true with
    | Err e => (Err e, io, fs)
    | Ok target =>
        match open_write fs target append data with
        | Err kind => (Err (Io kind), io, fs)
        | Ok fs' => (Ok (zlen data), bump_io 0 0 0 1 io, fs')
        end
    end.
End io.

(** The task that sleeps is returned. *)
Definition schedule_timer (has_queue : bool) (channel data : bytes) (delay_ms : Z) (io : AsyncIo)
    : result timer AsyncIoError * AsyncIo :=
  if negb has_queue then (Err TimerWithoutQueue, io)
  else if max_timer_ms io <? delay_ms then (Err (DelayTooLong (max_timer_ms io)), io)
  else (Ok {| tm_channel := channel; tm_payload := data; tm_delay_ms := delay_ms |},
        bump_io 1 0 0 0 io).

(** What the task does when it wakes; a full channel drops the payload. *)
Definition timer_fires (now : Z) (t : timer) (q : TaskQueue) (io : AsyncIo) : TaskQueue * AsyncIo :=
  ((push now (tm_channel t) (tm_payload t) q).2, bump_io 0 1 0 0 io).

Definition io_stats (io : AsyncIo) : AsyncIoStats :=
  {| as_reads := reads io; as_writes := writes io; as_timers_scheduled := timers_scheduled io;
     as_timers_fired := timers_fired io; as_allowed_roots := zlen (allowed_roots io) |}.

(** ** Lemmas *)

(** A path that is let through lies below a root, and is the canonical path of a
    file that is there, or a name in a directory that is. *)
Lemma resolve_spec {FS} (canonicalize : FS → bytes → option bytes) fs io path create target :
  resolve canonicalize fs io path create = Ok target →
  (∃ root rest, root ∈ allowed_roots io ∧ components target = components root ++ rest) ∧
  (canonicalize fs path = Some target ∨
   create = true ∧ canonicalize fs path = None ∧
   ∃ dir parent name, path_parent path = Some dir ∧ canonicalize fs dir = Some parent ∧
     path_file_name path = Some name ∧ target = path_join parent name).
Proof.
  unfold resolve. case_bool_decide; [done|].
  set (canon := match canonicalize fs path with Some c => Ok c | None => _ end).
  intros Hr. destruct canon as [c|e] eqn:Ec; [|done]. simpl in Hr.
  destruct (existsb _ _) eqn:Ex; [|done]. injection Hr as ->. split.
  - apply existsb_exists in Ex as (root & Hin & Hs). apply path_starts_with_spec in Hs as [rest Hs].
    exists root, rest. split; [by apply list_elem_of_In|done].
  - unfold canon in Ec. destruct (canonicalize fs path) as [c|]; [left; congruence|]. right.
    destruct create; [|done]. split_and!; [done..|].
    destruct (path_parent path) as [dir|]; [|done]. destruct (path_file_name path) as [name|]; [|done].
    destruct (canonicalize fs dir) as [parent|] eqn:Ed; [|done]. injection Ec as <-. naive_solver.
Qed.

(** ** Properties *)


(** A small file system: files, directories and symbolic links to absolute paths. *)
Inductive node := File (data : bytes) | Dir | Link (target : bytes).

Definition fs_canonicalize (fs : gmap bytes node) (p : bytes) : option bytes :=
  match fs !! p with
  | Some (Link t) => match fs !! t with Some (File _) | Some Dir => Some t | _ => None end
  | Some _ => Some p
  | None => None
  end.

Definition fs_read (fs : gmap bytes node) (p : bytes) : result bytes bytes :=
  match fs !! p with Some (File d) => Ok d | _ => Err (lit "NotFound") end.

(** Opening with [create] follows a link, also to a file that is not there yet. *)
Definition fs_write (fs : gmap bytes node) (p : bytes) (append : bool) (data : bytes)
    : result (gmap bytes node) bytes :=
  let p := match fs !! p with Some (Link t) => t | _ => p end in
  match fs !! p with
  | Some (File d) => Ok (<[p := File (if append then d ++ data else data)]> fs)
  | None => Ok (<[p := File data]> fs)
  | _ => Err (lit "IsADirectory")
  end.

Definition ex_fs : gmap bytes node :=
  list_to_map [(lit "/srv", Dir); (lit "/srv/a.txt", File (lit "hello world"));
               (lit "/srv/out", Link (lit "/etc/cron.d/job"))].

Definition ex_io : AsyncIo := io_new fs_canonicalize ex_fs [lit "/srv"] 5 1000.


(** A link below the root to a file that does not exist yet passes the check, and
    the write creates that file outside. *)
Example dangling_link_escapes :
  let '(r, _, fs') := io_write fs_canonicalize fs_write ex_fs (lit "/srv/out") (lit "evil") false ex_io in
  r = Ok 4 ∧ fs' !! lit "/etc/cron.d/job" = Some (File (lit "evil")).
Proof. by vm_compute. Qed.
