(* ===== verification/Metrics.v ===== *)
(** * Metrics (turbine-metrics/src/histogram.rs, collector.rs)

    Counters and a latency histogram with fixed buckets. Every counter is an
    [AtomicU64] that wraps; [load] and [fetch_add] are relaxed, and the operations
    here are whole: readers see the state between two of them. The clock is an
    argument. A number that is printed without a precision is printed by
    [show_f64], a parameter: the shortest decimal that reads back as it. *)

From S2P Require Import Prelude RustStr F64.

(** ** The histogram *)

Definition BUCKETS_US : list Z :=
  [100; 250; 500; 1000; 2500; 5000; 10000; 25000; 50000; 100000].

Definition NUM_BUCKETS : nat := 11.

Record LatencyHistogram := {
  buckets : list Z;
  sum_us : Z;
  count : Z }.

Definition histogram_new : LatencyHistogram :=
  {| buckets := replicate NUM_BUCKETS 0; sum_us := 0; count := 0 |}.

(** The first bucket whose bound is not below the latency, or the last one. *)
Definition bucket_index (latency_us : Z) : nat :=
  match list_find (λ b, (latency_us <=? b) = true) BUCKETS_US with
  | Some (i, _) => i
  | None => length BUCKETS_US
  end.

Definition record (latency_us : Z) (h : LatencyHistogram) : LatencyHistogram :=
  {| buckets := alter (λ n, wrap_u 64 (n + 1)) (bucket_index latency_us) (buckets h);
     sum_us := wrap_u 64 (sum_us h + latency_us);
     count := wrap_u 64 (count h + 1) |}.

Definition mean_us (h : LatencyHistogram) : Z := if count h =? 0 then 0 else sum_us h / count h.

(** The loop of [percentile] over the buckets from [i] on. The sum of the buckets
    is taken without a check, as in a release build. *)
Fixpoint percentile_loop (h : LatencyHistogram) (target cumulative : Z) (i : nat) (bs : list Z) : Z :=
  match bs with
  | [] => sum_us h / count h
  | b :: bs' =>
      let cumulative := wrap_u 64 (cumulative + b) in
      if target <=? cumulative then
        match BUCKETS_US !! i with Some bound => bound | None => sum_us h / count h end
      else percentile_loop h target cumulative (S i) bs'
  end.

Definition percentile_target (h : LatencyHistogram) (p : f64) : Z :=
  f64_ceil_as_u64 (f64_mul (f64_of_Z (count h)) p).

Definition percentile (p : f64) (h : LatencyHistogram) : Z :=
  if count h =? 0 then 0 else percentile_loop h (percentile_target h p) 0 0 (buckets h).

(** ** Text *)

(** [format!("{:.k}", x)] *)
Definition fixed (k : nat) (x : f64) : bytes :=
  let n := f64_scaled (Z.of_nat k) x in
  let frac := dec_string (n mod 10 ^ Z.of_nat k) in
  dec_string (n / 10 ^ Z.of_nat k) ++ lit "." ++ replicate (k - length frac) x30 ++ frac.

Definition ms (us : Z) : f64 := f64_div (f64_of_Z us) (f64_of_Z 1000).

Example fixed_ex : fixed 2 (ms 1234) = lit "1.23" ∧ fixed 2 (ms 125) = lit "0.12" ∧
  fixed 1 (f64_of_Z 7) = lit "7.0" ∧ fixed 3 (f64_div (f64_of_Z 2) (f64_of_Z 3)) = lit "0.667".
Proof. by vm_compute. Qed.

(** ** The collector *)

Record EndpointMetrics := {
  ep_requests : Z;
  ep_errors : Z;
  ep_bytes_out : Z;
  ep_latency : LatencyHistogram }.

Definition endpoint_new : EndpointMetrics :=
  {| ep_requests := 0; ep_errors := 0; ep_bytes_out := 0; ep_latency := histogram_new |}.

Record MetricsCollector := {
  total_requests : Z;
  total_errors : Z;
  total_bytes_out : Z;
  total_2xx : Z;
  total_3xx : Z;
  total_4xx : Z;
  total_5xx : Z;
  cache_hits : Z;
  cache_misses : Z;
  security_blocks : Z;
  latency : LatencyHistogram;
  endpoints : gmap bytes EndpointMetrics;
  started_at : Z }.

Definition collector_new (now : Z) : MetricsCollector :=
  {| total_requests := 0; total_errors := 0; total_bytes_out := 0; total_2xx := 0; total_3xx := 0;
     total_4xx := 0; total_5xx := 0; cache_hits := 0; cache_misses := 0; security_blocks := 0;
     latency := histogram_new; endpoints := ∅; started_at := now |}.

Definition in_class (status lo : Z) : bool := (lo <=? status) && (status <=? lo + 99).

Definition bump_if (b : bool) (n : Z) : Z := if b then wrap_u 64 (n + 1) else n.

Definition record_endpoint (status latency_us size : Z) (e : EndpointMetrics) : EndpointMetrics :=
  {| ep_requests := wrap_u 64 (ep_requests e + 1);
     ep_errors := bump_if (500 <=? status) (ep_errors e);
     ep_bytes_out := wrap_u 64 (ep_bytes_out e + size);
     ep_latency := record latency_us (ep_latency e) |}.

Definition record_request (path : bytes) (status latency_us size : Z) (m : MetricsCollector)
    : MetricsCollector :=
  {| total_requests := wrap_u 64 (total_requests m + 1);
     total_errors := bump_if (in_class status 500) (total_errors m);
     total_bytes_out := wrap_u 64 (total_bytes_out m + size);
     total_2xx := bump_if (in_class status 200) (total_2xx m);
     total_3xx := bump_if (in_class status 300) (total_3xx m);
     total_4xx := bump_if (in_class status 400) (total_4xx m);
     total_5xx := bump_if (in_class status 500) (total_5xx m);
     cache_hits := cache_hits m; cache_misses := cache_misses m;
     security_blocks := security_blocks m;
     latency := record latency_us (latency m);
     endpoints := partial_alter (λ e, Some (record_endpoint status latency_us size (default endpoint_new e)))
                    path (endpoints m);
     started_at := started_at m |}.

Definition bump_metrics (hits misses blocks : Z) (m : MetricsCollector) : MetricsCollector :=
  {| total_requests := total_requests m; total_errors := total_errors m;
     total_bytes_out := total_bytes_out m; total_2xx := total_2xx m; total_3xx := total_3xx m;
     total_4xx := total_4xx m; total_5xx := total_5xx m;
     cache_hits := wrap_u 64 (cache_hits m + hits);
     cache_misses := wrap_u 64 (cache_misses m + misses);
     security_blocks := wrap_u 64 (security_blocks m + blocks);
     latency := latency m; endpoints := endpoints m; started_at := started_at m |}.

Definition record_cache_hit (m : MetricsCollector) : MetricsCollector := bump_metrics 1 0 0 m.
Definition record_cache_miss (m : MetricsCollector) : MetricsCollector := bump_metrics 0 1 0 m.
Definition record_security_block (m : MetricsCollector) : MetricsCollector := bump_metrics 0 0 1 m.

Definition uptime_secs (now : Z) (m : MetricsCollector) : Z := (now - started_at m) / 10 ^ 9.

Definition rps (now : Z) (m : MetricsCollector) : f64 :=
  if uptime_secs now m =? 0 then f64_of_Z (total_requests m)
  else f64_div (f64_of_Z (total_requests m)) (f64_of_Z (uptime_secs now m)).

Definition cache_hit_ratio (m : MetricsCollector) : f64 :=
  let total := wrap_u 64 (cache_hits m + cache_misses m) in
  if total =? 0 then f64_zero else f64_div (f64_of_Z (cache_hits m)) (f64_of_Z total).

Section text.
Context (show_f64 : f64 → bytes).
(** The order in which the endpoints are iterated. *)
Context (iter : gmap bytes EndpointMetrics → list (bytes * EndpointMetrics)).

(** The cumulative lines of the buckets from a running sum on. *)
Fixpoint bucket_lines (name : bytes) (bounds bs : list Z) (cumulative : Z) : bytes * Z :=
  match bounds, bs with
  | bound :: bounds', b :: bs' =>
      let cumulative := wrap_u 64 (cumulative + b) in
      let '(rest, total) := bucket_lines name bounds' bs' cumulative in
      (ln (name ++ q (lit "_bucket{le=~") ++ show_f64 (ms bound) ++ q (lit "~} ") ++
           dec_string cumulative) ++ rest, total)
  | _, _ => ([], cumulative)
  end.

Definition prometheus_buckets (name : bytes) (h : LatencyHistogram) : bytes :=
  let '(out, cumulative) := bucket_lines name BUCKETS_US (buckets h) 0 in
  let cumulative := wrap_u 64 (cumulative + default 0 (buckets h !! length BUCKETS_US)) in
  out ++
  ln (name ++ q (lit "_bucket{le=~+Inf~} ") ++ dec_string cumulative) ++
  ln (name ++ lit "_sum " ++ show_f64 (ms (sum_us h))) ++
  ln (name ++ lit "_count " ++ dec_string (count h)).

(** A metric with its help and type, and an empty line. *)
Definition metric_head (name kind help : bytes) : bytes :=
  ln (lit "# HELP " ++ name ++ lit " " ++ help) ++ ln (lit "# TYPE " ++ name ++ lit " " ++ kind).

Definition counter (name help : bytes) (v : Z) : bytes :=
  metric_head name (lit "counter") help ++ ln (name ++ lit " " ++ dec_string v) ++ ln [].

Definition prometheus (now : Z) (m : MetricsCollector) : bytes :=
  let class_line c v := ln (q (lit "turbine_http_status{class=~" ++ c ++ lit "~} ") ++ dec_string v) in
  counter (lit "turbine_requests_total") (lit "Total HTTP requests") (total_requests m) ++
  counter (lit "turbine_errors_total") (lit "Total server errors (5xx)") (total_errors m) ++
  counter (lit "turbine_bytes_out_total") (lit "Total bytes sent") (total_bytes_out m) ++
  metric_head (lit "turbine_http_status") (lit "counter") (lit "HTTP responses by status class") ++
  class_line (lit "2xx") (total_2xx m) ++ class_line (lit "3xx") (total_3xx m) ++
  class_line (lit "4xx") (total_4xx m) ++ class_line (lit "5xx") (total_5xx m) ++ ln [] ++
  counter (lit "turbine_cache_hits_total") (lit "Response cache hits") (cache_hits m) ++
  counter (lit "turbine_cache_misses_total") (lit "Response cache misses") (cache_misses m) ++
  counter (lit "turbine_security_blocks_total") (lit "Requests blocked by security")
    (security_blocks m) ++
  metric_head (lit "turbine_request_duration_ms") (lit "histogram")
    (lit "Request latency in milliseconds") ++
  prometheus_buckets (lit "turbine_request_duration_ms") (latency m) ++ ln [] ++
  metric_head (lit "turbine_uptime_seconds") (lit "gauge") (lit "Runtime uptime") ++
  ln (lit "turbine_uptime_seconds " ++ dec_string (uptime_secs now m)).

(** [sort_by] is stable: the order among equals is kept. *)
Fixpoint insert_desc (e : bytes * EndpointMetrics) (l : list (bytes * EndpointMetrics))
    : list (bytes * EndpointMetrics) :=
  match l with
  | [] => [e]
  | e' :: l' => if ep_requests e'.2 <? ep_requests e.2 then e :: l else e' :: insert_desc e l'
  end.

Definition sort_desc (l : list (bytes * EndpointMetrics)) : list (bytes * EndpointMetrics) :=
  foldl (λ acc e, insert_desc e acc) [] l.

Definition endpoint_json (e : bytes * EndpointMetrics) : bytes :=
  ln (lit "    {") ++
  ln (q (lit "      ~path~: ~") ++ e.1 ++ q (lit "~,")) ++
  ln (q (lit "      ~requests~: ") ++ dec_string (ep_requests e.2) ++ lit ",") ++
  ln (q (lit "      ~errors~: ") ++ dec_string (ep_errors e.2) ++ lit ",") ++
  ln (q (lit "      ~mean_ms~: ") ++ fixed 2 (ms (mean_us (ep_latency e.2))) ++ lit ",") ++
  ln (q (lit "      ~p99_ms~: ") ++ fixed 2 (ms (percentile f64_0_99 (ep_latency e.2)))) ++
  lit "    }".

Fixpoint endpoints_json (es : list (bytes * EndpointMetrics)) : bytes :=
  match es with
  | [] => []
  | [e] => ln (endpoint_json e)
  | e :: es' => ln (endpoint_json e ++ lit ",") ++ endpoints_json es'
  end.

Definition status_json (now workers : Z) (m : MetricsCollector) : bytes :=
  let field name v := ln (q (lit "  ~" ++ name ++ lit "~: ") ++ v ++ lit ",") in
  let sub name v := ln (q (lit "    ~" ++ name ++ lit "~: ") ++ v ++ lit ",") in
  let sub_last name v := ln (q (lit "    ~" ++ name ++ lit "~: ") ++ v) in
  ln (lit "{") ++
  field (lit "uptime_seconds") (dec_string (uptime_secs now m)) ++
  field (lit "workers") (dec_string workers) ++
  field (lit "total_requests") (dec_string (total_requests m)) ++
  field (lit "total_errors") (dec_string (total_errors m)) ++
  field (lit "requests_per_second") (fixed 1 (rps now m)) ++
  field (lit "bytes_out") (dec_string (total_bytes_out m)) ++
  ln (q (lit "  ~latency_ms~: {")) ++
  sub (lit "mean") (fixed 2 (ms (mean_us (latency m)))) ++
  sub (lit "p50") (fixed 2 (ms (percentile f64_0_50 (latency m)))) ++
  sub (lit "p90") (fixed 2 (ms (percentile f64_0_90 (latency m)))) ++
  sub_last (lit "p99") (fixed 2 (ms (percentile f64_0_99 (latency m)))) ++
  ln (lit "  },") ++
  ln (q (lit "  ~cache~: {")) ++
  sub (lit "hits") (dec_string (cache_hits m)) ++
  sub (lit "misses") (dec_string (cache_misses m)) ++
  sub_last (lit "hit_ratio") (fixed 3 (cache_hit_ratio m)) ++
  ln (lit "  },") ++
  ln (q (lit "  ~security~: {")) ++ sub_last (lit "blocks") (dec_string (security_blocks m)) ++
  ln (lit "  },") ++
  ln (q (lit "  ~status_codes~: {")) ++
  sub (lit "2xx") (dec_string (total_2xx m)) ++ sub (lit "3xx") (dec_string (total_3xx m)) ++
  sub (lit "4xx") (dec_string (total_4xx m)) ++ sub_last (lit "5xx") (dec_string (total_5xx m)) ++
  ln (lit "  },") ++
  ln (q (lit "  ~endpoints~: [")) ++ endpoints_json (sort_desc (iter (endpoints m))) ++
  ln (lit "  ]") ++ ln (lit "}").
End text.

(** ** What was recorded *)

(** A request as it was recorded: its path, status, latency and size. *)
Record sample := { sm_path : bytes; sm_status : Z; sm_latency : Z; sm_size : Z }.

Definition run_samples (l : list sample) (m : MetricsCollector) : MetricsCollector :=
  foldl (λ m s, record_request (sm_path s) (sm_status s) (sm_latency s) (sm_size s) m) m l.

Definition total (P : sample → bool) (l : list sample) : Z := zlen (List.filter P l).

(** How many of some latencies are at most a bound. *)
Definition at_most (bound : Z) (l : list Z) : Z := zlen (List.filter (λ v, v <=? bound) l).

Definition run_latencies (l : list Z) : LatencyHistogram := foldl (λ h v, record v h) histogram_new l.

(** ** Lemmas *)

Lemma wrap_u_add a n : wrap_u 64 (wrap_u 64 a + n) = wrap_u 64 (a + n).
Proof. unfold wrap_u. by rewrite Zplus_mod_idemp_l. Qed.

(** The latencies in a bucket, and in the buckets before one. *)
Definition in_bucket (i : nat) (l : list Z) : Z :=
  zlen (List.filter (λ v, bool_decide (bucket_index v = i)) l).

Definition below (i : nat) (l : list Z) : Z :=
  zlen (List.filter (λ v, bool_decide (bucket_index v < i)%nat) l).

Lemma count_snoc {A} (P : A → bool) l v :
  zlen (List.filter P (l ++ [v])) = zlen (List.filter P l) + (if P v then 1 else 0).
Proof. rewrite List.filter_app, zlen_app. simpl. by destruct (P v). Qed.

Lemma count_bound {A} (P : A → bool) l : 0 ≤ zlen (List.filter P l) ≤ zlen l.
Proof.
  unfold zlen. split; [lia|]. apply inj_le.
  induction l as [|a l IH]; simpl; [done|]. destruct (P a); simpl; lia.
Qed.

Lemma below_S i l : below (S i) l = below i l + in_bucket i l.
Proof.
  unfold below, in_bucket. induction l as [|v l IH] using rev_ind; [done|].
  rewrite !count_snoc, IH. repeat case_bool_decide; lia.
Qed.

Lemma bucket_index_bound v : (bucket_index v < NUM_BUCKETS)%nat.
Proof.
  unfold bucket_index. destruct (list_find _ _) as [[i b]|] eqn:E; [|by vm_compute; lia].
  apply list_find_Some in E as (Hi & _). apply lookup_lt_Some in Hi.
  unfold NUM_BUCKETS. simpl in Hi. lia.
Qed.

Lemma run_latencies_snoc l v : run_latencies (l ++ [v]) = record v (run_latencies l).
Proof. unfold run_latencies. by rewrite foldl_app. Qed.

Lemma run_buckets l :
  buckets (run_latencies l) = (λ i, wrap_u 64 (in_bucket i l)) <$> seq 0 NUM_BUCKETS.
Proof.
  induction l as [|v l IH] using rev_ind; [done|].
  rewrite run_latencies_snoc. unfold record. cbn [buckets]. rewrite IH.
  apply list_eq. intros i. destruct (decide (i < NUM_BUCKETS)%nat) as [Hi|Hi].
  - unfold in_bucket. rewrite list_lookup_fmap, lookup_seq_lt by done. cbn [fmap option_fmap option_map].
    rewrite count_snoc. destruct (decide (bucket_index v = i)) as [<-|Hne].
    + rewrite list_lookup_alter, decide_True, list_lookup_fmap, lookup_seq_lt by done. simpl.
      rewrite bool_decide_eq_true_2 by done. by rewrite wrap_u_add.
    + rewrite list_lookup_alter, decide_False, list_lookup_fmap, lookup_seq_lt by done. simpl.
      rewrite bool_decide_eq_false_2 by done. by rewrite Z.add_0_r.
  - rewrite !lookup_ge_None_2; [done|..]; rewrite ?length_alter, length_fmap, length_seq; lia.
Qed.

Lemma run_count l : count (run_latencies l) = wrap_u 64 (zlen l).
Proof.
  induction l as [|v l IH] using rev_ind; [done|].
  rewrite run_latencies_snoc. unfold record. cbn [count].
  rewrite IH, zlen_app. apply wrap_u_add.
Qed.

Definition sum_list (l : list Z) : Z := foldr Z.add 0 l.

Lemma sum_list_snoc l v : sum_list (l ++ [v]) = sum_list l + v.
Proof. unfold sum_list. rewrite foldr_app. simpl. induction l as [|a l IH]; simpl; lia. Qed.

Lemma run_sum l : sum_us (run_latencies l) = wrap_u 64 (sum_list l).
Proof.
  induction l as [|v l IH] using rev_ind; [done|].
  rewrite run_latencies_snoc. unfold record. cbn [sum_us].
  by rewrite IH, wrap_u_add, sum_list_snoc.
Qed.

Lemma bump_count (P : sample → bool) l s :
  bump_if (P s) (wrap_u 64 (total P l)) = wrap_u 64 (total P (l ++ [s])).
Proof.
  unfold bump_if, total. rewrite count_snoc. destruct (P s); [apply wrap_u_add|].
  by rewrite Z.add_0_r.
Qed.

(** The loop stops at the first bucket up to which there are enough samples. *)
Lemma percentile_loop_spec l target n i :
  zlen l < 2 ^ 64 → (i + n = NUM_BUCKETS)%nat → below i l < target → target ≤ zlen l →
  ∃ j, below j l < target ≤ below (S j) l ∧
    percentile_loop (run_latencies l) target (below i l) i
      ((λ i, wrap_u 64 (in_bucket i l)) <$> seq i n) =
    match BUCKETS_US !! j with
    | Some bound => bound
    | None => sum_us (run_latencies l) / count (run_latencies l)
    end.
Proof.
  intros Hlen. revert i. induction n as [|n IH]; intros i Hi Hlo Hhi.
  { exfalso. assert (below i l = zlen l) as E; [|lia]. unfold below. f_equal.
    apply List.forallb_filter_id. apply forallb_forall. intros v _.
    apply bool_decide_eq_true_2. pose proof (bucket_index_bound v). lia. }
  cbn [seq fmap list_fmap percentile_loop].
  pose proof (count_bound (λ v, bool_decide (bucket_index v = i)) l) as Hb.
  pose proof (count_bound (λ v, bool_decide (bucket_index v < S i)%nat) l) as Hs.
  assert (wrap_u 64 (below i l + wrap_u 64 (in_bucket i l)) = below (S i) l) as ->.
  { rewrite below_S, (wrap_u_small (in_bucket i l)) by (unfold in_bucket in *; lia).
    rewrite <-below_S. apply wrap_u_small. unfold below in *. lia. }
  destruct (Z.leb_spec target (below (S i) l)).
  - exists i. done.
  - apply IH; lia.
Qed.

Lemma below_0 l : below 0 l = 0.
Proof.
  unfold below. induction l as [|v l IH]; [done|]. cbn [List.filter].
  by rewrite bool_decide_eq_false_2 by lia.
Qed.

Lemma below_mono i j l : (i ≤ j)%nat → below i l ≤ below j l.
Proof.
  induction 1 as [|j _ IH]; [done|]. rewrite below_S.
  pose proof (count_bound (λ v, bool_decide (bucket_index v = j)) l). unfold in_bucket. lia.
Qed.

(** A latency is in one of the first buckets when it is within their last bound. *)
Lemma bucket_index_le v i bound : BUCKETS_US !! i = Some bound →
  (bucket_index v < S i)%nat ↔ v ≤ bound.
Proof.
  intros Hi. unfold bucket_index.
  assert (Hsorted : ∀ j k x y, (j ≤ k)%nat → BUCKETS_US !! j = Some x → BUCKETS_US !! k = Some y → x ≤ y).
  { intros j k x y Hjk Hj Hk. do 10 (destruct j as [|j]; [do 10 (destruct k as [|k];
      [simplify_eq/=; lia|]); done|]). done. }
  destruct (list_find _ _) as [[j b]|] eqn:E.
  - apply list_find_Some in E as (Hj & Hle%Z.leb_le & Hlt). split; intros H.
    + specialize (Hsorted j i b bound ltac:(lia) Hj Hi). lia.
    + destruct (decide (j < S i)%nat); [done|]. exfalso.
      apply (Hlt i bound Hi ltac:(lia)). by apply Z.leb_le.
  - apply list_find_None in E. rewrite Forall_forall in E. split.
    + intros H. apply lookup_lt_Some in Hi. lia.
    + intros H. exfalso. apply (E bound); [by eapply list_elem_of_lookup_2|by apply Z.leb_le].
Qed.

Lemma below_at_most l i bound : BUCKETS_US !! i = Some bound → below (S i) l = at_most bound l.
Proof.
  intros Hi. unfold below, at_most. f_equal. apply List.filter_ext. intros v.
  pose proof (bucket_index_le v i bound Hi). case_bool_decide; lia.
Qed.

(** ** Properties *)

(** what a reported percentile says about the samples. For a rank between one and the number of
    samples, the value is the least bucket bound that has that many samples at or below it; and
    when even the largest bound has fewer, it is the mean of all samples. *)
Theorem percentile_exact (p : f64) (l : list Z) :
  let h := run_latencies l in
  let target := percentile_target h p in
  zlen l < 2 ^ 64 → 1 ≤ target ≤ zlen l → 0 ≤ sum_list l < 2 ^ 64 →
  (∃ i bound, BUCKETS_US !! i = Some bound ∧ percentile p h = bound ∧ target ≤ at_most bound l ∧
     ∀ j smaller, (j < i)%nat → BUCKETS_US !! j = Some smaller → at_most smaller l < target) ∨
  (at_most 100000 l < target ∧ percentile p h = sum_list l / zlen l).
Proof.
  intros h target Hlen Ht Hsum. unfold percentile.
  assert (count h = zlen l) as Hc by (unfold h; rewrite run_count; apply wrap_u_small; lia).
  rewrite Hc, (proj2 (Z.eqb_neq _ _)) by lia. fold target.
  destruct (percentile_loop_spec l target NUM_BUCKETS 0 Hlen eq_refl) as (j & Hj & E);
    [rewrite ?below_0; lia..|].
  rewrite below_0, <-run_buckets in E. fold h in E. rewrite E.
  destruct (BUCKETS_US !! j) as [bound|] eqn:Ej.
  - left. exists j, bound. rewrite <-(below_at_most l j bound Ej). split_and!; [done..|lia|].
    intros k smaller Hk Hs. rewrite <-(below_at_most l k smaller Hs).
    pose proof (below_mono (S k) j l ltac:(lia)). lia.
  - right. rewrite <-(below_at_most l 9 100000 eq_refl).
    apply lookup_ge_None in Ej. simpl in Ej. pose proof (below_mono 10 j l Ej).
    split; [lia|]. rewrite Hc. f_equal. unfold h. rewrite run_sum. by apply wrap_u_small.
Qed.

Lemma percentile_exact_witness :
  let l := [90; 90; 90; 300; 200000] in
  (∃ i bound, BUCKETS_US !! i = Some bound ∧ percentile f64_0_50 (run_latencies l) = bound ∧
     3 ≤ at_most bound l ∧
     ∀ j smaller, (j < i)%nat → BUCKETS_US !! j = Some smaller → at_most smaller l < 3) ∨
  (at_most 100000 l < 3 ∧ percentile f64_0_50 (run_latencies l) = sum_list l / zlen l).
Proof. intros l. apply (percentile_exact f64_0_50 l); by vm_compute. Defined.

(** The mean is no bound for the samples above the largest bucket: the 99th
    percentile of these latencies comes out below the median. *)
Example p99_below_p50 :
  let h := run_latencies (replicate 60 50001 ++ replicate 40 100001) in
  percentile f64_0_50 h = 100000 ∧ percentile f64_0_99 h = 70001.
Proof. by vm_compute. Qed.

(** Rank zero is met by the first bucket, however large the samples. *)
Example percentile_zero : percentile f64_zero (run_latencies [90000]) = 100.
Proof. by vm_compute. Qed.

(** The counters are those of the requests that were recorded, modulo 2^64. Requests, bytes,
    status classes and server errors are counted over all requests, and each endpoint counts
    its own requests, errors and bytes and has the histogram of its own latencies; a path that
    was never requested has no entry. *)
Theorem metrics_accounting (now : Z) (l : list sample) :
  let m := run_samples l (collector_new now) in
  let on path := List.filter (λ s, bool_decide (sm_path s = path)) l in
  total_requests m = wrap_u 64 (zlen l) ∧
  total_bytes_out m = wrap_u 64 (sum_list (sm_size <$> l)) ∧
  total_2xx m = wrap_u 64 (total (λ s, in_class (sm_status s) 200) l) ∧
  total_3xx m = wrap_u 64 (total (λ s, in_class (sm_status s) 300) l) ∧
  total_4xx m = wrap_u 64 (total (λ s, in_class (sm_status s) 400) l) ∧
  total_5xx m = wrap_u 64 (total (λ s, in_class (sm_status s) 500) l) ∧
  total_errors m = total_5xx m ∧
  latency m = run_latencies (sm_latency <$> l) ∧
  ∀ path, endpoints m !! path =
    if decide (on path = []) then None
    else Some {| ep_requests := wrap_u 64 (zlen (on path));
                 ep_errors := wrap_u 64 (total (λ s, 500 <=? sm_status s) (on path));
                 ep_bytes_out := wrap_u 64 (sum_list (sm_size <$> on path));
                 ep_latency := run_latencies (sm_latency <$> on path) |}.
Proof.
  cbn zeta. induction l as [|s l (Hreq & Hbytes & H2 & H3 & H4 & H5 & He & Hlat & Hep)] using rev_ind;
    [done|].
  unfold run_samples in *. rewrite foldl_app. cbn [foldl].
  set (m := foldl _ (collector_new now) l) in *.
  split_and!; cbn [record_request total_requests total_bytes_out total_2xx total_3xx total_4xx
    total_5xx total_errors latency endpoints].
  - rewrite Hreq, zlen_app. apply wrap_u_add.
  - by rewrite Hbytes, wrap_u_add, fmap_app, (sum_list_snoc _ (sm_size s)).
  - rewrite H2. apply (bump_count (λ s, in_class (sm_status s) 200)).
  - rewrite H3. apply (bump_count (λ s, in_class (sm_status s) 300)).
  - rewrite H4. apply (bump_count (λ s, in_class (sm_status s) 400)).
  - rewrite H5. apply (bump_count (λ s, in_class (sm_status s) 500)).
  - by rewrite He.
  - by rewrite Hlat, fmap_app, (run_latencies_snoc _ (sm_latency s)).
  - intros path. rewrite List.filter_app. cbn [List.filter].
    destruct (decide (sm_path s = path)) as [<-|Hne].
    + rewrite lookup_partial_alter_eq, bool_decide_eq_true_2 by done.
      rewrite (decide_False (P := _ ++ [s] = [])) by (by intros [? [=]]%app_eq_nil).
      rewrite Hep. f_equal. unfold record_endpoint. case_decide as E; cbn [default from_option id].
      * rewrite E. cbn [app]. unfold total, bump_if. cbn [List.filter].
        destruct (500 <=? sm_status s); cbn; f_equal; f_equal; lia.
      * cbn [ep_requests ep_errors ep_bytes_out ep_latency]. f_equal.
        -- rewrite zlen_app. apply wrap_u_add.
        -- apply (bump_count (λ s, 500 <=? sm_status s)).
        -- by rewrite wrap_u_add, fmap_app, (sum_list_snoc _ (sm_size s)).
        -- by rewrite fmap_app, (run_latencies_snoc _ (sm_latency s)).
    + rewrite lookup_partial_alter_ne, bool_decide_eq_false_2 by done. by rewrite app_nil_r, Hep.
Qed.

(** A path with a quote ends its string early: what follows is taken as members of
    the object. *)
Example status_json_injection :
  let path := q (lit "/a~,~errors~:~9") in
  contains (q (lit "~path~: ~/a~,~errors~:~9~,"))
    (status_json map_to_list 0 1 (record_request path 200 5 10 (collector_new 0))) = true.
Proof. by vm_compute. Qed.
