(* ===== verification/Compat.v ===== *)
(** * HTTP requests for PHP (turbine-core/src/compat.rs)

    The request that hyper delivers becomes a [FullHttpRequest]: headers,
    cookies, the body within its limit, the parts of a multipart form after the
    upload checks, and the PHP code that sets the superglobals. hyper, multer,
    the file system and Unicode case mapping are parameters. *)

From S2P Require Import Prelude Utf8 RustStr PathGuard.

(** ** URL encoding *)

Definition hex_digit (b : byte) : option Z :=
  let v := u8 b in
  if (48 <=? v) && (v <=? 57) then Some (v - 48)
  else if (97 <=? v) && (v <=? 102) then Some (v - 97 + 10)
  else if (65 <=? v) && (v <=? 70) then Some (v - 65 + 10)
  else None.

(** The loop of [url_decode]: a percent sign needs two bytes after it. *)
Fixpoint url_decode_bytes (s : bytes) : bytes :=
  match s with
  | [] => []
  | c :: s' =>
      if decide (c = x2b) then x20 :: url_decode_bytes s'
      else if decide (c = x25) then
        match s' with
        | h :: (l :: s'') =>
            match hex_digit h, hex_digit l with
            | Some hi, Some lo => as_u8 (Z.lor (Z.shiftl hi 4) lo) :: url_decode_bytes s''
            | _, _ => x25 :: url_decode_bytes s'
            end
        | _ => x25 :: url_decode_bytes s'
        end
      else c :: url_decode_bytes s'
  end.

Definition url_decode (input : bytes) : bytes := from_utf8_lossy (url_decode_bytes input).

Definition urlencoded_pair (pair : bytes) : option (bytes * bytes) :=
  let '(k, v) := default (pair, []) (split_once x3d pair) in
  if bool_decide (k = []) then None else Some (url_decode k, url_decode v).

Definition parse_urlencoded (s : bytes) : list (bytes * bytes) :=
  if bool_decide (s = []) then [] else omap urlencoded_pair (split x26 s).

Definition cookie_pair (pair : bytes) : option (bytes * bytes) :=
  '(k, v) ← split_once x3d (trim pair);
  Some (url_decode (trim k), url_decode (trim v)).

(** Collected into a map: the last cookie of a name stays. *)
Definition insert_pairs (ps : list (bytes * bytes)) (m : gmap bytes bytes) : gmap bytes bytes :=
  foldl (λ m '(k, v), <[k := v]> m) m ps.

Definition parse_cookie_header (header : bytes) : gmap bytes bytes :=
  insert_pairs (omap cookie_pair (split x3b header)) ∅.

(** ** The request *)

Record UploadSecurityConfig := { blocked_extensions : list bytes; scan_content : bool }.

Definition default_upload_security : UploadSecurityConfig :=
  {| blocked_extensions :=
       [ lit ".php"; lit ".phtml"; lit ".phar"; lit ".php7"; lit ".php8"; lit ".inc";
         lit ".phps"; lit ".pht"; lit ".pgif" ];
     scan_content := true |}.

Definition PHP_SIGNATURES : list bytes :=
  [ lit "<?php"; lit "<?="; lit "<script language=" ++ [x22] ++ lit "php" ++ [x22] ++ lit ">";
    lit "<script language='php'>" ].

Record UploadedFile := {
  field_name : bytes;
  file_name : bytes;
  uf_content_type : bytes;
  uf_data : bytes;
  tmp_path : bytes }.

Record FullHttpRequest := {
  fr_method : bytes;
  fr_path : bytes;
  fr_query_string : bytes;
  fr_http_version : bytes;
  fr_headers : gmap bytes bytes;
  fr_cookies : gmap bytes bytes;
  fr_body : bytes;
  fr_content_type : option bytes;
  fr_content_length : option Z;
  fr_files : list UploadedFile;
  fr_multipart_post_params : list (bytes * bytes) }.

Inductive RequestBuildError := BadRequest | PayloadTooLarge.

(** What hyper delivers: the frames of the body are data, trailers or an error. *)
Inductive frame := FData (data : bytes) | FTrailers | FError.

Record HyperRequest := {
  hr_method : bytes;
  hr_path : bytes;
  hr_query : option bytes;
  hr_version : bytes;
  (** the name, and the value when it is text *)
  hr_headers : list (bytes * option bytes);
  hr_frames : list frame }.

(** A part of a multipart form as multer gives it: the data is missing when
    reading it failed. [MError] ends the form. *)
Inductive multipart_event :=
| MField (name file_name content_type : option bytes) (data : option bytes)
| MError.

Section compat.
Context (to_lowercase to_uppercase : bytes → bytes).
(** multer: the boundary of a content type, and the parts of a body. *)
Context (parse_boundary : bytes → option bytes).
Context (parts : bytes → bytes → list multipart_event).
(** Whether [std::fs::write] succeeds on a path; [std::process::id()]. *)
Context (write_ok : bytes → bool).
Context (pid : Z).
(** The order in which a hash map is iterated. *)
Context (iter : gmap bytes bytes → list (bytes * bytes)).

Definition header_line (line : bytes) : option (bytes * bytes) :=
  '(k, v) ← split_once x3a line;
  Some (to_lowercase (trim k), trim v).

(** [FullHttpRequest::parse]. The position of the blank line is found in the
    lossy text and then cuts the raw bytes: [None] is the panic of an index past
    their end, [Some None] a refusal. *)
Definition parse (raw : bytes) : option (option FullHttpRequest) :=
  let raw_str := from_utf8_lossy raw in
  match find [x0d; x0a; x0d; x0a] raw_str with
  | None => Some None
  | Some pos =>
      if (length raw <? pos + 4)%nat then None
      else Some (
        match lines (take pos raw_str) with
        | [] => None
        | request_line :: rest =>
            match split_whitespace request_line with
            | method :: full_uri :: more =>
                let '(path, query) := default (full_uri, []) (split_once x3f full_uri) in
                let headers := insert_pairs (omap header_line rest) ∅ in
                Some {| fr_method := method; fr_path := path; fr_query_string := query;
                        fr_http_version := default (lit "HTTP/1.1") (head more);
                        fr_headers := headers;
                        fr_cookies := from_option parse_cookie_header ∅ (headers !! lit "cookie");
                        fr_body := drop (pos + 4) raw;
                        fr_content_type := headers !! lit "content-type";
                        fr_content_length := headers !! lit "content-length" ≫= parse_uint u64_max;
                        fr_files := []; fr_multipart_post_params := [] |}
            | _ => None
            end
        end)
  end.

Definition get_params (r : FullHttpRequest) : list (bytes * bytes) :=
  parse_urlencoded (fr_query_string r).

(** The loop over the frames, with the limit checked before each append. *)
Fixpoint read_body (max : option Z) (fs : list frame) (acc : bytes)
    : result bytes RequestBuildError :=
  match fs with
  | [] => Ok acc
  | FError :: _ => Err BadRequest
  | FTrailers :: fs' => read_body max fs' acc
  | FData data :: fs' =>
      if from_option (λ m, m <? Z.min (zlen acc + zlen data) u64_max) false max
      then Err PayloadTooLarge
      else read_body max fs' (acc ++ data)
  end.

(** *** Uploads *)

Definition extension_blocked (sec : UploadSecurityConfig) (fname : bytes) : bool :=
  let fname_lower := to_lowercase fname in
  existsb (λ ext, ends_with (to_lowercase ext) fname_lower ||
                  contains (to_lowercase ext ++ lit ".") fname_lower) (blocked_extensions sec).

Definition php_detected (data : bytes) : bool :=
  existsb (λ sig, contains (to_ascii_lowercase sig) (to_ascii_lowercase data)) PHP_SIGNATURES.

Definition upload_tmp_path (upload_tmp_dir : bytes) (n : nat) : bytes :=
  upload_tmp_dir ++ lit "/turbine_upload_" ++ dec_string pid ++ lit "_" ++ dec_string (Z.of_nat n).

(** The files, the text fields and the file writes so far. *)
Record form := {
  fm_files : list UploadedFile;
  fm_texts : list (bytes * bytes);
  fm_writes : list (bytes * bytes) }.

Definition form_field (dir : bytes) (sec : UploadSecurityConfig) (name fname ct : option bytes)
    (data : bytes) (f : form) : form :=
  match fname with
  | None =>
      {| fm_files := fm_files f; fm_texts := fm_texts f ++ [(default [] name, from_utf8_lossy data)];
         fm_writes := fm_writes f |}
  | Some fname =>
      if bool_decide (fname = []) || extension_blocked sec fname ||
         (scan_content sec && php_detected data) then f
      else
        let tmp := upload_tmp_path dir (length (fm_files f)) in
        if write_ok tmp then
          {| fm_files := fm_files f ++
               [{| field_name := default [] name; file_name := fname;
                   uf_content_type := (if bool_decide (default [] ct = [])
                                       then lit "application/octet-stream" else default [] ct);
                   uf_data := data; tmp_path := tmp |}];
             fm_texts := fm_texts f; fm_writes := fm_writes f ++ [(tmp, data)] |}
        else f
  end.

Fixpoint form_loop (dir : bytes) (sec : UploadSecurityConfig) (es : list multipart_event)
    (f : form) : form :=
  match es with
  | [] | MError :: _ => f
  | MField name fname ct None :: es' => form_loop dir sec es' f
  | MField name fname ct (Some data) :: es' =>
      form_loop dir sec es' (form_field dir sec name fname ct data f)
  end.

Definition parse_multipart (content_type body dir : bytes) (sec : UploadSecurityConfig) : form :=
  let empty := {| fm_files := []; fm_texts := []; fm_writes := [] |} in
  match parse_boundary content_type with
  | None => empty
  | Some boundary => form_loop dir sec (parts boundary body) empty
  end.

(** A declared length above the limit. *)
Definition exceeds (max cl : option Z) : bool :=
  match max, cl with Some m, Some cl => m <? cl | _, _ => false end.

Definition from_hyper (req : HyperRequest) (dir : bytes) (sec : UploadSecurityConfig)
    (max : option Z) : result FullHttpRequest RequestBuildError :=
  let headers := insert_pairs (omap (λ '(n, v), v ← v; Some (to_lowercase n, v)) (hr_headers req)) ∅ in
  let content_type := headers !! lit "content-type" in
  let content_length := headers !! lit "content-length" ≫= parse_uint u64_max in
  if exceeds max content_length then Err PayloadTooLarge
  else
    let cookies := from_option parse_cookie_header ∅ (headers !! lit "cookie") in
    let? body := read_body max (hr_frames req) [] in
    let f := match content_type with
             | Some ct => if starts_with (lit "multipart/form-data") ct
                          then parse_multipart ct body dir sec
                          else {| fm_files := []; fm_texts := []; fm_writes := [] |}
             | None => {| fm_files := []; fm_texts := []; fm_writes := [] |}
             end in
    Ok {| fr_method := hr_method req; fr_path := hr_path req;
          fr_query_string := default [] (hr_query req); fr_http_version := hr_version req;
          fr_headers := headers; fr_cookies := cookies; fr_body := body; fr_content_type := content_type;
          fr_content_length := content_length; fr_files := fm_files f;
          fr_multipart_post_params := fm_texts f |}.

Definition post_params (r : FullHttpRequest) : list (bytes * bytes) :=
  if negb (bool_decide (fr_method r = lit "POST")) && negb (bool_decide (fr_method r = lit "PUT")) &&
     negb (bool_decide (fr_method r = lit "PATCH")) then []
  else if negb (bool_decide (fr_multipart_post_params r = [])) then fr_multipart_post_params r
  else match fr_content_type r with
       | Some ct => if starts_with (lit "application/x-www-form-urlencoded") ct
                    then parse_urlencoded (from_utf8_lossy (fr_body r)) else []
       | None => []
       end.

Definition is_json (r : FullHttpRequest) : bool :=
  from_option (contains (lit "application/json")) false (fr_content_type r).
End compat.

(** ** The temporary files *)

Definition write_files (ws : list (bytes * bytes)) (fs : gmap bytes bytes) : gmap bytes bytes :=
  foldl (λ fs w, <[w.1 := w.2]> fs) fs ws.

(** A file is removed with the record of its upload. *)
Definition drop_upload (fs : gmap bytes bytes) (x : UploadedFile) : gmap bytes bytes :=
  if decide (tmp_path x = []) then fs else delete (tmp_path x) fs.

Definition drop_uploads (xs : list UploadedFile) (fs : gmap bytes bytes) : gmap bytes bytes :=
  foldl drop_upload fs xs.

(** The tests of the sources. *)
Example cookies_ex :
  let c := parse_cookie_header (lit "a=1; b=two; c=three%20four") in
  c !! lit "a" = Some (lit "1") ∧ c !! lit "b" = Some (lit "two") ∧
  c !! lit "c" = Some (lit "three four") ∧ size c = 3%nat.
Proof. vm_compute. done. Qed.

Example params_ex : parse_urlencoded (lit "a=1&b=hello+world&c=%2F&=x&d") =
  [(lit "a", lit "1"); (lit "b", lit "hello world"); (lit "c", lit "/"); (lit "d", [])].
Proof. vm_compute. reflexivity. Qed.

(** ** Forms *)

(** What a client writes: every byte that is not unreserved is percent-encoded. *)
Definition unreserved (x : byte) : bool :=
  let v := u8 x in
  (48 <=? v) && (v <=? 57) || (65 <=? v) && (v <=? 90) || (97 <=? v) && (v <=? 122) ||
  existsb (Z.eqb v) [45; 46; 95; 126].

Definition hex_char (n : Z) : byte := as_u8 (if n <? 10 then 48 + n else 55 + n).

Definition encode_byte (x : byte) : bytes :=
  if unreserved x then [x] else [x25; hex_char (u8 x / 16); hex_char (u8 x mod 16)].

Definition url_encode (s : bytes) : bytes := s ≫= encode_byte.

Definition encode_form (ps : list (bytes * bytes)) : bytes :=
  RustStr.join x26 ((λ '(k, v), url_encode k ++ x3d :: url_encode v) <$> ps).

(** An encoded byte is read back, and has neither a separator of pairs nor of names. *)
Definition encode_byte_ok (x : byte) : bool :=
  match encode_byte x with
  | [y] => bool_decide (y = x) && negb (existsb (λ c, bool_decide (c = y)) [x25; x26; x2b; x3d])
  | [p; h; l] =>
      bool_decide (p = x25) && negb (existsb (λ c, bool_decide (c ∈ [h; l])) [x26; x3d]) &&
      match hex_digit h, hex_digit l with
      | Some hi, Some lo => bool_decide (as_u8 (Z.lor (Z.shiftl hi 4) lo) = x)
      | _, _ => false
      end
  | _ => false
  end.

Lemma encode_byte_check x : encode_byte_ok x = true.
Proof. revert x. apply all_bytes_check. by vm_compute. Qed.

Lemma decode_encode_byte x rest : url_decode_bytes (encode_byte x ++ rest) = x :: url_decode_bytes rest.
Proof.
  pose proof (encode_byte_check x) as H. unfold encode_byte_ok in H.
  destruct (encode_byte x) as [|y [|h [|l [|? ?]]]]; try done.
  - apply andb_true_iff in H as [->%bool_decide_eq_true H]. simpl in H.
    rewrite !negb_orb, !andb_true_iff, !negb_true_iff, !bool_decide_eq_false in H.
    simpl. by rewrite !decide_False by naive_solver.
  - rewrite !andb_true_iff in H. destruct H as [[->%bool_decide_eq_true _] H]. simpl.
    destruct (hex_digit h); [|done]. destruct (hex_digit l); [|done].
    by apply bool_decide_eq_true in H as ->.
Qed.

Lemma encode_byte_plain x : (x26 ∉ encode_byte x) ∧ (x3d ∉ encode_byte x) ∧ encode_byte x ≠ [].
Proof.
  pose proof (encode_byte_check x) as H. unfold encode_byte_ok in H.
  destruct (encode_byte x) as [|y [|h [|l [|? ?]]]]; try done.
  - apply andb_true_iff in H as [_ H]. simpl in H.
    rewrite !negb_orb, !andb_true_iff, !negb_true_iff, !bool_decide_eq_false in H. set_solver.
  - rewrite !andb_true_iff in H. destruct H as [[->%bool_decide_eq_true H] _]. simpl in H.
    rewrite !negb_orb, !andb_true_iff, !negb_true_iff, !bool_decide_eq_false in H. set_solver.
Qed.

Lemma decode_encode s : url_decode_bytes (url_encode s) = s.
Proof.
  induction s as [|x s IH]; [done|]. unfold url_encode. rewrite bind_cons, decode_encode_byte.
  f_equal. exact IH.
Qed.

Lemma url_decode_encode s : utf8_valid s → url_decode (url_encode s) = s.
Proof. intros Hs. unfold url_decode. by rewrite decode_encode, lossy_valid. Qed.

Lemma url_encode_plain c s : c = x26 ∨ c = x3d → c ∉ url_encode s.
Proof.
  intros Hc (x & Hx & _)%list_elem_of_bind. destruct (encode_byte_plain x) as (? & ? & _).
  by destruct Hc as [-> | ->].
Qed.

Lemma url_encode_nil s : url_encode s = [] → s = [].
Proof.
  destruct s as [|x s]; [done|]. unfold url_encode. rewrite bind_cons. intros [E _]%app_eq_nil.
  by destruct (encode_byte_plain x) as (_ & _ & ?).
Qed.

Lemma split_once_fst c l r : c ∉ l → split_once c (l ++ c :: r) = Some (l, r).
Proof.
  induction l as [|x l IH]; intros Hl; simpl; [by rewrite decide_True|].
  rewrite decide_False by set_solver. by rewrite IH by set_solver.
Qed.

Lemma urlencoded_pair_encode k v : k ≠ [] → utf8_valid k → utf8_valid v →
  urlencoded_pair (url_encode k ++ x3d :: url_encode v) = Some (k, v).
Proof.
  intros Hk Hku Hvu. unfold urlencoded_pair.
  rewrite split_once_fst by (apply url_encode_plain; auto). simpl.
  rewrite bool_decide_false by (intros ?%url_encode_nil; done).
  by rewrite !url_decode_encode.
Qed.

(** Forms arrive as they were sent: the pairs of a form or of a query string, encoded
    by a client, are parsed back to the same pairs in the same order, for any non-empty
    names and any values that are UTF-8. *)
Theorem form_roundtrip (ps : list (bytes * bytes)) :
  Forall (λ kv, kv.1 ≠ [] ∧ utf8_valid kv.1 ∧ utf8_valid kv.2) ps →
  parse_urlencoded (encode_form ps) = ps.
Proof.
  intros Hps. unfold parse_urlencoded, encode_form.
  destruct (decide (ps = [])) as [->|Hne]; [done|].
  set (ws := _ <$> ps). assert (ws ≠ []) as Hws by (by destruct ps).
  assert (Forall (λ w, x26 ∉ w) ws) as Hplain.
  { apply Forall_fmap, Forall_true. intros [k v]. simpl.
    rewrite not_elem_of_app, not_elem_of_cons.
    split_and!; [apply url_encode_plain; auto|done|apply url_encode_plain; auto]. }
  rewrite bool_decide_false.
  - rewrite split_join by done. subst ws. clear Hws Hplain Hne.
    induction Hps as [|[k v] ps (Hk & Hku & Hvu) _ IH]; [done|]. csimpl.
    by rewrite urlencoded_pair_encode, IH.
  - intros E. apply (f_equal (split x26)) in E. rewrite split_join in E by done.
    subst ws. destruct ps as [|[k v] ps]; [done|]. csimpl in E. injection E as E _.
    by apply app_eq_nil in E as [_ ?].
Qed.

Lemma form_roundtrip_witness :
  parse_urlencoded (encode_form [(lit "q", lit "a+b & c=100%"); (lit "k&", [xc3; xa9])]) =
  [(lit "q", lit "a+b & c=100%"); (lit "k&", [xc3; xa9])].
Proof.
  apply form_roundtrip. constructor; [|constructor; [|constructor]];
    (split; [done|split; vm_compute; exact I]).
Defined.

(** ** The limit on bodies *)

(** The data that hyper delivers, whatever the frames it cuts them into. *)
Definition frames_data (fs : list frame) : bytes :=
  fs ≫= λ f, match f with FData d => d | _ => [] end.

Lemma frames_data_cons f fs :
  frames_data (f :: fs) = (match f with FData d => d | _ => [] end) ++ frames_data fs.
Proof. done. Qed.

Lemma read_body_spec m fs acc : 0 ≤ m < u64_max → FError ∉ fs → zlen acc ≤ m →
  read_body (Some m) fs acc =
  if m <? zlen (acc ++ frames_data fs) then Err PayloadTooLarge else Ok (acc ++ frames_data fs).
Proof.
  intros Hm. revert acc. induction fs as [|f fs IH]; intros acc Hf Ha.
  { simpl. rewrite app_nil_r. by destruct (Z.ltb_spec m (zlen acc)); [lia|]. }
  pose proof (zlen_nonneg (frames_data fs)) as Hn.
  destruct f as [d| |]; [| |set_solver].
  - rewrite frames_data_cons. simpl read_body.
    destruct (Z.ltb_spec m (Z.min (zlen acc + zlen d) u64_max)).
    + destruct (Z.ltb_spec m (zlen (acc ++ d ++ frames_data fs))) as [|Hle]; [done|].
      rewrite !zlen_app in Hle. lia.
    + rewrite IH, <-(assoc_L app); [done|set_solver|rewrite zlen_app; lia].
  - rewrite frames_data_cons. simpl read_body. apply IH; [set_solver|done].
Qed.

Lemma read_body_unlimited fs acc : FError ∉ fs → read_body None fs acc = Ok (acc ++ frames_data fs).
Proof.
  revert acc. induction fs as [|f fs IH]; intros acc Hf; [by rewrite app_nil_r|].
  rewrite frames_data_cons.
  destruct f as [d| |]; [| |set_solver]; simpl; rewrite IH by set_solver; [by rewrite <-(assoc_L app)|done].
Qed.

Lemma read_body_error max fs acc : FError ∈ fs → ∃ e, read_body max fs acc = Err e.
Proof.
  revert acc. induction fs as [|f fs IH]; intros acc Hf; [set_solver|].
  destruct f as [d| |]; simpl; [case_match; [eauto|]|..|eauto]; apply IH; set_solver.
Qed.

Lemma read_body_only_errors max fs acc : FError ∉ fs → read_body max fs acc ≠ Err BadRequest.
Proof.
  revert acc. induction fs as [|f fs IH]; intros acc Hf; [done|].
  destruct f as [d| |]; simpl; [case_match; [done|]|..]; first [apply IH; set_solver|set_solver].
Qed.

Lemma read_body_bound m fs acc b : 0 ≤ m < u64_max → zlen acc ≤ m →
  read_body (Some m) fs acc = Ok b → zlen b ≤ m.
Proof.
  intros Hm. revert acc. induction fs as [|f fs IH]; intros acc Ha H; [naive_solver|].
  destruct f as [d| |]; simpl in H; [|by eauto|done].
  destruct (Z.ltb_spec m (Z.min (zlen acc + zlen d) u64_max)); [done|].
  apply (IH (acc ++ d)); [|done]. rewrite zlen_app. lia.
Qed.

Section from_hyper.
Context (to_lowercase : bytes → bytes) (parse_boundary : bytes → option bytes).
Context (parts : bytes → bytes → list multipart_event) (write_ok : bytes → bool) (pid : Z).

#[local] Abbreviation build := (from_hyper to_lowercase parse_boundary parts write_ok pid).

(** The length that the client declared, if it is a number. *)
Definition declared_length (req : HyperRequest) : option Z :=
  insert_pairs (omap (λ '(n, v), v ← v; Some (to_lowercase n, v)) (hr_headers req)) ∅
    !! lit "content-length" ≫= parse_uint u64_max.

Lemma from_hyper_ok req dir sec max r : build req dir sec max = Ok r →
  read_body max (hr_frames req) [] = Ok (fr_body r) ∧
  fr_content_length r = declared_length req ∧
  exceeds max (declared_length req) = false.
Proof.
  unfold from_hyper. fold (declared_length req). intros H.
  destruct (exceeds max (declared_length req)); [done|].
  destruct (read_body max (hr_frames req) []) as [b|e]; [|done]. simpl in H. simplify_eq. done.
Qed.

Lemma from_hyper_err req dir sec max e : build req dir sec max = Err e →
  exceeds max (declared_length req) = true ∧ e = PayloadTooLarge ∨
  read_body max (hr_frames req) [] = Err e.
Proof.
  unfold from_hyper. fold (declared_length req). intros H.
  destruct (exceeds max (declared_length req)); [left; naive_solver|].
  destruct (read_body max (hr_frames req) []) as [b|e']; [done|]. right. by simpl in H; simplify_eq.
Qed.

Lemma exceeds_false m cl : exceeds (Some m) cl = false ↔ from_option (λ cl, cl ≤ m) True cl.
Proof. destruct cl as [cl|]; simpl; [rewrite Z.ltb_ge|]; done. Qed.

End from_hyper.


(** ** Uploads *)

Section uploads.
Context (to_lowercase : bytes → bytes) (write_ok : bytes → bool) (pid : Z).

#[local] Abbreviation loop := (form_loop to_lowercase write_ok pid).

(** The fields that could be read before the form ends. *)
Fixpoint read_fields (es : list multipart_event) : list (option bytes * option bytes * bytes) :=
  match es with
  | [] | MError :: _ => []
  | MField _ _ _ None :: es' => read_fields es'
  | MField name fname _ (Some data) :: es' => (name, fname, data) :: read_fields es'
  end.

(** A name that is not empty and has no blocked extension at its end or inside, and
    content without a PHP tag, where content is scanned. *)
Definition acceptable (sec : UploadSecurityConfig) (fname data : bytes) : bool :=
  negb (bool_decide (fname = [])) && negb (extension_blocked to_lowercase sec fname) &&
  negb (scan_content sec && php_detected data).

Definition file_fields (sec : UploadSecurityConfig) (es : list multipart_event)
    : list (bytes * bytes) :=
  omap (λ '(_, fname, data), f ← fname; if acceptable sec f data then Some (f, data) else None)
    (read_fields es).

Definition text_fields (es : list multipart_event) : list (bytes * bytes) :=
  omap (λ '(name, fname, data),
    match fname with Some _ => None | None => Some (default [] name, from_utf8_lossy data) end)
    (read_fields es).

(** Every file so far was checked, and is the one written at the path of its place. *)
Definition form_inv (dir : bytes) (sec : UploadSecurityConfig) (f : form) : Prop :=
  fm_writes f = (λ x, (tmp_path x, uf_data x)) <$> fm_files f ∧
  ∀ i x, fm_files f !! i = Some x →
    tmp_path x = upload_tmp_path pid dir i ∧ acceptable sec (file_name x) (uf_data x) = true.

Lemma form_field_refused dir sec name fname ct data f : acceptable sec fname data = false →
  form_field to_lowercase write_ok pid dir sec name (Some fname) ct data f = f.
Proof.
  unfold acceptable, form_field. rewrite <-!negb_orb, negb_false_iff. by intros ->.
Qed.

Lemma form_field_file dir sec name fname ct data f : acceptable sec fname data = true →
  write_ok (upload_tmp_path pid dir (length (fm_files f))) = true →
  ∃ ct', form_field to_lowercase write_ok pid dir sec name (Some fname) ct data f =
  let tmp := upload_tmp_path pid dir (length (fm_files f)) in
  {| fm_files := fm_files f ++ [{| field_name := default [] name; file_name := fname;
                                   uf_content_type := ct'; uf_data := data; tmp_path := tmp |}];
     fm_texts := fm_texts f; fm_writes := fm_writes f ++ [(tmp, data)] |}.
Proof.
  unfold acceptable, form_field. rewrite <-!negb_orb, negb_true_iff. intros -> ->. by eexists.
Qed.

Lemma form_field_inv dir sec name fname ct data f : form_inv dir sec f →
  form_inv dir sec (form_field to_lowercase write_ok pid dir sec name fname ct data f).
Proof.
  intros [Hw Hf]. destruct fname as [fname|]; [|done].
  destruct (acceptable sec fname data) eqn:Ea; [|by rewrite form_field_refused].
  destruct (write_ok (upload_tmp_path pid dir (length (fm_files f)))) eqn:Ew.
  - destruct (form_field_file dir sec name fname ct data f Ea Ew) as [ct' ->]. split; simpl.
    + by rewrite Hw, fmap_app.
    + intros i x [H|[Hle H]]%lookup_app_Some; [by apply Hf|].
      apply list_lookup_singleton_Some in H as [Hi <-]. simpl. split; [|done]. f_equal. lia.
  - unfold form_field. by rewrite Ew; destruct (_ || _).
Qed.

Lemma form_loop_inv dir sec es f : form_inv dir sec f → form_inv dir sec (loop dir sec es f).
Proof.
  revert f. induction es as [|[name fname ct [data|]|] es IH]; intros f Hf; simpl; try done.
  - by apply IH, form_field_inv.
  - by apply IH.
Qed.

Lemma form_loop_texts dir sec es f :
  fm_texts (loop dir sec es f) = fm_texts f ++ text_fields es.
Proof.
  revert f. induction es as [|[name fname ct [data|]|] es IH]; intros f; simpl;
    [by rewrite app_nil_r| |by rewrite IH|by rewrite app_nil_r].
  rewrite IH. unfold text_fields. simpl. destruct fname as [fname|]; simpl.
  - f_equal. unfold form_field. by repeat case_match.
  - by rewrite <-(assoc_L app).
Qed.

Lemma form_loop_files dir sec es f : (∀ p, write_ok p = true) →
  (λ x, (file_name x, uf_data x)) <$> fm_files (loop dir sec es f) =
  ((λ x, (file_name x, uf_data x)) <$> fm_files f) ++ file_fields sec es.
Proof.
  intros Hw. revert f. induction es as [|[name fname ct [data|]|] es IH]; intros f; simpl;
    [by rewrite app_nil_r| |by rewrite IH|by rewrite app_nil_r].
  rewrite IH. unfold file_fields. simpl. destruct fname as [fname|]; [|done].
  destruct (acceptable sec fname data) eqn:Ea.
  - destruct (form_field_file dir sec name fname ct data f Ea (Hw _)) as [ct' ->]. simpl.
    rewrite Ea, fmap_app. simpl. by rewrite <-(assoc_L app).
  - rewrite form_field_refused by done. simpl. by rewrite Ea.
Qed.


(** The file that a path holds after some writes. *)
Definition file_after (ws : list (bytes * bytes)) (p : bytes) : option bytes :=
  snd <$> last (List.filter (λ w, bool_decide (w.1 = p)) ws).

(** Two requests with uploads share their temporary files: the file in each place of a
    form has the same path in every request of the process, so that when a second form is
    parsed before the first request is done, its data is what the first request reads. *)
Theorem upload_paths_collide (parse_boundary : bytes → option bytes)
    (parts : bytes → bytes → list multipart_event) (ct1 ct2 body1 body2 dir : bytes)
    (sec : UploadSecurityConfig) (x1 x2 : UploadedFile) (xs1 : list UploadedFile) :
  let form ct body :=
    parse_multipart to_lowercase parse_boundary parts write_ok pid ct body dir sec in
  fm_files (form ct1 body1) = x1 :: xs1 → fm_files (form ct2 body2) = [x2] →
  tmp_path x1 = tmp_path x2 ∧
  file_after (fm_writes (form ct1 body1) ++ fm_writes (form ct2 body2)) (tmp_path x1) =
    Some (uf_data x2).
Proof.
  intros form E1 E2.
  assert (∀ ct body, form_inv dir sec (form ct body)) as Hinv.
  { intros ct body. unfold form, parse_multipart. case_match; [apply form_loop_inv|]; by split. }
  destruct (Hinv ct1 body1) as [_ H1], (Hinv ct2 body2) as [Hw H2].
  rewrite E1 in H1. rewrite E2 in H2, Hw. destruct (H1 O x1 eq_refl) as [T1 _].
  destruct (H2 O x2 eq_refl) as [T2 _]. split; [congruence|]. unfold file_after.
  rewrite Hw, List.filter_app. simpl. rewrite bool_decide_true by congruence. by rewrite last_snoc.
Qed.

Lemma drop_uploads_lookup xs fs q : q ∉ tmp_path <$> xs → drop_uploads xs fs !! q = fs !! q.
Proof.
  revert fs. induction xs as [|x xs IH]; intros fs Hq; [done|]. simpl in *.
  rewrite IH by set_solver. unfold drop_upload. case_decide; [done|]. by rewrite lookup_delete_ne by set_solver.
Qed.

Lemma drop_uploads_gone xs fs q : q ≠ [] → q ∈ tmp_path <$> xs → drop_uploads xs fs !! q = None.
Proof.
  intros Hn. revert fs. induction xs as [|x xs IH]; intros fs Hq; [by apply not_elem_of_nil in Hq|]. simpl in *.
  destruct (decide (q ∈ tmp_path <$> xs)) as [Hin|Hout]; [by apply IH|].
  rewrite drop_uploads_lookup by done. apply elem_of_cons in Hq as [->|]; [|done].
  unfold drop_upload. rewrite decide_False by done. by rewrite lookup_delete_eq.
Qed.

Lemma write_files_lookup ws fs q : q ∉ ws.*1 → write_files ws fs !! q = fs !! q.
Proof.
  revert fs. induction ws as [|[p d] ws IH]; intros fs Hq; [done|]. simpl in *.
  rewrite IH by set_solver. by rewrite lookup_insert_ne by set_solver.
Qed.

(** A request leaves no upload behind: when it is dropped, the files are those before its form
    was parsed, whatever the form was, provided its paths were free; no other file is touched. *)
Theorem uploads_removed (parse_boundary : bytes → option bytes)
    (parts : bytes → bytes → list multipart_event) (ct body dir : bytes)
    (sec : UploadSecurityConfig) (fs : gmap bytes bytes) :
  (∀ i, fs !! upload_tmp_path pid dir i = None) →
  let f := parse_multipart to_lowercase parse_boundary parts write_ok pid ct body dir sec in
  drop_uploads (fm_files f) (write_files (fm_writes f) fs) = fs.
Proof.
  intros Hfree f. assert (form_inv dir sec f) as [Hw Hi].
  { unfold f, parse_multipart. case_match; [apply form_loop_inv|]; by split. }
  assert ((fm_writes f).*1 = tmp_path <$> fm_files f) as E by (rewrite Hw, <-list_fmap_compose; done).
  apply map_eq. intros q. destruct (decide (q ∈ tmp_path <$> fm_files f)) as [Hq|Hq].
  - pose proof Hq as (x & -> & [i Hx]%list_elem_of_lookup)%list_elem_of_fmap.
    destruct (Hi i x Hx) as [Ht _]. rewrite drop_uploads_gone; [by rewrite Ht|rewrite Ht|done].
    unfold upload_tmp_path. by destruct dir.
  - rewrite drop_uploads_lookup by done. apply write_files_lookup. by rewrite E.
Qed.
End uploads.

(** A form with one part, the body itself. *)
Definition one_part (_ body : bytes) : list multipart_event :=
  [MField (Some (lit "f")) (Some (lit "a.txt")) None (Some body);
   MField (Some (lit "t")) None None (Some (lit "v"));
   MField (Some (lit "g")) (Some (lit "a.PHP.jpg")) None (Some (lit "x"))].


Lemma upload_paths_collide_witness :
  let form := parse_multipart to_ascii_lowercase (λ _, Some (lit "b")) one_part (λ _, true) 7
                (lit "multipart/form-data; boundary=b") in
  let f1 := form (lit "mine") (lit "/tmp") default_upload_security in
  let f2 := form (lit "theirs") (lit "/tmp") default_upload_security in
  file_after (fm_writes f1 ++ fm_writes f2) (lit "/tmp/turbine_upload_7_0") = Some (lit "theirs").
Proof.
  intros form f1 f2.
  set (x d := {| field_name := lit "f"; file_name := lit "a.txt";
    uf_content_type := lit "application/octet-stream"; uf_data := d;
    tmp_path := lit "/tmp/turbine_upload_7_0" |}).
  apply (upload_paths_collide to_ascii_lowercase (λ _, true) 7 (λ _, Some (lit "b")) one_part
    (lit "multipart/form-data; boundary=b") (lit "multipart/form-data; boundary=b")
    (lit "mine") (lit "theirs") (lit "/tmp") default_upload_security (x (lit "mine"))
    (x (lit "theirs")) []); vm_compute; reflexivity.
Defined.

Lemma uploads_removed_witness :
  let f := parse_multipart to_ascii_lowercase (λ _, Some (lit "b")) one_part (λ _, true) 7
             (lit "multipart/form-data; boundary=b") (lit "data") (lit "/tmp") default_upload_security in
  drop_uploads (fm_files f) (write_files (fm_writes f) ∅) = ∅.
Proof.
  exact (uploads_removed to_ascii_lowercase (λ _, true) 7 (λ _, Some (lit "b")) one_part
    (lit "multipart/form-data; boundary=b") (lit "data") (lit "/tmp") default_upload_security ∅
    (λ i, lookup_empty _)).
Defined.

(** The first of two requests with uploads to be done removes the file of the other. *)
Example upload_removed_early :
  let form d := parse_multipart to_ascii_lowercase (λ _, Some (lit "b")) one_part (λ _, true) 7
                  (lit "multipart/form-data; boundary=b") (lit d) (lit "/tmp") default_upload_security in
  let f1 := form "mine"%string in
  let f2 := form "theirs"%string in
  drop_uploads (fm_files f1) (write_files (fm_writes f1 ++ fm_writes f2) ∅)
    !! lit "/tmp/turbine_upload_7_0" = None.
Proof. vm_compute. reflexivity. Qed.

(** The blank line is searched in the lossy text, which is longer than the raw bytes. *)
Example parse_panics : parse to_ascii_lowercase [xff; x0d; x0a; x0d; x0a] = None.
Proof. vm_compute. reflexivity. Qed.

Example parse_request_ex :
  from_option (from_option (λ r, (fr_method r, fr_path r, fr_query_string r, fr_body r)) ([], [], [], []))
    ([], [], [], [])
    (parse to_ascii_lowercase
      (lit "POST /a?b HTTP/1.1" ++ [x0d; x0a] ++ lit "Host: x" ++ [x0d; x0a; x0d; x0a] ++ lit "hi")) =
  (lit "POST", lit "/a", lit "b", lit "hi").
Proof. vm_compute. reflexivity. Qed.
