(* ===== verification/PhpCode.v ===== *)
(** * PHP code for a request (turbine-core/src/compat.rs)

    The server hands a request to PHP as source text that assigns the
    superglobals. The values come from the client: the text is correct when PHP
    reads every one of them back as a string literal of exactly that value, and
    nothing else of the text depends on them. *)

From S2P Require Import Prelude Utf8 RustStr PathGuard Compat.

(** [s.replace(c, r)] for a one-byte pattern *)
Definition replace_byte (c : byte) (r s : bytes) : bytes :=
  s ≫= λ x, if decide (x = c) then r else [x].

Definition quote : byte := x27.
Definition backslash : byte := x5c.

Definition escape_php (s : bytes) : bytes :=
  replace_byte quote [backslash; quote] (replace_byte backslash [backslash; backslash] s).

(** The stream wrapper that serves php://input from the stored body. *)
Definition input_stream_class : bytes := lit
  "if (!class_exists('TurbineInputStream')) { class TurbineInputStream { private $pos = 0; private $data; public function stream_open($path, $mode, $options, &$opened_path) { $this->data = $GLOBALS['__turbine_raw_body'] ?? ''; return true; } public function stream_read($count) { $chunk = substr($this->data, $this->pos, $count); $this->pos += strlen($chunk); return $chunk; } public function stream_eof() { return $this->pos >= strlen($this->data); } public function stream_stat() { return ['size' => strlen($this->data)]; } public function stream_seek($offset, $whence) { if ($whence === SEEK_SET) { $this->pos = $offset; } elseif ($whence === SEEK_CUR) { $this->pos += $offset; } elseif ($whence === SEEK_END) { $this->pos = strlen($this->data) + $offset; } return true; } public function stream_tell() { return $this->pos; } } stream_wrapper_unregister('php'); stream_wrapper_register('php', 'TurbineInputStream'); } ".

Section code.
Context (to_uppercase : bytes → bytes).
Context (iter : gmap bytes bytes → list (bytes * bytes)).
(** [env!("CARGO_PKG_VERSION")] *)
Context (version : bytes).

(** [format!("$_SERVER['{}'] = '{}'; ", name, escape_php(value))] *)
Definition server_var (name value : bytes) : bytes :=
  lit "$_SERVER['" ++ name ++ lit "'] = '" ++ escape_php value ++ lit "'; ".

(** ['{}' => '{}', ] for each pair *)
Definition array_items (ps : list (bytes * bytes)) : bytes :=
  ps ≫= λ '(k, v), lit "'" ++ escape_php k ++ lit "' => '" ++ escape_php v ++ lit "', ".

Definition array_var (name : bytes) (ps : list (bytes * bytes)) : bytes :=
  if negb (bool_decide (ps = [])) then name ++ lit " = [" ++ array_items ps ++ lit "]; "
  else name ++ lit " = []; ".

Definition server_key (key : bytes) : bytes :=
  lit "HTTP_" ++ to_uppercase (replace_byte x2d [x5f] key).

Definition header_vars (hs : list (bytes * bytes)) : bytes :=
  hs ≫= λ '(k, v), server_var (escape_php (server_key k)) v.

Definition file_item (f : UploadedFile) : bytes :=
  lit "'" ++ escape_php (field_name f) ++ lit "' => ['name' => '" ++ escape_php (file_name f) ++
  lit "', 'type' => '" ++ escape_php (uf_content_type f) ++
  lit "', 'tmp_name' => '" ++ escape_php (tmp_path f) ++
  lit "', 'error' => 0, 'size' => " ++ dec_string (zlen (uf_data f)) ++ lit "], ".

Definition uploaded_item (f : UploadedFile) : bytes :=
  lit "'" ++ escape_php (tmp_path f) ++ lit "' => true, ".

Definition files_code (fs : list UploadedFile) : bytes :=
  if negb (bool_decide (fs = [])) then
    lit "$_FILES = [" ++ (fs ≫= file_item) ++ lit "]; " ++
    lit "$GLOBALS['__turbine_uploaded_files'] = [" ++ (fs ≫= uploaded_item) ++ lit "]; "
  else lit "$_FILES = []; ".

Definition body_code (body : bytes) : bytes :=
  if negb (bool_decide (body = [])) then
    lit "$GLOBALS['__turbine_raw_body'] = '" ++ escape_php (from_utf8_lossy body) ++ lit "'; " ++
    input_stream_class
  else [].

Definition request_uri (r : FullHttpRequest) : bytes :=
  fr_path r ++ (if bool_decide (fr_query_string r = []) then [] else [x3f] ++ fr_query_string r).

Definition php_superglobals_code (r : FullHttpRequest) (app_root script_path client_ip : bytes)
    (server_port : Z) (is_tls : bool) : bytes :=
  server_var (lit "REQUEST_METHOD") (fr_method r) ++
  server_var (lit "REQUEST_URI") (request_uri r) ++
  server_var (lit "QUERY_STRING") (fr_query_string r) ++
  lit "$_SERVER['SCRIPT_NAME'] = '/" ++ escape_php script_path ++ lit "'; " ++
  server_var (lit "SCRIPT_FILENAME") (path_join app_root script_path) ++
  server_var (lit "DOCUMENT_ROOT") app_root ++
  lit "$_SERVER['SERVER_SOFTWARE'] = 'Turbine/" ++ version ++ lit "'; " ++
  lit "$_SERVER['SERVER_PROTOCOL'] = 'HTTP/1.1'; " ++
  lit "$_SERVER['SERVER_PORT'] = '" ++ dec_string server_port ++ lit "'; " ++
  lit "$_SERVER['SERVER_NAME'] = 'localhost'; " ++
  (if is_tls then lit "$_SERVER['HTTPS'] = 'on'; " ++ lit "$_SERVER['REQUEST_SCHEME'] = 'https'; "
   else lit "$_SERVER['REQUEST_SCHEME'] = 'http'; ") ++
  server_var (lit "REMOTE_ADDR") client_ip ++
  lit "$_SERVER['REMOTE_PORT'] = '0'; " ++
  server_var (lit "PATH_INFO") (fr_path r) ++
  header_vars (iter (fr_headers r)) ++
  from_option (server_var (lit "CONTENT_TYPE")) [] (fr_content_type r) ++
  from_option (λ cl, lit "$_SERVER['CONTENT_LENGTH'] = '" ++ dec_string cl ++ lit "'; ") []
    (fr_content_length r) ++
  array_var (lit "$_GET") (get_params r) ++
  array_var (lit "$_POST") (post_params r) ++
  array_var (lit "$_COOKIE") (iter (fr_cookies r)) ++
  lit "$_REQUEST = array_merge($_GET, $_POST, $_COOKIE); " ++
  files_code (fr_files r) ++
  body_code (fr_body r).
End code.

(** The superglobals of a request, followed by the script (main.rs): of the path
    of the script only quotes are escaped. *)
Definition full_code (superglobals bootstrap abs_php_path : bytes) (session_auto_start : bool)
    : bytes :=
  superglobals ++ (if session_auto_start then lit "session_start(); " else []) ++ bootstrap ++
  lit "include '" ++ replace_byte quote [backslash; quote] abs_php_path ++ lit "';".

(** ** How PHP reads it *)

(** The text outside of literals, and single-quoted literals with their value: in
    them a backslash before a quote or a backslash stands for that character,
    and before anything else for itself. *)
Inductive token := Code (text : bytes) | Str (value : bytes).

(** The value of the literal whose body starts here, and what follows it. *)
Fixpoint scan_literal (s : bytes) : option (bytes * bytes) :=
  match s with
  | [] => None
  | c :: s' =>
      if decide (c = quote) then Some ([], s')
      else if decide (c = backslash) then
        match s' with
        | d :: s'' =>
            if bool_decide (d = quote) || bool_decide (d = backslash) then
              '(v, rest) ← scan_literal s''; Some (d :: v, rest)
            else '(v, rest) ← scan_literal s'; Some (backslash :: v, rest)
        | [] => None
        end
      else '(v, rest) ← scan_literal s'; Some (c :: v, rest)
  end.

(** Each literal takes at least its first quote, so the length is enough fuel. *)
Fixpoint scan (fuel : nat) (code : bytes) (s : bytes) : option (list token) :=
  match s with
  | [] => Some (if decide (code = []) then [] else [Code code])
  | c :: s' =>
      match fuel with
      | O => None
      | S fuel' =>
          if decide (c = quote) then
            '(v, rest) ← scan_literal s';
            ts ← scan fuel' [] rest;
            Some ((if decide (code = []) then [] else [Code code]) ++ Str v :: ts)
          else scan fuel' (code ++ [c]) s'
      end
  end.

Definition php_tokens (s : bytes) : option (list token) := scan (length s) [] s.

Example php_tokens_ex :
  php_tokens (lit "a('it\'s', 'c:\\x');") =
  Some [Code (lit "a("); Str (lit "it's"); Code (lit ", "); Str (lit "c:\x"); Code (lit ");")].
Proof. vm_compute. reflexivity. Qed.

(** ** The intended program *)

Definition flush (code : bytes) : list token := if decide (code = []) then [] else [Code code].

(** Tokens with adjacent pieces of code joined. *)
Fixpoint merge (code : bytes) (ts : list token) : list token :=
  match ts with
  | [] => flush code
  | Code c :: ts' => merge (code ++ c) ts'
  | Str v :: ts' => flush code ++ Str v :: merge [] ts'
  end.

(** The assignments that a request stands for. *)
Inductive stmt :=
| SetServer (name value : bytes)
| SetArray (name : bytes) (items : list (bytes * bytes))
| MergeRequest
| SetFiles (fs : list UploadedFile)
| SetBody (body : bytes).

Definition item_tokens (kv : bytes * bytes) : list token :=
  [Str kv.1; Code (lit " => "); Str kv.2; Code (lit ", ")].

Definition file_tokens (f : UploadedFile) : list token :=
  [Str (field_name f); Code (lit " => ["); Str (lit "name"); Code (lit " => "); Str (file_name f);
   Code (lit ", "); Str (lit "type"); Code (lit " => "); Str (uf_content_type f);
   Code (lit ", "); Str (lit "tmp_name"); Code (lit " => "); Str (tmp_path f);
   Code (lit ", "); Str (lit "error"); Code (lit " => 0, "); Str (lit "size");
   Code (lit " => " ++ dec_string (zlen (uf_data f)) ++ lit "], ")].

Definition uploaded_tokens (f : UploadedFile) : list token :=
  [Str (tmp_path f); Code (lit " => true, ")].

Definition stmt_tokens (s : stmt) : list token :=
  match s with
  | SetServer name value =>
      [Code (lit "$_SERVER["); Str name; Code (lit "] = "); Str value; Code (lit "; ")]
  | SetArray name items =>
      Code (name ++ lit " = [") :: (items ≫= item_tokens) ++ [Code (lit "]; ")]
  | MergeRequest => [Code (lit "$_REQUEST = array_merge($_GET, $_POST, $_COOKIE); ")]
  | SetFiles [] => [Code (lit "$_FILES = []; ")]
  | SetFiles fs =>
      Code (lit "$_FILES = [") :: (fs ≫= file_tokens) ++
      [Code (lit "]; $GLOBALS["); Str (lit "__turbine_uploaded_files"); Code (lit "] = [")] ++
      (fs ≫= uploaded_tokens) ++ [Code (lit "]; ")]
  | SetBody [] => []
  | SetBody body =>
      [Code (lit "$GLOBALS["); Str (lit "__turbine_raw_body"); Code (lit "] = ");
       Str (from_utf8_lossy body); Code (lit "; ")] ++ default [] (php_tokens input_stream_class)
  end.

Section program.
Context (to_uppercase : bytes → bytes).
Context (iter : gmap bytes bytes → list (bytes * bytes)).
Context (version : bytes).

Definition superglobals (r : FullHttpRequest) (app_root script_path client_ip : bytes)
    (server_port : Z) (is_tls : bool) : list stmt :=
  [ SetServer (lit "REQUEST_METHOD") (fr_method r);
    SetServer (lit "REQUEST_URI") (request_uri r);
    SetServer (lit "QUERY_STRING") (fr_query_string r);
    SetServer (lit "SCRIPT_NAME") (slash :: script_path);
    SetServer (lit "SCRIPT_FILENAME") (path_join app_root script_path);
    SetServer (lit "DOCUMENT_ROOT") app_root;
    SetServer (lit "SERVER_SOFTWARE") (lit "Turbine/" ++ version);
    SetServer (lit "SERVER_PROTOCOL") (lit "HTTP/1.1");
    SetServer (lit "SERVER_PORT") (dec_string server_port);
    SetServer (lit "SERVER_NAME") (lit "localhost") ] ++
  (if is_tls then [SetServer (lit "HTTPS") (lit "on"); SetServer (lit "REQUEST_SCHEME") (lit "https")]
   else [SetServer (lit "REQUEST_SCHEME") (lit "http")]) ++
  [ SetServer (lit "REMOTE_ADDR") client_ip;
    SetServer (lit "REMOTE_PORT") (lit "0");
    SetServer (lit "PATH_INFO") (fr_path r) ] ++
  ((λ '(k, v), SetServer (server_key to_uppercase k) v) <$> iter (fr_headers r)) ++
  option_list (SetServer (lit "CONTENT_TYPE") <$> fr_content_type r) ++
  option_list ((λ cl, SetServer (lit "CONTENT_LENGTH") (dec_string cl)) <$> fr_content_length r) ++
  [ SetArray (lit "$_GET") (get_params r);
    SetArray (lit "$_POST") (post_params r);
    SetArray (lit "$_COOKIE") (iter (fr_cookies r));
    MergeRequest;
    SetFiles (fr_files r);
    SetBody (fr_body r) ].
End program.

(** ** Lemmas *)

Definition render (ts : list token) : bytes :=
  ts ≫= λ t, match t with Code c => c | Str v => quote :: escape_php v ++ [quote] end.

(** Text that escaping leaves alone, and that has no literal in it. *)
Definition inert (s : bytes) : Prop := Forall (λ x, x ≠ quote ∧ x ≠ backslash) s.

Definition inert_code (t : token) : Prop := match t with Code c => quote ∉ c | Str _ => True end.

#[global] Instance inert_code_dec t : Decision (inert_code t).
Proof. destruct t as [c|v]; simpl; apply _. Defined.

#[global] Instance inert_dec s : Decision (inert s).
Proof. unfold inert. apply _. Defined.

Lemma escape_app s t : escape_php (s ++ t) = escape_php s ++ escape_php t.
Proof. unfold escape_php, replace_byte. by rewrite !bind_app. Qed.

Lemma escape_cons x s : escape_php (x :: s) =
  (if decide (x = quote) then [backslash; quote]
   else if decide (x = backslash) then [backslash; backslash] else [x]) ++ escape_php s.
Proof.
  change (x :: s) with ([x] ++ s). rewrite escape_app. f_equal. unfold escape_php, replace_byte. simpl.
  destruct (decide (x = backslash)) as [->|]; [done|]. simpl.
  by destruct (decide (x = quote)).
Qed.

Lemma escape_inert s : inert s → escape_php s = s.
Proof.
  induction 1 as [|x s [Hq Hb] _ IH]; [done|]. rewrite escape_cons, IH.
  by rewrite !decide_False.
Qed.

Lemma scan_literal_escape v rest :
  scan_literal (escape_php v ++ quote :: rest) = Some (v, rest).
Proof.
  induction v as [|x v IH]; [done|]. rewrite escape_cons, <-(assoc_L app).
  destruct (decide (x = quote)) as [->|Hq]; [simpl; by rewrite IH|].
  destruct (decide (x = backslash)) as [->|Hb]; [simpl; by rewrite IH|].
  simpl. by rewrite !decide_False, IH.
Qed.

Lemma scan_code fuel code c s : quote ∉ c → (length c ≤ fuel)%nat →
  scan fuel code (c ++ s) = scan (fuel - length c) (code ++ c) s.
Proof.
  revert fuel code. induction c as [|x c IH]; intros fuel code Hc Hf; simpl in *.
  { by rewrite app_nil_r, Nat.sub_0_r. }
  destruct fuel as [|fuel]; [lia|]. simpl. rewrite decide_False by set_solver.
  rewrite IH by (set_solver || lia). by rewrite <-(assoc_L app).
Qed.

Lemma scan_render ts fuel code : Forall inert_code ts → (length (render ts) ≤ fuel)%nat →
  scan fuel code (render ts) = Some (merge code ts).
Proof.
  revert fuel code. induction ts as [|t ts IH]; intros fuel code Ht Hf.
  { by destruct fuel. }
  apply Forall_cons in Ht as [Ht Hts].
  unfold render in Hf |- *. rewrite bind_cons in Hf |- *. fold (render ts) in Hf |- *.
  rewrite length_app in Hf. destruct t as [c|v]; simpl in *.
  - rewrite scan_code by (done || lia). apply IH; [done|lia].
  - destruct fuel as [|fuel]; [lia|]. rewrite length_app in Hf. simpl in *.
    rewrite <-(assoc_L app). simpl. rewrite scan_literal_escape. simpl.
    by rewrite IH by (done || lia).
Qed.

Lemma php_tokens_render ts : Forall inert_code ts → php_tokens (render ts) = Some (merge [] ts).
Proof. intros Ht. by apply scan_render. Qed.

Lemma render_app ts us : render (ts ++ us) = render ts ++ render us.
Proof. unfold render. by rewrite bind_app. Qed.

Lemma render_bind {A} (f : A → list token) xs : render (xs ≫= f) = xs ≫= λ x, render (f x).
Proof. induction xs as [|x xs IH]; [done|]. rewrite !bind_cons, render_app. by rewrite IH. Qed.

Lemma dec_digits_digits fuel v acc : 0 ≤ v → Forall (λ x, 48 ≤ u8 x ≤ 57) acc →
  Forall (λ x, 48 ≤ u8 x ≤ 57) (dec_digits fuel v acc).
Proof.
  revert v acc. induction fuel as [|fuel IH]; intros v acc Hv Hacc; [done|]. simpl.
  assert (Forall (λ x, 48 ≤ u8 x ≤ 57) (as_u8 (48 + v `mod` 10) :: acc)) as Hc.
  { constructor; [|done]. rewrite u8_as_u8. pose proof (Z.mod_pos_bound v 10 ltac:(lia)).
    rewrite Z.mod_small by lia. lia. }
  case_match; [done|]. apply IH; [|done]. apply Z.div_pos; lia.
Qed.

Lemma digits_inert s : Forall (λ x, 48 ≤ u8 x ≤ 57) s → inert s.
Proof.
  intros H. eapply Forall_impl; [exact H|]. intros x Hx. simpl in Hx.
  assert (u8 quote = 39 ∧ u8 backslash = 92) as [Hq Hb] by done.
  split; intros ->; lia.
Qed.

Lemma dec_string_inert v : 0 ≤ v → inert (dec_string v).
Proof. intros Hv. apply digits_inert, dec_digits_digits; [done|constructor]. Qed.

Lemma inert_no_quote s : inert s → quote ∉ s.
Proof. intros H Hin. unfold inert in H. rewrite Forall_forall in H. by destruct (H quote Hin). Qed.

(** *** The code is the intended program *)

(** Right-associates and flattens concatenations. *)
Ltac app_norm := repeat progress (simpl; rewrite ?app_nil_r, <-?app_assoc).

Lemma server_var_render name value : escape_php name = name →
  server_var name value = render (stmt_tokens (SetServer name value)).
Proof.
  intros Hn. unfold server_var, render. simpl. rewrite Hn, !app_nil_r.
  by rewrite <-!(assoc_L app).
Qed.

Lemma array_items_render ps : array_items ps = render (ps ≫= item_tokens).
Proof.
  rewrite render_bind. unfold array_items. apply list_bind_ext; [|done]. intros [k v].
  unfold render. by app_norm.
Qed.

Lemma array_var_render name ps : array_var name ps = render (stmt_tokens (SetArray name ps)).
Proof.
  unfold array_var. simpl. change (?t :: ?ts) with ([t] ++ ts). rewrite !render_app, <-array_items_render.
  unfold render. app_norm.
  destruct ps as [|p ps]; [by rewrite bool_decide_true|]. by rewrite bool_decide_false.
Qed.

Lemma header_vars_render to_uppercase hs :
  header_vars to_uppercase hs =
  render (((λ '(k, v), SetServer (server_key to_uppercase k) v) <$> hs) ≫= stmt_tokens).
Proof.
  induction hs as [|[k v] hs IH]; [done|].
  rewrite fmap_cons, bind_cons, render_app, <-IH. unfold header_vars. rewrite bind_cons. f_equal.
  unfold server_var, render. by app_norm.
Qed.

Lemma file_item_render f : file_item f = render (file_tokens f).
Proof.
  unfold file_item, file_tokens, render. by app_norm.
Qed.

Lemma files_code_render fs : files_code fs = render (stmt_tokens (SetFiles fs)).
Proof.
  unfold files_code. destruct fs as [|f fs]; [done|]. rewrite bool_decide_false by done. simpl negb.
  assert (∀ gs, gs ≫= file_item = render (gs ≫= file_tokens)) as E1.
  { intros gs. rewrite render_bind. apply list_bind_ext; [apply file_item_render|done]. }
  assert (∀ gs, gs ≫= uploaded_item = render (gs ≫= uploaded_tokens)) as E2.
  { intros gs. rewrite render_bind. apply list_bind_ext; [|done]. intros g.
    unfold uploaded_item, render. by app_norm. }
  etransitivity; [|symmetry; apply (render_app [Code (lit "$_FILES = [")])].
  rewrite !render_app, <-E1, <-E2. unfold render. by app_norm.
Qed.

Lemma body_code_render b : body_code b = render (stmt_tokens (SetBody b)).
Proof.
  unfold body_code. destruct b as [|x b]; [done|]. rewrite bool_decide_false by done. simpl negb.
  unfold stmt_tokens. rewrite render_app.
  assert (render (default [] (php_tokens input_stream_class)) = input_stream_class) as ->
    by (vm_compute; reflexivity).
  generalize (from_utf8_lossy (x :: b)), input_stream_class. intros v c.
  unfold render. app_norm. reflexivity.
Qed.

(** The assignments that the code writes without [server_var]. *)
Lemma server_var_inert name value : inert value →
  server_var name value = lit "$_SERVER['" ++ name ++ lit "'] = '" ++ value ++ lit "'; ".
Proof. intros Hv. unfold server_var. by rewrite escape_inert. Qed.

Lemma script_name_var p :
  server_var (lit "SCRIPT_NAME") (slash :: p) =
  lit "$_SERVER['SCRIPT_NAME'] = '/" ++ escape_php p ++ lit "'; ".
Proof. unfold server_var. rewrite escape_cons. by app_norm. Qed.

Lemma scheme_vars (tls : bool) :
  (if tls then lit "$_SERVER['HTTPS'] = 'on'; " ++ lit "$_SERVER['REQUEST_SCHEME'] = 'https'; "
   else lit "$_SERVER['REQUEST_SCHEME'] = 'http'; ") =
  render ((if tls then [SetServer (lit "HTTPS") (lit "on");
                        SetServer (lit "REQUEST_SCHEME") (lit "https")]
           else [SetServer (lit "REQUEST_SCHEME") (lit "http")]) ≫= stmt_tokens).
Proof. destruct tls; vm_compute; reflexivity. Qed.

Lemma option_var_render {A} (f : A → bytes) name (o : option A) : escape_php name = name →
  from_option (λ x, server_var name (f x)) [] o =
  render (option_list ((λ x, SetServer name (f x)) <$> o) ≫= stmt_tokens).
Proof.
  intros Hn. destruct o as [x|]; [|done]. simpl. by rewrite server_var_render.
Qed.

Lemma code_render to_uppercase iter version r app_root script_path client_ip port tls :
  inert version → 0 ≤ port → from_option (Z.le 0) True (fr_content_length r) →
  php_superglobals_code to_uppercase iter version r app_root script_path client_ip port tls =
  render (superglobals to_uppercase iter version r app_root script_path client_ip port tls
            ≫= stmt_tokens).
Proof.
  intros Hv Hp Hc. unfold superglobals, php_superglobals_code.
  rewrite !bind_app, !render_app, <-header_vars_render, <-scheme_vars.
  rewrite <-(option_var_render (λ x, x)), <-(option_var_render dec_string) by done.
  rewrite !bind_cons, !render_app, <-!server_var_render by done.
  rewrite <-!array_var_render, <-files_code_render, <-body_code_render, script_name_var.
  rewrite (server_var_inert (lit "SERVER_PORT")) by by apply dec_string_inert.
  rewrite (server_var_inert (lit "SERVER_SOFTWARE"))
    by (apply Forall_app; split; [apply (bool_decide_unpack _); vm_compute; exact I|done]).
  assert (from_option (λ cl, lit "$_SERVER['CONTENT_LENGTH'] = '" ++ dec_string cl ++ lit "'; ") []
      (fr_content_length r) =
    from_option (λ cl, server_var (lit "CONTENT_LENGTH") (dec_string cl)) [] (fr_content_length r)) as ->.
  { destruct (fr_content_length r) as [cl|]; [|done]. simpl in *.
    by rewrite server_var_inert by by apply dec_string_inert. }
  change (render ([] ≫= stmt_tokens)) with (@nil byte). rewrite <-!app_assoc, !app_nil_r. reflexivity.
Qed.

(** Every statement is code without quotes around its literals. *)
Lemma bind_inert {A} (f : A → list token) (xs : list A) : (∀ x, Forall inert_code (f x)) →
  Forall inert_code (xs ≫= f).
Proof.
  intros Hf. induction xs as [|x xs IH]; [constructor|]. rewrite bind_cons. by apply Forall_app.
Qed.

Lemma item_tokens_inert p : Forall inert_code (item_tokens p).
Proof. apply (bool_decide_unpack _). by vm_compute. Qed.

Lemma uploaded_tokens_inert f : Forall inert_code (uploaded_tokens f).
Proof. apply (bool_decide_unpack _). by vm_compute. Qed.

Lemma file_tokens_inert f : Forall inert_code (file_tokens f).
Proof.
  unfold file_tokens. do 17 (apply Forall_cons; split; [first [exact I|apply (bool_decide_unpack _); by vm_compute]|]).
  apply Forall_singleton, inert_no_quote, Forall_app. split; [apply (bool_decide_unpack _); by vm_compute|].
  apply Forall_app. split; [apply dec_string_inert, zlen_nonneg|apply (bool_decide_unpack _); by vm_compute].
Qed.

Definition stmt_inert (s : stmt) : Prop :=
  match s with SetArray name _ => quote ∉ name | _ => True end.

Lemma stmt_tokens_inert s : stmt_inert s → Forall inert_code (stmt_tokens s).
Proof.
  intros Hs. destruct s as [name value|name items| |fs|b].
  - apply (bool_decide_unpack _). by vm_compute.
  - simpl. apply Forall_cons. split; [|apply Forall_app; split; [apply bind_inert, item_tokens_inert|]].
    + intros [Hq|Hq]%elem_of_app; [done|].
      revert Hq. apply (bool_decide_unpack _). by vm_compute.
    + apply (bool_decide_unpack _). by vm_compute.
  - apply (bool_decide_unpack _). by vm_compute.
  - destruct fs as [|f fs]; [apply (bool_decide_unpack _); by vm_compute|].
    apply Forall_cons. split; [apply (bool_decide_unpack _); by vm_compute|].
    apply Forall_app. split; [apply bind_inert, file_tokens_inert|].
    apply Forall_app. split; [apply (bool_decide_unpack _); by vm_compute|].
    apply Forall_app. split; [apply bind_inert, uploaded_tokens_inert|].
    apply (bool_decide_unpack _); by vm_compute.
  - destruct b as [|x b]; [constructor|]. apply Forall_app. split.
    + repeat (apply Forall_cons; split; [first [exact I|apply (bool_decide_unpack _); by vm_compute]|]).
      constructor.
    + apply (bool_decide_unpack _). by vm_compute.
Qed.

Lemma superglobals_inert to_uppercase iter version r app_root script_path client_ip port tls :
  Forall stmt_inert (superglobals to_uppercase iter version r app_root script_path client_ip port tls).
Proof.
  unfold superglobals. repeat (apply Forall_app; split).
  - by repeat constructor.
  - by destruct tls; repeat constructor.
  - by repeat constructor.
  - apply Forall_fmap, Forall_true. by intros [k v].
  - by destruct (fr_content_type r); repeat constructor.
  - by destruct (fr_content_length r); repeat constructor.
  - repeat (apply Forall_cons; split; [first [exact I|apply (bool_decide_unpack _); by vm_compute]|]).
    constructor.
Qed.

(** C5: The superglobals cannot be injected into: whatever bytes the method, the path, the
    query, the headers, the cookies, the form, the uploads and the body have, PHP reads the
    generated code as exactly the intended assignments, each value as a string literal of
    that value, quotes and backslashes included. *)
Theorem superglobals_not_injectable (to_uppercase : bytes → bytes)
    (iter : gmap bytes bytes → list (bytes * bytes)) (version : bytes) (r : FullHttpRequest)
    (app_root script_path client_ip : bytes) (port : Z) (tls : bool) :
  inert version → 0 ≤ port → from_option (Z.le 0) True (fr_content_length r) →
  php_tokens (php_superglobals_code to_uppercase iter version r app_root script_path client_ip
                port tls) =
  Some (merge [] (superglobals to_uppercase iter version r app_root script_path client_ip
                    port tls ≫= stmt_tokens)).
Proof.
  intros Hv Hp Hc. rewrite code_render by done. apply php_tokens_render, Forall_bind.
  eapply Forall_impl; [apply superglobals_inert|]. apply stmt_tokens_inert.
Qed.

Lemma superglobals_not_injectable_witness :
  let evil := lit "x'; system('id'); //\" in
  let r := {| fr_method := lit "GET"; fr_path := slash :: evil; fr_query_string := lit "a=" ++ evil;
    fr_http_version := lit "HTTP/1.1"; fr_headers := {[lit "host" := evil]}; fr_cookies := ∅;
    fr_body := evil; fr_content_type := None; fr_content_length := Some 21; fr_files := [];
    fr_multipart_post_params := [] |} in
  php_tokens (php_superglobals_code to_ascii_lowercase map_to_list (lit "0.1.0") r (lit "/app")
                (lit "index.php") (lit "::1") 8080 true) =
  Some (merge [] (superglobals to_ascii_lowercase map_to_list (lit "0.1.0") r (lit "/app")
                    (lit "index.php") (lit "::1") 8080 true ≫= stmt_tokens)).
Proof.
  intros evil r. apply superglobals_not_injectable;
    [apply (bool_decide_unpack _); vm_compute; exact I|lia|simpl; lia].
Defined.

(** The path of the script is escaped for quotes only: after a backslash in it, a quote ends
    the literal, and what follows in the file name is code. *)
Example include_path_injectable :
  let path := lit "/app/a\'.system(1).'.php" in
  php_tokens (full_code [] [] path false) =
  Some [Code (lit "include "); Str (lit "/app/a\"); Code (lit ".system(1).\");
        Str (lit ".php"); Code (lit ";")].
Proof. vm_compute. reflexivity. Qed.
