(* ===== verification/Admin.v ===== *)
(** * The internal endpoints (turbine-core/src/admin.rs, prometheus.rs,
    dashboard.rs, and the requests below [/_/] of main.rs)

    What the paths below [/_/] do to the shared table, the task queue, the
    WebSocket hub, asynchronous I/O, the cache and the blocked addresses. A
    handler takes the component it works on and returns it with the response.
    Bodies are read by [from_hyper] of Compat. [pop] looks at the queue as it is:
    the wait is in TaskQueue. A timer and a WebSocket session that a request
    starts are returned. *)

From S2P Require Import Prelude RustStr Utf8 Http Compat.
From S2P Require Import F64 SharedTable TaskQueue WsHub AsyncIo Metrics ResponseCache BehaviourGuard Security.

(** ** Requests *)

(** [req.headers().get(name)] of a name in lower case, when the value is text. *)
Definition header_text (req : HyperRequest) (name : bytes) : option bytes :=
  match list_find (λ h, h.1 = name) (hr_headers req) with
  | Some (_, (_, v)) => v
  | None => None
  end.

Definition query (req : HyperRequest) (name : bytes) : option bytes :=
  query_param (default [] (hr_query req)) name.

Definition query_u64 (req : HyperRequest) (name : bytes) : option Z :=
  query req name ≫= parse_uint u64_max.

Record AdminConfig := {
  ac_listen : bytes;
  dashboard_enabled : bool;
  dashboard_token : option bytes;
  statistics_enabled : bool;
  worker_count : Z;
  max_body_bytes : option Z;
  task_max_wait_ms : Z;
  upload_tmp_dir : bytes;
  upload_security : UploadSecurityConfig }.

(** [s.replace(p, r)]; the text after a match is searched from its end. *)
Fixpoint replace_fuel (fuel : nat) (p r s : bytes) : bytes :=
  match fuel with
  | O => s
  | S fuel' =>
      match find p s with
      | Some i => take i s ++ r ++ replace_fuel fuel' p r (drop (i + length p) s)
      | None => s
      end
  end.

Definition replace (p r s : bytes) : bytes := replace_fuel (S (length s)) p r s.

(** The text between quotes two after [ip]: the value of that member. *)
Definition json_ip (body : bytes) : bytes :=
  let fields := split x22 body in
  match list_find (λ f, f = lit "ip") fields with
  | Some (i, _) => trim (default [] (fields !! (i + 2)%nat))
  | None => []
  end.

(** The arms of the matches on the method and the rest of the path. *)
Inductive table_route := TSize | TExists | TGet | TIncr | TSet | TClear | TDel | TNone.

Inductive task_route := QStats | QSizeOf | QPushJob | QPopJob | QClearAll | QNone.

Definition pick {R} (none : R) (arms : list (bytes * list bytes * R)) (method sub : bytes) : R :=
  match list_find (λ a, a.1.1 = method ∧ sub ∈ a.1.2) arms with
  | Some (_, (_, r)) => r
  | None => none
  end.

Definition route_table : bytes → bytes → table_route :=
  pick TNone
    [ (lit "GET", [lit "/size"], TSize); (lit "GET", [lit "/exists"], TExists);
      (lit "GET", [[]; lit "/"; lit "/get"], TGet); (lit "POST", [lit "/incr"], TIncr);
      (lit "POST", [[]; lit "/"; lit "/set"], TSet); (lit "DELETE", [lit "/clear"], TClear);
      (lit "DELETE", [[]; lit "/"; lit "/del"], TDel) ].

Definition route_task : bytes → bytes → task_route :=
  pick QNone
    [ (lit "GET", [lit "/stats"], QStats); (lit "GET", [lit "/size"], QSizeOf);
      (lit "POST", [[]; lit "/"; lit "/push"], QPushJob); (lit "POST", [lit "/pop"], QPopJob);
      (lit "GET", [lit "/pop"], QPopJob); (lit "DELETE", [lit "/clear"], QClearAll) ].

Section admin.
Context {B : Type} `{BroadcastOps B}.
Context {ip : Type} `{Countable ip}.
Context {FS : Type}.
(** hyper, and the version of the crate. *)
Context (valid_status : Z → bool) (valid_name valid_value : bytes → bool) (version : bytes).
(** Bodies and uploads, as in Compat. *)
Context (to_lowercase : bytes → bytes) (parse_boundary : bytes → option bytes)
  (parts : bytes → bytes → list multipart_event) (write_ok : bytes → bool) (pid : Z).
(** SHA-1 with base64; addresses; the file system, as in AsyncIo. *)
Context (sha1_base64 : bytes → bytes).
Context (parse_ip : bytes → option ip) (show_ip : ip → bytes).
Context (canonicalize : FS → bytes → option bytes) (open_read : FS → bytes → result bytes bytes)
  (open_write : FS → bytes → bool → bytes → result FS bytes).
(** Printing, and the order of maps, as in Metrics; the page of the dashboard. *)
Context (show_f64 : f64 → bytes)
  (iter : gmap bytes EndpointMetrics → list (bytes * EndpointMetrics)) (template : bytes).

Definition respond (status : Z) (content_type body : bytes) : Response :=
  build_response valid_status valid_name valid_value version status content_type body [].

Definition json (status : Z) (body : bytes) : Response := respond status (lit "application/json") body.

Definition json_err (status : Z) (msg : bytes) : Response :=
  json status (q (lit "{~error~:~") ++ msg ++ q (lit "~}")).

Definition not_found : Response := respond 404 (lit "text/plain") (lit "Not found").

Definition missing (what : bytes) : Response := json_err 400 (lit "missing " ++ what).

(** The body of a request within a limit, or the response that refuses it. *)
Definition body_within (cfg : AdminConfig) (req : HyperRequest) (limit : Z) : result bytes Response :=
  match from_hyper to_lowercase parse_boundary parts write_ok pid req (upload_tmp_dir cfg)
          (upload_security cfg) (Some limit) with
  | Ok r => Ok (fr_body r)
  | Err PayloadTooLarge => Err (json_err 413 (lit "payload too large"))
  | Err BadRequest => Err (json_err 400 (lit "invalid request"))
  end.

Definition body_limit (cfg : AdminConfig) (dflt : Z) : Z :=
  Z.max (default dflt (max_body_bytes cfg)) 1048576.

(** ** Shared table *)

Definition table_full (n : Z) : Response :=
  json 507 (q (lit "{~error~:~table full~,~max_entries~:") ++ dec_string n ++ lit "}").

Definition handle_shared_table (cfg : AdminConfig) (now : Z) (req : HyperRequest)
    (clean_path : bytes) (t : SharedTable) : Response * SharedTable :=
  let key := query req (lit "key") in
  let ttl_ms := default 0 (query_u64 req (lit "ttl_ms")) in
  let delta := default 1 (query req (lit "delta") ≫= parse_i64) in
  let sub := default [] (strip_prefix (lit "/_/table") clean_path) in
  match route_table (hr_method req) sub with
  | TSize =>
      (json 200 (q (lit "{~size~:") ++ dec_string (table_size t) ++ q (lit ",~evictions~:") ++
                 dec_string (evictions t) ++ lit "}"), t)
  | TExists =>
      match key with
      | None => (missing (lit "key"), t)
      | Some k =>
          let '(found, t) := exists_key now k t in
          (json (if found then 200 else 404)
             (q (lit "{~exists~:") ++ (if found then lit "true" else lit "false") ++ lit "}"), t)
      end
  | TGet =>
      match key with
      | None => (missing (lit "key"), t)
      | Some k =>
          let '(v, t) := SharedTable.get now k t in
          (match v with
           | Some v => respond 200 (lit "application/octet-stream") v
           | None => respond 404 (lit "text/plain") []
           end, t)
      end
  | TIncr =>
      match key with
      | None => (missing (lit "key"), t)
      | Some k =>
          let '(r, t) := incr now k delta t in
          (match r with
           | Ok v => json 200 (q (lit "{~value~:") ++ show_i64 v ++ lit "}")
           | Err (SharedTable.Full n) => table_full n
           | Err (NotACounter _) => json_err 409 (lit "key exists but is not a counter")
           end, t)
      end
  | TSet =>
      match key with
      | None => (missing (lit "key"), t)
      | Some k =>
          match body_within cfg req (body_limit cfg 1048576) with
          | Err r => (r, t)
          | Ok body =>
              let ttl := if 0 <? ttl_ms then Some (ttl_ms * 10 ^ 6) else None in
              let '(r, t) := SharedTable.set now k body ttl t in
              (match r with
               | Ok _ => respond 204 (lit "text/plain") []
               | Err (SharedTable.Full n) => table_full n
               | Err (NotACounter _) => json_err 500 (lit "internal")
               end, t)
          end
      end
  | TClear =>
      let '(n, t) := table_clear t in
      (json 200 (q (lit "{~cleared~:") ++ dec_string n ++ lit "}"), t)
  | TDel =>
      match key with
      | None => (missing (lit "key"), t)
      | Some k =>
          let '(removed, t) := SharedTable.del now k t in
          (json 200 (q (lit "{~deleted~:") ++ (if removed then lit "true" else lit "false") ++ lit "}"), t)
      end
  | TNone => (not_found, t)
  end.

(** ** Task queue *)

Definition handle_task_queue (cfg : AdminConfig) (now : Z) (req : HyperRequest)
    (clean_path : bytes) (tq : TaskQueue) : Response * TaskQueue :=
  let channel := query req (lit "channel") in
  let sub := default [] (strip_prefix (lit "/_/task") clean_path) in
  match route_task (hr_method req) sub with
  | QStats =>
      let s := TaskQueue.stats tq in
      (json 200 (q (lit "{~channels~:") ++ dec_string (qs_channels s) ++
                 q (lit ",~pushed~:") ++ dec_string (qs_pushed s) ++
                 q (lit ",~popped~:") ++ dec_string (qs_popped s) ++
                 q (lit ",~rejected~:") ++ dec_string (qs_rejected s) ++ lit "}"), tq)
  | QSizeOf =>
      match channel with
      | None => (missing (lit "channel"), tq)
      | Some c => (json 200 (q (lit "{~size~:") ++ dec_string (channel_size c tq) ++ lit "}"), tq)
      end
  | QPushJob =>
      match channel with
      | None => (missing (lit "channel"), tq)
      | Some c =>
          match body_within cfg req (body_limit cfg 1048576) with
          | Err r => (r, tq)
          | Ok body =>
              let '(r, tq) := push now c body tq in
              (match r with
               | Ok id => json 200 (q (lit "{~id~:") ++ dec_string id ++ lit "}")
               | Err (QueueFull _ n) =>
                   json 507 (q (lit "{~error~:~channel full~,~capacity~:") ++ dec_string n ++ lit "}")
               | Err (TooManyChannels n) =>
                   json 507 (q (lit "{~error~:~too many channels~,~max~:") ++ dec_string n ++ lit "}")
               end, tq)
          end
      end
  | QPopJob =>
      match channel with
      | None => (missing (lit "channel"), tq)
      | Some c =>
          let '(j, tq) := pop c tq in
          (match j with
           | Some j =>
               build_response valid_status valid_name valid_value version 200
                 (lit "application/octet-stream") (payload j)
                 [(lit "X-Task-Id", dec_string (job_id j))]
           | None => respond 204 (lit "text/plain") []
           end, tq)
      end
  | QClearAll =>
      match channel with
      | None => (missing (lit "channel"), tq)
      | Some c =>
          let '(n, tq) := channel_clear c tq in
          (json 200 (q (lit "{~cleared~:") ++ dec_string n ++ lit "}"), tq)
      end
  | QNone => (not_found, tq)
  end.

(** [wait_ms], cut at the configured maximum. *)
Definition task_wait_ms (cfg : AdminConfig) (req : HyperRequest) : Z :=
  Z.min (default 0 (query_u64 req (lit "wait_ms"))) (task_max_wait_ms cfg).

(** ** WebSocket hub *)

Definition upgrade_of (req : HyperRequest) : upgrade_request :=
  {| up_upgrade := header_text req (lit "upgrade");
     up_connection := header_text req (lit "connection");
     up_key := header_text req (lit "sec-websocket-key") |}.

(** The channel and the receiver of the session that is started, if one is. *)
Definition handle_websocket (cfg : AdminConfig) (req : HyperRequest) (clean_path : bytes) (h : WsHub B)
    : Response * option (bytes * nat) * WsHub B :=
  let channel := query req (lit "channel") in
  let sub := default [] (strip_prefix (lit "/_/ws") clean_path) in
  let get := bool_decide (hr_method req = lit "GET") in
  if get && bool_decide (sub = lit "/stats") then
    let s := ws_stats h in
    (json 200 (q (lit "{~channels~:") ++ dec_string (ws_channels s) ++
               q (lit ",~published~:") ++ dec_string (ws_published s) ++
               q (lit ",~subscribed~:") ++ dec_string (ws_subscribed s) ++
               q (lit ",~rejected~:") ++ dec_string (ws_rejected s) ++ lit "}"), None, h)
  else if get && bool_decide (sub = lit "/subscribers") then
    match channel with
    | None => (missing (lit "channel"), None, h)
    | Some c =>
        (json 200 (q (lit "{~subscribers~:") ++ dec_string (Z.of_nat (subscriber_count c h)) ++ lit "}"),
         None, h)
    end
  else if bool_decide (hr_method req = lit "POST") && bool_decide (sub = lit "/publish") then
    match channel with
    | None => (missing (lit "channel"), None, h)
    | Some c =>
        match body_within cfg req (body_limit cfg 1048576) with
        | Err r => (r, None, h)
        | Ok body =>
            let '(n, h) := publish c body h in
            (match n with
             | Some n => json 200 (q (lit "{~delivered~:") ++ dec_string (Z.of_nat n) ++ lit "}")
             | None => json_err 507 (lit "ws channel cap reached")
             end, None, h)
        end
    end
  else if get && negb (bool_decide (sub = [])) && negb (bool_decide (sub = lit "/")) then
    let channel := trim_start_matches x2f sub in
    if bool_decide (channel = []) then (missing (lit "channel in path"), None, h)
    else if bool_decide (channel ∈ [lit "publish"; lit "stats"; lit "subscribers"]) then
      (json_err 404 (lit "not a channel"), None, h)
    else
      let '(r, rx, h) := handle_ws_upgrade sha1_base64 (upgrade_of req) channel h in
      (r, (λ i, (channel, i)) <$> rx, h)
  else (not_found, None, h).

(** ** Asynchronous I/O *)

Definition map_async_err (e : AsyncIoError) : Response :=
  match e with
  | PathNotAllowed => json_err 403 (lit "path not allowed")
  | TooLarge n => json 413 (q (lit "{~error~:~payload too large~,~max~:") ++ dec_string n ++ lit "}")
  | Io kind => json 502 (q (lit "{~error~:~io~,~kind~:~") ++ kind ++ q (lit "~}"))
  | TimerWithoutQueue => json_err 409 (lit "timer requires [task_queue] enabled")
  | DelayTooLong n => json 400 (q (lit "{~error~:~delay too long~,~max_ms~:") ++ dec_string n ++ lit "}")
  end.

Definition handle_async_io (cfg : AdminConfig) (req : HyperRequest) (clean_path : bytes)
    (has_queue : bool) (io : AsyncIo) (fs : FS) : Response * option timer * AsyncIo * FS :=
  let sub := default [] (strip_prefix (lit "/_/async") clean_path) in
  let route m s := bool_decide (hr_method req = lit m) && bool_decide (sub = lit s) in
  if route "GET" "/stats" then
    let s := io_stats io in
    (json 200 (q (lit "{~reads~:") ++ dec_string (as_reads s) ++
               q (lit ",~writes~:") ++ dec_string (as_writes s) ++
               q (lit ",~timers_scheduled~:") ++ dec_string (as_timers_scheduled s) ++
               q (lit ",~timers_fired~:") ++ dec_string (as_timers_fired s) ++
               q (lit ",~allowed_roots~:") ++ dec_string (as_allowed_roots s) ++ lit "}"), None, io, fs)
  else if route "POST" "/read" then
    let offset := default 0 (query_u64 req (lit "offset")) in
    let len := default 0 (query_u64 req (lit "length")) in
    match body_within cfg req 4096 with
    | Err _ => (json_err 400 (lit "invalid request"), None, io, fs)
    | Ok body =>
        if negb (utf8_valid body) then (json_err 400 (lit "non-utf8 path"), None, io, fs)
        else
          let '(r, io) := io_read canonicalize open_read fs (trim body) offset len io in
          (match r with
           | Ok data => respond 200 (lit "application/octet-stream") data
           | Err e => if decide (e = Io (lit "NotFound")) then respond 404 (lit "text/plain") []
                      else map_async_err e
           end, None, io, fs)
    end
  else if route "POST" "/write" then
    match query req (lit "path") with
    | None => (missing (lit "path"), None, io, fs)
    | Some path =>
        let append := from_option (λ v, bool_decide (v = lit "1") || bool_decide (v = lit "true"))
                        false (query req (lit "append")) in
        match body_within cfg req (body_limit cfg 16777216) with
        | Err r => (r, None, io, fs)
        | Ok body =>
            let '(r, io, fs) := io_write canonicalize open_write fs path body append io in
            (match r with
             | Ok n => json 200 (q (lit "{~bytes~:") ++ dec_string n ++ lit "}")
             | Err e => map_async_err e
             end, None, io, fs)
        end
    end
  else if route "POST" "/timer" then
    match query req (lit "channel") with
    | None => (missing (lit "channel"), None, io, fs)
    | Some channel =>
        match query_u64 req (lit "delay_ms") with
        | None => (missing (lit "delay_ms"), None, io, fs)
        | Some delay_ms =>
            match body_within cfg req (body_limit cfg 1048576) with
            | Err r => (r, None, io, fs)
            | Ok body =>
                let '(r, io) := schedule_timer has_queue channel body delay_ms io in
                match r with
                | Ok t => (json 202 (q (lit "{~scheduled~:true}")), Some t, io, fs)
                | Err e => (map_async_err e, None, io, fs)
                end
            end
        end
    end
  else (not_found, None, io, fs).

(** ** What the endpoints share *)

Record shared := {
  sh_metrics : MetricsCollector;
  sh_cache : store;
  sh_security : SecurityLayer (ip := ip);
  sh_table : option SharedTable;
  sh_queue : option TaskQueue;
  sh_hub : option (WsHub B);
  sh_io : option AsyncIo;
  sh_fs : FS;
  sh_timers : list timer;
  sh_sessions : list (bytes * nat) }.

Definition set_cache (c : store) (s : shared) : shared :=
  {| sh_metrics := sh_metrics s; sh_cache := c; sh_security := sh_security s; sh_table := sh_table s;
     sh_queue := sh_queue s; sh_hub := sh_hub s; sh_io := sh_io s; sh_fs := sh_fs s;
     sh_timers := sh_timers s; sh_sessions := sh_sessions s |}.

Definition set_security (l : SecurityLayer (ip := ip)) (s : shared) : shared :=
  {| sh_metrics := sh_metrics s; sh_cache := sh_cache s; sh_security := l; sh_table := sh_table s;
     sh_queue := sh_queue s; sh_hub := sh_hub s; sh_io := sh_io s; sh_fs := sh_fs s;
     sh_timers := sh_timers s; sh_sessions := sh_sessions s |}.

Definition set_table (t : SharedTable) (s : shared) : shared :=
  {| sh_metrics := sh_metrics s; sh_cache := sh_cache s; sh_security := sh_security s; sh_table := Some t;
     sh_queue := sh_queue s; sh_hub := sh_hub s; sh_io := sh_io s; sh_fs := sh_fs s;
     sh_timers := sh_timers s; sh_sessions := sh_sessions s |}.

Definition set_tasks (tq : TaskQueue) (s : shared) : shared :=
  {| sh_metrics := sh_metrics s; sh_cache := sh_cache s; sh_security := sh_security s;
     sh_table := sh_table s; sh_queue := Some tq; sh_hub := sh_hub s; sh_io := sh_io s;
     sh_fs := sh_fs s; sh_timers := sh_timers s; sh_sessions := sh_sessions s |}.

Definition set_hub (h : WsHub B) (started : option (bytes * nat)) (s : shared) : shared :=
  {| sh_metrics := sh_metrics s; sh_cache := sh_cache s; sh_security := sh_security s;
     sh_table := sh_table s; sh_queue := sh_queue s; sh_hub := Some h; sh_io := sh_io s;
     sh_fs := sh_fs s; sh_timers := sh_timers s;
     sh_sessions := sh_sessions s ++ option_list started |}.

Definition set_io (io : AsyncIo) (fs : FS) (started : option timer) (s : shared) : shared :=
  {| sh_metrics := sh_metrics s; sh_cache := sh_cache s; sh_security := sh_security s;
     sh_table := sh_table s; sh_queue := sh_queue s; sh_hub := sh_hub s; sh_io := Some io;
     sh_fs := fs; sh_timers := sh_timers s ++ option_list started; sh_sessions := sh_sessions s |}.

(** ** prometheus.rs *)

Definition prom (name kind help : bytes) (v : Z) : bytes :=
  metric_head name kind help ++ ln (name ++ lit " " ++ dec_string v).

Definition render (s : shared) : bytes :=
  let counter name help v := prom (lit name) (lit "counter") (lit help) v in
  let gauge name help v := prom (lit name) (lit "gauge") (lit help) v in
  gauge "turbine_build_info" "Build/runtime marker (always 1)." 1 ++
  match sh_table s with
  | Some t =>
      gauge "turbine_shared_table_size" "Current number of entries in the shared table." (table_size t) ++
      counter "turbine_shared_table_evictions_total" "Total entries evicted due to capacity/TTL."
        (evictions t)
  | None => []
  end ++
  match sh_queue s with
  | Some tq =>
      let st := TaskQueue.stats tq in
      gauge "turbine_task_queue_channels" "Active channels." (qs_channels st) ++
      counter "turbine_task_queue_pushed_total" "Jobs enqueued since startup." (qs_pushed st) ++
      counter "turbine_task_queue_popped_total" "Jobs consumed since startup." (qs_popped st) ++
      counter "turbine_task_queue_rejected_total" "Jobs rejected (queue full / channel cap)."
        (qs_rejected st)
  | None => []
  end ++
  match sh_hub s with
  | Some h =>
      let st := ws_stats h in
      gauge "turbine_ws_channels" "Active websocket channels." (ws_channels st) ++
      counter "turbine_ws_published_total" "Messages published to websocket channels."
        (ws_published st) ++
      counter "turbine_ws_subscribed_total" "Websocket subscribe events since startup."
        (ws_subscribed st) ++
      counter "turbine_ws_rejected_total" "Websocket subscribe/publish rejections." (ws_rejected st)
  | None => []
  end ++
  match sh_io s with
  | Some io =>
      let st := io_stats io in
      counter "turbine_async_reads_total" "Async file reads completed." (as_reads st) ++
      counter "turbine_async_writes_total" "Async file writes completed." (as_writes st) ++
      counter "turbine_async_timers_scheduled_total" "Timers scheduled." (as_timers_scheduled st) ++
      counter "turbine_async_timers_fired_total" "Timers that fired and enqueued a task."
        (as_timers_fired st) ++
      gauge "turbine_async_allowed_roots" "Number of configured async I/O roots." (as_allowed_roots st)
  | None => []
  end.

Definition handle_metrics (s : shared) : Response :=
  respond 200 (lit "text/plain; version=0.0.4; charset=utf-8") (render s).

(** ** The dispatch of main.rs *)

Definition dashboard_html (listen : bytes) (auth_required : bool) : bytes :=
  replace (lit "%%AUTH_REQUIRED%%") (if auth_required then lit "true" else lit "false")
    (replace (lit "%%LISTEN%%") listen template).

(** [Authorization: Bearer <token>], when a token is configured. *)
Definition authorized (cfg : AdminConfig) (req : HyperRequest) : bool :=
  match dashboard_token cfg with
  | None => true
  | Some expected =>
      match header_text req (lit "authorization") ≫= strip_prefix (lit "Bearer ") with
      | Some t => bool_decide (t = expected)
      | None => false
      end
  end.

Definition blocked_json (now : Z) (g : BehaviourGuard ip) : bytes :=
  let blocked := blocked_ips now g in
  let entry (e : ip * option Z) :=
    q (lit "{~ip~:~") ++ show_ip e.1 ++ q (lit "~,~expires_in_secs~:") ++
    match e.2 with Some s => dec_string s | None => lit "null" end ++ lit "}" in
  q (lit "{~blocked~:[") ++ RustStr.join x2c (entry <$> blocked) ++
  q (lit "],~count~:") ++ dec_string (zlen blocked) ++ lit "}".

Definition handle_unblock (cfg : AdminConfig) (req : HyperRequest) (g : BehaviourGuard ip)
    : Response * BehaviourGuard ip :=
  match body_within cfg req 8192 with
  | Err r => (r, g)
  | Ok body =>
      match parse_ip (json_ip (from_utf8_lossy body)) with
      | None => (json_err 400 (lit "invalid IP address"), g)
      | Some a =>
          let '(found, g) := unblock_ip a g in
          (if found then json 200 (q (lit "{~unblocked~:true,~ip~:~") ++ show_ip a ++ q (lit "~}"))
           else json 200 (q (lit "{~unblocked~:false,~ip~:~") ++ show_ip a ++
                          q (lit "~,~note~:~IP was not blocked~}")), g)
      end
  end.

(** The endpoints of the features that are enabled. *)
Definition feature_endpoint (cfg : AdminConfig) (now : Z) (req : HyperRequest) (clean_path : bytes)
    (s : shared) : Response * shared :=
  let below p := starts_with (lit p) clean_path in
  match sh_table s, below "/_/table" with
  | Some t, true => let '(r, t) := handle_shared_table cfg now req clean_path t in (r, set_table t s)
  | _, _ => match sh_queue s, below "/_/task" with
  | Some tq, true => let '(r, tq) := handle_task_queue cfg now req clean_path tq in (r, set_tasks tq s)
  | _, _ => match sh_hub s, below "/_/ws" with
  | Some h, true => let '(r, started, h) := handle_websocket cfg req clean_path h in (r, set_hub h started s)
  | _, _ => match sh_io s, below "/_/async" with
  | Some io, true =>
      let '(r, started, io, fs) :=
        handle_async_io cfg req clean_path (bool_decide (is_Some (sh_queue s))) io (sh_fs s) in
      (r, set_io io fs started s)
  | _, _ => if bool_decide (clean_path = lit "/_/metrics") then (handle_metrics s, s) else (not_found, s)
  end end end end.

(** The requests below [/_/]; [None] for any other path. *)
Definition handle_internal (cfg : AdminConfig) (now : Z) (req : HyperRequest) (s : shared)
    : option (Response * shared) :=
  let clean_path := default (hr_path req) (head (split x3f (hr_path req))) in
  let path_is p := bool_decide (clean_path = lit p) in
  let below p := starts_with (lit p) clean_path in
  let is_method m := bool_decide (hr_method req = lit m) in
  if negb (below "/_/") then None
  else Some (
    if path_is "/_/dashboard" && dashboard_enabled cfg then
      (respond 200 (lit "text/html; charset=utf-8")
         (dashboard_html (ac_listen cfg) (bool_decide (is_Some (dashboard_token cfg)))), s)
    else if negb (authorized cfg req) then
      (json 401 (q (lit "{~error~: ~Unauthorized~}")), s)
    else if path_is "/_/metrics" && statistics_enabled cfg then
      (respond 200 (lit "text/plain; version=0.0.4") (prometheus show_f64 now (sh_metrics s)), s)
    else if path_is "/_/status" && statistics_enabled cfg then
      (json 200 (status_json iter now (worker_count cfg) (sh_metrics s)), s)
    else if path_is "/_/cache/clear" then
      (json 200 (q (lit "{~cleared~: ") ++ dec_string (cache_len (sh_cache s)) ++ lit "}"),
       set_cache (cache_clear (sh_cache s)) s)
    else if path_is "/_/security/blocked" && is_method "GET" then
      (json 200 (blocked_json now (sl_behaviour (sh_security s))), s)
    else if path_is "/_/security/unblock" && is_method "POST" then
      let '(r, g) := handle_unblock cfg req (sl_behaviour (sh_security s)) in
      (r, set_security (set_behaviour g (sh_security s)) s)
    else feature_endpoint cfg now req clean_path s).
End admin.

(** ** Properties *)

Section properties.
Context {B : Type} `{Broadcast B}.
Context {ip : Type} `{Countable ip}.
Context {FS : Type}.
Context (valid_status : Z → bool) (valid_name valid_value : bytes → bool) (version : bytes).
Context (to_lowercase : bytes → bytes) (parse_boundary : bytes → option bytes)
  (parts : bytes → bytes → list multipart_event) (write_ok : bytes → bool) (pid : Z).
Context (sha1_base64 : bytes → bytes).
Context (parse_ip : bytes → option ip) (show_ip : ip → bytes).
Context (canonicalize : FS → bytes → option bytes) (open_read : FS → bytes → result bytes bytes)
  (open_write : FS → bytes → bool → bytes → result FS bytes).
Context (show_f64 : f64 → bytes)
  (iter : gmap bytes EndpointMetrics → list (bytes * EndpointMetrics)) (template : bytes).

(** C10: with a token configured, the endpoints below [/_/] do nothing without it. A request whose
    Authorization header is not exactly the bearer token gets 401, or the page of the dashboard
    when it asks for that, and leaves the table, the queue, the hub, the files, the cache, the
    timers and the blocked addresses as they were. *)
Theorem internal_requires_token (cfg : AdminConfig) (now : Z) (req : HyperRequest)
    (s s' : shared) (r : Response) (token : bytes) :
  dashboard_token cfg = Some token →
  header_text req (lit "authorization") ≠ Some (lit "Bearer " ++ token) →
  handle_internal valid_status valid_name valid_value version to_lowercase parse_boundary parts
    write_ok pid sha1_base64 parse_ip show_ip canonicalize open_read open_write show_f64 iter
    template cfg now req s = Some (r, s') →
  s' = s ∧
  (r = json valid_status valid_name valid_value version 401 (q (lit "{~error~: ~Unauthorized~}")) ∨
   dashboard_enabled cfg = true ∧
   r = respond valid_status valid_name valid_value version 200 (lit "text/html; charset=utf-8")
         (dashboard_html template (ac_listen cfg) true)).
Proof.
  intros Htok Hne. unfold handle_internal.
  assert (authorized cfg req = false) as ->.
  { unfold authorized. rewrite Htok. destruct (header_text req _) as [v|]; [|done]. simpl.
    unfold strip_prefix. destruct (starts_with (lit "Bearer ") v) eqn:E; [|done].
    apply Is_true_true, starts_with_spec in E as [k ->].
    apply bool_decide_eq_false_2. intros Hk. apply Hne. f_equal. by rewrite <-Hk. }
  cbn [negb]. set (clean := default _ _). case_match; [done|].
  destruct (bool_decide (clean = lit "/_/dashboard") && dashboard_enabled cfg) eqn:Ed; intros [= <- <-].
  - apply andb_true_iff in Ed as [_ Ed]. rewrite Htok. auto.
  - auto.
Qed.

(** a value that is stored over HTTP is what a later request reads. After a POST to
    [/_/table/set] with a key, within the limits and with a place in the table, the answer is
    204, and a GET of that key before the time to live is over answers 200 with exactly the
    body that was sent; afterwards it answers 404. *)
Theorem table_http_roundtrip (cfg : AdminConfig) (now later : Z) (post gt : HyperRequest)
    (key body : bytes) (t : SharedTable) :
  hr_method post = lit "POST" → hr_method gt = lit "GET" →
  query post (lit "key") = Some key → query gt (lit "key") = Some key →
  body_within valid_status valid_name valid_value version to_lowercase parse_boundary parts write_ok
    pid cfg post (body_limit cfg 1048576) = Ok body →
  at_capacity t = false ∨ is_Some (tbl_map t !! key) →
  let ttl_ms := default 0 (query_u64 post (lit "ttl_ms")) in
  let table := handle_shared_table valid_status valid_name valid_value version to_lowercase
                 parse_boundary parts write_ok pid cfg in
  let stored := table now post (lit "/_/table/set") t in
  let read := (table later gt (lit "/_/table/get") stored.2).1 in
  stored.1 = respond valid_status valid_name valid_value version 204 (lit "text/plain") [] ∧
  read = if (0 <? ttl_ms) && (now + ttl_ms * 10 ^ 6 <=? later)
         then respond valid_status valid_name valid_value version 404 (lit "text/plain") []
         else respond valid_status valid_name valid_value version 200
                (lit "application/octet-stream") body.
Proof.
  intros Hpost Hget Hkp Hkg Hbody Hcap ttl_ms table stored read.
  set (deadline := Z.add now <$> (if 0 <? ttl_ms then Some (ttl_ms * 10 ^ 6) else None)).
  assert (Hset : SharedTable.set now key body (if 0 <? ttl_ms then Some (ttl_ms * 10 ^ 6) else None) t =
    (Ok tt, insert_new key body deadline t)).
  { unfold SharedTable.set, set_existing. destruct (tbl_map t !! key) eqn:E; [done|].
    destruct Hcap as [->|[e He]]; [done|congruence]. }
  assert (Hst : stored = (respond valid_status valid_name valid_value version 204 (lit "text/plain") [],
                          insert_new key body deadline t)).
  { unfold stored, table, handle_shared_table. rewrite Hpost, Hkp.
    change (route_table (lit "POST") _) with TSet. cbn match beta. rewrite Hbody. cbn match beta.
    fold ttl_ms. by rewrite Hset. }
  unfold read. rewrite Hst. split; [done|]. cbn [snd].
  unfold table, handle_shared_table. rewrite Hget, Hkg.
  change (route_table (lit "GET") _) with TGet. cbn match beta.
  unfold SharedTable.get, insert_new. cbn [tbl_map with_map]. rewrite lookup_insert_eq.
  unfold is_expired. cbn [expires_at value]. subst deadline.
  destruct (0 <? ttl_ms); cbn [fmap option_fmap option_map andb]; [|done].
  by destruct (now + ttl_ms * 10 ^ 6 <=? later).
Qed.
End properties.

(** ** Examples *)

Definition ex_admin (token : option bytes) : AdminConfig :=
  {| ac_listen := lit "127.0.0.1:8080"; dashboard_enabled := true; dashboard_token := token;
     statistics_enabled := true; worker_count := 4; max_body_bytes := None;
     task_max_wait_ms := 30000; upload_tmp_dir := lit "/tmp"; upload_security := default_upload_security |}.

Definition ex_req (method path qs : bytes) (headers : list (bytes * option bytes)) (body : bytes)
    : HyperRequest :=
  {| hr_method := method; hr_path := path; hr_query := Some qs; hr_version := lit "HTTP/1.1";
     hr_headers := headers; hr_frames := [FData body] |}.

Definition ex_shared (table : option SharedTable) (hub : option (WsHub simple_broadcast))
    : shared (B := simple_broadcast) (ip := bytes) (FS := gmap bytes node) :=
  {| sh_metrics := collector_new 0; sh_cache := ∅; sh_security := with_config default_security;
     sh_table := table; sh_queue := None; sh_hub := hub; sh_io := None; sh_fs := ∅;
     sh_timers := []; sh_sessions := [] |}.

Definition ex_internal (cfg : AdminConfig) (req : HyperRequest)
    (s : shared (B := simple_broadcast) (ip := bytes) (FS := gmap bytes node)) :=
  handle_internal (λ _, true) (λ _, true) (λ _, true) (lit "1") id (λ _, None) (λ _ _, [])
    (λ _, true) 1 id Some id fs_canonicalize fs_read fs_write (λ _, lit "0") map_to_list
    (lit "<p>%%LISTEN%%</p>") cfg 5 req s.

Lemma internal_requires_token_witness :
  let cfg := ex_admin (Some (lit "secret")) in
  let req := ex_req (lit "POST") (lit "/_/cache/clear") [] [(lit "authorization", Some (lit "Bearer secre"))] [] in
  let s := ex_shared None None in
  let r := json (λ _, true) (λ _, true) (λ _, true) (lit "1") 401 (q (lit "{~error~: ~Unauthorized~}")) in
  s = s ∧ (r = json (λ _, true) (λ _, true) (λ _, true) (lit "1") 401
                 (q (lit "{~error~: ~Unauthorized~}")) ∨
    dashboard_enabled cfg = true ∧
    r = respond (λ _, true) (λ _, true) (λ _, true) (lit "1") 200 (lit "text/html; charset=utf-8")
          (dashboard_html (lit "<p>%%LISTEN%%</p>") (ac_listen cfg) true)).
Proof.
  intros cfg req s r.
  apply (internal_requires_token (λ _, true) (λ _, true) (λ _, true) (lit "1") id (λ _, None)
    (λ _ _, []) (λ _, true) 1 id Some id fs_canonicalize fs_read fs_write (λ _, lit "0") map_to_list
    (lit "<p>%%LISTEN%%</p>") cfg 5 req s s r (lit "secret")); [done|by vm_compute|reflexivity].
Defined.

Lemma table_http_roundtrip_witness :
  let table := handle_shared_table (λ _, true) (λ _, true) (λ _, true) (lit "1") id (λ _, None)
                 (λ _ _, []) (λ _, true) 1 (ex_admin None) in
  let stored := table 1000 (ex_req (lit "POST") (lit "/_/table/set") (lit "key=a&ttl_ms=5") []
                              (lit "hello")) (lit "/_/table/set") (table_new 8) in
  (table 1001 (ex_req (lit "GET") (lit "/_/table/get") (lit "key=a") [] []) (lit "/_/table/get")
     stored.2).1 =
  respond (λ _, true) (λ _, true) (λ _, true) (lit "1") 200 (lit "application/octet-stream") (lit "hello").
Proof.
  intros table stored.
  apply (table_http_roundtrip (λ _, true) (λ _, true) (λ _, true) (lit "1") id (λ _, None)
    (λ _ _, []) (λ _, true) 1 (ex_admin None) 1000 1001
    (ex_req (lit "POST") (lit "/_/table/set") (lit "key=a&ttl_ms=5") [] (lit "hello"))
    (ex_req (lit "GET") (lit "/_/table/get") (lit "key=a") [] []) (lit "a") (lit "hello") (table_new 8));
    [reflexivity..|by left].
Defined.

(** A subscriber of [/_/ws/chat:1] gets nothing of what a script publishes to the
    channel [chat:1]: the helper encodes the name, and nobody decodes it. *)
Example ws_encoded_channel_missed :
  let ws := [(lit "upgrade", Some (lit "websocket")); (lit "connection", Some (lit "Upgrade"));
             (lit "sec-websocket-key", Some (lit "k"))] in
  let handle := handle_websocket (λ _, true) (λ _, true) (λ _, true) (lit "1") id (λ _, None)
                  (λ _ _, []) (λ _, true) 1 id (ex_admin None) in
  let '(r1, _, h) := handle (ex_req (lit "GET") (lit "/_/ws/chat:1") [] ws []) (lit "/_/ws/chat:1")
                       (hub_new (B := simple_broadcast) default_ws_config) in
  let '(r2, _, h) := handle (ex_req (lit "POST") (lit "/_/ws/publish")
                               (lit "channel=" ++ url_encode (lit "chat:1")) [] (lit "hi"))
                       (lit "/_/ws/publish") h in
  rs_status r1 = 101 ∧ rs_body r2 = Http.Full (q (lit "{~delivered~:0}")) ∧
  bc_sent <$> hub_channels h !! lit "chat:1" = Some [].
Proof. by vm_compute. Qed.

(** With the statistics enabled, as they are by default, [/_/metrics] never shows the
    table, the queue, the hub or asynchronous I/O. *)
Example metrics_shadowed :
  let req := ex_req (lit "GET") (lit "/_/metrics") [] [] [] in
  fst <$> ex_internal (ex_admin None) req (ex_shared (Some (table_new 8)) None) =
  fst <$> ex_internal (ex_admin None) req (ex_shared None None).
Proof. reflexivity. Qed.
