(* ===== verification/Bootstrap.v ===== *)
(** * The bootstrap of an application (turbine-core/src/compat.rs, [php_bootstrap_code])

    The PHP text that runs before the script of a request: it enters the document
    root, reads the file .env beside it and loads the classes of the application. The
    text is correct when PHP reads the paths in it as literals of those paths. What
    the loop over .env does to a file is modelled on its own. *)

From S2P Require Import Prelude RustStr PathGuard AsyncIo Compat PhpCode.

(** ** The text *)

Definition literal (v : bytes) : bytes := [quote] ++ escape_php v ++ [quote].

(** The loop over the lines, without the two names of the file. *)
Definition env_loop : bytes := q (lit
  ", FILE_IGNORE_NEW_LINES | FILE_SKIP_EMPTY_LINES); foreach ($__env_lines as $__line) { if (str_starts_with(trim($__line), '#')) continue; if (!str_contains($__line, '=')) continue; [$__key, $__val] = explode('=', $__line, 2); $__key = trim($__key); $__val = trim($__val, ~ \t\n\r\0\x0B\~\'~); $_ENV[$__key] = $__val; $_SERVER[$__key] = $__val; if (function_exists('putenv')) putenv(~$__key=$__val~); } unset($__env_lines, $__line, $__key, $__val); } ").

Definition php_bootstrap_code (app : AppStructure) : bytes :=
  lit "chdir(" ++ literal (document_root app) ++ lit "); " ++
  (if has_env app then
     let env_path := escape_php (default (document_root app) (path_parent (document_root app))) in
     lit "if (file_exists('" ++ env_path ++ lit "/.env')) { $__env_lines = file('" ++ env_path ++
     lit "/.env'" ++ env_loop
   else []) ++
  match autoload_path app with
  | Some autoload => lit "require_once " ++ literal autoload ++ lit "; "
  | None => []
  end.

(** ** How PHP reads it *)

(** As in PhpCode, but text between double quotes is code, whatever quotes it has: a
    backslash takes the next character with it. *)
Inductive mode := Outside | Inside | Escaped.

Definition next_mode (m : mode) (c : byte) : mode :=
  match m with
  | Outside => if decide (c = x22) then Inside else Outside
  | Inside => if decide (c = backslash) then Escaped
              else if decide (c = x22) then Outside else Inside
  | Escaped => Inside
  end.

Definition opens (m : mode) (c : byte) : bool :=
  match m with Outside => bool_decide (c = quote) | _ => false end.

Fixpoint scan_php (fuel : nat) (m : mode) (code s : bytes) : option (list token) :=
  match s with
  | [] => match m with Outside => Some (flush code) | _ => None end
  | c :: s' =>
      match fuel with
      | O => None
      | S fuel' =>
          if opens m c then
            '(v, rest) ← scan_literal s';
            ts ← scan_php fuel' Outside [] rest; Some (flush code ++ Str v :: ts)
          else scan_php fuel' (next_mode m c) (code ++ [c]) s'
      end
  end.

Definition php_text (s : bytes) : option (list token) := scan_php (length s) Outside [] s.

Example php_text_ex : php_text (q (lit "f('a', ~it's~);")) =
  Some [Code (lit "f("); Str (lit "a"); Code (q (lit ", ~it's~);"))].
Proof. by vm_compute. Qed.

(** Code that has no literal and ends outside of double quotes. *)
Fixpoint closed (m : mode) (c : bytes) : bool :=
  match c with
  | [] => match m with Outside => true | _ => false end
  | x :: c => negb (opens m x) && closed (next_mode m x) c
  end.

Definition closed_code (t : token) : bool := match t with Code c => closed Outside c | Str _ => true end.

Lemma scan_php_code fuel m code c s : closed m c = true → (length c ≤ fuel)%nat →
  scan_php fuel m code (c ++ s) = scan_php (fuel - length c) Outside (code ++ c) s.
Proof.
  revert fuel m code. induction c as [|x c IH]; intros fuel m code Hc Hf; simpl in *.
  { destruct m; [|done..]. by rewrite app_nil_r, Nat.sub_0_r. }
  apply andb_true_iff in Hc as [Ho%negb_true_iff Hc]. destruct fuel as [|fuel]; [lia|]. simpl.
  rewrite Ho, IH by (done || lia). by rewrite <-(assoc_L app).
Qed.

Lemma scan_php_render ts fuel code : forallb closed_code ts = true → (length (render ts) ≤ fuel)%nat →
  scan_php fuel Outside code (render ts) = Some (merge code ts).
Proof.
  revert fuel code. induction ts as [|t ts IH]; intros fuel code Ht Hf; [by destruct fuel|].
  simpl in Ht. apply andb_true_iff in Ht as [Ht Hts].
  unfold render in Hf |- *. rewrite bind_cons in Hf |- *. fold (render ts) in Hf |- *.
  rewrite length_app in Hf. destruct t as [c|v]; simpl in *.
  - rewrite scan_php_code by (done || lia). apply IH; [done|lia].
  - destruct fuel as [|fuel]; [lia|]. rewrite length_app in Hf. simpl in *.
    rewrite <-(assoc_L app). simpl. rewrite scan_literal_escape. simpl.
    by rewrite IH by (done || lia).
Qed.

(** The loop as tokens. *)
Definition env_loop_tokens : list token := default [] (php_text env_loop).

Definition bootstrap_tokens (app : AppStructure) : list token :=
  let env := default (document_root app) (path_parent (document_root app)) ++ lit "/.env" in
  [Code (lit "chdir("); Str (document_root app); Code (lit "); ")] ++
  (if has_env app then
     [Code (lit "if (file_exists("); Str env; Code (lit ")) { $__env_lines = file("); Str env] ++
     env_loop_tokens
   else []) ++
  match autoload_path app with
  | Some autoload => [Code (lit "require_once "); Str autoload; Code (lit "; ")]
  | None => []
  end.

Lemma env_loop_render : env_loop = render env_loop_tokens ∧ forallb closed_code env_loop_tokens = true.
Proof. by vm_compute. Qed.

Lemma render_code c ts : render (Code c :: ts) = c ++ render ts.
Proof. done. Qed.

Lemma render_str v ts : render (Str v :: ts) = literal v ++ render ts.
Proof. done. Qed.

Lemma render_nil : render [] = [].
Proof. done. Qed.

Lemma bootstrap_render a : php_bootstrap_code a = render (bootstrap_tokens a).
Proof.
  unfold php_bootstrap_code, bootstrap_tokens. rewrite !render_app.
  assert (inert (lit "/.env")) as Hi by (apply (bool_decide_unpack _); by vm_compute).
  rewrite !(assoc_L (++)). f_equal; [f_equal|].
  - destruct (has_env a); [|done]. rewrite render_app, <-(proj1 env_loop_render).
    rewrite render_code, render_str, render_code, render_str, render_nil. unfold literal.
    rewrite !escape_app, (escape_inert (lit "/.env")) by done.
    rewrite <-!(assoc_L (++)). reflexivity.
  - destruct (autoload_path a); [|done].
    by rewrite render_code, render_str, render_code, render_nil, app_nil_r, (assoc_L (++)).
Qed.

(** Whatever the directories of an application are called, PHP reads the bootstrap as the
    intended calls: every path is a literal of exactly that path, and nothing of a path is
    code. *)
Theorem bootstrap_not_injectable (a : AppStructure) :
  php_text (php_bootstrap_code a) = Some (merge [] (bootstrap_tokens a)).
Proof.
  rewrite bootstrap_render. apply scan_php_render; [|done].
  unfold bootstrap_tokens. rewrite !forallb_app, !andb_true_iff. split_and!; [done| |].
  - destruct (has_env a); [|done]. rewrite forallb_app. by rewrite (proj2 env_loop_render).
  - by destruct (autoload_path a).
Qed.

(** ** The loop over .env *)

(** PHP's [trim] with the characters it takes off. *)
Fixpoint ltrim (cs s : bytes) : bytes :=
  match s with
  | x :: s' => if decide (x ∈ cs) then ltrim cs s' else s
  | [] => []
  end.

Definition php_trim (cs s : bytes) : bytes := reverse (ltrim cs (reverse (ltrim cs s))).

(** The default of [trim], and the second argument of the loop: between double quotes the
    backslash before the single quote stays, and is taken off, too. *)
Definition trim_default : bytes := [x20; x0a; x0d; x09; x0b; x00].

Definition trim_value : bytes := [x20; x09; x0a; x0d; x00; x0b; x22; x5c; x27].

(** [file] with lines that lose their end and empty ones left out. *)
Definition env_lines (content : bytes) : list bytes :=
  List.filter (λ l, negb (bool_decide (l = []))) (split x0a content).

Definition env_entry (line : bytes) : option (bytes * bytes) :=
  if starts_with [x23] (php_trim trim_default line) then None
  else '(k, v) ← split_once x3d line; Some (php_trim trim_default k, php_trim trim_value v).

(** What [$_ENV] and [$_SERVER] get, later lines over earlier ones. *)
Definition load_env (content : bytes) (env : gmap bytes bytes) : gmap bytes bytes :=
  foldl (λ m p, <[p.1 := p.2]> m) env (omap env_entry (env_lines content)).

Example load_env_ex :
  let env := load_env (lit "# comment" ++ [x0a; x0a] ++ lit "A = 1 " ++ [x0d; x0a] ++ q (lit "B=~two words~") ++
                       [x0a] ++ lit "no value" ++ [x0a] ++ lit "A=x=y") ∅ in
  env !! lit "A" = Some (lit "x=y") ∧ env !! lit "B" = Some (lit "two words") ∧ size env = 2%nat.
Proof. by vm_compute. Qed.

(** Comments after a value and the word [export] are not known, and a backslash at the end of a
    value is lost. *)
Example env_unusual :
  let env := load_env (lit "export A=1" ++ [x0a] ++ q (lit "B=~two~ # why") ++ [x0a] ++ lit "C=D:\tmp\") ∅ in
  env !! lit "A" = None ∧ env !! lit "export A" = Some (lit "1") ∧
  env !! lit "B" = Some (q (lit "two~ # why")) ∧ env !! lit "C" = Some (lit "D:\tmp").
Proof. by vm_compute. Qed.

(** Text that trimming leaves alone. *)
Definition trimmed (cs s : bytes) : Prop :=
  (∀ x, head s = Some x → x ∉ cs) ∧ (∀ x, last s = Some x → x ∉ cs).

Lemma ltrim_head cs s : (∀ x, head s = Some x → x ∉ cs) → ltrim cs s = s.
Proof. destruct s as [|x s]; [done|]. intros H. simpl. by rewrite decide_False by (by apply H). Qed.

Lemma php_trim_id cs s : trimmed cs s → php_trim cs s = s.
Proof.
  intros [Hh Hl]. unfold php_trim. rewrite (ltrim_head cs s) by done.
  rewrite ltrim_head; [by rewrite reverse_involutive|]. intros x. by rewrite head_reverse; apply Hl.
Qed.

Lemma ltrim_cons cs x s : x ∈ cs → ltrim cs (x :: s) = ltrim cs s.
Proof. intros H. simpl. by rewrite decide_True. Qed.

Lemma php_trim_wrapped cs a s b : a ∈ cs → b ∈ cs → trimmed cs s → php_trim cs (a :: s ++ [b]) = s.
Proof.
  intros Ha Hb Hs. unfold php_trim. rewrite ltrim_cons by done.
  destruct s as [|x s].
  { simpl. by rewrite decide_True. }
  destruct Hs as [Hh Hl]. rewrite (ltrim_head cs ((x :: s) ++ [b])) by (intros y [= <-]; by apply Hh).
  rewrite reverse_snoc, ltrim_cons by done.
  rewrite ltrim_head; [by rewrite reverse_involutive|]. intros y. rewrite head_reverse. apply Hl.
Qed.

(** A line [KEY="value"], as tools write them. *)
Definition env_line (p : bytes * bytes) : bytes := p.1 ++ [x3d; x22] ++ p.2 ++ [x22].

Definition env_ok (p : bytes * bytes) : Prop :=
  p.1 ≠ [] ∧ (x3d ∉ p.1) ∧ (x0a ∉ p.1) ∧ (x0a ∉ p.2) ∧ head p.1 ≠ Some x23 ∧
  trimmed trim_default p.1 ∧ trimmed trim_value p.2.

Lemma starts_hash l : starts_with [x23] l = bool_decide (head l = Some x23).
Proof.
  unfold starts_with. destruct l as [|x l]; [done|]. simpl. rewrite take_0.
  apply bool_decide_ext. split; congruence.
Qed.

Lemma php_trim_head cs x s : x ∉ cs → head (php_trim cs (x :: s)) = Some x.
Proof.
  intros Hx. unfold php_trim. simpl. rewrite decide_False by done. rewrite reverse_cons.
  assert (∀ r, ∃ r', ltrim cs (r ++ [x]) = r' ++ [x]) as Ht.
  { induction r as [|y r [r' IH]]; simpl; [exists []; by rewrite decide_False|].
    case_decide; [by exists r'|by exists (y :: r)]. }
  destruct (Ht (reverse s)) as [r' ->]. by rewrite reverse_snoc.
Qed.

Lemma env_entry_line p : env_ok p → env_entry (env_line p) = Some p.
Proof.
  destruct p as [k v]. intros (Hne & Heq & _ & _ & Hh & Hk & Hv). simpl in *. unfold env_entry, env_line. simpl.
  destruct k as [|x k]; [done|]. simpl app.
  rewrite starts_hash, php_trim_head by (destruct Hk as [Hk _]; by apply Hk).
  rewrite bool_decide_eq_false_2 by done.
  change (x :: k ++ x3d :: x22 :: v ++ [x22]) with ((x :: k) ++ x3d :: (x22 :: v ++ [x22])).
  rewrite split_once_fst by done. simpl.
  rewrite php_trim_id, php_trim_wrapped; [done|apply (bool_decide_unpack _); by vm_compute..|done|done].
Qed.

(** Values in double quotes arrive as they are: a file of such lines, for any names and for any
    values whose ends are neither white space nor quotes nor backslashes, sets exactly those
    variables, the last line of a name deciding. *)
Theorem env_roundtrip (ps : list (bytes * bytes)) (env : gmap bytes bytes) :
  ps ≠ [] → Forall env_ok ps →
  load_env (RustStr.join x0a (env_line <$> ps)) env = foldl (λ m p, <[p.1 := p.2]> m) env ps.
Proof.
  intros Hne Hok. unfold load_env, env_lines. rewrite split_join.
  - f_equal. clear Hne. induction Hok as [|p ps Hp Hps IH]; [done|]. csimpl.
    rewrite bool_decide_eq_false_2 by (destruct p as [[|? ?] ?]; done). csimpl.
    by rewrite (env_entry_line p Hp), IH.
  - by destruct ps.
  - apply Forall_fmap. eapply Forall_impl; [exact Hok|].
    intros [k v] (_ & _ & Hk & Hv & _). unfold env_line. simpl in *.
    rewrite not_elem_of_app, !not_elem_of_cons, not_elem_of_app, list_elem_of_singleton. by split_and!.
Qed.

Lemma env_roundtrip_witness :
  load_env (q (lit "APP_KEY=~base64:a=b~")) ∅ = {[ lit "APP_KEY" := lit "base64:a=b" ]}.
Proof.
  apply (env_roundtrip [(lit "APP_KEY", lit "base64:a=b")] ∅); [done|]. constructor; [|constructor].
  unfold env_ok, trimmed. split_and!; try done;
    try (apply (bool_decide_unpack _); by vm_compute); intros x [= <-];
    apply (bool_decide_unpack _); by vm_compute.
Defined.
