(* ===== verification/PhpHelpers.v ===== *)
(** * The functions for scripts (the PHP text of turbine-core/src/features.rs)

    The helper functions that are put in front of a script: the shared table, the
    task queue, the WebSocket hub and asynchronous I/O, over HTTP to the endpoints
    of Admin. A helper builds a request for curl, sends it and reads the answer
    with a status code or a regular expression. [send] is the server, with its
    state: it gives the response, or [None] when curl fails. *)

From S2P Require Import Prelude RustStr Utf8 Http Compat.
From S2P Require Import F64 SharedTable TaskQueue WsHub AsyncIo Metrics ResponseCache BehaviourGuard Security.
From S2P Require Import PathGuard Admin.

(** ** PHP and curl *)

(** [rawurlencode]: every byte that is not unreserved is written in hexadecimal. *)
Definition rawurlencode : bytes → bytes := url_encode.

(** [getenv('TURBINE_TOKEN') ?: '']; the string [0] is false, too. *)
Definition turbine_token (env : option bytes) : bytes :=
  match env with
  | Some t => if bool_decide (t = lit "0") then [] else t
  | None => []
  end.

(** [(int)] of a string of digits, with its sign: it saturates. *)
Definition digits_value (s : bytes) : Z := foldl (λ a x, a * 10 + (u8 x - 48)) 0 s.

Definition php_int (v : Z) : Z := Z.max (- 2 ^ 63) (Z.min (2 ^ 63 - 1) v).

(** The digits a string begins with, [\d*]. *)
Fixpoint digits_prefix (s : bytes) : bytes :=
  match s with
  | x :: s' => match digit x with Some _ => x :: digits_prefix s' | None => [] end
  | [] => []
  end.

(** [(-?\d+)], or [(\d+)], at the start of a string. *)
Definition match_int (signed : bool) (s : bytes) : option Z :=
  let '(neg, t) := match s with
                   | x2d :: s' => if signed then (true, s') else (false, s)
                   | _ => (false, s)
                   end in
  match digits_prefix t with
  | [] => None
  | ds => Some (php_int (if neg : bool then - digits_value ds else digits_value ds))
  end.

(** [preg_match('/"name":(-?\d+)/', $body, $m) ? (int)$m[1] : ...] *)
Fixpoint preg_int (name : bytes) (signed : bool) (s : bytes) : option Z :=
  match strip_prefix (x22 :: name ++ [x22; x3a]) s ≫= match_int signed with
  | Some v => Some v
  | None => match s with [] => None | _ :: s' => preg_int name signed s' end
  end.

Example preg_ex :
  preg_int (lit "value") true (q (lit "{~value~:-17}")) = Some (-17) ∧
  preg_int (lit "id") false (q (lit "{~id~:18446744073709551615}")) = Some (2 ^ 63 - 1) ∧
  preg_int (lit "id") false (q (lit "{~id~:-1}")) = None.
Proof. by vm_compute. Qed.

(** The request curl makes of a path with its query, and what it declares. *)
Definition curl (token method tgt : bytes) (content_type : option bytes) (body : option bytes)
    : HyperRequest :=
  let '(path, qs) := match split_once x3f tgt with
                     | Some (p, q) => (p, Some q)
                     | None => (tgt, None)
                     end in
  {| hr_method := method; hr_path := path; hr_query := qs; hr_version := lit "HTTP/1.1";
     hr_headers :=
       option_list ((λ c, (lit "content-type", Some c)) <$> content_type) ++
       (if bool_decide (token = []) then [] else [(lit "authorization", Some (lit "Bearer " ++ token))]) ++
       option_list ((λ b, (lit "content-length", Some (dec_string (zlen b)))) <$> body);
     hr_frames := option_list (FData <$> body) |}.

Definition octets : option bytes := Some (lit "application/octet-stream").

(** The status and the body that curl gives, when it does not fail. *)
Definition curl_code (r : option Response) : Z := from_option rs_status 0 r.

Definition curl_body (r : option Response) : option bytes := r ≫= λ r, collect (rs_body r).

(** The lines of the head of a response, as [explode] cuts them. *)
Definition header_lines (r : Response) : list bytes :=
  (lit "HTTP/1.1 " ++ dec_string (rs_status r)) ::
  (map_to_list (rs_headers r) ≫= λ '(n, vs), (λ v, n ++ lit ": " ++ v) <$> vs).

Section helpers.
Context {St : Type} (send : HyperRequest → St → option Response * St) (token : bytes).

(** ** Shared table *)

Definition turbine_table_request (method path : bytes) (body : option bytes) (s : St)
    : Z * bytes * St :=
  let '(r, s) := send (curl token method path octets body) s in
  (curl_code r, default [] (curl_body r), s).

Definition turbine_table_get (key : bytes) (s : St) : option bytes * St :=
  let '(code, body, s) :=
    turbine_table_request (lit "GET") (lit "/_/table/get?key=" ++ rawurlencode key) None s in
  (if code =? 200 then Some body else None, s).

Definition turbine_table_set (key val : bytes) (ttl_ms : Z) (s : St) : bool * St :=
  let p := lit "/_/table/set?key=" ++ rawurlencode key in
  let p := if 0 <? ttl_ms then p ++ lit "&ttl_ms=" ++ show_i64 ttl_ms else p in
  let '(code, _, s) := turbine_table_request (lit "POST") p (Some val) s in
  (code =? 204, s).

Definition turbine_table_del (key : bytes) (s : St) : bool * St :=
  let '(code, body, s) :=
    turbine_table_request (lit "DELETE") (lit "/_/table/del?key=" ++ rawurlencode key) None s in
  ((code =? 200) && contains (q (lit "~deleted~:true")) body, s).

Definition turbine_table_exists (key : bytes) (s : St) : bool * St :=
  let '(code, _, s) :=
    turbine_table_request (lit "GET") (lit "/_/table/exists?key=" ++ rawurlencode key) None s in
  (code =? 200, s).

Definition turbine_table_incr (key : bytes) (delta : Z) (s : St) : option Z * St :=
  let p := lit "/_/table/incr?key=" ++ rawurlencode key ++ lit "&delta=" ++ show_i64 delta in
  let '(code, body, s) := turbine_table_request (lit "POST") p None s in
  (if code =? 200 then preg_int (lit "value") true body else None, s).

Definition turbine_table_size (s : St) : Z * St :=
  let '(code, body, s) := turbine_table_request (lit "GET") (lit "/_/table/size") None s in
  (if code =? 200 then default 0 (preg_int (lit "size") false body) else 0, s).

(** ** Task queue *)

Definition turbine_task_request (method path : bytes) (body : option bytes) (s : St)
    : Z * bytes * list bytes * St :=
  let '(r, s) := send (curl token method path octets body) s in
  match curl_body r with
  | None => (0, [], [], s)
  | Some data => (curl_code r, data, from_option header_lines [] r, s)
  end.

Definition turbine_task_push (channel payload : bytes) (s : St) : option Z * St :=
  let p := lit "/_/task/push?channel=" ++ rawurlencode channel in
  let '(code, body, _, s) := turbine_task_request (lit "POST") p (Some payload) s in
  (if code =? 200 then preg_int (lit "id") false body else None, s).

(** [(int)trim(substr($h, 10))] of the first line that is [X-Task-Id]; the lines are ASCII. *)
Definition task_id (hs : list bytes) : Z :=
  match list_find (λ h, eq_ignore_ascii_case (take 10 h) (lit "X-Task-Id:") = true) hs with
  | Some (_, h) => default 0 (match_int true (trim (drop 10 h)))
  | None => 0
  end.

Definition turbine_task_pop (channel : bytes) (wait_ms : Z) (s : St) : option (Z * bytes) * St :=
  let p := lit "/_/task/pop?channel=" ++ rawurlencode channel ++ lit "&wait_ms=" ++ show_i64 wait_ms in
  let '(code, body, hs, s) := turbine_task_request (lit "POST") p None s in
  (if code =? 200 then Some (task_id hs, body) else None, s).

Definition turbine_task_size (channel : bytes) (s : St) : Z * St :=
  let p := lit "/_/task/size?channel=" ++ rawurlencode channel in
  let '(code, body, _, s) := turbine_task_request (lit "GET") p None s in
  (if code =? 200 then default 0 (preg_int (lit "size") false body) else 0, s).

(** ** WebSocket hub *)

Definition turbine_ws_publish (channel payload : bytes) (s : St) : option Z * St :=
  let p := lit "/_/ws/publish?channel=" ++ rawurlencode channel in
  let '(r, s) := send (curl token (lit "POST") p octets (Some payload)) s in
  (match curl_body r with
   | Some body => if curl_code r =? 200 then Some (default 0 (preg_int (lit "delivered") false body)) else None
   | None => None
   end, s).

Definition turbine_ws_subscribers (channel : bytes) (s : St) : Z * St :=
  let p := lit "/_/ws/subscribers?channel=" ++ rawurlencode channel in
  let '(r, s) := send (curl token (lit "GET") p None None) s in
  (match curl_body r with
   | Some body => default 0 (preg_int (lit "subscribers") false body)
   | None => 0
   end, s).

(** ** Asynchronous I/O *)

Definition read_target (offset length : Z) : bytes :=
  let params := (if 0 <? offset then [lit "offset=" ++ show_i64 offset] else []) ++
                (if 0 <? length then [lit "length=" ++ show_i64 length] else []) in
  lit "/_/async/read" ++ (if bool_decide (params = []) then [] else x3f :: RustStr.join x26 params).

Definition write_target (path : bytes) (append : bool) : bytes :=
  lit "/_/async/write?path=" ++ rawurlencode path ++ (if append then lit "&append=1" else []).

Definition turbine_async_read (path : bytes) (offset length : Z) (s : St) : option bytes * St :=
  let '(r, s) :=
    send (curl token (lit "POST") (read_target offset length) (Some (lit "text/plain")) (Some path)) s in
  (if curl_code r =? 200 then curl_body r else None, s).

Definition turbine_async_write (path data : bytes) (append : bool) (s : St) : bool * St :=
  let '(r, s) := send (curl token (lit "POST") (write_target path append) octets (Some data)) s in
  (curl_code r =? 200, s).

Definition turbine_async_timer (channel payload : bytes) (delay_ms : Z) (s : St) : bool * St :=
  let p := lit "/_/async/timer?channel=" ++ rawurlencode channel ++ lit "&delay_ms=" ++ show_i64 delay_ms in
  let '(r, s) := send (curl token (lit "POST") p octets (Some payload)) s in
  (curl_code r =? 202, s).
End helpers.

(** *** Many at once *)

(** What [turbine_async_parallel] is given: its three kinds, and arrays that are none. *)
Inductive async_op :=
| ORead (path : bytes) (offset length : Z)
| OWrite (path data : bytes) (append : bool)
| OHttp (method url : bytes) (body : option bytes) (headers : list bytes)
| OUnknown (kind : bytes).

Inductive transfer :=
| Own (req : HyperRequest)
| Foreign (method url : bytes) (body : option bytes) (headers : list bytes).

Inductive async_result :=
| RRead (data : option bytes)
| RWrite (ok : bool)
| RHttp (status : Z) (body : bytes).

Definition transfer_of (token : bytes) (o : async_op) : option transfer :=
  match o with
  | ORead path offset length =>
      Some (Own (curl token (lit "POST") (read_target offset length) (Some (lit "text/plain")) (Some path)))
  | OWrite path data append =>
      Some (Own (curl token (lit "POST") (write_target path append) octets (Some data)))
  | OHttp method url body headers => Some (Foreign method url body (headers ++ [lit "Expect:"]))
  | OUnknown _ => None
  end.

Definition result_of (o : async_op) (r : option Response) : option async_result :=
  match o with
  | ORead _ _ _ => Some (RRead (if curl_code r =? 200 then Some (default [] (curl_body r)) else None))
  | OWrite _ _ _ => Some (RWrite (curl_code r =? 200))
  | OHttp _ _ _ _ => Some (RHttp (curl_code r) (default [] (curl_body r)))
  | OUnknown _ => None
  end.

(** [answer i] is what the transfer of the [i]th operation ends with. *)
Definition turbine_async_parallel (token : bytes) (answer : nat → transfer → option Response)
    (ops : list async_op) : list async_result :=
  omap (λ '(i, o), t ← transfer_of token o; result_of o (answer i t)) (imap pair ops).

(** ** Numbers in answers *)

Lemma parse_digits_prefix max acc s v rest :
  parse_digits max acc s = Some v → (∀ x, head rest = Some x → digit x = None) →
  digits_prefix (s ++ rest) = s ∧ foldl (λ a x, a * 10 + (u8 x - 48)) acc s = v.
Proof.
  intros H Hrest. revert acc H. induction s as [|x s IH]; intros acc H; simpl in *.
  - split; [|by injection H]. destruct rest as [|y rest]; [done|]. simpl. by rewrite (Hrest y).
  - destruct (digit x) as [d|] eqn:Ed; [|done]. simpl in H.
    assert (d = u8 x - 48) as -> by (unfold digit in Ed; destruct (_ && _); congruence).
    case_match; [done|]. apply IH in H as [-> ?]. done.
Qed.

Lemma dec_string_digits v rest : 0 ≤ v → (∀ x, head rest = Some x → digit x = None) →
  digits_prefix (dec_string v ++ rest) = dec_string v ∧ digits_value (dec_string v) = v ∧
  (∃ x r, dec_string v = x :: r ∧ x ≠ x2d).
Proof.
  intros Hv Hrest.
  destruct (parse_digits_prefix v 0 (dec_string v) v rest) as [E1 E2]; [|done|].
  { unfold dec_string. rewrite parse_dec_digits; [done|split; [lia|apply dec_fuel; lia]|lia]. }
  split_and!; [done..|].
  destruct (dec_digits_head (S (Z.to_nat (Z.log2 v))) v []) as (d & r & Hd & E); [done|lia|].
  exists (as_u8 (48 + d)), r. split; [done|]. intros Hx. apply (f_equal u8) in Hx.
  rewrite u8_as_u8, Z.mod_small in Hx by lia. change (u8 x2d) with 45 in Hx. lia.
Qed.

Lemma match_int_shown signed v rest : 0 ≤ v ∨ signed = true →
  (∀ x, head rest = Some x → digit x = None) →
  match_int signed (show_i64 v ++ rest) = Some (php_int v).
Proof.
  intros Hs Hrest. unfold match_int, show_i64. destruct (v <? 0) eqn:E.
  - destruct Hs as [?| ->]; [lia|]. simpl.
    destruct (dec_string_digits (- v) rest) as (-> & E2 & x & r & E3 & _); [lia|done|].
    rewrite E3. by rewrite <-E3, E2, Z.opp_involutive.
  - destruct (dec_string_digits v rest) as (E1 & E2 & x & r & E3 & Hx); [lia|done|].
    assert (Hn : ∀ s', x2d :: s' ≠ dec_string v ++ rest) by (rewrite E3; intros s' [=]; done).
    destruct (dec_string v ++ rest) as [|y t] eqn:Ey; [by rewrite E3 in Ey|].
    transitivity (match digits_prefix (y :: t) with
                  | [] => None | ds => Some (php_int (digits_value ds)) end).
    { destruct y; try done. by destruct (Hn t). }
    rewrite E1, E3. by rewrite <-E3, E2.
Qed.

(** The first member of an object is found. *)
Lemma preg_int_shown name signed v rest : 0 ≤ v ∨ signed = true →
  (∀ x, head rest = Some x → digit x = None) →
  preg_int name signed (x7b :: (x22 :: name ++ [x22; x3a]) ++ show_i64 v ++ rest) = Some (php_int v).
Proof.
  intros Hs Hrest. set (t := x22 :: name ++ [x22; x3a]). set (s := t ++ show_i64 v ++ rest).
  assert (strip_prefix t (x7b :: s) = None) as E by done.
  transitivity (preg_int name signed s); [cbn [preg_int]; fold t; by rewrite E|].
  assert (strip_prefix t s ≫= match_int signed = Some (php_int v)) as E2.
  { subst s. rewrite strip_prefix_app. simpl. by apply match_int_shown. }
  destruct s; cbn [preg_int]; fold t; by rewrite E2.
Qed.

Lemma php_int_id v : - 2 ^ 63 ≤ v < 2 ^ 63 → php_int v = v.
Proof. unfold php_int. lia. Qed.

Lemma parse_show_i64 v : - 2 ^ 63 ≤ v < 2 ^ 63 → parse_i64 (show_i64 v) = Some v.
Proof.
  intros Hv. unfold show_i64. destruct (v <? 0) eqn:E.
  - assert (parse_digits (2 ^ 63) 0 (dec_string (- v)) = Some (- v)) as Hp.
    { unfold dec_string. rewrite parse_dec_digits; [done|split; [lia|apply dec_fuel; lia]|lia]. }
    destruct (dec_string_digits (- v) []) as (_ & _ & x & r & Er & _); [lia|done|].
    rewrite Er in *. simpl ([x2d] ++ _). unfold parse_i64. rewrite Hp. simpl. f_equal. lia.
  - destruct (dec_string_digits v []) as (_ & _ & x & r & Er & Hx); [lia|done|].
    pose proof (parse_dec_string (2 ^ 63 - 1) v ltac:(lia)) as Hp. rewrite Er in *.
    unfold parse_i64. by destruct x.
Qed.

(** ** Targets *)

Lemma rawurlencode_inj : Inj (=) (=) rawurlencode.
Proof. intros s t E. rewrite <-(decode_encode s), <-(decode_encode t). unfold rawurlencode in E. by rewrite E. Qed.

Lemma digits_prefix_digits s : Forall (λ x, is_Some (digit x)) (digits_prefix s).
Proof. induction s as [|x s IH]; simpl; [done|]. destruct (digit x) eqn:E; [by constructor; eauto|done]. Qed.

(** A number has no separator in it. *)
Lemma show_i64_plain c v : c ≠ x2d → digit c = None → c ∉ show_i64 v.
Proof.
  intros Hc Hd. assert (Hdec : ∀ w, 0 ≤ w → c ∉ dec_string w).
  { intros w Hw Hin. destruct (dec_string_digits w []) as (E & _); [lia|done|].
    pose proof (digits_prefix_digits (dec_string w ++ [])) as HF. rewrite E, Forall_forall in HF.
    destruct (HF c Hin). congruence. }
  unfold show_i64. destruct (v <? 0) eqn:E; [|apply Hdec; lia].
  rewrite not_elem_of_app, list_elem_of_singleton. split; [done|apply Hdec; lia].
Qed.

(** A path with its parameters. *)
Definition url_target (path : bytes) (ps : list (bytes * bytes)) : bytes :=
  path ++ x3f :: RustStr.join x26 ((λ p, p.1 ++ x3d :: p.2) <$> ps).

Definition plain_params (ps : list (bytes * bytes)) : Prop :=
  Forall (λ p, (x26 ∉ p.1) ∧ (x3d ∉ p.1) ∧ x26 ∉ p.2) ps.

Lemma query_params ps name : ps ≠ [] → plain_params ps →
  query_param (RustStr.join x26 ((λ p, p.1 ++ x3d :: p.2) <$> ps)) name =
  (λ p, p.2.2) <$> list_find (λ p, p.1 = name) ps.
Proof.
  intros Hne Hps. unfold query_param. rewrite split_join.
  - rewrite <-list_fmap_compose.
    assert (∀ p, p ∈ ps → split_once x3d (p.1 ++ x3d :: p.2) = Some (p.1, p.2)) as Hs.
    { intros p Hp. unfold plain_params in Hps. rewrite Forall_forall in Hps.
      apply split_once_fst, Hps, Hp. }
    clear Hne Hps. induction ps as [|p ps IH]; [done|]. csimpl. rewrite Hs by set_solver. simpl.
    case_decide; [done|]. specialize (IH ltac:(intros ??; apply Hs; set_solver)).
    destruct (list_find _ (_ <$> ps)) as [[i [k v]]|], (list_find _ ps) as [[j [k' v']]|];
      simpl in *; congruence.
  - by destruct ps.
  - apply Forall_fmap. eapply Forall_impl; [exact Hps|]. intros [k v] (? & ? & ?). simpl in *. set_solver.
Qed.

Lemma curl_target token method path ps ct body : x3f ∉ path →
  let r := curl token method (url_target path ps) ct body in
  hr_path r = path ∧ hr_method r = method ∧
  hr_query r = Some (RustStr.join x26 ((λ p, p.1 ++ x3d :: p.2) <$> ps)).
Proof. intros Hp. unfold curl, url_target. by rewrite split_once_fst. Qed.

Lemma curl_query token method path ps ct body name : x3f ∉ path → ps ≠ [] → plain_params ps →
  query (curl token method (url_target path ps) ct body) name = (λ p, p.2.2) <$> list_find (λ p, p.1 = name) ps.
Proof.
  intros Hp Hne Hps. unfold query. destruct (curl_target token method path ps ct body Hp) as (_ & _ & ->).
  by apply query_params.
Qed.

(** ** The server *)

(** A script has the token of the dashboard, if there is one. *)
Definition token_agrees (cfg : AdminConfig) (token : bytes) : Prop :=
  match dashboard_token cfg with None => True | Some t => t = token ∧ t ≠ [] end.

Lemma curl_headers token method tgt ct body :
  hr_headers (curl token method tgt ct body) =
  option_list ((λ c, (lit "content-type", Some c)) <$> ct) ++
  (if bool_decide (token = []) then [] else [(lit "authorization", Some (lit "Bearer " ++ token))]) ++
  option_list ((λ b, (lit "content-length", Some (dec_string (zlen b)))) <$> body).
Proof. unfold curl. by destruct (split_once x3f tgt) as [[]|]. Qed.

Lemma curl_frames token method tgt ct body :
  hr_frames (curl token method tgt ct body) = option_list (FData <$> body).
Proof. unfold curl. by destruct (split_once x3f tgt) as [[]|]. Qed.

Lemma curl_authorized cfg token method tgt ct body : token_agrees cfg token →
  authorized cfg (curl token method tgt ct body) = true.
Proof.
  unfold token_agrees, authorized. destruct (dashboard_token cfg) as [t|]; [|done]. intros [<- Hne].
  assert (header_text (curl t method tgt ct body) (lit "authorization") = Some (lit "Bearer " ++ t)) as ->.
  { unfold header_text. rewrite curl_headers, bool_decide_false by done. by destruct ct. }
  cbn [mbind option_bind]. rewrite strip_prefix_app. by apply bool_decide_eq_true_2.
Qed.

(** The calls of a script on the table, and what they give it. *)
Inductive table_call :=
| CGet (key : bytes)
| CSet (key val : bytes) (ttl_ms : Z)
| CDel (key : bytes)
| CExists (key : bytes)
| CIncr (key : bytes) (delta : Z).

Inductive php_value := PNull | PBool (b : bool) | PString (s : bytes) | PInt (n : Z).

(** The operation of the table that a call stands for, with [f] applied to its key. *)
Definition op_of (f : bytes → bytes) (c : table_call) : op :=
  match c with
  | CGet k => OGet (f k)
  | CSet k v ttl => OSet (f k) v (if 0 <? ttl then Some (ttl * 10 ^ 6) else None)
  | CDel k => ODel (f k)
  | CExists k => OExists (f k)
  | CIncr k d => OIncr (f k) d
  end.

Definition php_of (r : response) : php_value :=
  match r with
  | RValue v => from_option PString PNull v
  | RSet (Ok _) => PBool true
  | RSet (Err _) => PBool false
  | RBool b => PBool b
  | RCount (Ok n) => PInt n
  | RCount (Err _) => PNull
  | RDone => PNull
  end.

(** ** Keys of scripts *)

(** The abstract table does not care how keys are written. *)
Section renaming.
Context (f : bytes → bytes) `{!Inj (=) (=) f}.

Lemma purge_kmap (now : Z) (m : gmap bytes Entry) : purge now (kmap f m) = kmap f (purge now m).
Proof.
  apply map_eq. intros j. rewrite lookup_purge.
  destruct (kmap f m !! j) as [e|] eqn:E.
  - apply lookup_kmap_Some in E as (i & -> & E); [|done]. rewrite (lookup_kmap f), lookup_purge. by rewrite E.
  - symmetry. apply (lookup_kmap_None f). intros i ->. rewrite lookup_purge.
    rewrite (lookup_kmap_None f) in E. by rewrite (E i).
Qed.

Lemma spec_step_renamed (now : Z) (c : table_call) (m m' : gmap bytes Entry) (r : response) :
  spec_step now (op_of f c) (kmap f m) = (r, m') →
  ∃ r0 m0, spec_step now (op_of id c) m = (r0, m0) ∧ m' = kmap f m0 ∧ php_of r = php_of r0.
Proof.
  destruct c as [k|k v ttl|k|k|k d]; simpl; rewrite purge_kmap, ?(lookup_kmap f).
  all: try (intros [= <- <-]; eexists _, _; split; [done|by rewrite ?(kmap_insert f), ?(kmap_delete f)]).
  destruct (purge now m !! k) as [e|]; [destruct (zlen (value e) =? 8)|];
    intros [= <- <-]; eexists _, _; (split; [done|by rewrite ?(kmap_insert f)]).
Qed.

Lemma occupied_renamed (now : Z) (c : table_call) (m : gmap bytes Entry) (occ : gset bytes) :
  occupied_step now (op_of f c) (kmap f m) (set_map f occ) =
  set_map f (occupied_step now (op_of id c) m occ).
Proof. destruct c; simpl; set_solver. Qed.

Lemma size_renamed (occ : gset bytes) : size (set_map f occ : gset bytes) = size occ.
Proof.
  unfold set_map. rewrite size_list_to_set; [by rewrite length_fmap|].
  apply (NoDup_fmap_2 f), NoDup_elements.
Qed.

Lemma spec_trace_renamed (max : Z) (h : list (Z * table_call)) (clock : Z) (m : gmap bytes Entry)
    (occ : gset bytes) (tr : list (Z * op * response)) :
  spec_trace max clock (kmap f m) (set_map f occ) tr →
  tr.*1 = (λ p, (p.1, op_of f p.2)) <$> h →
  ∃ tr0, spec_trace max clock m occ tr0 ∧ tr0.*1 = (λ p, (p.1, op_of id p.2)) <$> h ∧
         php_of <$> tr.*2 = php_of <$> tr0.*2.
Proof.
  revert clock m occ tr. induction h as [|[now c] h IH]; intros clock m occ tr Htr Eh.
  { destruct tr; [|done]. exists []. split; [constructor|done]. }
  destruct tr as [|[[now' o] r] tr]; [done|]. csimpl in Eh. injection Eh as -> -> Eh.
  inversion Htr as [|?????? m' ? Hle Hs Hrest|????? k' ?? Hle Href Hk Hsz Hrest]; subst.
  - apply spec_step_renamed in Hs as (r0 & m0 & Hs & -> & Hr). rewrite occupied_renamed in Hrest.
    destruct (IH _ _ _ _ Hrest Eh) as (tr0 & H0 & E1 & E2).
    exists ((now, op_of id c, r0) :: tr0). csimpl. rewrite E1, E2, Hr.
    split; [by eapply spec_ok|done].
  - destruct (IH _ _ _ _ Hrest Eh) as (tr0 & H0 & E1 & E2).
    exists ((now, op_of id c, r) :: tr0). csimpl. rewrite E1, E2. split; [|done].
    rewrite size_renamed in Hsz. rewrite purge_kmap in Hk.
    destruct c; simplify_eq/=; rewrite (lookup_kmap f) in Hk; by eapply spec_full.
Qed.
End renaming.

(** An encoded absolute path is one name, in no directory. *)
Lemma rawurlencode_no_slash s : slash ∉ rawurlencode s.
Proof.
  assert (Hx : ∀ x, bool_decide (slash ∉ encode_byte x) = true)
    by (apply (all_bytes_check (λ x, bool_decide (slash ∉ encode_byte x))); by vm_compute).
  intros (x & Hin & _)%list_elem_of_bind. specialize (Hx x). by apply bool_decide_eq_true in Hx.
Qed.

Lemma encoded_absolute rest :
  path_parent (rawurlencode (slash :: rest)) = Some [] ∧
  path_file_name (rawurlencode (slash :: rest)) = Some (rawurlencode (slash :: rest)).
Proof.
  assert (components (rawurlencode (slash :: rest)) = [Normal (rawurlencode (slash :: rest))]) as Hc.
  { unfold components. rewrite split_single by apply rawurlencode_no_slash. done. }
  unfold path_parent, path_file_name. by rewrite Hc.
Qed.

(** The number of a job is in the one line of its name. *)
Lemma trim_number v : 0 ≤ v → trim (x20 :: dec_string v) = dec_string v.
Proof.
  intros Hv. transitivity (trim (dec_string v)); [done|].
  destruct (dec_string_digits v []) as (E & _ & _); [done|done|].
  pose proof (digits_prefix_digits (dec_string v ++ [])) as HF. rewrite E, Forall_forall in HF.
  assert (∀ x, x ∈ dec_string v → solid x = true) as Hs.
  { intros x [d Hd]%HF. unfold digit in Hd. unfold solid. case_match; [|done]. lia. }
  apply trim_fixed; intros x Hx; apply Hs.
  - destruct (dec_string v); simplify_eq/=. by left.
  - by apply last_Some_elem_of.
Qed.

Lemma hm_append_lookup n v h k :
  hm_append n v h !! k = (if decide (k = to_ascii_lowercase n) then Some (default [] (h !! k) ++ [v]) else h !! k).
Proof.
  unfold hm_append. case_decide as E; [subst; by rewrite lookup_partial_alter_eq|].
  by rewrite lookup_partial_alter_ne.
Qed.

Definition is_task_id (l : bytes) : bool := eq_ignore_ascii_case (take 10 l) (lit "X-Task-Id:").

Lemma task_id_line r v : 0 ≤ v → rs_headers r !! lit "x-task-id" = Some [dec_string v] →
  (∀ n vs x, rs_headers r !! n = Some vs → n ≠ lit "x-task-id" → is_task_id (n ++ lit ": " ++ x) = false) →
  task_id (header_lines r) = php_int v.
Proof.
  intros Hv Hid Hno. set (line := lit "x-task-id" ++ lit ": " ++ dec_string v).
  assert (Hin : line ∈ header_lines r).
  { unfold header_lines. right. apply list_elem_of_bind.
    exists (lit "x-task-id", [dec_string v]). split; [by left|by apply elem_of_map_to_list]. }
  assert (Honly : ∀ l, l ∈ header_lines r → is_task_id l = true → l = line).
  { intros l Hl Ht. unfold header_lines in Hl. apply elem_of_cons in Hl as [->|Hl]; [done|].
    apply list_elem_of_bind in Hl as ([n vs] & Hl & Hn%elem_of_map_to_list).
    apply list_elem_of_fmap in Hl as (x & -> & Hx).
    destruct (decide (n = lit "x-task-id")) as [->|Hne]; [|by rewrite (Hno n vs x) in Ht].
    rewrite Hid in Hn. simplify_eq. apply list_elem_of_singleton in Hx as ->. done. }
  unfold task_id. destruct (list_find _ (header_lines r)) as [[i h]|] eqn:E.
  - apply list_find_Some in E as (Hh & Ht & _). apply list_elem_of_lookup_2 in Hh.
    rewrite (Honly h Hh Ht). change (drop 10 line) with (x20 :: dec_string v).
    rewrite trim_number by done.
    assert (dec_string v = show_i64 v ++ []) as ->.
    { unfold show_i64. by rewrite (proj2 (Z.ltb_ge _ _)), app_nil_r by lia. }
    rewrite match_int_shown; [done|by left|by intros ? [=]].
  - apply list_find_None in E. rewrite Forall_forall in E. by destruct (E line Hin).
Qed.

Section server.
Context {B : Type} `{BroadcastOps B}.
Context {ip : Type} `{Countable ip}.
Context {FS : Type}.
Context (valid_status : Z → bool) (valid_name valid_value : bytes → bool) (version : bytes).
Context (to_lowercase : bytes → bytes) (parse_boundary : bytes → option bytes)
  (parts : bytes → bytes → list multipart_event) (write_ok : bytes → bool) (pid : Z).
Context (sha1_base64 : bytes → bytes).
Context (parse_ip : bytes → option ip) (show_ip : ip → bytes).
Context (canonicalize : FS → bytes → option bytes) (open_read : FS → bytes → result bytes bytes)
  (open_write : FS → bytes → bool → bytes → result FS bytes).
Context (show_f64 : f64 → bytes)
  (iter : gmap bytes EndpointMetrics → list (bytes * EndpointMetrics)) (template : bytes).

(** The server as curl sees it, at a time. *)
Definition serve (cfg : AdminConfig) (now : Z) (req : HyperRequest) (s : shared (B := B) (ip := ip) (FS := FS))
    : option Response * shared :=
  match handle_internal valid_status valid_name valid_value version to_lowercase parse_boundary parts
          write_ok pid sha1_base64 parse_ip show_ip canonicalize open_read open_write show_f64 iter
          template cfg now req s with
  | Some (r, s') => (Some r, s')
  | None => (None, s)
  end.

(** What hyper accepts, and lower-casing of names that are in lower case. *)
Definition printable (x : byte) : bool := (32 <=? u8 x) && (u8 x <? 127).

Definition lower_name (x : byte) : bool := (97 <=? u8 x) && (u8 x <=? 122) || (u8 x =? 45).

Hypothesis Hstatus : ∀ c, 100 ≤ c < 1000 → valid_status c = true.
Hypothesis Hvalue : ∀ v, forallb printable v = true → valid_value v = true.
Hypothesis Hlower : ∀ n, forallb lower_name n = true → to_lowercase n = n.
Context (cfg : AdminConfig) (token : bytes).
Hypothesis Htoken : token_agrees cfg token.

(** An answer of the endpoints as the helpers see it. *)
Lemma respond_seen status ct body : 100 ≤ status < 1000 → forallb printable ct = true →
  let r := respond valid_status valid_name valid_value version status ct body in
  rs_status r = status ∧ collect (rs_body r) = Some body.
Proof.
  intros Hs Hc. unfold respond, build_response, status_code. by rewrite Hvalue, Hstatus.
Qed.

(** Which paths are those of a feature. *)
Definition feature_path (p : bytes) : bool :=
  starts_with (lit "/_/") p && negb (existsb (λ c, bool_decide (c = x3f)) p) &&
  negb (existsb (λ x, bool_decide (p = x))
    [lit "/_/dashboard"; lit "/_/metrics"; lit "/_/status"; lit "/_/cache/clear";
     lit "/_/security/blocked"; lit "/_/security/unblock"]).

Lemma serve_feature now method path tgt ct body s : feature_path path = true →
  hr_path (curl token method tgt ct body) = path →
  serve cfg now (curl token method tgt ct body) s =
  let '(r, s') := feature_endpoint valid_status valid_name valid_value version to_lowercase
    parse_boundary parts write_ok pid sha1_base64 canonicalize open_read open_write cfg now
    (curl token method tgt ct body) path s in (Some r, s').
Proof.
  intros Hf Hp. unfold feature_path in Hf. rewrite !andb_true_iff, !negb_true_iff in Hf.
  destruct Hf as [[Hs Hq] Hn]. simpl in Hn. rewrite !orb_false_iff in Hn.
  assert (x3f ∉ path) as Hnq.
  { intros Hin. apply not_true_iff_false in Hq. apply Hq, existsb_exists. exists x3f.
    split; [by apply list_elem_of_In|by apply bool_decide_eq_true_2]. }
  unfold serve, handle_internal. rewrite Hp, split_single by done.
  destruct Hn as (Hd & Hm & Hst & Hcc & Hb & Hu & _). cbn [head default id].
  rewrite Hs. cbn [negb]. rewrite (curl_authorized cfg) by done.
  rewrite Hd, Hm, Hst, Hcc, Hb, Hu. cbn [andb negb].
  by destruct (feature_endpoint _ _ _ _ _ _ _ _ _ _ _ _ _ _ _ _ _ _) as [r s'].
Qed.

(** A body within the limit is read. *)
Lemma curl_body_within method tgt data limit : zlen data ≤ limit ≤ u64_max →
  body_within valid_status valid_name valid_value version to_lowercase parse_boundary parts write_ok
    pid cfg (curl token method tgt octets (Some data)) limit = Ok data.
Proof.
  intros Hl. unfold body_within, from_hyper. rewrite curl_headers, curl_frames.
  set (hs := insert_pairs _ _).
  assert (hs !! lit "content-length" = Some (dec_string (zlen data))) as ->.
  { subst hs. case_bool_decide; simpl; rewrite !Hlower by reflexivity; unfold insert_pairs; simpl;
      by rewrite lookup_insert_eq. }
  cbn [mbind option_bind]. rewrite parse_dec_string by (pose proof (zlen_nonneg data); lia).
  unfold exceeds. rewrite (proj2 (Z.ltb_ge _ _)) by lia.
  assert (read_body (Some limit) (option_list (FData <$> Some data)) [] = Ok data) as ->; [|done].
  simpl. by rewrite (proj2 (Z.ltb_ge limit _)) by (unfold zlen in *; simpl; lia).
Qed.

(** *** The table *)

Lemma serve_table now method sub tgt ct body s t : sh_table s = Some t →
  feature_path (lit "/_/table" ++ sub) = true →
  hr_path (curl token method tgt ct body) = lit "/_/table" ++ sub →
  serve cfg now (curl token method tgt ct body) s =
  let '(r, t') := handle_shared_table valid_status valid_name valid_value version to_lowercase
    parse_boundary parts write_ok pid cfg now (curl token method tgt ct body) (lit "/_/table" ++ sub) t in
  (Some r, set_table t' s).
Proof.
  intros Ht Hf Hp. rewrite (serve_feature now method (lit "/_/table" ++ sub)) by done.
  unfold feature_endpoint. rewrite Ht.
  assert (starts_with (lit "/_/table") (lit "/_/table" ++ sub)) as ->%Is_true_true
    by (apply starts_with_spec; eauto).
  by destruct (handle_shared_table _ _ _ _ _ _ _ _ _ _ _ _ _ _).
Qed.

Lemma table_request now method sub ps body s t : sh_table s = Some t →
  feature_path (lit "/_/table" ++ sub) = true → x3f ∉ sub →
  let req := curl token method (url_target (lit "/_/table" ++ sub) ps) octets body in
  turbine_table_request (serve cfg now) token method (url_target (lit "/_/table" ++ sub) ps) body s =
  let '(r, t') := handle_shared_table valid_status valid_name valid_value version to_lowercase
    parse_boundary parts write_ok pid cfg now req (lit "/_/table" ++ sub) t in
  (rs_status r, default [] (collect (rs_body r)), set_table t' s).
Proof.
  intros Ht Hf Hq req. unfold turbine_table_request.
  assert (x3f ∉ lit "/_/table" ++ sub) as Hq'.
  { rewrite not_elem_of_app. split; [apply (bool_decide_unpack _); by vm_compute|done]. }
  rewrite (serve_table now method sub _ _ _ s t) by (done || by apply curl_target).
  by destruct (handle_shared_table _ _ _ _ _ _ _ _ _ _ _ _ _ _).
Qed.

Definition run_call {St} (send : HyperRequest → St → option Response * St) (c : table_call) (s : St)
    : php_value * St :=
  match c with
  | CGet k => let '(v, s) := turbine_table_get send token k s in (from_option PString PNull v, s)
  | CSet k v ttl => let '(b, s) := turbine_table_set send token k v ttl s in (PBool b, s)
  | CDel k => let '(b, s) := turbine_table_del send token k s in (PBool b, s)
  | CExists k => let '(b, s) := turbine_table_exists send token k s in (PBool b, s)
  | CIncr k d => let '(v, s) := turbine_table_incr send token k d s in (from_option PInt PNull v, s)
  end.

(** Integers of PHP, and values the server takes. *)
Definition call_ok (c : table_call) : Prop :=
  match c with
  | CSet _ v ttl => zlen v ≤ body_limit cfg 1048576 ≤ u64_max ∧ ttl < 2 ^ 63
  | CIncr _ d => - 2 ^ 63 ≤ d < 2 ^ 63
  | _ => True
  end.

(** The request of a helper for a key, as the endpoint sees it. *)
Lemma keyed_request now method sub k more body s t : sh_table s = Some t →
  feature_path (lit "/_/table" ++ sub) = true → x3f ∉ sub → plain_params more →
  let path := url_target (lit "/_/table" ++ sub) ((lit "key", rawurlencode k) :: more) in
  let req := curl token method path octets body in
  turbine_table_request (serve cfg now) token method path body s =
    (let '(r, t') := handle_shared_table valid_status valid_name valid_value version to_lowercase
       parse_boundary parts write_ok pid cfg now req (lit "/_/table" ++ sub) t in
     (rs_status r, default [] (collect (rs_body r)), set_table t' s)) ∧
  hr_method req = method ∧ query req (lit "key") = Some (rawurlencode k) ∧
  ∀ name, name ≠ lit "key" → query req name = (λ p, p.2.2) <$> list_find (λ p, p.1 = name) more.
Proof.
  intros Ht Hf Hq Hmore path req.
  assert (x3f ∉ lit "/_/table" ++ sub) as Hq'
    by (rewrite not_elem_of_app; split; [apply (bool_decide_unpack _); by vm_compute|done]).
  assert (Hquery : ∀ name, query req name =
    (λ p, p.2.2) <$> list_find (λ p, p.1 = name) ((lit "key", rawurlencode k) :: more)).
  { intros name. apply curl_query; [done..|]. constructor; [|done]. simpl.
    split_and!; [apply (bool_decide_unpack _); by vm_compute..|apply url_encode_plain; auto]. }
  split_and!; [by apply table_request|by apply curl_target|by rewrite Hquery|].
  intros name Hn. rewrite Hquery. cbn [list_find fst]. rewrite decide_False by done.
  by destruct (list_find _ more) as [[i [? ?]]|].
Qed.

Ltac keyed Ht now m sub k more body :=
  let E := fresh "E" in
  destruct (keyed_request now (lit m) (lit sub) k more body _ _ Ht) as (E & Hm & Hkey & Hqs);
    [done|apply (bool_decide_unpack _); by vm_compute|..|
     rewrite E; unfold handle_shared_table; rewrite Hm, Hkey;
     change (strip_prefix (lit "/_/table") (lit "/_/table" ++ lit sub)) with (Some (lit sub));
     cbn [default id]].

Ltac seen st ct body :=
  let E1 := fresh in let E2 := fresh in
  destruct (respond_seen st (lit ct) body) as [E1 E2]; [done|done|]; rewrite ?E1, ?E2; clear E1 E2.

Lemma get_call now k s t : sh_table s = Some t →
  let '(r, t') := table_step now (OGet (rawurlencode k)) t in
  run_call (serve cfg now) (CGet k) s = (php_of r, set_table t' s).
Proof.
  intros Ht. unfold run_call, turbine_table_get.
  change (lit "/_/table/get?key=" ++ rawurlencode k)
    with (url_target (lit "/_/table" ++ lit "/get") [(lit "key", rawurlencode k)]).
  keyed Ht now "GET" "/get" k ([] : list (bytes * bytes)) (None : option bytes); [constructor|].
  change (route_table _ _) with TGet. cbn [table_step]. cbn match beta.
  destruct (SharedTable.get now (rawurlencode k) t) as [[v|] t']; cbn match beta.
  - by seen 200 "application/octet-stream" v.
  - by seen 404 "text/plain" ([] : bytes).
Qed.

Lemma exists_call now k s t : sh_table s = Some t →
  let '(r, t') := table_step now (OExists (rawurlencode k)) t in
  run_call (serve cfg now) (CExists k) s = (php_of r, set_table t' s).
Proof.
  intros Ht. unfold run_call, turbine_table_exists.
  change (lit "/_/table/exists?key=" ++ rawurlencode k)
    with (url_target (lit "/_/table" ++ lit "/exists") [(lit "key", rawurlencode k)]).
  keyed Ht now "GET" "/exists" k ([] : list (bytes * bytes)) (None : option bytes); [constructor|].
  change (route_table _ _) with TExists. cbn [table_step]. cbn match beta.
  destruct (exists_key now (rawurlencode k) t) as [[] t']; cbn match beta; unfold json.
  - by destruct (respond_seen 200 (lit "application/json")
      (q (lit "{~exists~:") ++ lit "true" ++ lit "}")) as [-> _].
  - by destruct (respond_seen 404 (lit "application/json")
      (q (lit "{~exists~:") ++ lit "false" ++ lit "}")) as [-> _].
Qed.

Lemma del_call now k s t : sh_table s = Some t →
  let '(r, t') := table_step now (ODel (rawurlencode k)) t in
  run_call (serve cfg now) (CDel k) s = (php_of r, set_table t' s).
Proof.
  intros Ht. unfold run_call, turbine_table_del.
  change (lit "/_/table/del?key=" ++ rawurlencode k)
    with (url_target (lit "/_/table" ++ lit "/del") [(lit "key", rawurlencode k)]).
  keyed Ht now "DELETE" "/del" k ([] : list (bytes * bytes)) (None : option bytes); [constructor|].
  change (route_table _ _) with TDel. cbn [table_step]. cbn match beta.
  destruct (SharedTable.del now (rawurlencode k) t) as [[] t']; cbn match beta; unfold json.
  - by destruct (respond_seen 200 (lit "application/json")
      (q (lit "{~deleted~:") ++ lit "true" ++ lit "}")) as [-> ->].
  - by destruct (respond_seen 200 (lit "application/json")
      (q (lit "{~deleted~:") ++ lit "false" ++ lit "}")) as [-> ->].
Qed.

Lemma json_seen status body : 100 ≤ status < 1000 →
  let r := json valid_status valid_name valid_value version status body in
  rs_status r = status ∧ collect (rs_body r) = Some body.
Proof. intros. by apply respond_seen. Qed.

Lemma set_call now k v ttl s t : sh_table s = Some t → call_ok (CSet k v ttl) →
  let '(r, t') := table_step now (op_of rawurlencode (CSet k v ttl)) t in
  run_call (serve cfg now) (CSet k v ttl) s = (php_of r, set_table t' s).
Proof.
  intros Ht [Hv Httl]. unfold run_call, turbine_table_set.
  set (more := if 0 <? ttl then [(lit "ttl_ms", show_i64 ttl)] else []).
  assert ((if 0 <? ttl then (lit "/_/table/set?key=" ++ rawurlencode k) ++ lit "&ttl_ms=" ++ show_i64 ttl
           else lit "/_/table/set?key=" ++ rawurlencode k) =
          url_target (lit "/_/table" ++ lit "/set") ((lit "key", rawurlencode k) :: more)) as ->.
  { subst more. destruct (0 <? ttl); [by rewrite <-app_assoc|done]. }
  keyed Ht now "POST" "/set" k more (Some v).
  { subst more. destruct (0 <? ttl); [|constructor]. repeat constructor.
    1, 2: by apply (bool_decide_unpack _); vm_compute. by apply show_i64_plain. }
  change (route_table _ _) with TSet. cbn match beta. cbn [table_step op_of].
  rewrite curl_body_within by done. cbn match beta.
  assert (default 0 (query_u64 (curl token (lit "POST") (url_target (lit "/_/table" ++ lit "/set")
    ((lit "key", rawurlencode k) :: more)) octets (Some v)) (lit "ttl_ms")) = Z.max 0 ttl) as ->.
  { unfold query_u64. rewrite Hqs by done. subst more. destruct (0 <? ttl) eqn:El; simpl; [|lia].
    rewrite decide_True by done. simpl. unfold show_i64.
    rewrite (proj2 (Z.ltb_ge _ _)), parse_dec_string by (unfold u64_max; lia). simpl. lia. }
  assert ((if 0 <? Z.max 0 ttl then Some (Z.max 0 ttl * 10 ^ 6) else None) =
          (if 0 <? ttl then Some (ttl * 10 ^ 6) else None)) as ->.
  { destruct (Z.ltb_spec 0 ttl); [rewrite Z.max_r by lia; by rewrite (proj2 (Z.ltb_lt _ _)) by lia|].
    by rewrite Z.max_l by lia. }
  destruct (SharedTable.set now (rawurlencode k) v _ t) as [[[]|[n|e]] t']; cbn match beta.
  - by seen 204 "text/plain" ([] : bytes).
  - unfold table_full. by rewrite (proj1 (json_seen 507 _ ltac:(lia))).
  - unfold json_err. by rewrite (proj1 (json_seen 500 _ ltac:(lia))).
Qed.

Lemma incr_range now k d t v t' : - 2 ^ 63 ≤ d < 2 ^ 63 → incr now k d t = (Ok v, t') →
  - 2 ^ 63 ≤ v < 2 ^ 63.
Proof.
  intros Hd. unfold incr, incr_existing. destruct (tbl_map t !! k) as [e|].
  - destruct (is_expired now e); [intros [= <- _]; done|].
    destruct (negb _); [done|]. intros [= <- _]. unfold wrap_i.
    match goal with |- context [?a `mod` 2 ^ 64] => pose proof (Z.mod_pos_bound a (2 ^ 64)) end. lia.
  - destruct (at_capacity t); [done|]. by intros [= <- _].
Qed.

Lemma incr_call now k d s t : sh_table s = Some t → call_ok (CIncr k d) →
  let '(r, t') := table_step now (OIncr (rawurlencode k) d) t in
  run_call (serve cfg now) (CIncr k d) s = (php_of r, set_table t' s).
Proof.
  intros Ht Hd. simpl in Hd. unfold run_call, turbine_table_incr.
  change (lit "/_/table/incr?key=" ++ rawurlencode k ++ lit "&delta=" ++ show_i64 d)
    with (url_target (lit "/_/table" ++ lit "/incr") [(lit "key", rawurlencode k); (lit "delta", show_i64 d)]).
  keyed Ht now "POST" "/incr" k [(lit "delta", show_i64 d)] (None : option bytes).
  { repeat constructor. 1, 2: by apply (bool_decide_unpack _); vm_compute. by apply show_i64_plain. }
  change (route_table _ _) with TIncr. cbn match beta. cbn [table_step].
  rewrite Hqs by done. simpl (_ <$> list_find _ _). rewrite decide_True by done.
  cbn [fmap option_fmap option_map mbind option_bind snd]. rewrite parse_show_i64 by done.
  cbn [default id]. destruct (incr now (rawurlencode k) d t) as [[v|[n|e]] t'] eqn:Ei; cbn match beta.
  - destruct (json_seen 200 (q (lit "{~value~:") ++ show_i64 v ++ lit "}") ltac:(lia)) as [-> ->].
    cbn [Z.eqb default id]. cbn match beta.
    change (q (lit "{~value~:") ++ show_i64 v ++ lit "}")
      with (x7b :: (x22 :: lit "value" ++ [x22; x3a]) ++ show_i64 v ++ [x7d]).
    rewrite preg_int_shown by (auto || by intros ? [= <-]). simpl.
    by rewrite php_int_id by (by eapply incr_range).
  - unfold table_full. by rewrite (proj1 (json_seen 507 _ ltac:(lia))).
  - unfold json_err. by rewrite (proj1 (json_seen 409 _ ltac:(lia))).
Qed.

(** A call of a helper is the operation of the table on the encoded key. *)
Lemma table_call_spec now c s t : sh_table s = Some t → call_ok c →
  let '(r, t') := table_step now (op_of rawurlencode c) t in
  run_call (serve cfg now) c s = (php_of r, set_table t' s).
Proof.
  intros Ht Hc. destruct c;
    [by apply get_call|by apply set_call|by apply del_call|by apply exists_call|by apply incr_call].
Qed.

(** *** A script on the table *)

(** The calls of a script, each at its time, with what it is given. *)
Fixpoint script_run (h : list (Z * table_call)) (s : shared) : list (Z * table_call * php_value) :=
  match h with
  | [] => []
  | (now, c) :: h' =>
      let '(v, s') := run_call (serve cfg now) c s in (now, c, v) :: script_run h' s'
  end.

Lemma script_run_trace h s t : sh_table s = Some t → Forall (λ p, call_ok p.2) h →
  (script_run h s).*2 = php_of <$> (table_trace ((λ p, (p.1, op_of rawurlencode p.2)) <$> h) t).*2.
Proof.
  revert s t. induction h as [|[now c] h IH]; intros s t Ht Hok; [done|].
  apply Forall_cons in Hok as [Hc Hok]. pose proof (table_call_spec now c s t Ht Hc) as Hstep.
  csimpl. destruct (table_step now (op_of rawurlencode c) t) as [r t']. rewrite Hstep. csimpl.
  f_equal. by apply IH.
Qed.

Lemma table_trace_fst h t : (table_trace h t).*1 = h.
Proof.
  revert t. induction h as [|[now o] h IH]; intros t; [done|]. csimpl.
  destruct (table_step now o t) as [r t']. csimpl. by rewrite IH.
Qed.

(** C13: for a script the helpers are a map with deadlines. What [turbine_table_get], [set],
    [del], [exists] and [incr] return, through curl and the endpoints, with the token, the limits
    and the regular expressions in between, is what a plain map over the script's own keys gives:
    any bytes may be keys, different keys never meet, numbers arrive with their sign, and the only
    other answer is the refusal of a new key by a full table. *)
Theorem php_table_refines_map (max : Z) (h : list (Z * table_call)) (clock : Z) (s : shared) :
  0 ≤ max → monotone clock h → Forall (λ p, call_ok p.2) h → sh_table s = Some (table_new max) →
  ∃ tr, spec_trace max clock ∅ ∅ tr ∧ tr.*1 = (λ p, (p.1, op_of id p.2)) <$> h ∧
        (script_run h s).*2 = php_of <$> tr.*2.
Proof.
  intros Hmax Hmono Hok Ht. rewrite (script_run_trace h s (table_new max)) by done.
  set (ops := (λ p : Z * table_call, (p.1, op_of rawurlencode p.2)) <$> h).
  assert (Htr : spec_trace max clock (kmap rawurlencode ∅) (set_map rawurlencode (∅ : gset bytes))
                  (table_trace ops (table_new max))).
  { apply (table_trace_spec ops clock (table_new max)); [|by rewrite kmap_empty|set_solver|].
    - subst ops. clear Hok. revert clock Hmono. induction h as [|[now c] h IH]; [done|].
      intros clock [? ?]. split; [done|by apply IH].
    - unfold table_size. simpl. by rewrite map_size_empty. }
  pose proof rawurlencode_inj.
  destruct (spec_trace_renamed rawurlencode max h clock ∅ ∅ _ Htr) as (tr & ? & ? & ?);
    [by rewrite table_trace_fst|by exists tr].
Qed.

(** *** Asynchronous I/O *)

Lemma serve_async now method sub tgt ct body s io : sh_io s = Some io →
  feature_path (lit "/_/async" ++ sub) = true →
  hr_path (curl token method tgt ct body) = lit "/_/async" ++ sub →
  serve cfg now (curl token method tgt ct body) s =
  let '(r, started, io', fs') := handle_async_io valid_status valid_name valid_value version to_lowercase
    parse_boundary parts write_ok pid canonicalize open_read open_write cfg
    (curl token method tgt ct body) (lit "/_/async" ++ sub) (bool_decide (is_Some (sh_queue s))) io (sh_fs s) in
  (Some r, set_io io' fs' started s).
Proof.
  intros Hio Hf Hp. rewrite (serve_feature now method (lit "/_/async" ++ sub)) by done.
  unfold feature_endpoint. rewrite Hio.
  assert (starts_with (lit "/_/async") (lit "/_/async" ++ sub)) as ->%Is_true_true
    by (apply starts_with_spec; eauto).
  destruct (sh_table s), (sh_queue s), (sh_hub s); cbn -[handle_async_io];
    by destruct (handle_async_io _ _ _ _ _ _ _ _ _ _ _ _ _ _ _ _ _ _) as [[[??]?]?].
Qed.

Ltac json_status :=
  unfold map_async_err, json_err, missing, not_found;
  match goal with
  | |- context [rs_status (json _ _ _ _ ?c ?b)] => rewrite (proj1 (json_seen c b ltac:(lia)))
  end.

Lemma map_async_err_seen e :
  rs_status (map_async_err valid_status valid_name valid_value version e) ≠ 200.
Proof. destruct e; by json_status. Qed.

Lemma body_within_refused req limit r :
  body_within valid_status valid_name valid_value version to_lowercase parse_boundary parts write_ok
    pid cfg req limit = Err r → rs_status r ≠ 200.
Proof.
  unfold body_within. destruct (from_hyper _ _ _ _ _ _ _ _ _) as [?|[]]; [done|..];
    intros [= <-]; by json_status.
Qed.

(** A script cannot write to an absolute path: the helper encodes it, nobody decodes it, and
    the server looks for a file of that strange name in its own directory. Whatever the roots,
    [turbine_async_write] returns false and no file changes. *)
Theorem async_write_never_absolute (now : Z) (rest data : bytes) (append : bool) (s : shared) (io : AsyncIo) :
  sh_io s = Some io →
  canonicalize (sh_fs s) (rawurlencode (slash :: rest)) = None → canonicalize (sh_fs s) [] = None →
  let '(ok, s') := turbine_async_write (serve cfg now) token (slash :: rest) data append s in
  ok = false ∧ sh_fs s' = sh_fs s ∧ sh_io s' = Some io.
Proof.
  intros Hio Hc1 Hc2. unfold turbine_async_write.
  set (more := if append then [(lit "append", lit "1")] else []).
  assert (write_target (slash :: rest) append =
    url_target (lit "/_/async" ++ lit "/write") ((lit "path", rawurlencode (slash :: rest)) :: more)) as ->.
  { subst more. unfold write_target. destruct append; [done|by rewrite app_nil_r]. }
  assert (x3f ∉ lit "/_/async" ++ lit "/write") as Hq by (apply (bool_decide_unpack _); by vm_compute).
  set (tgt := url_target _ _).
  destruct (curl_target token (lit "POST") _ ((lit "path", rawurlencode (slash :: rest)) :: more)
    octets (Some data) Hq) as (Hp & Hm & _).
  fold tgt in Hp, Hm.
  rewrite (serve_async now (lit "POST") (lit "/write") tgt octets (Some data) s io) by done.
  unfold handle_async_io. rewrite Hm.
  change (strip_prefix (lit "/_/async") (lit "/_/async" ++ lit "/write")) with (Some (lit "/write")).
  cbn [default id].
  change (bool_decide (lit "POST" = lit "GET")) with false.
  change (bool_decide (lit "/write" = lit "/read")) with false.
  rewrite !andb_false_l, andb_false_r.
  change (bool_decide (lit "POST" = lit "POST") && bool_decide (lit "/write" = lit "/write")) with true.
  cbn match.
  assert (query (curl token (lit "POST") tgt octets (Some data)) (lit "path") =
          Some (rawurlencode (slash :: rest))) as ->.
  { subst tgt. rewrite curl_query; [done|done|done|].
    constructor; [split_and!; [apply (bool_decide_unpack _); by vm_compute..|]|].
    - apply url_encode_plain; auto.
    - subst more. destruct append; repeat constructor; apply (bool_decide_unpack _); by vm_compute. }
  destruct (body_within _ _ _ _ _ _ _ _ _ _ _ _) as [body|r] eqn:Eb.
  2: { apply body_within_refused in Eb. simpl. split; [by apply Z.eqb_neq|done]. }
  unfold io_write, resolve. rewrite Hc1. destruct (encoded_absolute rest) as [-> ->]. rewrite Hc2.
  assert (∀ e, (rs_status (map_async_err valid_status valid_name valid_value version e) =? 200) = false) as He
    by (intros e; apply Z.eqb_neq, map_async_err_seen).
  destruct (max_io_bytes io <? zlen body); [|destruct (bool_decide _)]; cbn [result_bind];
    cbn match beta; unfold curl_code; cbn [from_option]; by rewrite He.
Qed.

(** *** The queue *)

Lemma serve_task now method sub tgt ct body s tq : sh_queue s = Some tq →
  feature_path (lit "/_/task" ++ sub) = true →
  hr_path (curl token method tgt ct body) = lit "/_/task" ++ sub →
  serve cfg now (curl token method tgt ct body) s =
  let '(r, tq') := handle_task_queue valid_status valid_name valid_value version to_lowercase
    parse_boundary parts write_ok pid cfg now (curl token method tgt ct body) (lit "/_/task" ++ sub) tq in
  (Some r, set_tasks tq' s).
Proof.
  intros Hq Hf Hp. rewrite (serve_feature now method (lit "/_/task" ++ sub)) by done.
  unfold feature_endpoint. rewrite Hq.
  assert (starts_with (lit "/_/task") (lit "/_/task" ++ sub)) as ->%Is_true_true
    by (apply starts_with_spec; eauto).
  destruct (sh_table s); cbn -[handle_task_queue];
    by destruct (handle_task_queue _ _ _ _ _ _ _ _ _ _ _ _ _ _).
Qed.

(** The request of a helper for a channel, as the endpoint sees it. *)
Lemma channel_request now method sub c more body s tq : sh_queue s = Some tq →
  feature_path (lit "/_/task" ++ sub) = true → x3f ∉ sub → plain_params more →
  let path := url_target (lit "/_/task" ++ sub) ((lit "channel", rawurlencode c) :: more) in
  let req := curl token method path octets body in
  turbine_task_request (serve cfg now) token method path body s =
    (let '(r, tq') := handle_task_queue valid_status valid_name valid_value version to_lowercase
       parse_boundary parts write_ok pid cfg now req (lit "/_/task" ++ sub) tq in
     match collect (rs_body r) with
     | None => (0, [], [], set_tasks tq' s)
     | Some data => (rs_status r, data, header_lines r, set_tasks tq' s)
     end) ∧
  hr_method req = method ∧ query req (lit "channel") = Some (rawurlencode c).
Proof.
  intros Ht Hf Hq Hmore path req.
  assert (x3f ∉ lit "/_/task" ++ sub) as Hq'
    by (rewrite not_elem_of_app; split; [apply (bool_decide_unpack _); by vm_compute|done]).
  destruct (curl_target token method _ ((lit "channel", rawurlencode c) :: more) octets body Hq')
    as (Hp & Hm & _).
  split_and!; [|done|].
  - unfold turbine_task_request. rewrite (serve_task now method sub _ _ _ s tq) by done.
    destruct (handle_task_queue _ _ _ _ _ _ _ _ _ _ _ _ _ _) as [r tq']. simpl.
    by destruct (collect (rs_body r)).
  - unfold req, path. rewrite curl_query; [done..|]. constructor; [|done]. simpl.
    split_and!; [apply (bool_decide_unpack _); by vm_compute..|apply url_encode_plain; auto].
Qed.

Lemma push_call now c data s tq : sh_queue s = Some tq → 0 ≤ next_id tq →
  zlen data ≤ body_limit cfg 1048576 ≤ u64_max →
  let '(r, tq') := push now (rawurlencode c) data tq in
  turbine_task_push (serve cfg now) token c data s =
  (match r with Ok id => Some (php_int id) | Err _ => None end, set_tasks tq' s).
Proof.
  intros Hq Hid Hl. unfold turbine_task_push.
  change (lit "/_/task/push?channel=" ++ rawurlencode c)
    with (url_target (lit "/_/task" ++ lit "/push") [(lit "channel", rawurlencode c)]).
  destruct (channel_request now (lit "POST") (lit "/push") c [] (Some data) s tq Hq) as (-> & Hm & Hc);
    [done|apply (bool_decide_unpack _); by vm_compute|constructor|].
  unfold handle_task_queue. rewrite Hm, Hc. change (route_task _ _) with QPushJob. cbn match beta.
  rewrite curl_body_within by done. cbn match beta.
  assert (∀ id tq', push now (rawurlencode c) data tq = (Ok id, tq') → 0 ≤ id) as Hr.
  { intros id tq'. unfold push. pose proof (channel_or_create_id (rawurlencode c) tq) as E.
    destruct (channel_or_create (rawurlencode c) tq) as [[ch|e] q1]; [|done].
    destruct (push_back _ _); [|done]. intros [= <- _]. simpl in E. lia. }
  destruct (push now (rawurlencode c) data tq) as [[id|[n|n]] tq']; cbn match beta.
  - destruct (json_seen 200 (q (lit "{~id~:") ++ dec_string id ++ lit "}") ltac:(lia)) as [-> ->].
    cbn [Z.eqb]. cbn match beta.
    assert (dec_string id = show_i64 id) as ->.
    { unfold show_i64. by rewrite (proj2 (Z.ltb_ge _ _)) by (by eapply Hr). }
    change (q (lit "{~id~:") ++ show_i64 id ++ lit "}")
      with (x7b :: (x22 :: lit "id" ++ [x22; x3a]) ++ show_i64 id ++ [x7d]).
    rewrite preg_int_shown; [done|left; by eapply Hr|by intros ? [= <-]].
  - match goal with |- context [json _ _ _ _ 507 ?b] => by destruct (json_seen 507 b ltac:(lia)) as [-> ->] end.
  - match goal with |- context [json _ _ _ _ 507 ?b] => by destruct (json_seen 507 b ltac:(lia)) as [-> ->] end.
Qed.

Hypothesis Hname : valid_name (lit "X-Task-Id") = true.

Lemma digits_printable v : 0 ≤ v → forallb printable (dec_string v) = true.
Proof.
  intros Hv. apply forallb_forall. intros x Hx%list_elem_of_In.
  destruct (dec_string_digits v []) as (E & _ & _); [done|done|].
  pose proof (digits_prefix_digits (dec_string v ++ [])) as HF. rewrite E, Forall_forall in HF.
  destruct (HF x Hx) as [d Hd]. unfold digit in Hd. unfold printable. case_match; [|done]. lia.
Qed.

(** The headers of a job. *)
Lemma job_headers v data : 0 ≤ v →
  let r := build_response valid_status valid_name valid_value version 200
    (lit "application/octet-stream") data [(lit "X-Task-Id", dec_string v)] in
  rs_status r = 200 ∧ collect (rs_body r) = Some data ∧ task_id (header_lines r) = php_int v.
Proof.
  intros Hv r. unfold r, build_response. rewrite (Hvalue (lit "application/octet-stream")) by done.
  set (h := security_headers _ _).
  assert (Hh : ∀ n vs, h !! n = Some vs →
    n ∈ to_ascii_lowercase <$> [lit "Permissions-Policy"; lit "Referrer-Policy"; lit "X-XSS-Protection";
      lit "X-Frame-Options"; lit "X-Content-Type-Options"; lit "Server"; lit "Content-Length";
      lit "Content-Type"]).
  { intros n vs. unfold h, security_headers. cbn [foldl fst snd]. rewrite !hm_append_lookup.
    repeat (case_decide as Hn; [intros _; rewrite Hn; apply (bool_decide_unpack _); by vm_compute|clear Hn]). by rewrite lookup_empty. }
  split_and!; [unfold status_code; by rewrite Hstatus|done|].
  apply task_id_line; [done| |]; cbn [rs_headers foldl]; unfold add_valid; cbn [fst snd];
    rewrite Hname, (Hvalue (dec_string v)) by (by apply digits_printable); cbn [andb].
  - rewrite hm_append_lookup, decide_True by done.
    destruct (h !! lit "x-task-id") as [vs|] eqn:E; [|done].
    apply Hh in E. revert E. apply (bool_decide_unpack _). by vm_compute.
  - intros n vs x Hn Hne. rewrite hm_append_lookup, decide_False in Hn by done.
    apply Hh in Hn. csimpl in Hn. rewrite !elem_of_cons in Hn.
    destruct_or! Hn; subst; try done. by apply not_elem_of_nil in Hn.
Qed.

Lemma pop_call now c wait_ms s tq : sh_queue s = Some tq →
  Forall (λ j, 0 ≤ job_id j) (waiting_jobs (rawurlencode c) tq) →
  let '(j, tq') := pop (rawurlencode c) tq in
  turbine_task_pop (serve cfg now) token c wait_ms s =
  ((λ j, (php_int (job_id j), payload j)) <$> j, set_tasks tq' s).
Proof.
  intros Hq Hids. unfold turbine_task_pop.
  change (lit "/_/task/pop?channel=" ++ rawurlencode c ++ lit "&wait_ms=" ++ show_i64 wait_ms)
    with (url_target (lit "/_/task" ++ lit "/pop")
            [(lit "channel", rawurlencode c); (lit "wait_ms", show_i64 wait_ms)]).
  destruct (channel_request now (lit "POST") (lit "/pop") c [(lit "wait_ms", show_i64 wait_ms)] None s tq Hq)
    as (-> & Hm & Hc); [done|apply (bool_decide_unpack _); by vm_compute| |].
  { repeat constructor. 1, 2: by apply (bool_decide_unpack _); vm_compute. by apply show_i64_plain. }
  unfold handle_task_queue. rewrite Hm, Hc. change (route_task _ _) with QPopJob. cbn match beta.
  assert (Hj : ∀ j tq', pop (rawurlencode c) tq = (Some j, tq') → 0 ≤ job_id j).
  { intros j tq'. unfold pop, channel_or_create. unfold waiting_jobs in Hids.
    destruct (channels tq !! rawurlencode c) as [ch|].
    - destruct (queue ch) as [|j0 js]; simpl; [done|]. intros [= <- _]. by apply Forall_cons in Hids as [? _].
    - by destruct (TaskQueue.max_channels tq <=? _). }
  destruct (pop (rawurlencode c) tq) as [[j|] tq'] eqn:Ep; cbn match beta.
  - destruct (job_headers (job_id j) (payload j)) as (-> & -> & E); [by eapply Hj|]. cbn match beta.
    cbn [Z.eqb]. cbn match beta. by rewrite E.
  - by destruct (respond_seen 204 (lit "text/plain") []) as [-> ->].
Qed.

(** A job that a script pushes on an empty channel is what the next pop of that channel gives,
    with the number that the push returned and the bytes that were pushed. *)
Theorem php_task_roundtrip (now later wait_ms id : Z) (c data : bytes) (s : shared) (tq tq' : TaskQueue) :
  sh_queue s = Some tq → 0 ≤ next_id tq < 2 ^ 63 → waiting_jobs (rawurlencode c) tq = [] →
  zlen data ≤ body_limit cfg 1048576 ≤ u64_max →
  push now (rawurlencode c) data tq = (Ok id, tq') →
  let '(pushed, s1) := turbine_task_push (serve cfg now) token c data s in
  pushed = Some id ∧ (turbine_task_pop (serve cfg later) token c wait_ms s1).1 = Some (id, data).
Proof.
  intros Hq Hid Hw Hl Hp. pose proof (push_call now c data s tq Hq ltac:(lia) Hl) as Hpush.
  rewrite Hp in Hpush. rewrite Hpush. clear Hpush.
  assert (id = next_id tq ∧ channels tq' !! rawurlencode c =
    Some {| queue := [{| job_id := id; payload := data; enqueued_at := now |}];
            capacity := match channels tq !! rawurlencode c with
                        | Some ch => capacity ch | None => default_channel_capacity tq end |}) as [Eid Hch].
  { revert Hp. unfold push, channel_or_create. unfold waiting_jobs in Hw.
    destruct (channels tq !! rawurlencode c) as [ch|] eqn:Ec.
    - destruct ch as [js cap]; simpl in Hw; subst js. unfold push_back; simpl.
      destruct (cap <=? _); [done|]. intros [= <- <-]. simpl. by rewrite lookup_insert_eq.
    - destruct (_ <=? _); [done|]. unfold push_back; simpl. destruct (_ <=? _); [done|].
      intros [= <- <-]. simpl. by rewrite lookup_insert_eq. }
  rewrite php_int_id by lia. split; [done|].
  pose proof (pop_call later c wait_ms (set_tasks tq' s) tq' eq_refl) as Hpop.
  unfold waiting_jobs, pop, channel_or_create in Hpop. rewrite Hch in Hpop. simpl in Hpop.
  rewrite Hpop by (constructor; [simpl; lia|constructor]). simpl. by rewrite php_int_id by lia.
Qed.
End server.

(** ** Examples *)

Definition ex_php_shared (s : option SharedTable) (tq : option TaskQueue) (hub : option (WsHub simple_broadcast))
    (io : option AsyncIo) (fs : gmap bytes node)
    : shared (B := simple_broadcast) (ip := bytes) (FS := gmap bytes node) :=
  {| sh_metrics := collector_new 0; sh_cache := ∅; sh_security := with_config default_security;
     sh_table := s; sh_queue := tq; sh_hub := hub; sh_io := io; sh_fs := fs;
     sh_timers := []; sh_sessions := [] |}.

Definition ex_serve (cfg : AdminConfig) (now : Z) :=
  serve (λ _, true) (λ _, true) (λ _, true) (lit "1") id (λ _, None) (λ _ _, []) (λ _, true) 1 id
    (Some : bytes → option bytes) id fs_canonicalize fs_read fs_write (λ _, lit "0") map_to_list
    (lit "<p>%%LISTEN%%</p>") cfg now (B := simple_broadcast).

Definition ex_script : list (Z * table_call) :=
  [(5, CSet (lit "rate:ip/1&2") (lit "v") 10); (6, CIncr (lit "n") (-4)); (7, CGet (lit "rate:ip/1&2"));
   (8, CIncr (lit "n") 1); (10 ^ 8, CGet (lit "rate:ip/1&2")); (10 ^ 8, CExists (lit "n"))].

Lemma php_table_refines_map_witness :
  let cfg := ex_admin (Some (lit "secret")) in
  let s := ex_php_shared (Some (table_new 2)) None None None ∅ in
  let results := script_run (λ _, true) (λ _, true) (λ _, true) (lit "1") id (λ _, None) (λ _ _, [])
    (λ _, true) 1 id (Some : bytes → option bytes) id fs_canonicalize fs_read fs_write (λ _, lit "0")
    map_to_list (lit "<p>%%LISTEN%%</p>") cfg (lit "secret") ex_script s in
  (∃ tr, spec_trace 2 0 ∅ ∅ tr ∧ tr.*1 = (λ p, (p.1, op_of id p.2)) <$> ex_script ∧
         results.*2 = php_of <$> tr.*2) ∧
  results.*2 = [PBool true; PInt (-4); PString (lit "v"); PInt (-3); PNull; PBool true].
Proof.
  intros cfg s results. split; [|by vm_compute].
  apply (php_table_refines_map (λ _, true) (λ _, true) (λ _, true) (lit "1") id (λ _, None) (λ _ _, [])
    (λ _, true) 1 id (Some : bytes → option bytes) id fs_canonicalize fs_read fs_write (λ _, lit "0")
    map_to_list (lit "<p>%%LISTEN%%</p>"));
    [done|done|done|by split|done|repeat split; lia| |done].
  repeat constructor; vm_compute; congruence.
Defined.

(** A path below a root that the endpoint writes to when it is given as it is. *)
Example async_write_lost :
  let fs := <[lit "/srv/data" := Dir]> (∅ : gmap bytes node) in
  let s := ex_php_shared None None None (Some (io_new fs_canonicalize fs [lit "/srv/data"] 1000 1000)) fs in
  let raw := curl [] (lit "POST") (lit "/_/async/write?path=/srv/data/a") octets (Some (lit "x")) in
  curl_code (ex_serve (ex_admin None) 5 raw s).1 = 200 ∧
  (turbine_async_write (ex_serve (ex_admin None) 5) [] (lit "/srv/data/a") (lit "x") false s).1 = false.
Proof. by vm_compute. Qed.

(** An operation of an unknown kind moves the results after it. *)
Example parallel_shifted :
  turbine_async_parallel [] (λ _ _, None) [OUnknown (lit "raed"); OWrite (lit "a") [] false] = [RWrite false].
Proof. reflexivity. Qed.

Lemma async_write_never_absolute_witness :
  let s := ex_php_shared None None None (Some (io_new fs_canonicalize ∅ [] 1000 1000)) ∅ in
  let '(ok, s') := turbine_async_write (ex_serve (ex_admin None) 5) [] (lit "/a") (lit "x") false s in
  ok = false ∧ sh_fs s' = sh_fs s ∧ sh_io s' = sh_io s.
Proof.
  intros s. apply (async_write_never_absolute (λ _, true) (λ _, true) (λ _, true) (lit "1") id (λ _, None)
    (λ _ _, []) (λ _, true) 1 id (Some : bytes → option bytes) id fs_canonicalize fs_read fs_write
    (λ _, lit "0") map_to_list (lit "<p>%%LISTEN%%</p>")); done.
Defined.

Lemma php_task_roundtrip_witness :
  let s := ex_php_shared None (Some (queue_new 4 4)) None None ∅ in
  let '(pushed, s1) := turbine_task_push (ex_serve (ex_admin None) 5) [] (lit "mail/1") (lit "hello") s in
  pushed = Some 1 ∧
  (turbine_task_pop (ex_serve (ex_admin None) 6) [] (lit "mail/1") 0 s1).1 = Some (1, lit "hello").
Proof.
  intros s. eapply (php_task_roundtrip (λ _, true) (λ _, true) (λ _, true) (lit "1") id (λ _, None)
    (λ _ _, []) (λ _, true) 1 id (Some : bytes → option bytes) id fs_canonicalize fs_read fs_write
    (λ _, lit "0") map_to_list (lit "<p>%%LISTEN%%</p>")); try done.
Defined.
