(* ===== verification/RequestGate.v ===== *)
(** * From a request to a script (turbine-core/src/main.rs, http_helpers.rs,
    response.rs)

    How the server chooses what a request runs: the host picks an application,
    static files are served first, the path is resolved to a script, and the
    execution whitelist, the data directories, the verdict of the security layer
    and the path guard decide whether it runs; without persistent workers, the
    response cache is asked before. The file system is a parameter, as in
    PathGuard. The verdict is an argument: Security computes it from the same
    request before the path is resolved. Metrics, logs, the coalescer (Coalescer)
    and the dispatch to a worker (ThreadDispatch) are not repeated here. *)

From S2P Require Import Prelude RustStr BehaviourGuard ResponseCache PathGuard.

(** ** Start-up *)

(** Of the configuration, the state and the request, the fields that decide what
    runs; [dispatch_ready] says that the dispatch to persistent workers was built,
    and [rq_host] is the [Host] header when it is text. *)
Record VirtualHostConfig := {
  vh_domain : bytes;
  vh_root : bytes;
  vh_aliases : list bytes;
  vh_entry_point : option bytes }.

Record SandboxConfig := {
  execution_mode : bytes;
  sb_front_controller : option bool;
  sb_execution_whitelist : list bytes;
  sb_data_directories : list bytes }.

Record ServerState := {
  execution_whitelist : list bytes;
  data_directories : list bytes;
  request_guard : RequestGuard;
  app_structure : AppStructure;
  virtual_hosts : gmap bytes AppStructure;
  persistent_workers : bool;
  dispatch_ready : bool }.

Record Request := {
  rq_method : bytes;
  rq_path : bytes;
  rq_query_string : bytes;
  rq_host : option bytes }.

(** How a request ends, or what it runs. *)
Inductive outcome :=
| NotWhitelisted (php_path : bytes)
| InDataDirectory (php_path : bytes)
| SecurityBlocked (reason : block_reason)
| FileNotFound (php_path : bytes)
| PersistentUnavailable
| PersistentRun (script_filename document_root script_name : bytes)
| PathRefused (e : PathGuardError)
| ReadError
| CacheHit (r : CachedResponse)
| Execute (abs_php_path full_uri : bytes) (source_hash : Z).

Record static_response := {
  st_status : Z;
  st_content_type : bytes;
  st_body : bytes;
  st_headers : list (bytes * bytes) }.

Section gate.
Context (to_lowercase : bytes → bytes).
Context (path_exists is_file : bytes → bool).
(** [canonicalize] and [std::fs::read], when they succeed. *)
Context (canonicalize read_file : bytes → option bytes).
(** [xxh3_64], and its hexadecimal digits. *)
Context (xxh3 : bytes → Z).
Context (hex : Z → bytes).

Definition set_front_controller (fc : bool) (app : AppStructure) : AppStructure :=
  {| document_root := document_root app; entry_point := entry_point app; front_controller := fc;
     has_composer := has_composer app; has_env := has_env app;
     autoload_path := autoload_path app; document_root_str := document_root_str app |}.

Definition set_entry_point (ep : bytes) (app : AppStructure) : AppStructure :=
  {| document_root := document_root app; entry_point := ep;
     front_controller := front_controller app; has_composer := has_composer app;
     has_env := has_env app; autoload_path := autoload_path app;
     document_root_str := document_root_str app |}.

Definition detect_app (app_root : bytes) (fc : option bool) : AppStructure :=
  let app := detect path_exists app_root in
  match fc with Some b => set_front_controller b app | None => app end.

Definition add_vhost (app_root : bytes) (hosts : gmap bytes AppStructure)
    (cfg : VirtualHostConfig) : gmap bytes AppStructure :=
  let r := if is_absolute (vh_root cfg) then vh_root cfg else path_join app_root (vh_root cfg) in
  if negb (path_exists r) then hosts
  else
    let app := detect path_exists r in
    let app := match vh_entry_point cfg with Some ep => set_entry_point ep app | None => app end in
    foldl (λ m alias, <[to_lowercase alias := app]> m)
      (<[to_lowercase (vh_domain cfg) := app]> hosts) (vh_aliases cfg).

Definition build_whitelist (sb : SandboxConfig) (app : AppStructure) : list bytes :=
  if bool_decide (execution_mode sb = lit "strict") then
    if bool_decide (sb_execution_whitelist sb = []) then [entry_point app]
    else sb_execution_whitelist sb
  else if negb (bool_decide (sb_execution_whitelist sb = [])) then sb_execution_whitelist sb
  else [].

Definition server_state (app_root : bytes) (sb : SandboxConfig) (vhosts : list VirtualHostConfig)
    (persistent ready : bool) : ServerState :=
  let app := detect_app app_root (sb_front_controller sb) in
  {| execution_whitelist := build_whitelist sb app;
     data_directories := sb_data_directories sb;
     request_guard := {| root := document_root app |};
     app_structure := app;
     virtual_hosts := foldl (add_vhost app_root) ∅ vhosts;
     persistent_workers := persistent;
     dispatch_ready := ready |}.

(** ** The request *)

Definition resolve_app (s : ServerState) (r : Request) : AppStructure :=
  let vhost :=
    if bool_decide (virtual_hosts s = ∅) then None
    else h ← rq_host r; virtual_hosts s !! to_lowercase (default h (head (split x3a h))) in
  default (app_structure s) vhost.

(** [try_serve_static] *)
Definition mime_types : list (list bytes * bytes) :=
  [ ([lit "css"], lit "text/css; charset=utf-8");
    ([lit "js"; lit "mjs"], lit "application/javascript; charset=utf-8");
    ([lit "json"], lit "application/json");
    ([lit "html"; lit "htm"], lit "text/html; charset=utf-8");
    ([lit "xml"], lit "application/xml");
    ([lit "txt"], lit "text/plain; charset=utf-8");
    ([lit "svg"], lit "image/svg+xml");
    ([lit "png"], lit "image/png");
    ([lit "jpg"; lit "jpeg"], lit "image/jpeg");
    ([lit "gif"], lit "image/gif");
    ([lit "webp"], lit "image/webp");
    ([lit "ico"], lit "image/x-icon");
    ([lit "woff"], lit "font/woff");
    ([lit "woff2"], lit "font/woff2");
    ([lit "ttf"], lit "font/ttf");
    ([lit "otf"], lit "font/otf");
    ([lit "eot"], lit "application/vnd.ms-fontobject");
    ([lit "map"], lit "application/json");
    ([lit "webmanifest"], lit "application/manifest+json");
    ([lit "pdf"], lit "application/pdf");
    ([lit "zip"], lit "application/zip");
    ([lit "mp4"], lit "video/mp4");
    ([lit "mp3"], lit "audio/mpeg") ].

Definition mime_type_for_extension (path : bytes) : bytes :=
  let ext := to_lowercase (default [] (last (split x2e path))) in
  match list_find (λ m, ext ∈ m.1) mime_types with
  | Some (_, m) => m.2
  | None => lit "application/octet-stream"
  end.

Definition try_serve_static (document_root uri_path : bytes) (if_none_match : option bytes)
    : option static_response :=
  let clean := default uri_path (head (split x3f uri_path)) in
  if ends_with (lit ".php") clean || bool_decide (clean = lit "/") then None
  else
    let relative := trim_start_matches slash clean in
    if bool_decide (relative = []) || contains (lit "..") relative then None
    else
      resolved ← canonicalize (path_join document_root relative);
      root ← canonicalize document_root;
      if negb (path_starts_with root resolved) then None
      else if is_file resolved then
        body ← read_file resolved;
        let content_type := mime_type_for_extension relative in
        let etag := [x22] ++ hex (xxh3 body) ++ [x22] in
        let fresh := match if_none_match with
                     | Some e => bool_decide (e = etag) || bool_decide (trim e = etag)
                     | None => false
                     end in
        if fresh then
          Some {| st_status := 304; st_content_type := content_type; st_body := [];
                  st_headers := [(lit "ETag", etag)] |}
        else
          let cache_header := if contains (lit "/assets/") relative
                              then lit "public, max-age=31536000, immutable"
                              else lit "public, max-age=3600" in
          Some {| st_status := 200; st_content_type := content_type; st_body := body;
                  st_headers := [(lit "Cache-Control", cache_header); (lit "ETag", etag)] |}
      else None.

(** The checks between the path of the request and the choice of a worker. *)
Definition admit_script (s : ServerState) (verdict : Verdict) (r : Request)
    : result bytes outcome :=
  let php_path := resolve_path is_file (resolve_app s r) (rq_path r) in
  if negb (bool_decide (execution_whitelist s = [])) &&
     negb (bool_decide (php_path ∈ execution_whitelist s)) then Err (NotWhitelisted php_path)
  else if existsb (λ d, starts_with (trim_end_matches slash d) php_path) (data_directories s)
  then Err (InDataDirectory php_path)
  else match verdict with
       | Block reason => Err (SecurityBlocked reason)
       | Allow =>
           if guard_exists is_file (request_guard s) php_path then Ok php_path
           else Err (FileNotFound php_path)
       end.

Definition full_uri (r : Request) : bytes :=
  if bool_decide (rq_query_string r = []) then rq_path r
  else rq_path r ++ [x3f] ++ rq_query_string r.

Definition persistent_request (app : AppStructure) (php_path : bytes) : outcome :=
  PersistentRun (document_root_str app ++ [slash] ++ php_path) (document_root_str app)
    ([slash] ++ php_path).

(** Without persistent workers: validation, the hash of the source, the cache. *)
Definition lookup_response (config : CacheConfig) (now : Z) (s : ServerState) (r : Request)
    (php_path : bytes) (cache : store) : outcome * store :=
  match validate to_lowercase php_path with
  | Err e => (PathRefused e, cache)
  | Ok _ =>
      match read_file (path_join (root (request_guard s)) php_path) with
      | None => (ReadError, cache)
      | Some source =>
          let hash := xxh3 source in
          match get config now (rq_method r) (full_uri r) hash cache with
          | (Some c, cache) => (CacheHit c, cache)
          | (None, cache) =>
              (Execute (path_join (document_root (resolve_app s r)) php_path) (full_uri r) hash,
               cache)
          end
      end
  end.

Definition handle_script (config : CacheConfig) (now : Z) (s : ServerState) (verdict : Verdict)
    (r : Request) (cache : store) : outcome * store :=
  match admit_script s verdict r with
  | Err o => (o, cache)
  | Ok php_path =>
      if persistent_workers s then
        if dispatch_ready s then (persistent_request (resolve_app s r) php_path, cache)
        else (PersistentUnavailable, cache)
      else lookup_response config now s r php_path cache
  end.

(** What happens to the response of an executed script. *)
Definition response_prevents_caching (headers : list (bytes * bytes)) : bool :=
  existsb (λ '(k, v), eq_ignore_ascii_case k (lit "Cache-Control") &&
    (contains (lit "no-store") v || contains (lit "no-cache") v || contains (lit "private") v))
    headers.

Definition store_response (iter : store → list (bytes * CachedResponse)) (config : CacheConfig)
    (now : Z) (r : Request) (hash status : Z) (content_type : bytes)
    (headers : list (bytes * bytes)) (body : bytes) (cache : store) : store :=
  if response_prevents_caching headers then cache
  else put iter config now (rq_method r) (full_uri r) hash status content_type body cache.
End gate.

(** ** Lemmas *)

(** The script that PHP is given. *)
Definition runs (o : outcome) : option bytes :=
  match o with
  | PersistentRun f _ _ | Execute f _ _ => Some f
  | _ => None
  end.

(** [p] is in a data directory, as the guard reads it. *)
Definition in_data_directory (s : ServerState) (p : bytes) : Prop :=
  ∃ d k, d ∈ data_directories s ∧ p = trim_end_matches slash d ++ k.

Lemma data_directory_spec s p :
  existsb (λ d, starts_with (trim_end_matches slash d) p) (data_directories s) = true ↔
  in_data_directory s p.
Proof.
  rewrite existsb_exists. split.
  - intros (d & Hd & [k ->]%Is_true_true%starts_with_spec). exists d, k. by rewrite list_elem_of_In.
  - intros (d & k & Hd & ->). exists d. rewrite <-list_elem_of_In. split; [done|].
    apply Is_true_true, starts_with_spec. by exists k.
Qed.

Lemma guard_exists_spec is_file g p : guard_exists is_file g p = true ↔
  (x00 ∉ p) ∧ (lit ".." ∉ split slash p) ∧
  is_file (path_join (root g) (RustStr.join slash (pieces p))) = true.
Proof.
  unfold guard_exists. rewrite contains_byte, normalize_path_pieces, <-(dotdot_pieces p).
  case_bool_decide; [naive_solver|]. destruct (decide (lit ".." ∈ pieces p)); naive_solver.
Qed.

(** When a script may run: every check, and nothing else. *)
Definition admissible (is_file : bytes → bool) (s : ServerState) (verdict : Verdict)
    (p : bytes) : Prop :=
  (execution_whitelist s = [] ∨ p ∈ execution_whitelist s) ∧
  ¬ in_data_directory s p ∧ verdict = Allow ∧ (x00 ∉ p) ∧ (lit ".." ∉ split slash p) ∧
  is_file (path_join (root (request_guard s)) (RustStr.join slash (pieces p))) = true.

Lemma admit_script_spec to_lowercase is_file s verdict r p :
  admit_script to_lowercase is_file s verdict r = Ok p ↔
  p = resolve_path is_file (resolve_app to_lowercase s r) (rq_path r) ∧
  admissible is_file s verdict p.
Proof.
  unfold admit_script, admissible. set (q := resolve_path _ _ _).
  rewrite <-guard_exists_spec, <-data_directory_spec, not_true_iff_false.
  assert (∀ P Q : Prop, (p = q → P ↔ Q) → (P → p = q) → P ↔ p = q ∧ Q) as Hq by naive_solver.
  apply Hq; [intros ->|by repeat case_match; intros [= <-]]. clear Hq.
  destruct (decide (execution_whitelist s = [])), (decide (q ∈ execution_whitelist s)),
    verdict, (guard_exists is_file (request_guard s) q);
    repeat first [rewrite bool_decide_true by done|rewrite bool_decide_false by done]; simpl;
    destruct (existsb _ (data_directories s)); split; try done; intuition congruence.
Qed.

(** *** The applications of a server *)

Definition app_wf (app : AppStructure) : Prop :=
  document_root_str app = document_root app ∧ is_absolute (entry_point app) = false.

Lemma detect_wf path_exists app_root : app_wf (detect path_exists app_root).
Proof. unfold detect, app_wf. by repeat case_match. Qed.

Lemma aliases_wf (f : bytes → bytes) (app : AppStructure) (al : list bytes) (m : gmap bytes AppStructure) :
  app_wf app → map_Forall (λ _, app_wf) m →
  map_Forall (λ _, app_wf) (foldl (λ m a, <[f a := app]> m) m al).
Proof.
  intros Ha. revert m. induction al as [|a al IH]; intros m Hm; [done|]. simpl.
  apply IH. by apply map_Forall_insert_2.
Qed.

Definition relative_entries (vhosts : list VirtualHostConfig) : Prop :=
  Forall (λ v, ∀ ep, vh_entry_point v = Some ep → is_absolute ep = false) vhosts.

Lemma vhosts_wf to_lowercase path_exists app_root vhosts m :
  relative_entries vhosts → map_Forall (λ _, app_wf) m →
  map_Forall (λ _, app_wf) (foldl (add_vhost to_lowercase path_exists app_root) m vhosts).
Proof.
  intros Hv. revert m. induction Hv as [|v vhosts Hv _ IH]; intros m Hm; [done|]. simpl.
  apply IH. unfold add_vhost. destruct (negb _); [done|].
  set (app := match vh_entry_point v with Some ep => _ | None => _ end).
  assert (app_wf app) as Ha.
  { subst app. destruct (vh_entry_point v) as [ep|]; [|apply detect_wf].
    split; [apply detect_wf|by apply Hv]. }
  by apply aliases_wf, map_Forall_insert_2.
Qed.

Lemma resolve_app_wf to_lowercase path_exists app_root sb vhosts persistent ready r :
  relative_entries vhosts →
  app_wf (resolve_app to_lowercase
    (server_state to_lowercase path_exists app_root sb vhosts persistent ready) r).
Proof.
  intros Hv. unfold resolve_app. simpl.
  assert (app_wf (detect_app path_exists app_root (sb_front_controller sb))) as Hd.
  { unfold detect_app. destruct (sb_front_controller sb); [split|]; apply detect_wf. }
  case_bool_decide; [done|]. destruct (rq_host r) as [h|]; [|done]. simpl.
  destruct (foldl _ _ _ !! _) as [app|] eqn:E; [|done]. simpl.
  eapply (vhosts_wf _ _ _ _ ∅) in E; [done|done|apply map_Forall_empty].
Qed.

Lemma trim_start_relative s : is_absolute (trim_start_matches slash s) = false.
Proof.
  induction s as [|x s IH]; [done|]. simpl. case_decide; [done|].
  unfold is_absolute, starts_with. apply bool_decide_eq_false. by intros [=].
Qed.

Lemma app_relative s t : s ≠ [] → is_absolute s = false → is_absolute (s ++ t) = false.
Proof. destruct s; [done|]. intros _ H. exact H. Qed.

Lemma trim_end_prefix c s : ∃ k, s = trim_end_matches c s ++ k.
Proof.
  unfold trim_end_matches.
  assert (∀ u, ∃ k, u = k ++ trim_start_matches c u) as H.
  { intros u. induction u as [|x u [k IH]]; simpl; [by exists []|]. case_decide; [|by exists []].
    exists (x :: k). simpl. by f_equal. }
  destruct (H (reverse s)) as [k Hk]. exists (reverse k).
  by rewrite <-reverse_app, <-Hk, reverse_involutive.
Qed.

Lemma resolve_path_relative is_file app uri : is_absolute (entry_point app) = false →
  is_absolute (resolve_path is_file app uri) = false.
Proof.
  intros He. unfold resolve_path. set (rel := trim_start_matches slash _).
  assert (is_absolute rel = false) as Hr by apply trim_start_relative.
  repeat case_match; try done. apply andb_true_iff in H1 as [Ht%negb_true_iff%bool_decide_eq_false _].
  apply app_relative; [done|]. destruct (trim_end_prefix slash rel) as [k Hk].
  destruct (trim_end_matches slash rel) as [|x t] eqn:E; [done|]. rewrite Hk in Hr. exact Hr.
Qed.

Lemma handle_script_runs to_lowercase is_file read_file xxh3 config now s verdict r cache o
    cache' f :
  handle_script to_lowercase is_file read_file xxh3 config now s verdict r cache = (o, cache') →
  runs o = Some f →
  let app := resolve_app to_lowercase s r in
  ∃ p, admit_script to_lowercase is_file s verdict r = Ok p ∧
    (f = document_root_str app ++ [slash] ++ p ∨ f = path_join (document_root app) p).
Proof.
  intros Hh Hr app. unfold handle_script in Hh.
  destruct (admit_script to_lowercase is_file s verdict r) as [p|e] eqn:Ea.
  - exists p. split; [done|]. unfold lookup_response, persistent_request in Hh.
    repeat case_match; simplify_eq/=; auto.
  - exfalso. simplify_eq. unfold admit_script in Ea. by repeat case_match; simplify_eq/=.
Qed.

(** ** What runs *)

(** C9: No script runs outside its application: whatever the request, the host and the
    file system, on a server whose configured entry points are relative, the file that PHP
    is given has the names of the document root of the host followed by those of the
    resolved path, which has no NUL byte and no [..], names a regular file under the root of
    the guard, is in the execution whitelist if there is one, does not start with a data
    directory, and was allowed by the security layer. *)
Theorem script_run_confined (to_lowercase : bytes → bytes) (path_exists is_file : bytes → bool)
    (read_file : bytes → option bytes) (xxh3 : bytes → Z) (config : CacheConfig) (now : Z)
    (app_root : bytes) (sb : SandboxConfig) (vhosts : list VirtualHostConfig)
    (persistent ready : bool) (verdict : Verdict) (r : Request) (cache cache' : store)
    (o : outcome) (f : bytes) :
  let s := server_state to_lowercase path_exists app_root sb vhosts persistent ready in
  let app := resolve_app to_lowercase s r in
  let p := resolve_path is_file app (rq_path r) in
  relative_entries vhosts →
  handle_script to_lowercase is_file read_file xxh3 config now s verdict r cache = (o, cache') →
  runs o = Some f →
  admissible is_file s verdict p ∧ pieces f = pieces (document_root app) ++ pieces p.
Proof.
  intros s app p Hv Hh Hr.
  destruct (handle_script_runs _ _ _ _ _ _ _ _ _ _ _ _ _ Hh Hr) as (q & Hq & Hf).
  apply admit_script_spec in Hq as [-> Hq]. split; [exact Hq|]. fold app p in Hf.
  destruct (resolve_app_wf to_lowercase path_exists app_root sb vhosts persistent ready r Hv)
    as [Hd He]. fold s app in Hd, He.
  destruct Hf as [->| ->].
  - rewrite Hd. apply pieces_below.
  - by apply path_join_pieces, resolve_path_relative.
Qed.

Lemma script_run_confined_witness :
  let fs p := bool_decide (p ∈ [lit "/app/public/index.php"; lit "/app/public/a/b.php"]) in
  let sb := {| execution_mode := lit "framework"; sb_front_controller := None;
               sb_execution_whitelist := []; sb_data_directories := [lit "storage/"] |} in
  let s := server_state to_ascii_lowercase fs (lit "/app") sb [] true true in
  let r := {| rq_method := lit "GET"; rq_path := lit "/a/b.php"; rq_query_string := [];
              rq_host := None |} in
  admissible fs s Allow (lit "a/b.php") ∧
  pieces (lit "/app/public/a/b.php") = pieces (lit "/app/public") ++ pieces (lit "a/b.php").
Proof.
  intros fs sb s r.
  exact (script_run_confined to_ascii_lowercase fs fs (λ _, None) (λ _, 0) default_config 0
    (lit "/app") sb [] true true Allow r ∅ ∅
    (PersistentRun (lit "/app/public/a/b.php") (lit "/app/public") (lit "/a/b.php")) _
    (Forall_nil_2 _) eq_refl eq_refl).
Defined.

(** ** Data directories *)

(** The steps of the resolution for a path without a query that ends with [.php]. *)
Lemma resolve_php is_file app rel : x3f ∉ rel → is_absolute rel = false → rel ≠ [] →
  ends_with (lit ".php") rel = true →
  resolve_path is_file app (slash :: rel) =
  let index := trim_end_matches slash rel ++ lit "/index.php" in
  if is_file (path_join (document_root app) rel) then rel
  else if negb (bool_decide (trim_end_matches slash rel = [])) &&
          is_file (path_join (document_root app) index) then index
  else if front_controller app then entry_point app else rel.
Proof.
  intros Hq Ha Hne Hp. unfold resolve_path. rewrite split_single by set_solver. simpl.
  assert (trim_start_matches slash rel = rel) as ->.
  { destruct rel as [|x rel]; [done|]. simpl. rewrite decide_False; [done|].
    intros ->. by rewrite (proj2 (is_absolute_split _)) in Ha by eauto. }
  assert (ends_with (lit ".php") (slash :: rel) = true) as ->.
  { apply Is_true_true in Hp. apply ends_with_spec in Hp as [k ->].
    apply Is_true_true, ends_with_spec. by exists (slash :: k). }
  rewrite (bool_decide_false (rel = [])) by done. simpl. destruct (is_file (path_join _ rel)); [done|].
  rewrite (bool_decide_false (_ = lit "/")) by (intros [=]; done). by rewrite !orb_false_r.
Qed.

(** C40: The guard of the data directories is a comparison of strings: a script below a
    data directory is refused under its plain path, and runs when the same path is written
    with a leading [./], on a server without an execution whitelist whose data directories
    are not themselves written with a leading dot. *)
Theorem data_directory_bypass (to_lowercase : bytes → bytes) (is_file : bytes → bool)
    (read_file : bytes → option bytes) (xxh3 : bytes → Z) (config : CacheConfig) (now : Z)
    (s : ServerState) (method query : bytes) (host : option bytes) (dir rel : bytes)
    (cache : store) :
  let req path := {| rq_method := method; rq_path := path; rq_query_string := query;
                     rq_host := host |} in
  let app := resolve_app to_lowercase s (req []) in
  let handle path := handle_script to_lowercase is_file read_file xxh3 config now s Allow
                       (req path) cache in
  execution_whitelist s = [] → persistent_workers s = true → dispatch_ready s = true →
  dir ∈ data_directories s → (∃ k, rel = trim_end_matches slash dir ++ k) →
  Forall (λ d, ∃ c, head (trim_end_matches slash d) = Some c ∧ c ≠ x2e) (data_directories s) →
  x3f ∉ rel → x00 ∉ rel → lit ".." ∉ split slash rel → is_absolute rel = false →
  ends_with (lit ".php") rel = true →
  is_file (path_join (document_root app) rel) = true →
  is_file (path_join (document_root app) (lit "./" ++ rel)) = true →
  is_file (path_join (root (request_guard s)) (RustStr.join slash (pieces rel))) = true →
  handle (slash :: rel) = (InDataDirectory rel, cache) ∧
  runs (handle (lit "/./" ++ rel)).1 = Some (document_root_str app ++ lit "/./" ++ rel).
Proof.
  intros req app handle Hw Hp Hr Hd Hk Hdirs Hq H0 Hdd Ha He Hf1 Hf2 Hg.
  assert (rel ≠ []) as Hne by (intros ->; by vm_compute in He).
  split; unfold handle, handle_script.
  - assert (admit_script to_lowercase is_file s Allow (req (slash :: rel)) =
      Err (InDataDirectory rel)) as ->; [|done].
    unfold admit_script. change (resolve_app _ _ _) with app. simpl.
    rewrite resolve_php by done. rewrite Hf1, Hw. rewrite bool_decide_true by done. simpl.
    destruct Hk as [k Hk]. assert (in_data_directory s rel) as Hin by (by exists dir, k).
    apply data_directory_spec in Hin. by rewrite Hin.
  - change (lit "/./" ++ rel) with (slash :: lit "./" ++ rel).
    assert (admit_script to_lowercase is_file s Allow (req (slash :: lit "./" ++ rel)) =
      Ok (lit "./" ++ rel)) as ->; [|by rewrite Hp, Hr].
    apply admit_script_spec. change (resolve_app _ _ _) with app. simpl rq_path. split.
    { rewrite resolve_php; [by rewrite Hf2|set_solver|done|done|].
      apply Is_true_true in He. apply ends_with_spec in He as [k ->].
      apply Is_true_true, ends_with_spec. by exists (lit "./" ++ k). }
    assert (pieces (lit "./" ++ rel) = pieces rel) as Hpc by apply (pieces_below (lit ".") rel).
    split_and!; [by left| |done|set_solver| |by rewrite Hpc].
    + intros (d & k & Hin & E). rewrite Forall_forall in Hdirs.
      destruct (Hdirs d Hin) as (c & Hc & Hcd). apply Hcd.
      destruct (trim_end_matches slash d) as [|c' t]; [done|]. by injection Hc as ->; injection E as <-.
    + by rewrite <-dotdot_pieces, Hpc, dotdot_pieces.
Qed.

Lemma data_directory_bypass_witness :
  let fs p := bool_decide (p ∈ [lit "/app/uploads/x.php"; lit "/app/./uploads/x.php"]) in
  let app := detect (λ _, false) (lit "/app") in
  let s := {| execution_whitelist := []; data_directories := [lit "storage/"; lit "uploads/"];
              request_guard := {| root := lit "/app" |}; app_structure := app;
              virtual_hosts := ∅; persistent_workers := true; dispatch_ready := true |} in
  let req path := {| rq_method := lit "GET"; rq_path := path; rq_query_string := [];
                     rq_host := None |} in
  let handle path := handle_script to_ascii_lowercase fs (λ _, None) (λ _, 0) default_config 0 s
                       Allow (req path) ∅ in
  handle (slash :: lit "uploads/x.php") = (InDataDirectory (lit "uploads/x.php"), ∅) ∧
  runs (handle (lit "/./" ++ lit "uploads/x.php")).1 =
    Some (lit "/app" ++ lit "/./" ++ lit "uploads/x.php").
Proof.
  intros fs app s req handle.
  apply (data_directory_bypass to_ascii_lowercase fs (λ _, None) (λ _, 0) default_config 0 s
    (lit "GET") [] None (lit "uploads/") (lit "uploads/x.php") ∅);
    [reflexivity|reflexivity|reflexivity|set_solver| | |
     apply (bool_decide_unpack _); vm_compute; exact I..|vm_compute; reflexivity|
     vm_compute; reflexivity|vm_compute; reflexivity|vm_compute; reflexivity|
     vm_compute; reflexivity].
  - exists (lit "/x.php"). vm_compute. reflexivity.
  - constructor; [by exists x73|]. constructor; [by exists x75|constructor].
Defined.

(** ** Virtual hosts *)

Lemma lookup_execute to_lowercase read_file xxh3 config now s r p cache f uri hash cache' :
  lookup_response to_lowercase read_file xxh3 config now s r p cache =
    (Execute f uri hash, cache') →
  f = path_join (document_root (resolve_app to_lowercase s r)) p ∧
  (∃ n, validate to_lowercase p = Ok n) ∧
  ∃ source, read_file (path_join (root (request_guard s)) p) = Some source ∧ hash = xxh3 source.
Proof. unfold lookup_response. intros H. repeat case_match; simplify_eq/=; naive_solver. Qed.

(** C39: The response cache does not know the host: without persistent workers, when a [GET]
    of one host ran a script of its own document root and the response was stored, the same
    path asked of another host that resolves it to the same script name is answered from
    the cache with the response of the first host, until it expires. *)
Theorem vhosts_share_responses (to_lowercase : bytes → bytes) (is_file : bytes → bool)
    (read_file : bytes → option bytes) (xxh3 : bytes → Z)
    (iter : store → list (bytes * CachedResponse)) (config : CacheConfig) (t0 t1 now : Z)
    (s : ServerState) (path query : bytes) (host1 host2 : option bytes) (cache cache1 : store)
    (f uri : bytes) (hash : Z) (ct body : bytes) (headers : list (bytes * bytes)) :
  let req host := {| rq_method := lit "GET"; rq_path := path; rq_query_string := query;
                     rq_host := host |} in
  let app host := resolve_app to_lowercase s (req host) in
  let p := resolve_path is_file (app host1) path in
  let handle now host := handle_script to_lowercase is_file read_file xxh3 config now s Allow
                           (req host) in
  let cache2 := store_response iter config t1 (req host1) hash 200 ct headers body cache1 in
  resolve_path is_file (app host2) path = p → persistent_workers s = false →
  cfg_enabled config = true → t1 ≤ now → now - t1 < cfg_ttl config →
  response_prevents_caching headers = false →
  handle t0 host1 cache = (Execute f uri hash, cache1) →
  f = path_join (document_root (app host1)) p ∧
  ∃ c, handle now host2 cache2 = (CacheHit c, cache2) ∧ cr_body c = body ∧ cr_content_type c = ct.
Proof.
  intros req app p handle cache2 Hp Hpers He Ht Httl Hh Hx. unfold handle, handle_script in Hx.
  destruct (admit_script to_lowercase is_file s Allow (req host1)) as [q|o] eqn:Ea1.
  2: { exfalso. simplify_eq. unfold admit_script in Ea1. by repeat case_match; simplify_eq/=. }
  apply admit_script_spec in Ea1 as [-> Hadm]. change (rq_path (req host1)) with path in *.
  fold (app host1) p in Hx, Hadm. rewrite Hpers in Hx.
  destruct (lookup_execute _ _ _ _ _ _ _ _ _ _ _ _ _ Hx) as (-> & [n Hn] & src & Hs & ->).
  split; [done|]. unfold handle, handle_script.
  rewrite (proj2 (admit_script_spec to_lowercase is_file s Allow (req host2) p))
    by (split; [by rewrite <-Hp|done]).
  rewrite Hpers. unfold lookup_response. rewrite Hn, Hs. unfold get. rewrite He. simpl.
  subst cache2. unfold store_response. rewrite Hh. unfold put. rewrite He.
  rewrite (bool_decide_true (_ = lit "GET")) by done. simpl.
  change (full_uri (req host2)) with (full_uri (req host1)). rewrite lookup_insert_eq.
  unfold is_valid, elapsed. simpl. rewrite Z.eqb_refl. simpl.
  destruct (Z.ltb_spec (Z.max 0 (now - t1)) (cfg_ttl config)) as [_|]; [|lia]. eauto.
Qed.

Lemma vhosts_share_responses_witness :
  let fs p := bool_decide (p ∈ [lit "/a/index.php"; lit "/b/index.php"; lit "/m/index.php"]) in
  let host a := {| document_root := a; document_root_str := a; entry_point := lit "index.php";
    front_controller := true; has_composer := true; has_env := false; autoload_path := None |} in
  let s := {| execution_whitelist := []; data_directories := [];
    request_guard := {| root := lit "/m" |}; app_structure := host (lit "/m");
    virtual_hosts := <[lit "a.org" := host (lit "/a")]> {[lit "b.org" := host (lit "/b")]};
    persistent_workers := false; dispatch_ready := false |} in
  let req h := {| rq_method := lit "GET"; rq_path := lit "/me"; rq_query_string := [];
                  rq_host := Some h |} in
  let handle now h := handle_script to_ascii_lowercase fs (λ _, Some (lit "<?php")) (λ _, 7)
                        default_config now s Allow (req h) in
  let cache2 := store_response map_to_list default_config 5 (req (lit "a.org:80")) 7 200
                  (lit "text/html") [] (lit "hi") ∅ in
  lit "/a/index.php" = path_join (lit "/a") (lit "index.php") ∧
  ∃ c, handle 9 (lit "b.org") cache2 = (CacheHit c, cache2) ∧ cr_body c = lit "hi" ∧
    cr_content_type c = lit "text/html".
Proof.
  intros fs host s req handle cache2.
  apply (vhosts_share_responses to_ascii_lowercase fs (λ _, Some (lit "<?php")) (λ _, 7)
    map_to_list default_config 3 5 9 s (lit "/me") [] (Some (lit "a.org:80"))
    (Some (lit "b.org")) ∅ ∅ (lit "/a/index.php") (lit "/me") 7 (lit "text/html") (lit "hi") []);
    [vm_compute; reflexivity|reflexivity|reflexivity|lia|vm_compute; reflexivity|reflexivity|
     vm_compute; reflexivity].
Defined.

(** A host whose script exists in its own document root only never runs it: the guard looks
    below the root of the main application. *)
Theorem vhost_only_script_not_found (to_lowercase : bytes → bytes) (is_file : bytes → bool)
    (s : ServerState) (r : Request) :
  let p := resolve_path is_file (resolve_app to_lowercase s r) (rq_path r) in
  (execution_whitelist s = [] ∨ p ∈ execution_whitelist s) → ¬ in_data_directory s p →
  is_file (path_join (root (request_guard s)) (RustStr.join slash (pieces p))) = false →
  admit_script to_lowercase is_file s Allow r = Err (FileNotFound p).
Proof.
  intros p Hw Hd Hf. unfold admit_script. fold p.
  assert (guard_exists is_file (request_guard s) p = false) as ->.
  { apply not_true_iff_false. rewrite guard_exists_spec, Hf. by intros (_ & _ & ?). }
  rewrite <-data_directory_spec in Hd. apply not_true_iff_false in Hd. rewrite Hd.
  destruct Hw as [Hw|Hw]; [by rewrite bool_decide_true by done|].
  rewrite (bool_decide_true (p ∈ _)) by done. by rewrite andb_false_r.
Qed.

(** ** Static files *)

(** A static file that is served lies below the document root after symbolic links are
    resolved, is not asked for as a [.php] path and is sent whole; its ETag, sent back,
    gets 304 without a body, and only that ETag (up to white space around it) does. *)
Theorem static_file_revalidates (to_lowercase : bytes → bytes) (is_file : bytes → bool)
    (canonicalize read_file : bytes → option bytes) (xxh3 : bytes → Z) (hex : Z → bytes)
    (document_root uri : bytes) (st : static_response) :
  let serve := try_serve_static to_lowercase is_file canonicalize read_file xxh3 hex
                 document_root uri in
  serve None = Some st →
  (∃ file base rest, canonicalize document_root = Some base ∧
    components file = components base ++ rest ∧ is_file file = true ∧
    read_file file = Some (st_body st)) ∧
  st_status st = 200 ∧ ends_with (lit ".php") (default uri (head (split x3f uri))) = false ∧
  ∃ etag, (lit "ETag", etag) ∈ st_headers st ∧
    serve (Some etag) = Some {| st_status := 304; st_content_type := st_content_type st;
                                st_body := []; st_headers := [(lit "ETag", etag)] |} ∧
    ∀ e st', serve (Some e) = Some st' → st_status st' = 304 ∧ (e = etag ∨ trim e = etag) ∨ st' = st.
Proof.
  intros serve. unfold serve, try_serve_static.
  destruct (ends_with _ _) eqn:Ephp; [done|]. destruct (bool_decide (_ = lit "/")); [done|]. simpl.
  set (rel := trim_start_matches slash _). destruct (_ || _); [done|].
  destruct (canonicalize (path_join document_root rel)) as [file|]; [|done]. simpl.
  destruct (canonicalize document_root) as [base|]; [|done]. simpl.
  destruct (path_starts_with base file) eqn:Epre; [|done]. simpl.
  destruct (is_file file) eqn:Efile; [|done].
  destruct (read_file file) as [body|] eqn:Eread; [|done]. simpl.
  set (etag := x22 :: hex (xxh3 body) ++ [x22]). intros [= <-]. simpl. split; [|split_and!; [done..|]].
  - apply path_starts_with_spec in Epre as [rest Hrest]. by exists file, base, rest.
  - exists etag. split; [set_solver|]. split; [by rewrite bool_decide_true|].
    intros e st'. case_bool_decide; simpl; [intros [= <-]; left; auto|].
    case_bool_decide; intros [= <-]; auto.
Qed.

Lemma static_file_revalidates_witness :
  let canon p := if bool_decide (p = lit "/srv/./a.css") then Some (lit "/srv/a.css") else Some p in
  let fs p := bool_decide (p = lit "/srv/a.css") in
  let serve := try_serve_static to_ascii_lowercase fs canon
    (λ _, Some (lit "p{}")) (λ _, 7) (λ _, lit "7") (lit "/srv") (lit "/./a.css") in
  ∃ etag st, serve None = Some st ∧ (lit "ETag", etag) ∈ st_headers st ∧
    serve (Some etag) = Some {| st_status := 304; st_content_type := lit "text/css; charset=utf-8";
                                st_body := []; st_headers := [(lit "ETag", etag)] |}.
Proof.
  intros canon fs serve.
  set (st := {| st_status := 200; st_content_type := lit "text/css; charset=utf-8";
    st_body := lit "p{}"; st_headers := [(lit "Cache-Control", lit "public, max-age=3600");
                                         (lit "ETag", x22 :: lit "7" ++ [x22])] |}).
  assert (serve None = Some st) as Hst by (vm_compute; reflexivity).
  destruct (static_file_revalidates to_ascii_lowercase fs canon
    (λ _, Some (lit "p{}")) (λ _, 7) (λ _, lit "7") (lit "/srv") (lit "/./a.css") st Hst)
    as (_ & _ & _ & etag & He & Hs & _).
  exists etag, st. split; [exact Hst|]. split; [exact He|exact Hs].
Defined.

(** ** What the guard adds *)

(** Once a script is admitted, [validate] can only refuse it for a drive letter: the list of
    system paths is of absolute paths, and the path of a script never is. *)
Theorem validate_only_drive_letters (to_lowercase : bytes → bytes) (is_file : bytes → bool)
    (s : ServerState) (verdict : Verdict) (r : Request) (p : bytes) (e : PathGuardError) :
  (∀ q, is_absolute (to_lowercase q) = is_absolute q) →
  is_absolute (entry_point (resolve_app to_lowercase s r)) = false →
  admit_script to_lowercase is_file s verdict r = Ok p →
  validate to_lowercase p = Err e →
  e = BlockedPath p ∧ (contains (lit "c:\") (to_lowercase p) = true ∨
                       contains (lit "c:/") (to_lowercase p) = true).
Proof.
  intros Hl He (Hp & _ & _ & _ & H0 & Hdd & _)%admit_script_spec Hv.
  rewrite (proj1 (validate_exact to_lowercase p)) in Hv.
  rewrite decide_False in Hv by done. rewrite decide_False in Hv by done.
  case_decide as Hb; [|done]. injection Hv as <-. split; [done|].
  destruct Hb as [Hb|Hb]; [|done]. exfalso.
  assert (is_absolute (to_lowercase p) = true) as Ha.
  { apply Exists_exists in Hb as (b & Hb & Hs). apply Is_true_true, starts_with_spec in Hs as [k ->].
    assert (Forall (λ b, head b = Some slash) BLOCKED_PATHS) as Hall by by repeat constructor.
    rewrite Forall_forall in Hall. apply is_absolute_split.
    specialize (Hall b Hb). destruct b as [|c b]; [done|]. injection Hall as ->. by eexists. }
  by rewrite Hl, Hp, resolve_path_relative in Ha.
Qed.

(** With a front controller, a request tells whether a file outside the document root exists:
    a path that climbs out is looked up on disk before the guard sees it. *)
Theorem outside_file_visible (to_lowercase : bytes → bytes) (is_file : bytes → bool)
    (s : ServerState) (r : Request) (rel : bytes) :
  let app := resolve_app to_lowercase s r in
  rq_path r = slash :: rel → x3f ∉ rel → is_absolute rel = false → rel ≠ [] →
  ends_with (lit ".php") rel = true → lit ".." ∈ split slash rel →
  is_file (path_join (document_root app) (trim_end_matches slash rel ++ lit "/index.php")) = false →
  front_controller app = true → execution_whitelist s = [] → data_directories s = [] →
  admissible is_file s Allow (entry_point app) →
  admit_script to_lowercase is_file s Allow r =
    if is_file (path_join (document_root app) rel) then Err (FileNotFound rel)
    else Ok (entry_point app).
Proof.
  intros app Hr Hq Ha Hne Hp Hdd Hi Hfc Hw Hd Hadm.
  assert (resolve_path is_file app (rq_path r) =
    if is_file (path_join (document_root app) rel) then rel else entry_point app) as Hres.
  { rewrite Hr, resolve_php by done. simpl. by rewrite Hi, andb_false_r, Hfc. }
  destruct (is_file (path_join (document_root app) rel)).
  - unfold admit_script. fold app. rewrite Hres, Hw, Hd. simpl.
    assert (guard_exists is_file (request_guard s) rel = false) as ->; [|done].
    apply not_true_iff_false. rewrite guard_exists_spec. by intros (_ & ? & _).
  - apply admit_script_spec. split; [by fold app; rewrite Hres|done].
Qed.
