(* ===== verification/Features.v ===== *)
(** * Hooks on the response of a script (turbine-core/src/features.rs,
    response.rs) and the routes of the worker pools (main.rs)

    A script talks to the server through its response: lines with a marker are log
    entries, an [X-Sendfile] header names a file to send in place of the body, and
    the one-shot executor wraps status and headers in an envelope of marked lines.
    The file system is a parameter, as in RequestGate; a log entry that is emitted
    is returned. *)

From S2P Require Import Prelude RustStr Utf8 PathGuard.

(** ** Early hints *)

Definition TURBINE_EARLY_HINT_MARKER : bytes := lit "__TURBINE_EARLY_HINT__" ++ [x09].

Definition extract_early_hints (headers : list (bytes * bytes)) : list bytes :=
  snd <$> List.filter (λ h, eq_ignore_ascii_case h.1 (lit "Link")) headers.

Definition parse_early_hint_markers (meta_lines : bytes) : list bytes :=
  omap (strip_prefix TURBINE_EARLY_HINT_MARKER) (lines meta_lines).

(** ** X-Sendfile *)

Definition is_sendfile_header (k : bytes) : bool :=
  eq_ignore_ascii_case k (lit "X-Accel-Redirect") || eq_ignore_ascii_case k (lit "X-Sendfile").

Fixpoint check_x_sendfile (headers : list (bytes * bytes)) : option bytes :=
  match headers with
  | [] => None
  | (k, v) :: headers' => if is_sendfile_header k then Some v else check_x_sendfile headers'
  end.

(** [path.extension()]: of the last component when it is a name, what follows its
    last dot, unless nothing precedes that dot. *)
Definition path_extension (path : bytes) : option bytes :=
  match last (components path) with
  | Some (Normal name) =>
      '(after, before) ← split_once x2e (reverse name);
      if decide (before = []) then None else Some (reverse after)
  | _ => None
  end.

Definition sendfile_types : list (list bytes * bytes) :=
  [ ([lit "pdf"], lit "application/pdf");
    ([lit "zip"], lit "application/zip");
    ([lit "gz"; lit "tgz"], lit "application/gzip");
    ([lit "tar"], lit "application/x-tar");
    ([lit "csv"], lit "text/csv");
    ([lit "xlsx"], lit "application/vnd.openxmlformats-officedocument.spreadsheetml.sheet");
    ([lit "docx"], lit "application/vnd.openxmlformats-officedocument.wordprocessingml.document");
    ([lit "png"], lit "image/png");
    ([lit "jpg"; lit "jpeg"], lit "image/jpeg");
    ([lit "gif"], lit "image/gif");
    ([lit "webp"], lit "image/webp");
    ([lit "svg"], lit "image/svg+xml");
    ([lit "mp4"], lit "video/mp4");
    ([lit "mp3"], lit "audio/mpeg");
    ([lit "txt"], lit "text/plain");
    ([lit "html"; lit "htm"], lit "text/html");
    ([lit "json"], lit "application/json");
    ([lit "xml"], lit "application/xml") ].

Definition mime_for_sendfile (path : bytes) : bytes :=
  let ext := default [] (path_extension path) in
  match list_find (λ m, ext ∈ m.1) sendfile_types with
  | Some (_, m) => m.2
  | None => lit "application/octet-stream"
  end.

Section files.
(** [canonicalize] and [std::fs::read], when they succeed. *)
Context (canonicalize read_file : bytes → option bytes).

Definition resolve_sendfile_path (file_path sendfile_root : bytes) : option bytes :=
  let target := if starts_with [slash] file_path
                then path_join sendfile_root (trim_start_matches slash file_path)
                else path_join sendfile_root file_path in
  resolved ← canonicalize target;
  root_canonical ← canonicalize sendfile_root;
  if path_starts_with root_canonical resolved then Some resolved else None.

Definition serve_sendfile (path : bytes) : option (bytes * bytes) :=
  body ← read_file path; Some (mime_for_sendfile path, body).
End files.

(** ** Structured logs *)

Definition TURBINE_LOG_MARKER : bytes := lit "__TURBINE_LOG__" ++ [x09].

Record PhpLogEntry := {
  level : bytes;
  message : bytes;
  context : list (bytes * bytes) }.

(** [split_json_fields]: [prev] is the byte before, [cur] the field so far. The
    field after the last comma is left out when it is empty. *)
Fixpoint json_fields (prev : option byte) (in_quotes : bool) (cur s : bytes) : list bytes :=
  match s with
  | [] => if decide (cur = []) then [] else [cur]
  | x :: s' =>
      if bool_decide (x = x22) && bool_decide (prev ≠ Some x5c) then
        json_fields (Some x) (negb in_quotes) (cur ++ [x]) s'
      else if bool_decide (x = x2c) && negb in_quotes then
        cur :: json_fields (Some x) in_quotes [] s'
      else json_fields (Some x) in_quotes (cur ++ [x]) s'
  end.

Definition split_json_fields (s : bytes) : list bytes := json_fields None false [] s.

(** One round of the loop of [parse_log_json]. *)
Definition log_field (e : PhpLogEntry) (part : bytes) : PhpLogEntry :=
  match split_once x3a part with
  | None => e
  | Some (k, v) =>
      let key := trim_matches x22 (trim k) in
      let value := trim_matches x22 (trim v) in
      if decide (key = lit "level") then
        {| level := value; message := message e; context := context e |}
      else if decide (key = lit "msg") then
        {| level := level e; message := value; context := context e |}
      else if decide (key = lit "message") then
        {| level := level e; message := value; context := context e |}
      else {| level := level e; message := message e; context := context e ++ [(key, value)] |}
  end.

Definition parse_log_json (json_str : bytes) : option PhpLogEntry :=
  let trimmed := trim_end_matches x7d (trim_start_matches x7b (trim json_str)) in
  let e := foldl log_field {| level := lit "info"; message := []; context := [] |}
             (split_json_fields trimmed) in
  if decide (message e = []) then None else Some e.

(** The loop of [extract_structured_logs] over the lines. *)
Fixpoint log_lines (ls : list bytes) (cleaned : bytes) (entries : list PhpLogEntry)
    : bytes * list PhpLogEntry :=
  match ls with
  | [] => (cleaned, entries)
  | line :: ls' =>
      match strip_prefix TURBINE_LOG_MARKER line with
      | Some json_str =>
          log_lines ls' cleaned (entries ++ option_list (parse_log_json (trim json_str)))
      | None =>
          if negb (bool_decide (cleaned = [])) || negb (bool_decide (line = [])) then
            log_lines ls' ((if decide (cleaned = []) then [] else cleaned ++ [x0a]) ++ line) entries
          else log_lines ls' cleaned entries
      end
  end.

Definition extract_structured_logs (body : bytes) : bytes * list PhpLogEntry :=
  if negb (utf8_valid body) then (body, [])
  else if negb (contains TURBINE_LOG_MARKER body) then (body, [])
  else log_lines (split x0a body) [] [].

(** What reaches the log: the severity, the fields and the message. *)
Inductive severity := DEBUG | INFO | WARN | ERROR.

Record log_record := {
  lr_severity : severity;
  lr_level : option bytes;
  lr_ctx : bytes;
  lr_message : bytes }.

Definition emit_log_entry (e : PhpLogEntry) : log_record :=
  let ctx := RustStr.join x20 ((λ kv, kv.1 ++ lit "=" ++ kv.2) <$> context e) in
  let at_level sv lv := {| lr_severity := sv; lr_level := lv; lr_ctx := ctx;
                           lr_message := message e |} in
  if bool_decide (level e ∈ [lit "debug"; lit "-4"]) then at_level DEBUG None
  else if bool_decide (level e ∈ [lit "info"; lit "0"]) then at_level INFO None
  else if bool_decide (level e ∈ [lit "warn"; lit "warning"; lit "4"]) then at_level WARN None
  else if bool_decide (level e ∈ [lit "error"; lit "8"]) then at_level ERROR None
  else at_level INFO (Some (level e)).

(** ** postprocess_php_response *)

(** The fields of the server state it reads, and what it changes in place. *)
Record FeatureConfig := {
  structured_logging_enabled : bool;
  early_hints_enabled : bool;
  x_sendfile_enabled : bool;
  x_sendfile_root : option bytes }.

Record php_response := {
  pr_status : Z;
  pr_content_type : bytes;
  pr_headers : list (bytes * bytes);
  pr_body : bytes }.

Section postprocess.
Context (canonicalize read_file : bytes → option bytes).

Definition apply_logs (cfg : FeatureConfig) (r : php_response) : php_response * list log_record :=
  if structured_logging_enabled cfg then
    let '(cleaned, entries) := extract_structured_logs (pr_body r) in
    if decide (entries = []) then (r, [])
    else ({| pr_status := pr_status r; pr_content_type := pr_content_type r;
             pr_headers := pr_headers r; pr_body := cleaned |}, emit_log_entry <$> entries)
  else (r, []).

Definition apply_sendfile (cfg : FeatureConfig) (r : php_response) : php_response :=
  let served :=
    if x_sendfile_enabled cfg then
      p ← check_x_sendfile (pr_headers r);
      root ← x_sendfile_root cfg;
      resolved ← resolve_sendfile_path canonicalize p root;
      serve_sendfile read_file resolved
    else None in
  match served with
  | Some (file_ct, file_body) =>
      {| pr_status := 200; pr_content_type := file_ct;
         pr_headers := List.filter (λ h, negb (is_sendfile_header h.1)) (pr_headers r);
         pr_body := file_body |}
  | None => r
  end.

(** The hints are only logged: the [Link] headers stay where they are. *)
Definition postprocess_php_response (cfg : FeatureConfig) (r : php_response)
    : php_response * list log_record :=
  let '(r, logs) := apply_logs cfg r in
  (apply_sendfile cfg r, logs).
End postprocess.

(** ** The envelope of the one-shot executor *)

Definition TURBINE_STATUS_MARKER : bytes := lit "__TURBINE_STATUS__" ++ [x09].
Definition TURBINE_HEADER_MARKER : bytes := lit "__TURBINE_HEADER__" ++ [x09].
Definition TURBINE_BODY_MARKER : bytes := lit "__TURBINE_BODY__" ++ [x0a].

(** One round of the loop over the lines of the meta data; [splitn(2, c)] is
    [split_once], and a line without a second part is skipped. *)
Definition envelope_line (acc : Z * list (bytes * bytes)) (line : bytes)
    : Z * list (bytes * bytes) :=
  let '(status_code, headers) := acc in
  match strip_prefix TURBINE_STATUS_MARKER line with
  | Some rest => (default 200 (parse_uint 65535 (trim rest)), headers)
  | None =>
      match strip_prefix TURBINE_HEADER_MARKER line with
      | Some rest =>
          match split_once x09 rest with
          | Some (name, value) => (status_code, headers ++ [(trim name, trim value)])
          | None => (status_code, headers)
          end
      | None => (status_code, headers)
      end
  end.

Definition parse_turbine_response_envelope (body : bytes)
    : option (Z * list (bytes * bytes) * bytes) :=
  envelope_start ← find TURBINE_STATUS_MARKER body;
  let envelope := drop envelope_start body in
  body_marker_pos ← find TURBINE_BODY_MARKER envelope;
  let meta := take body_marker_pos envelope in
  if negb (utf8_valid meta) then None
  else Some (foldl envelope_line (200, []) (lines meta),
             drop (body_marker_pos + length TURBINE_BODY_MARKER) envelope).

(** ** Routes of the worker pools *)

Definition matches_pool_route (pattern path : bytes) : bool :=
  match strip_suffix [x2a] pattern with
  | Some prefix => starts_with prefix path
  | None => bool_decide (path = pattern)
  end.

(** [find_pool]: of the named pools, which [match_paths] lists, the first that
    matches, by its index, or the default pool, which [None] is. *)
Definition find_pool (match_paths : list bytes) (default_pool : bool) (path : bytes)
    : option (option nat) :=
  match list_find (λ m, matches_pool_route m path) match_paths with
  | Some (i, _) => Some (Some i)
  | None => if default_pool then Some None else None
  end.

(** ** Log entries, printed and parsed back *)

(** The line a script writes for an entry, in the format of the comment on
    [parse_log_json]: every value is a string, and none needs an escape. *)
Definition render_field (f : bytes * bytes) : bytes :=
  [x22] ++ f.1 ++ [x22; x3a; x22] ++ f.2 ++ [x22].

Definition fields_of (e : PhpLogEntry) : list (bytes * bytes) :=
  (lit "level", level e) :: (lit "msg", message e) :: context e.

Definition render_entry (e : PhpLogEntry) : bytes :=
  [x7b] ++ RustStr.join x2c (render_field <$> fields_of e) ++ [x7d].

Definition unescaped (s : bytes) : bool :=
  bool_decide ((x22 ∉ s) ∧ (x5c ∉ s) ∧ (x0a ∉ s)).

Definition context_ok (f : bytes * bytes) : bool :=
  unescaped f.1 && unescaped f.2 && bool_decide (x3a ∉ f.1) &&
  negb (bool_decide (f.1 ∈ [lit "level"; lit "msg"; lit "message"])).

Definition entry_ok (e : PhpLogEntry) : bool :=
  unescaped (level e) && unescaped (message e) && negb (bool_decide (message e = [])) &&
  forallb context_ok (context e).

(** Inside quotes, text without quotes or escapes is passed over. *)
Lemma json_fields_quoted s p cur : unescaped s = true → p ≠ Some x5c →
  ∃ p', p' ≠ Some x5c ∧ ∀ rest,
    json_fields p true cur (s ++ rest) = json_fields p' true (cur ++ s) rest.
Proof.
  intros Hs Hp. apply bool_decide_eq_true in Hs as (Hq & He & _).
  revert p cur Hp. induction s as [|x s IH]; intros p cur Hp.
  - exists p. split; [done|]. intros rest. by rewrite app_nil_r.
  - apply not_elem_of_cons in Hq as [Hq1 Hq], He as [He1 He].
    destruct (IH Hq He (Some x) (cur ++ [x])) as (p' & Hp' & E); [congruence|].
    exists p'. split; [done|]. intros rest. simpl.
    rewrite (bool_decide_eq_false_2 (x = x22)) by congruence. rewrite andb_false_r. simpl.
    rewrite E, <-app_assoc. done.
Qed.

(** One rendered field is scanned as one field, up to a comma or the end. *)
Lemma json_fields_field f p : p ≠ Some x5c → unescaped f.1 = true → unescaped f.2 = true →
  ∃ p', p' ≠ Some x5c ∧ ∀ rest,
    json_fields p false [] (render_field f ++ rest) = json_fields p' false (render_field f) rest.
Proof.
  intros Hp H1 H2.
  destruct (json_fields_quoted f.1 (Some x22) [x22] H1) as (p1 & Hp1 & E1); [done|].
  destruct (json_fields_quoted f.2 (Some x22) ([x22] ++ f.1 ++ [x22; x3a; x22]) H2)
    as (p2 & Hp2 & E2); [done|].
  exists (Some x22). split; [done|]. intros rest. unfold render_field.
  rewrite <-!app_assoc. change ([x22] ++ ?z) with (x22 :: z) at 1. simpl.
  rewrite (bool_decide_eq_true_2 (p ≠ _)) by done. simpl. rewrite E1. simpl.
  rewrite (bool_decide_eq_true_2 (p1 ≠ _)) by done. simpl.
  rewrite <-!app_assoc. simpl. rewrite E2. simpl.
  rewrite (bool_decide_eq_true_2 (p2 ≠ _)) by done. simpl.
  by rewrite <-!app_assoc.
Qed.

Lemma split_json_rendered fs p : p ≠ Some x5c →
  Forall (λ f, unescaped f.1 = true ∧ unescaped f.2 = true) fs →
  json_fields p false [] (RustStr.join x2c (render_field <$> fs)) = render_field <$> fs.
Proof.
  intros Hp Hfs. revert p Hp. induction Hfs as [|f fs [H1 H2] Hfs IH]; intros p Hp; [done|].
  destruct (json_fields_field f p Hp H1 H2) as (p' & Hp' & E).
  destruct fs as [|g fs].
  - change (json_fields p false [] (render_field f) = [render_field f]).
    rewrite <-(app_nil_r (render_field f)) at 1. rewrite E. done.
  - change (json_fields p false [] (render_field f ++ x2c ::
      RustStr.join x2c (render_field <$> (g :: fs))) = render_field f :: (render_field <$> (g :: fs))).
    rewrite E. cbn [json_fields]. rewrite (bool_decide_eq_false_2 (x2c = x22)) by done.
    cbn [andb]. rewrite (bool_decide_eq_true_2 (x2c = x2c)) by done. cbn [andb negb].
    by rewrite IH.
Qed.

Lemma trim_quotes s : unescaped s = true → trim_matches x22 (trim ([x22] ++ s ++ [x22])) = s.
Proof.
  intros Hs. apply bool_decide_eq_true in Hs as (Hq & _ & _).
  rewrite trim_fixed; [|by intros x [= <-]|].
  2: { intros x. change ([x22] ++ s ++ [x22]) with (([x22] ++ s) ++ [x22]).
       rewrite last_snoc. by intros [= <-]. }
  assert (Hnq : ∀ t, x22 ∉ t → trim_start_matches x22 t = t).
  { intros [|x t] Hx; [done|]. simpl. rewrite decide_False; [done|]. set_solver. }
  unfold trim_matches, trim_end_matches. simpl. destruct s as [|x s]; [done|].
  simpl. rewrite decide_False by set_solver.
  change (x :: s ++ [x22]) with ((x :: s) ++ [x22]). rewrite reverse_app. simpl.
  rewrite Hnq, reverse_involutive; [done|]. by rewrite elem_of_reverse.
Qed.

Lemma split_once_app c l r : c ∉ l → split_once c (l ++ c :: r) = Some (l, r).
Proof.
  induction l as [|x l IH]; intros Hl; simpl; [by rewrite decide_True|].
  apply not_elem_of_cons in Hl as [? Hl]. rewrite decide_False, IH by done. done.
Qed.

Lemma log_field_rendered e f : unescaped f.1 = true → unescaped f.2 = true → x3a ∉ f.1 →
  log_field e (render_field f) =
    if decide (f.1 = lit "level") then
      {| level := f.2; message := message e; context := context e |}
    else if decide (f.1 = lit "msg") then
      {| level := level e; message := f.2; context := context e |}
    else if decide (f.1 = lit "message") then
      {| level := level e; message := f.2; context := context e |}
    else {| level := level e; message := message e; context := context e ++ [(f.1, f.2)] |}.
Proof.
  intros H1 H2 Hc. unfold log_field.
  replace (render_field f) with (([x22] ++ f.1 ++ [x22]) ++ x3a :: ([x22] ++ f.2 ++ [x22])).
  - rewrite split_once_app by set_solver. by rewrite !trim_quotes.
  - unfold render_field. by rewrite <-!app_assoc.
Qed.

Lemma log_fields_context e fs : forallb context_ok fs = true →
  foldl log_field e (render_field <$> fs) =
    {| level := level e; message := message e; context := context e ++ fs |}.
Proof.
  revert e. induction fs as [|f fs IH]; intros e.
  { intros _. rewrite app_nil_r. by destruct e. }
  cbn [forallb]. intros [Hf Hfs]%andb_true_iff. unfold context_ok in Hf.
  rewrite !andb_true_iff, negb_true_iff, bool_decide_eq_true, bool_decide_eq_false in Hf.
  destruct Hf as [[[H1 H2] Hc] Hk]. cbn [fmap list_fmap foldl].
  rewrite log_field_rendered, !decide_False by set_solver.
  rewrite IH by done. simpl. rewrite <-app_assoc. by destruct f.
Qed.

Lemma join_rendered fs f :
  ∃ t, RustStr.join x2c (render_field <$> (f :: fs)) = [x22] ++ t ++ [x22].
Proof.
  assert (Hsnoc : ∀ f, render_field f = [x22] ++ (f.1 ++ [x22; x3a; x22] ++ f.2) ++ [x22])
    by (intros g; unfold render_field; by rewrite <-!app_assoc).
  revert f. induction fs as [|g fs IH]; intros f; [eexists; apply Hsnoc|].
  destruct (IH g) as [t Ht].
  change (RustStr.join x2c (render_field <$> f :: g :: fs)) with
    (render_field f ++ x2c :: RustStr.join x2c (render_field <$> (g :: fs))).
  rewrite Ht, Hsnoc. exists ((f.1 ++ [x22; x3a; x22] ++ f.2) ++ [x22; x2c; x22] ++ t).
  by rewrite <-!app_assoc.
Qed.

Lemma trim_end_matches_snoc c s y :
  trim_end_matches c (s ++ [y]) = if decide (y = c) then trim_end_matches c s else s ++ [y].
Proof.
  unfold trim_end_matches. rewrite reverse_snoc. cbn [trim_start_matches].
  case_decide; [done|]. by rewrite reverse_cons, reverse_involutive.
Qed.

(** An entry is what its braces and white space around it leave. *)
Lemma trim_entry e : ∃ t, render_entry e = [x7b; x22] ++ t ++ [x22; x7d] ∧
  trim (render_entry e) = render_entry e ∧
  trim_end_matches x7d (trim_start_matches x7b (render_entry e)) =
    RustStr.join x2c (render_field <$> fields_of e).
Proof.
  unfold render_entry. destruct (join_rendered (tail (fields_of e)) (lit "level", level e))
    as [t Ht]. exists t. change ((lit "level", level e) :: tail (fields_of e)) with (fields_of e) in Ht.
  rewrite Ht. split_and!.
  - by rewrite <-!app_assoc.
  - rewrite app_assoc. apply trim_fixed; [by intros x [= <-]|].
    intros x. rewrite last_snoc. by intros [= <-].
  - cbn [app trim_start_matches]. rewrite decide_True by done. cbn [app trim_start_matches].
    rewrite decide_False by done.
    change (x22 :: (t ++ [x22]) ++ [x7d]) with ((x22 :: (t ++ [x22])) ++ [x7d]).
    rewrite trim_end_matches_snoc, decide_True by done.
    change (x22 :: (t ++ [x22])) with ((x22 :: t) ++ [x22]).
    by rewrite trim_end_matches_snoc, decide_False.
Qed.

Lemma parse_log_rendered e : entry_ok e = true →
  parse_log_json (trim (render_entry e)) = Some e.
Proof.
  unfold entry_ok. rewrite !andb_true_iff, negb_true_iff, bool_decide_eq_false.
  intros [[[Hl Hm] Hne] Hctx]. unfold parse_log_json.
  destruct (trim_entry e) as (t & _ & Ht1 & Ht2). rewrite !Ht1, Ht2.
  unfold split_json_fields. rewrite split_json_rendered; [|done|].
  - unfold fields_of. cbn [fmap list_fmap foldl].
    rewrite !log_field_rendered by (done || (apply (bool_decide_unpack _); by vm_compute)).
    rewrite log_fields_context by done. simpl. rewrite decide_False by done. by destruct e.
  - unfold fields_of. repeat constructor; try done.
    apply Forall_forall. intros f Hf. rewrite forallb_forall in Hctx.
    specialize (Hctx f ltac:(by apply list_elem_of_In)). unfold context_ok in Hctx.
    rewrite !andb_true_iff in Hctx. tauto.
Qed.

(** ** The output of a script that logs *)

(** A script writes lines of its own and lines of the logger. *)
Inductive item := Out (line : bytes) | Log (e : PhpLogEntry).

Definition render_item (i : item) : bytes :=
  match i with
  | Out line => line
  | Log e => TURBINE_LOG_MARKER ++ render_entry e
  end.

Definition item_ok (i : item) : bool :=
  match i with
  | Out line => bool_decide (x0a ∉ line) && negb (starts_with TURBINE_LOG_MARKER line)
  | Log e => entry_ok e
  end.

Definition out_lines (its : list item) : list bytes :=
  omap (λ i, match i with Out line => Some line | Log _ => None end) its.

Definition log_entries (its : list item) : list PhpLogEntry :=
  omap (λ i, match i with Out _ => None | Log e => Some e end) its.

(** Empty lines at the front are dropped. *)
Fixpoint skip_blank (ls : list bytes) : list bytes :=
  match ls with
  | [] :: ls' => skip_blank ls'
  | _ => ls
  end.

Lemma join_eq_nil ls : skip_blank ls = ls → RustStr.join x0a ls = [] → ls = [].
Proof. by destruct ls as [|[|x l] [|k ls]]. Qed.

Lemma skip_blank_snoc ls l : skip_blank (ls ++ [l]) =
  if decide (skip_blank ls = []) then skip_blank [l] else skip_blank ls ++ [l].
Proof. induction ls as [|[|x k] ls IH]; simpl; [by destruct l|done|done]. Qed.

Lemma skip_blank_idem ls : skip_blank (skip_blank ls) = skip_blank ls.
Proof. by induction ls as [|[|x k] ls IH]. Qed.

Lemma log_lines_items its outs entries : forallb item_ok its = true →
  log_lines (render_item <$> its) (RustStr.join x0a (skip_blank outs)) entries =
    (RustStr.join x0a (skip_blank (outs ++ out_lines its)), entries ++ log_entries its).
Proof.
  revert outs entries. induction its as [|i its IH]; intros outs entries.
  { intros _. by rewrite !app_nil_r. }
  cbn [forallb]. intros [Hi His]%andb_true_iff. destruct i as [line|e].
  - unfold item_ok in Hi. apply andb_true_iff in Hi as [_ Hm]. apply negb_true_iff in Hm.
    specialize (IH (outs ++ [line]) entries His). rewrite <-app_assoc in IH.
    change (out_lines (Out line :: its)) with ([line] ++ out_lines its).
    change (log_entries (Out line :: its)) with (log_entries its). rewrite <-IH.
    change (render_item <$> Out line :: its) with (line :: (render_item <$> its)).
    cbn [log_lines]. unfold strip_prefix at 1. rewrite Hm, skip_blank_snoc.
    pose proof (join_eq_nil _ (skip_blank_idem outs)) as Hnil.
    destruct (decide (skip_blank outs = [])) as [->|Hne]; [by destruct line|].
    rewrite (bool_decide_eq_false_2 (RustStr.join _ _ = [])) by auto. cbn [negb orb].
    rewrite decide_False by auto. rewrite join_snoc by done. by rewrite <-app_assoc.
  - specialize (IH outs (entries ++ [e]) His). rewrite <-app_assoc in IH.
    change (out_lines (Log e :: its)) with (out_lines its).
    change (log_entries (Log e :: its)) with ([e] ++ log_entries its). rewrite <-IH.
    change (render_item <$> Log e :: its) with
      ((TURBINE_LOG_MARKER ++ render_entry e) :: (render_item <$> its)).
    cbn [log_lines]. rewrite strip_prefix_app, parse_log_rendered by done. done.
Qed.

Lemma render_entry_line e : entry_ok e = true → x0a ∉ render_entry e.
Proof.
  unfold entry_ok. rewrite !andb_true_iff, negb_true_iff, bool_decide_eq_false.
  intros [[[Hl Hm] _] Hctx] Hin. apply bool_decide_eq_true in Hl as (_ & _ & Hl), Hm as (_ & _ & Hm).
  assert (Hfs : Forall (λ f, (x0a ∉ f.1) ∧ (x0a ∉ f.2)) (fields_of e)).
  { unfold fields_of. repeat constructor; try done; try (apply (bool_decide_unpack _); by vm_compute).
    apply Forall_forall. intros f Hf. rewrite forallb_forall in Hctx.
    specialize (Hctx f ltac:(by apply list_elem_of_In)). unfold context_ok, unescaped in Hctx.
    rewrite !andb_true_iff, !bool_decide_eq_true in Hctx. tauto. }
  assert (Hj : x0a ∉ RustStr.join x2c (render_field <$> fields_of e)).
  { clear Hin. induction Hfs as [|f fs [Hf1 Hf2] Hfs IH]; [by intros ?%elem_of_nil|].
    assert (x0a ∉ render_field f) by (unfold render_field; set_solver).
    destruct fs as [|g fs]; [done|].
    change (RustStr.join x2c (render_field <$> f :: g :: fs)) with
      (render_field f ++ x2c :: RustStr.join x2c (render_field <$> (g :: fs))). set_solver. }
  unfold render_entry in Hin. set_solver.
Qed.

(** A resolved path lies below the root, component by component. *)
Lemma resolve_sendfile_spec canonicalize p sendfile_root file :
  resolve_sendfile_path canonicalize p sendfile_root = Some file →
  ∃ root rest, canonicalize sendfile_root = Some root ∧
    canonicalize (path_join sendfile_root (trim_start_matches slash p)) = Some file ∧
    components file = components root ++ rest.
Proof.
  unfold resolve_sendfile_path. intros Er.
  assert ((if starts_with [slash] p then path_join sendfile_root (trim_start_matches slash p)
           else path_join sendfile_root p) = path_join sendfile_root (trim_start_matches slash p))
    as Etarget.
  { destruct (starts_with [slash] p) eqn:Ep; [done|]. destruct p as [|x p]; [done|].
    simpl. rewrite decide_False; [done|]. intros ->. by unfold starts_with in Ep. }
  rewrite Etarget in Er. destruct (canonicalize (path_join _ _)) as [f|] eqn:Ef; [|done].
  cbn in Er. destruct (canonicalize sendfile_root) as [root|] eqn:Eroot; [|done]. cbn in Er.
  destruct (path_starts_with root f) eqn:Epre; [|done]. injection Er as <-.
  apply path_starts_with_spec in Epre as [rest Hrest]. eauto.
Qed.

Lemma apply_logs_spec cfg r r1 logs : apply_logs cfg r = (r1, logs) →
  pr_status r1 = pr_status r ∧ pr_content_type r1 = pr_content_type r ∧
  pr_headers r1 = pr_headers r ∧
  (pr_body r1 = pr_body r ∨ pr_body r1 = (extract_structured_logs (pr_body r)).1).
Proof.
  unfold apply_logs. destruct (structured_logging_enabled cfg); [|intros; by simplify_eq; auto].
  destruct (extract_structured_logs (pr_body r)) as [cleaned entries].
  case_decide; intros; simplify_eq/=; auto.
Qed.

(** ** Envelopes *)

Definition header_line (h : bytes * bytes) : bytes := TURBINE_HEADER_MARKER ++ h.1 ++ [x09] ++ h.2.

(** The meta data of an envelope: the status line and a line for each header, in
    the format at the head of response.rs. *)
Definition envelope_meta (status : Z) (headers : list (bytes * bytes)) : bytes :=
  concat ((λ l, l ++ [x0a]) <$>
    ((TURBINE_STATUS_MARKER ++ dec_string status) :: (header_line <$> headers))).

Definition line_free (s : bytes) : bool := bool_decide (x0a ∉ s).

(** A name without a tab, and both on one line and without white space around. *)
Definition header_ok (h : bytes * bytes) : bool :=
  line_free h.1 && line_free h.2 && bool_decide (x09 ∉ h.1) &&
  bool_decide (trim h.1 = h.1) && bool_decide (trim h.2 = h.2) &&
  bool_decide (last h.2 ≠ Some x0d).

Lemma strip_cr_id l : last l ≠ Some x0d → strip_cr l = l.
Proof.
  intros Hl. unfold strip_cr, strip_suffix. destruct (ends_with [x0d] l) eqn:E; [|done].
  apply Is_true_true, ends_with_spec in E as [k ->]. by rewrite last_snoc in Hl.
Qed.

Lemma contains_false p s : contains p s = false → find p s = None.
Proof. intros Hf%bool_decide_eq_false. by apply eq_None_not_Some. Qed.

Lemma lines_terminated ls : Forall (λ l, (x0a ∉ l) ∧ last l ≠ Some x0d) ls →
  lines (concat ((λ l, l ++ [x0a]) <$> ls)) = ls.
Proof.
  intros Hls. unfold lines.
  assert (Hsplit : split x0a (concat ((λ l, l ++ [x0a]) <$> ls)) = ls ++ [[]]).
  { induction Hls as [|l ls [Hl _] Hls IH]; [done|]. cbn [fmap list_fmap concat].
    rewrite <-app_assoc. simpl. rewrite split_app, split_single, IH by done. done. }
  rewrite Hsplit, reverse_app. simpl. rewrite fmap_reverse, reverse_involutive.
  clear Hsplit. induction Hls as [|l ls [_ Hl] Hls IH]; csimpl; [done|]. by rewrite strip_cr_id, IH.
Qed.

Lemma envelope_header acc h : header_ok h = true →
  envelope_line acc (header_line h) = (acc.1, acc.2 ++ [h]).
Proof.
  unfold header_ok. rewrite !andb_true_iff, !bool_decide_eq_true. intros [[[[_ Ht] H1] H2] _].
  destruct acc as [st hs], h as [k v]. simpl in *. unfold envelope_line, header_line.
  assert (∀ t, strip_prefix TURBINE_STATUS_MARKER (TURBINE_HEADER_MARKER ++ t) = None) as ->
    by done. rewrite strip_prefix_app. simpl. rewrite split_once_app by done.
  by rewrite H1, H2.
Qed.

Lemma envelope_headers hs acc : forallb header_ok hs = true →
  foldl envelope_line acc (header_line <$> hs) = (acc.1, acc.2 ++ hs).
Proof.
  revert acc. induction hs as [|h hs IH]; intros acc.
  { intros _. rewrite app_nil_r. by destruct acc. }
  cbn [forallb]. intros [Hh Hhs]%andb_true_iff. cbn [fmap list_fmap foldl].
  rewrite envelope_header, IH by done. simpl. by rewrite <-app_assoc.
Qed.

Lemma find_status l r : contains TURBINE_STATUS_MARKER l = false →
  find TURBINE_STATUS_MARKER (l ++ TURBINE_STATUS_MARKER ++ r) = Some (length l).
Proof.
  intros Hl%contains_false. apply (find_first (lit "__TURBINE_STATUS__") x09 l r); [|done].
  apply (bool_decide_unpack _). by vm_compute.
Qed.

Lemma find_body l r : contains TURBINE_BODY_MARKER l = false →
  find TURBINE_BODY_MARKER (l ++ TURBINE_BODY_MARKER ++ r) = Some (length l).
Proof.
  intros Hl%contains_false. apply (find_first (lit "__TURBINE_BODY__") x0a l r); [|done].
  apply (bool_decide_unpack _). by vm_compute.
Qed.

Lemma dec_string_solid v : 0 ≤ v → Forall (λ x, solid x = true) (dec_string v) ∧ dec_string v ≠ [].
Proof.
  intros Hv. unfold dec_string. split.
  - generalize (S (Z.to_nat (Z.log2 v))). intros fuel.
    enough (∀ acc, Forall (λ x, solid x = true) acc →
      Forall (λ x, solid x = true) (dec_digits fuel v acc)) as H by by apply H.
    revert v Hv. induction fuel as [|fuel IH]; intros v Hv acc Hacc; [done|]. simpl.
    pose proof (Z.mod_pos_bound v 10).
    assert (Forall (λ x, solid x = true) (as_u8 (48 + v `mod` 10) :: acc)).
    { constructor; [|done]. unfold solid. rewrite u8_as_u8, Z.mod_small by lia. lia. }
    destruct (v <? 10); [done|]. apply IH; [apply Z.div_pos; lia|done].
  - destruct (dec_digits_head (S (Z.to_nat (Z.log2 v))) v []) as (d & r & _ & ->); done.
Qed.

Lemma not_elem_solid c s : solid c = false → Forall (λ x, solid x = true) s → c ∉ s.
Proof. intros Hc Hs Hin. rewrite Forall_forall in Hs. by rewrite (Hs _ Hin) in Hc. Qed.

Lemma status_line_ok status : 0 ≤ status →
  (x0a ∉ TURBINE_STATUS_MARKER ++ dec_string status) ∧
  last (TURBINE_STATUS_MARKER ++ dec_string status) ≠ Some x0d.
Proof.
  intros Hst. destruct (dec_string_solid status Hst) as [Hd Hne]. split.
  - rewrite elem_of_app. intros [H|H].
    + revert H. apply (bool_decide_unpack _). by vm_compute.
    + by apply (not_elem_solid x0a) in Hd.
  - rewrite last_app. destruct (last (dec_string status)) as [x|] eqn:E; [|by apply last_None in E].
    apply last_Some_elem_of in E. intros [= ->]. by apply (not_elem_solid x0d) in Hd.
Qed.

Lemma header_line_ok h : header_ok h = true →
  (x0a ∉ header_line h) ∧ last (header_line h) ≠ Some x0d.
Proof.
  unfold header_ok, line_free. rewrite !andb_true_iff, !bool_decide_eq_true.
  intros [[[[[H1 H2] _] _] _] Hl]. unfold header_line. split.
  - assert (x0a ∉ TURBINE_HEADER_MARKER) by (apply (bool_decide_unpack _); by vm_compute). set_solver.
  - rewrite !app_assoc, last_app. destruct (last h.2) eqn:E; [done|]. by rewrite last_snoc.
Qed.

(** ** Properties *)

(** the log entries of a response are taken out of it exactly. For a response made of
    lines of the script and of log lines, in any order and with at least one log line, the
    entries are those that were written, in order, and the body that is left is made of the
    script's own lines, in order, without the empty ones at its front: those are lost, though
    the script wrote them. *)
Theorem structured_logs_exact (its : list item) :
  forallb item_ok its = true → log_entries its ≠ [] →
  utf8_valid (RustStr.join x0a (render_item <$> its)) = true →
  extract_structured_logs (RustStr.join x0a (render_item <$> its)) =
    (RustStr.join x0a (skip_blank (out_lines its)), log_entries its).
Proof.
  intros Hok Hlog Hutf. unfold extract_structured_logs. rewrite Hutf.
  assert (Hlines : Forall (λ w, x0a ∉ w) (render_item <$> its)).
  { apply Forall_fmap, Forall_forall. intros i Hi. rewrite forallb_forall in Hok.
    specialize (Hok i ltac:(by apply list_elem_of_In)). destruct i as [line|e]; simpl in *.
    - apply andb_true_iff in Hok as [Hok _]. by apply bool_decide_eq_true in Hok.
    - apply render_entry_line in Hok.
      assert (x0a ∉ TURBINE_LOG_MARKER) by (apply (bool_decide_unpack _); by vm_compute). set_solver. }
  assert (contains TURBINE_LOG_MARKER (RustStr.join x0a (render_item <$> its))) as ->%Is_true_true.
  { clear -Hlog. apply contains_spec. induction its as [|[line|e] its IH]; [done|..].
    - destruct (IH Hlog) as (l & r & E). exists (line ++ x0a :: l), r.
      destruct its; [done|]. change (RustStr.join x0a (render_item <$> Out line :: ?t)) with
        (line ++ x0a :: RustStr.join x0a (render_item <$> t)).
      rewrite E. by rewrite <-app_assoc.
    - exists []. destruct its as [|i its]; [by exists (render_entry e)|].
      change (RustStr.join x0a (render_item <$> Log e :: ?t)) with
        ((TURBINE_LOG_MARKER ++ render_entry e) ++ x0a :: RustStr.join x0a (render_item <$> t)).
      rewrite <-app_assoc. eauto. }
  cbn [negb]. rewrite split_join; [|by destruct its|done].
  exact (log_lines_items its [] [] Hok).
Qed.

Definition ex_entry : PhpLogEntry :=
  {| level := lit "warn"; message := lit "Memory: high, again";
     context := [(lit "usage", lit "10485760")] |}.

Lemma structured_logs_exact_witness :
  extract_structured_logs
    (RustStr.join x0a (render_item <$> [Out []; Out (lit "<p>"); Log ex_entry; Out (lit "</p>")])) =
    (lit "<p>" ++ [x0a] ++ lit "</p>", [ex_entry]).
Proof. apply (structured_logs_exact [Out []; Out (lit "<p>"); Log ex_entry; Out (lit "</p>")]);
  [by vm_compute|done|by vm_compute]. Defined.

(** C28: what the hooks can do to a response. The body stays as it is, or loses its log lines, or
    is the whole content of a file whose canonical path lies below the canonical root of
    X-Sendfile; in the last case the status is 200, the type is that of the file's extension
    and no X-Sendfile header is left, and in the others status, type and headers are the
    script's: a header that names a file outside the root, or one that cannot be read, is
    sent to the client as it is, path and all. *)
Theorem postprocess_confined (canonicalize read_file : bytes → option bytes)
    (cfg : FeatureConfig) (r : php_response) :
  let r' := (postprocess_php_response canonicalize read_file cfg r).1 in
  (pr_status r' = pr_status r ∧ pr_content_type r' = pr_content_type r ∧
   pr_headers r' = pr_headers r ∧
   (pr_body r' = pr_body r ∨ pr_body r' = (extract_structured_logs (pr_body r)).1)) ∨
  (∃ p sendfile_root root file rest,
     x_sendfile_enabled cfg = true ∧ check_x_sendfile (pr_headers r) = Some p ∧
     x_sendfile_root cfg = Some sendfile_root ∧ canonicalize sendfile_root = Some root ∧
     canonicalize (path_join sendfile_root (trim_start_matches slash p)) = Some file ∧
     components file = components root ++ rest ∧ read_file file = Some (pr_body r') ∧
     pr_status r' = 200 ∧ pr_content_type r' = mime_for_sendfile file ∧
     check_x_sendfile (pr_headers r') = None).
Proof.
  unfold postprocess_php_response. destruct (apply_logs cfg r) as [r1 logs] eqn:Elog.
  apply apply_logs_spec in Elog as (Hs & Ht & Hh & Hb). cbn [fst]. unfold apply_sendfile.
  destruct (x_sendfile_enabled cfg) eqn:Een; [|by left].
  rewrite Hh. destruct (check_x_sendfile (pr_headers r)) as [p|] eqn:Ec; [|by left].
  destruct (x_sendfile_root cfg) as [sroot|]; [|by left]. cbn [mbind option_bind].
  destruct (resolve_sendfile_path canonicalize p sroot) as [file|] eqn:Er; [|by left].
  cbn [mbind option_bind]. unfold serve_sendfile.
  destruct (read_file file) as [body|] eqn:Ef; [|by left]. right.
  apply resolve_sendfile_spec in Er as (root & rest & Hroot & Hfile & Hrest).
  exists p, sroot, root, file, rest. split_and!; try done.
  cbn. clear. induction (pr_headers r) as [|[k v] hs IH]; [done|]. simpl.
  destruct (is_sendfile_header k) eqn:E; simpl; [done|]. by rewrite E.
Qed.

(** A path outside the root reaches the client. *)
Example sendfile_refused_leaks :
  let fs := list_to_map (M := gmap bytes bytes)
    [(lit "/srv/files", lit "/srv/files"); (lit "/srv/files/../secret", lit "/srv/secret")] in
  (postprocess_php_response (fs !!.) (λ _, Some (lit "data"))
     {| structured_logging_enabled := false; early_hints_enabled := false;
        x_sendfile_enabled := true; x_sendfile_root := Some (lit "/srv/files") |}
     {| pr_status := 200; pr_content_type := lit "text/html"; pr_body := [];
        pr_headers := [(lit "X-Sendfile", lit "../secret")] |}).1 =
  {| pr_status := 200; pr_content_type := lit "text/html"; pr_body := [];
     pr_headers := [(lit "X-Sendfile", lit "../secret")] |}.
Proof. vm_compute. reflexivity. Qed.

Example mime_ex : mime_for_sendfile (lit "/srv/files/a.tar.gz") = lit "application/gzip" ∧
  mime_for_sendfile (lit "/srv/files/.pdf") = lit "application/octet-stream".
Proof. by vm_compute. Qed.

(** an envelope is read back. Behind any output without a status marker of its own (notices
    and warnings, say), a status line, header lines and the body marker give that status, those
    headers in order and the bytes that follow as the body, whatever those are. *)
Theorem envelope_roundtrip (noise : bytes) (status : Z) (headers : list (bytes * bytes))
    (body : bytes) :
  contains TURBINE_STATUS_MARKER noise = false → 0 ≤ status ≤ 65535 →
  forallb header_ok headers = true →
  contains TURBINE_BODY_MARKER (envelope_meta status headers) = false →
  utf8_valid (envelope_meta status headers) = true →
  parse_turbine_response_envelope
    (noise ++ envelope_meta status headers ++ TURBINE_BODY_MARKER ++ body) =
  Some (status, headers, body).
Proof.
  intros Hnoise Hst Hhs Hmark Hutf. unfold parse_turbine_response_envelope.
  assert (∃ t, envelope_meta status headers = TURBINE_STATUS_MARKER ++ t) as [t Et]
    by (unfold envelope_meta; cbn [fmap list_fmap concat]; rewrite <-!app_assoc; eauto).
  rewrite Et at 1. rewrite <-(app_assoc _ t), find_status by done.
  cbn [mbind option_bind]. rewrite drop_app_length, find_body by done.
  cbn [mbind option_bind]. rewrite take_app_length, Hutf. cbn [negb].
  rewrite drop_app_add, drop_app_length. do 2 f_equal.
  unfold envelope_meta. rewrite lines_terminated.
  - cbn [foldl]. unfold envelope_line at 2. rewrite strip_prefix_app.
    destruct (dec_string_solid status) as [Hd _]; [lia|].
    rewrite trim_fixed, parse_dec_string by (lia || (intros x Hx; rewrite Forall_forall in Hd;
      apply Hd; first [by apply head_Some_elem_of|by apply last_Some_elem_of])).
    by rewrite envelope_headers.
  - constructor.
    + apply status_line_ok; lia.
    + apply Forall_fmap, Forall_forall. intros h Hh. apply header_line_ok.
      rewrite forallb_forall in Hhs. apply Hhs. by apply list_elem_of_In.
Qed.

Lemma envelope_roundtrip_witness :
  parse_turbine_response_envelope
    (lit "PHP Warning: something" ++ [x0a] ++
     envelope_meta 201 [(lit "Content-Type", lit "application/json"); (lit "X-Custom", lit "yes")] ++
     TURBINE_BODY_MARKER ++ lit "{}") =
  Some (201, [(lit "Content-Type", lit "application/json"); (lit "X-Custom", lit "yes")], lit "{}").
Proof.
  apply (envelope_roundtrip (lit "PHP Warning: something" ++ [x0a])); (by vm_compute) || lia.
Defined.

(** a request goes to one pool, and the choice is a function of its path: the first named
    pool whose pattern matches, where a pattern that ends with a star matches the paths that
    extend what is before the star and any other only itself; the default pool takes the paths
    that no pattern matches, and a server without workers has none to give. *)
Theorem find_pool_first (match_paths : list bytes) (default_pool : bool) (path : bytes) :
  let matches m := (∃ p rest, m = p ++ [x2a] ∧ path = p ++ rest) ∨
                   (¬ (∃ p, m = p ++ [x2a]) ∧ path = m) in
  match find_pool match_paths default_pool path with
  | Some (Some i) => ∃ m, match_paths !! i = Some m ∧ matches m ∧
      ∀ j m', (j < i)%nat → match_paths !! j = Some m' → ¬ matches m'
  | Some None => default_pool = true ∧ ∀ m, m ∈ match_paths → ¬ matches m
  | None => default_pool = false ∧ ∀ m, m ∈ match_paths → ¬ matches m
  end.
Proof.
  intros matches.
  assert (Hm : ∀ m, matches_pool_route m path ↔ matches m).
  { intros m. unfold matches_pool_route, strip_suffix.
    destruct (ends_with [x2a] m) eqn:E.
    - apply Is_true_true, ends_with_spec in E as [p ->].
      rewrite length_app, Nat.add_sub, take_app_length, starts_with_spec. split.
      + intros [k ->]. left. eauto.
      + intros [(p' & rest & [-> _]%app_inj_tail & ->)|[[]]]; eauto.
    - apply Is_true_false in E. rewrite ends_with_spec in E. rewrite bool_decide_spec.
      split; [intros ->; by right|]. intros [(p & rest & -> & _)|[_ ->]]; [destruct E; eauto|done]. }
  unfold find_pool. destruct (list_find _ match_paths) as [[i m]|] eqn:E.
  - apply list_find_Some in E as (Hi & Hp & Hlt). exists m. split_and!; [done|by apply Hm|].
    intros j m' Hj Hj' ?%Hm. by eapply Hlt.
  - apply list_find_None in E. assert (∀ m, m ∈ match_paths → ¬ matches m).
    { intros m Hin ?%Hm. rewrite Forall_forall in E. by eapply E. }
    by destruct default_pool.
Qed.
