(* ===== verification/Exchange.v ===== *)
(** * Exchanges with workers (turbine-core/src/main.rs)

    What a request handler does between the choice of a script and the response
    of PHP: it fills in the request of the protocol, claims a slot of the
    dispatch, sends the request, waits for the response and gives the slot back.
    The handler may be cancelled while it waits, when its client goes away. Many
    handlers do this at the same time, the workers answer when they are done, and
    the background reaper replaces workers in between. *)

From S2P Require Import Prelude RustStr Codec Reader Persistent PersistentWorker NativeIpc NativeWorker.
From S2P Require Import WorkerPool ThreadDispatch PathGuard Compat.

(** ** The request of the protocol *)

(** The port that PHP sees is the one after the last colon of the address. *)
Definition server_port (listen : bytes) : Z :=
  default 8080 (last (split x3a listen) ≫= parse_uint (2 ^ 16 - 1)).

Definition request_target (r : FullHttpRequest) : bytes :=
  if bool_decide (fr_query_string r = []) then fr_path r
  else fr_path r ++ [x3f] ++ fr_query_string r.

Section requests.
(** The order in which a hash map lists its entries. *)
Context (entries : gmap bytes bytes → list (bytes * bytes)).

Definition persistent_request_of (app : AppStructure) (php_path listen ip : bytes) (tls : bool)
    (r : FullHttpRequest) : PersistentRequest :=
  {| method := fr_method r; uri := request_target r; body := fr_body r; client_ip := ip;
     port := server_port listen; is_https := tls; headers := entries (fr_headers r);
     script_filename := document_root_str app ++ [x2f] ++ php_path;
     query_string := fr_query_string r; Persistent.document_root := document_root_str app;
     content_type := default [] (fr_content_type r);
     cookie := default [] (fr_headers r !! lit "cookie");
     path_info := fr_path r; script_name := [x2f] ++ php_path |}.

(** With the length that goes into the message, [body.len() as i32]. *)
Definition native_request_of (app : AppStructure) (php_path listen ip : bytes) (tls : bool)
    (r : FullHttpRequest) : Z * NativeRequest :=
  (if bool_decide (fr_body r = []) then -1 else wrap_i 32 (zlen (fr_body r)),
   {| n_script_path := PathGuard.path_join (document_root app) php_path; n_method := fr_method r;
      n_uri := request_target r; n_query_string := fr_query_string r;
      n_content_type := default [] (fr_content_type r);
      n_cookie := default [] (fr_headers r !! lit "cookie");
      n_document_root := document_root_str app; n_remote_addr := ip; n_remote_port := 0;
      n_server_port := server_port listen; n_is_https := tls; n_path_info := fr_path r;
      n_script_name := [x2f] ++ php_path; n_body := fr_body r;
      n_headers := entries (fr_headers r) |}).
End requests.

(** ** Exchanges *)

Section exchange.
Context {R : Type}.
(** Whether the workers are threads behind channels or have pipes. *)
Context (channels : bool).

(** Requests are numbered. [held]: the guards of the handlers that wait for a
    response; [inbox]: the requests a worker has been sent and not answered;
    [pending]: its responses that nobody has read, each with the request it
    answers; [delivered]: who got which response. *)
Record world := World {
  wd : ThreadDispatch;
  held : gmap nat IdleGuard;
  inbox : gmap nat (list nat);
  pending : gmap nat (list (nat * R));
  delivered : list (nat * nat * R) }.

Definition world_new (d : ThreadDispatch) : world := World d ∅ ∅ ∅ [].

Definition set_wd (d : ThreadDispatch) (w : world) : world :=
  World d (held w) (inbox w) (pending w) (delivered w).

Definition release (r idx : nat) (d : ThreadDispatch) (rest : list (nat * R)) (w : world) : world :=
  World d (delete r (held w)) (inbox w) (<[idx := rest]> (pending w)) (delivered w).

(** On pipes the guard is armed with the descriptor and the pid of the slot;
    looking up a slot that has none panics. *)
Definition claim_guard (idx : nat) (d : ThreadDispatch) : option IdleGuard :=
  if channels then Some (guard_new idx)
  else '(cmd_fd, _) ← fds d idx; Some (arm_poison cmd_fd (td_pid d idx) (guard_new idx)).

(** On channels a failure to send or to receive marks the slot by hand. *)
Definition mark_failed (idx : nat) (d : ThreadDispatch) : ThreadDispatch :=
  if channels then mark_unhealthy idx d else d.

Definition begin_exchange (r : nat) (sent : bool) (w : world) : world :=
  match get_idle (wd w) with
  | (None, d) => set_wd d w
  | (Some idx, d) =>
      match claim_guard idx d with
      | None => set_wd (drop_guard (guard_new idx) d).2 w
      | Some g =>
          if sent then
            World d (<[r := g]> (held w)) (<[idx := inbox w !!! idx ++ [r]]> (inbox w)) (pending w)
              (delivered w)
          else set_wd (drop_guard g (mark_failed idx d)).2 w
      end
  end.

(** The guard is marked and the request counted before the guard is dropped. *)
Definition receive (r : nat) (w : world) : option world :=
  g ← held w !! r;
  idx ← g_idx g;
  match pending w !!! idx with
  | [] => None
  | (t, a) :: rest =>
      let w := release r idx (drop_guard (mark_completed g) (record_served idx (wd w))).2 rest w in
      Some (World (wd w) (held w) (inbox w) (pending w) (delivered w ++ [(r, t, a)]))
  end.

(** A response that cannot be decoded, a closed pipe or channel. *)
Definition fail_exchange (r k : nat) (w : world) : option world :=
  g ← held w !! r;
  idx ← g_idx g;
  Some (release r idx (drop_guard g (mark_failed idx (wd w))).2 (drop k (pending w !!! idx)) w).

(** The handler is dropped while it waits. A pipe may have been read in part;
    receiving from a channel takes a whole message or none. *)
Definition cancel (r k : nat) (w : world) : option world :=
  g ← held w !! r;
  idx ← g_idx g;
  Some (release r idx (drop_guard g (wd w)).2
          (if channels then pending w !!! idx else drop k (pending w !!! idx)) w).

(** The worker of a slot answers the request it got first. *)
Definition answer_next (idx : nat) (a : R) (w : world) : option world :=
  match inbox w !!! idx with
  | [] => None
  | r :: rest =>
      Some (World (wd w) (held w) (<[idx := rest]> (inbox w))
              (<[idx := pending w !!! idx ++ [(r, a)]]> (pending w)) (delivered w))
  end.

(** The reaper: slots over their quota are marked, [replaced] are the slots
    whose worker it found dead and replaced, and the dispatch is refreshed. *)
Definition retired (d : ThreadDispatch) : ThreadDispatch :=
  foldl (λ d idx, mark_unhealthy idx d) d (over_quota_indices d).

Definition forget {A} (slots : list nat) (m : gmap nat A) : gmap nat A :=
  foldr delete m slots.

Definition reap_slots (new_fds : list (Z * Z)) (new_pids : list Z) (replaced : list nat) (w : world)
    : option world :=
  d ← refresh_fds new_fds new_pids (retired (wd w));
  Some (World d (held w) (forget replaced (inbox w)) (forget replaced (pending w)) (delivered w)).

Inductive event :=
| EBegin (r : nat) (sent : bool)
| EAnswer (idx : nat) (a : R)
| EReceive (r : nat)
| EFail (r k : nat)
| ECancel (r k : nat)
| EReap (new_fds : list (Z * Z)) (new_pids : list Z) (replaced : list nat).

Definition x_step (e : event) (w : world) : option world :=
  match e with
  | EBegin r sent =>
      match held w !! r with Some _ => None | None => Some (begin_exchange r sent w) end
  | EAnswer idx a => answer_next idx a w
  | EReceive r => receive r w
  | EFail r k => fail_exchange r k w
  | ECancel r k => cancel r k w
  | EReap new_fds new_pids replaced => reap_slots new_fds new_pids replaced w
  end.

Definition x_run (es : list event) (w : world) : option world :=
  foldl (λ w e, w ≫= x_step e) (Some w) es.

(** What the reaper is meant to do: the pool keeps its size, and every slot that
    comes back has a new worker. *)
Definition reap_fresh (w : world) (e : event) : Prop :=
  match e with
  | EReap new_fds _ replaced =>
      length new_fds = length (td_fds (wd w)) ∧
      revived (length (td_fds (wd w))) (length new_fds) (retired (wd w)) ⊆ replaced
  | _ => True
  end.

Definition steady_step (w w' : world) : Prop :=
  ∃ e, reap_fresh w e ∧ x_step e w = Some w'.
End exchange.
Arguments world R : clear implicits.
Arguments event R : clear implicits.

(** ** Lemmas *)

(** A claim takes slots off the end of the queue until one can be used. *)
Lemma get_idle_loop_shape n d o d' : get_idle_loop n d = (o, d') →
  ∃ permits q stale, td_queue d = q ++ stale ∧ d' = set_idle permits q d ∧
    match o with Some idx => head stale = Some idx ∧ is_pickable d idx = true | None => True end.
Proof.
  revert d. induction n as [|n IH]; intros d; simpl.
  { intros [= <- <-]. exists (idle_sem d), (td_queue d), []. rewrite app_nil_r. by destruct d. }
  destruct (idle_sem d) as [|permits] eqn:Es.
  { intros [= <- <-]. exists (idle_sem d), (td_queue d), []. rewrite app_nil_r. by destruct d. }
  destruct (td_queue d) as [|x q _] eqn:Eq using rev_ind; simpl.
  { intros [= <- <-]. by exists (S permits), [], []. }
  rewrite reverse_snoc, reverse_involutive, is_pickable_set_idle.
  destruct (is_pickable d x) eqn:Ex.
  - intros [= <- <-]. by exists permits, q, [x].
  - intros (k & q' & stale & Hq & -> & Ho)%IH. simpl in Hq. subst q.
    exists k, q', (stale ++ [x]). rewrite <- app_assoc. split_and!; [done|done|].
    destruct o; [|done]. rewrite is_pickable_set_idle in Ho. destruct Ho as [Hh ?].
    split; [by apply head_Some in Hh as [? ->]|done].
Qed.

Lemma staggered_positive base idx total : 0 < base → 0 < staggered_max_requests base idx total.
Proof. intros H. unfold staggered_max_requests. case_match; lia. Qed.

(** A slot that can be picked is neither marked nor revived by the reaper. *)
Lemma pickable_healthy d idx : 0 ≤ max_requests_per_worker d → is_pickable d idx = true →
  (idx < length (unhealthy d))%nat ∧ is_unhealthy d idx = false ∧
  ¬ (0 < max_requests_per_worker d ∧ quota_for d idx ≤ served d idx).
Proof.
  unfold is_pickable. rewrite !andb_true_iff, !negb_true_iff, Nat.ltb_lt.
  intros Hm [[Hl Hu] Hq]. split_and!; [done|done|]. intros [Hp Hs].
  apply andb_false_iff in Hq as [Hq|Hq]; [apply Z.ltb_ge in Hq|apply Z.leb_gt in Hq]; [|lia].
  pose proof (staggered_positive _ idx (length (unhealthy d)) Hp) as Hpos.
  change (0 < quota_for d idx) in Hpos. lia.
Qed.

Lemma unpickable_revived d idx : (idx < length (unhealthy d))%nat → is_pickable d idx = false →
  length (td_fds d) = length (unhealthy d) → 0 ≤ max_requests_per_worker d →
  idx ∈ revived (length (td_fds d)) (length (td_fds d)) d.
Proof.
  intros Hl Hp Hlen Hm. apply list_elem_of_filter. split; [|apply elem_of_seq; lia].
  split; [lia|]. unfold is_pickable in Hp. apply Nat.ltb_lt in Hl as Hl'. rewrite Hl' in Hp.
  destruct (is_unhealthy d idx); [by left|right]. simpl in Hp.
  apply negb_false_iff, andb_true_iff in Hp as [Hq Hs]. apply Z.ltb_lt in Hq. apply Z.leb_le in Hs.
  split; [|done]. unfold quota_for, staggered_max_requests in Hq. apply Z.le_neq. split; [done|].
  intros E. rewrite <- E in Hq. simpl in Hq. lia.
Qed.

(** What marking a slot leaves alone. *)
Lemma mark_other idx idx' d : idx ≠ idx' →
  is_pickable (mark_unhealthy idx d) idx' = is_pickable d idx'.
Proof.
  intros Hn. unfold is_pickable, is_unhealthy, quota_for, served, mark_unhealthy; simpl.
  by rewrite length_insert, list_lookup_insert_ne.
Qed.

Lemma mark_same idx d : is_pickable (mark_unhealthy idx d) idx = false.
Proof.
  unfold is_pickable, is_unhealthy, mark_unhealthy; simpl. rewrite length_insert.
  destruct (Nat.ltb_spec idx (length (unhealthy d))); [|done].
  by rewrite list_lookup_insert_eq.
Qed.

Lemma served_other idx idx' d : idx ≠ idx' →
  is_pickable (record_served idx d) idx' = is_pickable d idx'.
Proof.
  intros Hn. unfold is_pickable, is_unhealthy, quota_for, served, record_served; simpl.
  by rewrite list_lookup_insert_ne.
Qed.

Lemma retired_pickable d idx : is_pickable (retired d) idx = is_pickable d idx.
Proof.
  unfold retired.
  assert (∀ i, i ∈ over_quota_indices d → is_pickable d i = false) as Hov.
  { intros i Hi. unfold over_quota_indices in Hi. case_match; [set_solver|].
    apply list_elem_of_filter in Hi as [(Hu & Hq & Hs) _]. unfold is_pickable.
    apply Z.ltb_lt in Hq as ->. apply Z.leb_le in Hs as ->. simpl. by rewrite andb_false_r. }
  assert (∀ l d', (∀ i, i ∈ l → is_pickable d i = false) →
    (∀ i, is_pickable d' i = is_pickable d i) →
    is_pickable (foldl (λ d idx, mark_unhealthy idx d) d' l) idx = is_pickable d idx) as G.
  { induction l as [|i l IH]; intros d' Hl Hd'; simpl; [done|].
    apply IH; [set_solver|]. intros j. destruct (decide (i = j)) as [->|Hn].
    - rewrite mark_same. symmetry. apply Hl. set_solver.
    - by rewrite mark_other. }
  by apply G.
Qed.

Lemma retired_frame d :
  td_queue (retired d) = td_queue d ∧ td_fds (retired d) = td_fds d ∧
  length (unhealthy (retired d)) = length (unhealthy d) ∧
  max_requests_per_worker (retired d) = max_requests_per_worker d.
Proof.
  unfold retired. generalize (over_quota_indices d). intros l. revert d.
  induction l as [|i l IH]; intros d; simpl; [done|].
  destruct (IH (mark_unhealthy i d)) as (-> & -> & -> & ->). simpl. by rewrite length_insert.
Qed.

Lemma forget_lookup {A} `{Inhabited A} (slots : list nat) (m : gmap nat A) i :
  forget slots m !!! i = if decide (i ∈ slots) then inhabitant else m !!! i.
Proof.
  unfold forget. rewrite !lookup_total_alt.
  induction slots as [|j slots IH]; cbn [foldr]; [case_decide; set_solver|].
  destruct (decide (i = j)) as [->|Hn].
  - rewrite lookup_delete_eq, decide_True by set_solver. done.
  - rewrite lookup_delete_ne, IH by done. do 2 case_decide; set_solver.
Qed.

(** *** The invariant of exchanges on pipes *)

Section pipes.
Context {R : Type}.
Implicit Types (w : world R).

(** The requests a slot has anything of, sent to its worker or answered by it
    and not read. *)
Definition contents w (idx : nat) : list nat := inbox w !!! idx ++ (pending w !!! idx).*1.

Record x_inv w : Prop := {
  xi_len : length (td_fds (wd w)) = length (unhealthy (wd w));
  xi_max : 0 ≤ max_requests_per_worker (wd w);
  xi_queue : NoDup (td_queue (wd w));
  xi_idle idx : idx ∈ td_queue (wd w) → is_pickable (wd w) idx = true → contents w idx = [];
  xi_held r g : held w !! r = Some g → ∃ idx, g_idx g = Some idx ∧ poisoned g = true ∧
    (idx ∉ td_queue (wd w)) ∧ is_pickable (wd w) idx = true ∧
    (contents w idx = [] ∨ contents w idx = [r]);
  xi_excl r r' g g' : held w !! r = Some g → held w !! r' = Some g' → g_idx g = g_idx g' → r = r';
  xi_own x : x ∈ delivered w → x.1.2 = x.1.1 }.

(** Taking a slot that nobody has out of use. *)
Lemma inv_mark w w' idx :
  x_inv w → wd w' = mark_unhealthy idx (wd w) → idx ∉ td_queue (wd w) → held w' ⊆ held w →
  (∀ r g, held w' !! r = Some g → g_idx g ≠ Some idx) →
  (∀ i, i ≠ idx → contents w' i = contents w i) → delivered w' = delivered w → x_inv w'.
Proof.
  intros [Hl Hm Hq Hi Hh He Ho] Hw Hn Hs Hx Hc Hd.
  constructor; rewrite ?Hw, ?Hd; simpl; try done.
  - by rewrite length_insert.
  - intros i Hiq Hip. assert (i ≠ idx) by set_solver. rewrite Hc by done.
    rewrite mark_other in Hip by done. auto.
  - intros r g Hr. destruct (Hh r g) as (i & Hg & ? & ? & Hpk & ?); [by eapply lookup_weaken|].
    assert (i ≠ idx) by (intros ->; by eapply Hx).
    exists i. rewrite Hc, mark_other by done. done.
  - intros r r' g g' H1 H2. apply He; by eapply lookup_weaken.
Qed.

(** A guard that is given up takes its slot out of use. *)
Lemma inv_poison w r g idx rest :
  x_inv w → held w !! r = Some g → g_idx g = Some idx →
  x_inv (release r idx (drop_guard g (wd w)).2 rest w).
Proof.
  intros Hw Hr Hg. destruct (xi_held _ Hw r g Hr) as (? & Eg & Hp & Hn & _). simplify_eq.
  unfold drop_guard. rewrite Hg, Hp. cbn [snd].
  apply (inv_mark w _ idx); [done|done|done|apply delete_subseteq| | |done]; simpl.
  - intros r' g' [Hne Hr']%lookup_delete_Some Hg'. apply Hne, (xi_excl _ Hw r r' g g'); congruence.
  - intros i Hne. unfold contents; simpl. by rewrite lookup_total_insert_ne.
Qed.

Lemma inv_receive w r w' : x_inv w → receive r w = Some w' → x_inv w'.
Proof.
  intros [Hl Hm Hq Hi Hh He Ho]. unfold receive.
  destruct (held w !! r) as [g|] eqn:Hr; [|done]. simpl.
  destruct (Hh r g Hr) as (idx & Hg & _ & Hn & _ & Hc). rewrite Hg. simpl.
  destruct (pending w !!! idx) as [|[t a] rest] eqn:Ep; [done|]. intros [= <-].
  assert (t = r ∧ inbox w !!! idx = [] ∧ rest = []) as (-> & Ein & ->).
  { unfold contents in Hc. rewrite Ep in Hc. destruct (inbox w !!! idx) as [|x l]; simpl in Hc.
    - destruct Hc as [|Hc]; [done|]. injection Hc as -> Hc. by apply fmap_nil_inv in Hc as ->.
    - destruct Hc as [|Hc]; [done|]. injection Hc as _ Hc. by destruct l. }
  assert (poisoned (mark_completed g) = false) as Hnp
    by (unfold poisoned; simpl; by destruct (poison_on_drop g)).
  unfold drop_guard. rewrite Hnp. cbn [g_idx mark_completed]. rewrite Hg. cbn [snd].
  assert (∀ i, i ≠ idx → contents (World (R := R) (wd w) (held w) (inbox w)
    (<[idx := []]> (pending w)) []) i = contents w i) as Hcn.
  { intros i Hne. unfold contents; simpl. by rewrite lookup_total_insert_ne. }
  constructor; simpl.
  - done.
  - done.
  - apply NoDup_app. split_and!; [done|set_solver|apply NoDup_singleton].
  - intros i [Hiq| ->%list_elem_of_singleton]%elem_of_app Hip.
    + assert (i ≠ idx) by set_solver. rewrite <- (Hi i); [by apply Hcn|done|].
      by rewrite <- (served_other idx i).
    + unfold contents; simpl. by rewrite Ein, lookup_total_insert_eq.
  - intros r' g' [Hne Hr']%lookup_delete_Some. destruct (Hh r' g' Hr') as (i & Eg' & ? & ? & Hpk & ?).
    assert (i ≠ idx) by (intros ->; apply Hne, (He r r' g g'); congruence).
    exists i. split_and!; [done|done|set_solver| |].
    + by rewrite <- (served_other idx i) in Hpk.
    + by rewrite <- (Hcn i) in * by done.
  - intros r1 r2 g1 g2 [_ H1]%lookup_delete_Some [_ H2]%lookup_delete_Some. eauto.
  - intros x [| ->%list_elem_of_singleton]%elem_of_app; [auto|done].
Qed.

Lemma inv_answer w idx a w' : x_inv w → answer_next idx a w = Some w' → x_inv w'.
Proof.
  intros [Hl Hm Hq Hi Hh He Ho]. unfold answer_next.
  destruct (inbox w !!! idx) as [|r rest] eqn:Ein; [done|]. intros [= <-].
  set (w' := World _ _ _ _ _).
  assert (∀ i x, (contents w i = [] ∨ contents w i = [x]) → contents w' i = contents w i) as Hc.
  { intros i x Hx. unfold contents, w'; simpl. destruct (decide (i = idx)) as [->|Hne].
    - rewrite !lookup_total_insert_eq, fmap_app. simpl. revert Hx. unfold contents. rewrite Ein.
      intros [|Hx]; [done|]. injection Hx as -> Hx.
      apply app_nil in Hx as [-> Hx]. by rewrite Hx.
    - by rewrite !lookup_total_insert_ne by done. }
  constructor; try done.
  - intros i Hiq Hip. rewrite (Hc i 0%nat); auto.
  - intros r' g' Hr'. destruct (Hh r' g' Hr') as (i & ? & ? & ? & ? & Hx). exists i.
    rewrite (Hc i r') by done. done.
Qed.

(** Slots that are not handed out are forgotten until they are revived. *)
Lemma inv_skip w permits q stale :
  x_inv w → td_queue (wd w) = q ++ stale → x_inv (set_wd (set_idle permits q (wd w)) w).
Proof.
  intros [Hl Hm Hq Hi Hh He Ho] Eq. rewrite Eq in *. constructor; simpl; try done.
  - by apply NoDup_app in Hq as [? _].
  - intros i Hiq Hip. apply Hi; [set_solver|done].
  - intros r g Hr. destruct (Hh r g Hr) as (i & ? & ? & ? & ? & ?). exists i.
    split_and!; [done|done|set_solver|done|done].
Qed.

Lemma inv_begin w r sent : x_inv w → held w !! r = None → x_inv (begin_exchange false r sent w).
Proof.
  intros Hw Hr. unfold begin_exchange, get_idle.
  destruct (get_idle_loop _ _) as [o d] eqn:E.
  apply get_idle_loop_shape in E as (k & q & stale & Eq & -> & Ho).
  pose proof (inv_skip w k q stale Hw Eq) as Hs.
  destruct o as [idx|]; [|done]. destruct Ho as [Hst Hpk].
  apply head_Some in Hst as [stale' ->].
  assert (idx ∉ q) as Hnq.
  { pose proof (xi_queue _ Hw) as Hnd. rewrite Eq in Hnd. apply NoDup_app in Hnd as (_ & Hd & _).
    set_solver. }
  assert (contents w idx = []) as Hc by (apply (xi_idle _ Hw); [rewrite Eq; set_solver|done]).
  assert (∀ r' g, held w !! r' = Some g → g_idx g ≠ Some idx) as Hfree.
  { intros r' g Hr' Hg. destruct (xi_held _ Hw r' g Hr') as (i & ? & _ & Hni & _).
    simplify_eq. apply Hni. rewrite Eq. set_solver. }
  destruct (pickable_healthy _ _ (xi_max _ Hw) Hpk) as (Hlt & _). rewrite <- (xi_len _ Hw) in Hlt.
  unfold claim_guard, fds. apply lookup_lt_is_Some_2 in Hlt as [[cmd_fd resp_fd] Hfd].
  simpl. rewrite Hfd. simpl. destruct sent.
  - apply app_nil in Hc as [Hin Hpe]. destruct Hs as [Hl Hm Hq Hi Hh He Ho].
    assert (∀ i, i ≠ idx → contents (World (R := R) (wd w) (held w)
      (<[idx := inbox w !!! idx ++ [r]]> (inbox w)) (pending w) []) i = contents w i) as Hcn.
    { intros i Hne. unfold contents; simpl. by rewrite lookup_total_insert_ne. }
    constructor; simpl in *; try done.
    + intros i Hiq Hip. etrans; [apply Hcn; set_solver|]. by apply Hi.
    + intros r' g'. rewrite lookup_insert_Some. intros [[<- <-]|[Hne Hr']].
      * exists idx. split_and!; [done|done|done|done|]. right. unfold contents; simpl.
        by rewrite lookup_total_insert_eq, Hin, Hpe.
      * destruct (Hh r' g' Hr') as (i & Hg & ? & ? & ? & Hx). exists i.
        assert (i ≠ idx) by (intros ->; by eapply Hfree).
        split_and!; try done. change (contents w i = [] ∨ contents w i = [r']) in Hx.
        by rewrite <- (Hcn i) in Hx.
    + intros r1 r2 g1 g2. rewrite !lookup_insert_Some. simpl.
      intros [[<- <-]|[? H1]] [[<- <-]|[? H2]] Hg; [done| | |eauto].
      * exfalso. by eapply Hfree.
      * exfalso. by eapply Hfree.
  - by eapply (inv_mark _ _ idx Hs).
Qed.

Lemma foldl_requeue_NoDup rs q : NoDup q → NoDup (foldl requeue q rs).
Proof.
  revert q. induction rs as [|i rs IH]; intros q Hq; simpl; [done|]. apply IH.
  unfold requeue. case_bool_decide; [done|].
  apply NoDup_app. split_and!; [done|set_solver|apply NoDup_singleton].
Qed.

Lemma refresh_same d new_fds new_pids : length new_fds = length (td_fds d) →
  let n := length new_fds in
  refresh_fds new_fds new_pids d =
    Some (revive (revived n n d) (reset_health n (set_fds new_fds (resize n 0 new_pids) d))).
Proof. intros E n. unfold refresh_fds, grow. fold n. by rewrite <- E, Nat.ltb_irrefl. Qed.

Lemma inv_reap w new_fds new_pids replaced w' :
  x_inv w → reap_fresh w (EReap new_fds new_pids replaced) →
  reap_slots new_fds new_pids replaced w = Some w' → x_inv w'.
Proof.
  intros [Hl Hm Hq Hi Hh He Ho] [Hlen Hrev]. unfold reap_slots.
  destruct (retired_frame (wd w)) as (Rq & Rf & Ru & Rm).
  rewrite refresh_same by congruence. simpl. intros [= <-]. rewrite <- Hlen in Hrev.
  set (d := retired (wd w)) in *. set (n := length new_fds) in *.
  assert (∀ i, (i < n)%nat → is_pickable (reset_health n (set_fds new_fds (resize n 0 new_pids) d)) i = true) as Hpk.
  { intros i Hlt. apply reset_pickable; [done|]. simpl. lia. }
  assert (∀ i, i ∈ revived n n d → is_pickable (wd w) i = false) as Hrv.
  { intros i [[_ Hx] _]%list_elem_of_filter. apply not_true_iff_false. intros Hp.
    rewrite <- (retired_pickable (wd w)) in Hp. fold d in Hp.
    apply pickable_healthy in Hp as (_ & Hu & Hqt); [|lia]. destruct Hx as [Hx|Hx]; [congruence|].
    by apply Hqt. }
  set (w' := World _ _ _ _ _).
  assert (∀ i, contents w' i = if decide (i ∈ replaced) then [] else contents w i) as Hc.
  { intros i. unfold contents, w'; simpl. rewrite !forget_lookup. by case_decide. }
  constructor; simpl; rewrite ?Hc; try done.
  - rewrite reset_length. simpl. lia.
  - lia.
  - apply foldl_requeue_NoDup. by rewrite Rq.
  - intros i Hiq Hip. rewrite Hc. case_decide as Hr; [done|].
    assert (i ∉ revived n n d) as Hni by set_solver.
    apply foldl_requeue_elem in Hiq as [Hiq|]; [|done]. rewrite Rq in Hiq. apply Hi; [done|].
    destruct (is_pickable (wd w) i) eqn:Hx; [done|]. exfalso. apply Hni.
    replace n with (length (td_fds d)) by congruence. unfold d in *.
    rewrite <- retired_pickable in Hx.
    apply unpickable_revived; [|done|congruence|lia]. unfold is_pickable in Hip.
    rewrite !andb_true_iff, Nat.ltb_lt in Hip. destruct Hip as [[Hip _] _]. simpl in Hip.
    by rewrite reset_length in Hip.
  - intros r g Hr. destruct (Hh r g Hr) as (i & Hg & Hp & Hn & Hpi & Hx). exists i.
    rewrite Hc. split_and!; [done|done| | |].
    + rewrite foldl_requeue_elem, Rq. intros [|Hx']; [done|]. apply Hrv in Hx'. congruence.
    + apply Hpk. apply pickable_healthy in Hpi; lia.
    + case_decide; [by left|done].
Qed.

Lemma inv_step w w' : x_inv w → steady_step false w w' → x_inv w'.
Proof.
  intros Hw (e & Hf & E). destruct e as [r sent|idx a|r|r k|r k|new_fds new_pids replaced]; simpl in E.
  - destruct (held w !! r) eqn:Hr; simplify_eq. by apply inv_begin.
  - by eapply inv_answer.
  - by eapply inv_receive.
  - unfold fail_exchange in E. destruct (held w !! r) as [g|] eqn:Hr; simplify_eq/=.
    destruct (g_idx g) eqn:Hg; simplify_eq/=. by eapply inv_poison.
  - unfold cancel in E. destruct (held w !! r) as [g|] eqn:Hr; simplify_eq/=.
    destruct (g_idx g) eqn:Hg; simplify_eq/=. by eapply inv_poison.
  - by eapply inv_reap.
Qed.

Lemma inv_init new_fds pids max : 0 ≤ max →
  x_inv (world_new (set_max_requests max (td_new new_fds pids))).
Proof.
  intros Hm. constructor; simpl; try done.
  - by rewrite length_replicate.
  - apply NoDup_seq.
  - set_solver.
Qed.
End pipes.

(** *** Runs of few events *)

Lemma get_idle_last d q idx permits :
  idle_sem d = S permits → td_queue d = q ++ [idx] → is_pickable d idx = true →
  get_idle d = (Some idx, set_idle permits q d).
Proof.
  intros Hs Hq Hp. unfold get_idle, max_skips.
  destruct (length (unhealthy d) `max` 1 * 2)%nat eqn:E; [lia|].
  simpl. by rewrite Hs, Hq, reverse_snoc, reverse_involutive, is_pickable_set_idle, Hp.
Qed.

Lemma filter_unique {A} (P : A → Prop) `{∀ x, Decision (P x)} (l : list A) x :
  NoDup l → x ∈ l → (∀ y, y ∈ l → P y ↔ y = x) → filter P l = [x].
Proof.
  intros Hnd Hx HP. assert (filter P l ≡ₚ [x]) as Hperm.
  { apply NoDup_Permutation; [by apply NoDup_filter|apply NoDup_singleton|].
    intros y. rewrite list_elem_of_filter, list_elem_of_singleton. split.
    - intros [? Hy]. by apply (HP y).
    - intros ->. split; [by apply HP|done]. }
  symmetry in Hperm. by apply Permutation_singleton_l in Hperm.
Qed.

(** After one slot of a healthy dispatch was poisoned it is the only one that
    the next refresh brings back. *)
Lemma revived_only d idx :
  0 ≤ max_requests_per_worker d → length (td_fds d) = length (unhealthy d) →
  (∀ i, (i < length (unhealthy d))%nat → is_pickable d i = true) → (idx < length (unhealthy d))%nat →
  let n := length (td_fds d) in revived n n (retired (mark_unhealthy idx d)) = [idx].
Proof.
  intros Hm Hl Hall Hidx n. destruct (retired_frame (mark_unhealthy idx d)) as (_ & Rf & Ru & Rm).
  simpl in Rf, Ru, Rm. rewrite length_insert in Ru. unfold revived. rewrite Ru.
  replace (n `min` length (unhealthy d))%nat with n by lia.
  apply filter_unique; [apply NoDup_seq|apply elem_of_seq; lia|].
  intros i Hi%elem_of_seq. split.
  - intros [_ Hx]. destruct (decide (i = idx)) as [|Hn]; [done|exfalso].
    assert (is_pickable (retired (mark_unhealthy idx d)) i = true) as Hp
      by (rewrite retired_pickable, mark_other by done; apply Hall; lia).
    apply pickable_healthy in Hp as (_ & Hu & Hq); [|by rewrite Rm].
    destruct Hx as [Hx|Hx]; [congruence|by apply Hq].
  - intros ->. split; [lia|].
    assert (idx ∈ revived n n (retired (mark_unhealthy idx d))) as Hr.
    { replace n with (length (td_fds (retired (mark_unhealthy idx d)))) by (rewrite Rf; done).
      apply unpickable_revived; rewrite ?Ru, ?Rf, ?Rm; try done.
      by rewrite retired_pickable, mark_same. }
    by apply list_elem_of_filter in Hr as [[_ ?] _].
Qed.

Section few.
Context {R : Type} (channels : bool).
Implicit Types (w : world R).

Lemma x_run_cons e es w w1 : x_step channels e w = Some w1 →
  x_run channels (e :: es) w = x_run channels es w1.
Proof. intros E. unfold x_run. simpl. by rewrite E. Qed.

Lemma begin_last w r q idx permits g :
  held w !! r = None → idle_sem (wd w) = S permits → td_queue (wd w) = q ++ [idx] →
  is_pickable (wd w) idx = true → claim_guard channels idx (set_idle permits q (wd w)) = Some g →
  x_step channels (EBegin r true) w =
    Some (World (set_idle permits q (wd w)) (<[r := g]> (held w))
      (<[idx := inbox w !!! idx ++ [r]]> (inbox w)) (pending w) (delivered w)).
Proof.
  intros Hr Hs Hq Hp Hg. simpl. rewrite Hr. unfold begin_exchange.
  by rewrite (get_idle_last _ q idx permits), Hg.
Qed.

(** A slot that is handed out while its worker is busy with an older request
    gives the answer to that request to the new one. *)
Lemma stale_slot_misdelivers w q idx permits r r' g (a : R) :
  held w !! r' = None → idle_sem (wd w) = S permits → td_queue (wd w) = q ++ [idx] →
  is_pickable (wd w) idx = true → claim_guard channels idx (set_idle permits q (wd w)) = Some g →
  inbox w !!! idx = [r] → pending w !!! idx = [] → delivered w = [] →
  ∃ w', x_run channels [EBegin r' true; EAnswer idx a; EReceive r'] w = Some w' ∧
    delivered w' = [(r', r, a)].
Proof.
  intros Hr Hs Hq Hp Hg Hi Hpe Hd.
  assert (g_idx g = Some idx) as Hgi.
  { unfold claim_guard in Hg. destruct channels; simplify_eq/=; [done|].
    destruct (fds _ _) as [[]|]; by simplify_eq/=. }
  erewrite x_run_cons by (by eapply begin_last). rewrite Hi, Hd.
  erewrite x_run_cons; [|simpl; unfold answer_next; simpl; by rewrite lookup_total_insert_eq].
  erewrite x_run_cons; [|simpl; unfold receive; simpl; rewrite lookup_insert_eq; simpl;
    rewrite Hgi; simpl; rewrite lookup_total_insert_eq, Hpe; simpl; reflexivity].
  by eexists.
Qed.
End few.

(** *** Messages *)

(** A request that fits the native protocol fits the persistent one, whose
    lengths have 32 bits. *)
Lemma native_fits (per : PersistentRequest) (nat : NativeRequest) :
  native_wf nat → native_short nat = true →
  [script_filename per; method per; uri per; query_string per; content_type per; cookie per;
   Persistent.document_root per; client_ip per; path_info per; script_name per] = native_strings nat →
  headers per = n_headers nat → body per = n_body nat → port per = n_server_port nat →
  request_fits per ∧ request_nul_free per = true.
Proof.
  intros (Hs & Hh & _ & Hp & Hb & Hn) Hsh Es Eh Eb Ep. unfold native_short in Hsh.
  apply andb_true_iff in Hsh as [Hl Hpl]. rewrite <- Es in Hs, Hl.
  rewrite !Forall_cons in Hs. destruct_and! Hs.
  simpl in Hl. rewrite !andb_true_iff, !Z.ltb_lt in Hl. destruct_and! Hl.
  unfold pairs_short in Hpl. rewrite forallb_forall in Hpl.
  split.
  - unfold request_fits. rewrite Eb, Eh, Ep. split_and!; [|lia| |lia..].
    + repeat constructor; lia.
    + apply Forall_forall. intros h Hin. apply list_elem_of_In, Hpl in Hin.
      rewrite andb_true_iff, !Z.ltb_lt in Hin. simpl in *. lia.
  - unfold request_nul_free, pairs_nul_free, nul_free. rewrite Eh, !andb_true_iff. split_and!.
    + simpl. by rewrite !bool_decide_eq_true_2.
    + apply forallb_forall. intros h Hin. rewrite Forall_forall in Hh.
      apply list_elem_of_In, Hh in Hin as [??]. by rewrite !bool_decide_eq_true_2.
    + simpl. by rewrite !bool_decide_eq_true_2.
Qed.

(** ** Properties *)

(** C2: Responses over pipes never reach the wrong client. However requests,
    answers, failed writes, undecodable answers, clients that go away and passes
    of the reaper interleave, a handler that gets a response gets the one to its
    own request, and the slot of a handler that waits holds nothing of anybody
    else, provided that every slot the reaper brings back has a new worker. *)
Theorem exchange_isolated {R} (new_fds : list (Z * Z)) (pids : list Z) (max : Z) (w : world R) :
  0 ≤ max → rtc (steady_step false) (world_new (set_max_requests max (td_new new_fds pids))) w →
  (∀ r t a, (r, t, a) ∈ delivered w → t = r) ∧
  (∀ r g idx, held w !! r = Some g → g_idx g = Some idx → contents w idx ⊆ [r]).
Proof.
  intros Hm Hr.
  assert (x_inv w) as Hw.
  { eapply (rtc_ind_r x_inv); [by apply inv_init| |exact Hr]. intros ???. eauto using inv_step. }
  split.
  - intros r t a Hx. by apply (xi_own _ Hw (r, t, a)).
  - intros r g idx Hh Hg. destruct (xi_held _ Hw r g Hh) as (i & ? & _ & _ & _ & Hc).
    simplify_eq. destruct Hc as [->| ->]; set_solver.
Qed.

(** C38: Channel workers leak responses between clients. When a client goes away
    while its script runs, the slot goes back to the queue at once, because
    nothing is supposed to be in flight on a channel; but the worker still
    answers, and the next request on the slot, the very next one as the slot was
    returned last, receives that answer in place of its own. *)
Theorem channel_cancel_leaks {R} (d : ThreadDispatch) (q : list nat) (idx permits r r' : nat) (a : R) :
  idle_sem d = S permits → td_queue d = q ++ [idx] → is_pickable d idx = true →
  ∃ w, x_run true [EBegin r true; ECancel r 0; EBegin r' true; EAnswer idx a; EReceive r']
         (world_new d) = Some w ∧ delivered w = [(r', r, a)].
Proof.
  intros Hs Hq Hp.
  erewrite x_run_cons by (by eapply begin_last).
  erewrite x_run_cons; [|simpl; unfold cancel; simpl; by rewrite lookup_insert_eq].
  apply (stale_slot_misdelivers true _ q idx permits r r' (guard_new idx) a); simpl; try done.
  - by rewrite delete_insert_eq, delete_empty.
  - by rewrite lookup_total_insert_eq.
  - by rewrite lookup_total_insert_eq.
Qed.

(** A poisoned slot comes back with its old worker. When a client goes away
    its slot is taken out of use until the reaper has replaced the worker; but a
    thread that still runs its script is alive, so that the reaper does not
    replace it, and the refresh that follows revives the slot all the same. The
    next request on it gets the answer to the request that was given up. *)
Theorem revived_slot_leaks {R} (d : ThreadDispatch) (q : list nat) (idx permits r r' : nat) (a : R) :
  0 ≤ max_requests_per_worker d → length (td_fds d) = length (unhealthy d) →
  (∀ i, (i < length (unhealthy d))%nat → is_pickable d i = true) →
  NoDup (td_queue d) → idle_sem d = S permits → td_queue d = q ++ [idx] → is_pickable d idx = true →
  ∃ w, x_run false [EBegin r true; ECancel r 0; EReap (td_fds d) (td_pids d) [];
                    EBegin r' true; EAnswer idx a; EReceive r'] (world_new d) = Some w ∧
    delivered w = [(r', r, a)].
Proof.
  intros Hm Hl Hall Hnd Hs Hq Hp.
  assert (idx < length (unhealthy d))%nat as Hidx by (by apply pickable_healthy in Hp as [? _]).
  assert (idx ∉ q) as Hnq by (rewrite Hq in Hnd; apply NoDup_app in Hnd; set_solver).
  destruct (lookup_lt_is_Some_2 (td_fds d) idx) as [[cmd_fd resp_fd] Hfd]; [lia|].
  set (g := arm_poison cmd_fd (td_pid d idx) (guard_new idx)).
  erewrite x_run_cons.
  2:{ eapply begin_last with (g := g); try done. unfold claim_guard, fds. simpl. by rewrite Hfd. }
  erewrite x_run_cons; [|simpl; unfold cancel; simpl; by rewrite lookup_insert_eq].
  set (d1 := set_idle permits q d).
  pose proof (revived_only d1 idx Hm Hl Hall Hidx) as Hrev.
  destruct (retired_frame (mark_unhealthy idx d1)) as (Rq & Rf & Ru & Rm).
  erewrite x_run_cons.
  2:{ simpl. unfold reap_slots. simpl. rewrite refresh_same by (by rewrite Rf). simpl in Hrev.
      rewrite Hrev. simpl. reflexivity. }
  apply (stale_slot_misdelivers false _ q idx (idle_sem (retired (mark_unhealthy idx d1)))
    r r' (arm_poison cmd_fd (default 0 (resize (length (td_fds d)) 0 (td_pids d) !! idx)) (guard_new idx)) a);
    simpl; try done.
  - by rewrite delete_insert_eq.
  - lia.
  - rewrite Rq. simpl. unfold requeue. by rewrite bool_decide_eq_false_2.
  - apply (reset_pickable (length (td_fds d))); simpl; [lia|]. rewrite Ru. simpl.
    by rewrite length_insert.
  - unfold claim_guard, fds. simpl. by rewrite Hfd.
  - by rewrite lookup_total_insert_eq.
  - by rewrite lookup_total_insert_eq.
Qed.

(** What PHP is told of an HTTP request. *)
Definition http_sapi_request (entries : gmap bytes bytes → list (bytes * bytes)) (app : AppStructure)
    (php_path listen ip : bytes) (tls : bool) (r : FullHttpRequest) : sapi_request :=
  {| r_method := fr_method r; r_uri := request_target r; r_query_string := fr_query_string r;
     r_content_type := non_empty (default [] (fr_content_type r));
     r_content_length := if bool_decide (fr_body r = []) then -1 else zlen (fr_body r);
     r_cookie := non_empty (default [] (fr_headers r !! lit "cookie"));
     r_script := document_root_str app ++ [x2f] ++ php_path;
     r_document_root := document_root_str app; r_addr := ip; r_remote_port := 0;
     r_port := server_port listen; r_is_https := if tls then 1 else 0; r_path_info := fr_path r;
     r_script_name := [x2f] ++ php_path; r_body := non_empty (fr_body r);
     r_headers := entries (fr_headers r) |}.


(** ** Witnesses *)

Definition ex_dispatch : ThreadDispatch := set_max_requests 10 (td_new [(3, 4); (5, 6)] [100; 101]).

(** Whether the reaper does what it is meant to all along a run. *)
Definition reap_freshb (w : world bytes) (e : event bytes) : bool :=
  match e with
  | EReap new_fds _ replaced =>
      bool_decide (length new_fds = length (td_fds (wd w))) &&
      bool_decide (revived (length (td_fds (wd w))) (length new_fds) (retired (wd w)) ⊆ replaced)
  | _ => true
  end.

Fixpoint steady (es : list (event bytes)) (w : world bytes) : bool :=
  match es with
  | [] => true
  | e :: es => reap_freshb w e && from_option (steady es) true (x_step false e w)
  end.

Lemma x_run_steady es w w' :
  x_run false es w = Some w' → steady es w = true → rtc (steady_step false) w w'.
Proof.
  revert w. induction es as [|e es IH]; intros w; [intros [= ->]; constructor|].
  cbn [steady]. destruct (x_step false e w) as [w1|] eqn:E.
  - rewrite (x_run_cons false e es w w1 E), andb_true_iff. intros Hr [Hf Hs].
    apply (rtc_l _ w w1); [|by apply IH]. exists e. split; [|done].
    destruct e; try done. simpl in Hf. rewrite andb_true_iff, !bool_decide_eq_true in Hf. done.
  - unfold x_run. simpl. rewrite E.
    assert (∀ l, foldl (λ w e, w ≫= x_step false e) None l = @None (world bytes)) as ->
      by (induction l; done). done.
Qed.

(** A client goes away, the reaper replaces its worker, two others are served. *)
Definition ex_events : list (event bytes) :=
  [EBegin 0 true; ECancel 0 0; EBegin 1 true; EReap [(3, 4); (7, 8)] [100; 102] [1%nat];
   EBegin 2 true; EAnswer 1 (lit "two"); EAnswer 0 (lit "one"); EReceive 1; EReceive 2].

Lemma exchange_isolated_witness :
  ∃ w : world bytes, delivered w = [(1%nat, 1%nat, lit "one"); (2%nat, 2%nat, lit "two")] ∧
    (∀ r t a, (r, t, a) ∈ delivered w → t = r) ∧
    (∀ r g idx, held w !! r = Some g → g_idx g = Some idx → contents w idx ⊆ [r]).
Proof.
  destruct (x_run false ex_events (world_new ex_dispatch)) as [w|] eqn:E; [|by vm_compute in E].
  exists w. split.
  - change (delivered w) with (from_option delivered [] (Some w)). rewrite <- E. by vm_compute.
  - apply (exchange_isolated [(3, 4); (5, 6)] [100; 101] 10 w); [done|].
    apply (x_run_steady ex_events); [done|]. by vm_compute.
Defined.

Lemma channel_cancel_leaks_witness :
  ∃ w, x_run true [EBegin 0 true; ECancel 0 0; EBegin 1 true; EAnswer 1 (lit "secret"); EReceive 1]
         (world_new (spawn_channel_workers 2)) = Some w ∧
    delivered w = [(1%nat, 0%nat, lit "secret")].
Proof. by apply (channel_cancel_leaks (spawn_channel_workers 2) [0%nat] 1 1 0 1 (lit "secret")). Defined.

Lemma revived_slot_leaks_witness :
  ∃ w, x_run false [EBegin 0 true; ECancel 0 0; EReap [(3, 4); (5, 6)] [100; 101] [];
                    EBegin 1 true; EAnswer 1 (lit "secret"); EReceive 1] (world_new ex_dispatch) = Some w ∧
    delivered w = [(1%nat, 0%nat, lit "secret")].
Proof.
  apply (revived_slot_leaks ex_dispatch [0%nat] 1 1 0 1 (lit "secret")); try done.
  - intros [|[|i]] Hi; [by vm_compute..|simpl in Hi; lia].
  - apply (bool_decide_unpack _). by vm_compute.
Defined.

Definition ex_http : FullHttpRequest :=
  {| fr_method := lit "POST"; fr_path := lit "/a"; fr_query_string := lit "x=1";
     fr_http_version := lit "HTTP/1.1"; fr_headers := {[ lit "cookie" := lit "sid=7" ]};
     fr_cookies := ∅; fr_body := lit "hello"; fr_content_type := None; fr_content_length := Some 5;
     fr_files := []; fr_multipart_post_params := [] |}.

Definition ex_srv : AppStructure :=
  {| PathGuard.document_root := lit "/srv"; document_root_str := lit "/srv";
     entry_point := lit "index.php"; front_controller := false; has_composer := false;
     has_env := false; autoload_path := None |}.

