(* ===== verification/PoolExchange.v ===== *)
(** * Named worker pools (turbine-core/src/main.rs)

    A route of the configuration can have a pool of its own. Its requests wait
    for a permit of its semaphore, claim a worker under the lock of the pool, send
    the request, and leave the reading of the response and the return of the worker
    to a task that goes on when the client is gone. There is no guard and no
    background reaper here: the pool is mended only by a claim that finds no idle
    worker. *)

From S2P Require Import Prelude WorkerPool.

Section pools.
Context {R : Type}.

(** [tasks]: the worker that the task of a request reads from; [gone]: requests
    whose client is gone; [p_inbox], [p_pending] and [p_delivered] as in file
    Exchange. *)
Record pools := Pools {
  p_pool : WorkerPool;
  permits : nat;
  tasks : gmap nat nat;
  gone : gset nat;
  p_inbox : gmap nat (list nat);
  p_pending : gmap nat (list (nat * R));
  p_delivered : list (nat * nat * R) }.

Definition set_pool (p : WorkerPool) (w : pools) : pools :=
  Pools p (permits w) (tasks w) (gone w) (p_inbox w) (p_pending w) (p_delivered w).

(** Start-up: the workers are spawned and their ready messages read; a pool that
    cannot be spawned is left out. *)
Definition named_pool (min_workers : nat) (worker_max_requests : Z) (mode : WorkerMode)
    (zts pin : bool) (os : list spawned) : option pools :=
  let p := pool_new {| cfg_workers := min_workers; cfg_max_requests := worker_max_requests;
                       cfg_mode := mode; cfg_pin_workers := pin |} in
  match match mode with
        | ModeThread => spawn_workers_threaded zts os p
        | ModeProcess => spawn_workers os p
        end with
  | (Ok _, _, p) => Some (Pools p min_workers ∅ ∅ ∅ ∅ [])
  | (Err _, _, _) => None
  end.

(** The body of [return_worker_to_pool], on the pool it picks. *)
Definition return_worker_to_pool (persistent : bool) (idx : nat) (reaped : bool) (o : spawned)
    (p : WorkerPool) : WorkerPool :=
  if persistent then (return_worker_persistent idx reaped o p).2 else (return_worker idx p).2.

Inductive claim_outcome := AllBusy | NotSent | Sent (idx : nat).

(** A request with a permit: [ls] and [os] are for the reaper of the claim. The
    permit is given back unless the task takes it along. *)
Definition begin_request (mode : WorkerMode) (r : nat) (ls : list liveness) (os : list spawned)
    (sent : bool) (w : pools) : claim_outcome * pools :=
  match claim_worker mode ls os (p_pool w) with
  | (None, p) => (AllBusy, set_pool p w)
  | (Some idx, p) =>
      if sent then
        (Sent idx,
         Pools p (permits w - 1) (<[r := idx]> (tasks w)) (gone w)
           (<[idx := p_inbox w !!! idx ++ [r]]> (p_inbox w)) (p_pending w) (p_delivered w))
      else (NotSent, set_pool (return_worker idx p).2 w)
  end.

(** The task ends: it has read [k] responses off the pipe, and [got] is what it
    hands to the handler, if that still waits. *)
Definition end_task (r idx k : nat) (got : option (nat * R)) (w : pools) : pools :=
  Pools (return_worker_to_pool false idx false (Err ForkFailed) (p_pool w)) (S (permits w))
    (delete r (tasks w)) (gone w ∖ {[r]}) (p_inbox w)
    (<[idx := drop k (p_pending w !!! idx)]> (p_pending w))
    (match got with
     | Some (t, a) => if decide (r ∈ gone w) then p_delivered w else p_delivered w ++ [(r, t, a)]
     | None => p_delivered w
     end).

Definition complete (r : nat) (w : pools) : option pools :=
  idx ← tasks w !! r;
  match p_pending w !!! idx with
  | [] => None
  | ta :: _ => Some (end_task r idx 1 (Some ta) w)
  end.

(** The descriptor cannot be registered, or the response not be read. *)
Definition read_failed (r k : nat) (w : pools) : option pools :=
  idx ← tasks w !! r; Some (end_task r idx k None w).

Definition handler_dropped (r : nat) (w : pools) : option pools :=
  _ ← tasks w !! r;
  Some (Pools (p_pool w) (permits w) (tasks w) ({[r]} ∪ gone w) (p_inbox w) (p_pending w)
          (p_delivered w)).

Definition worker_answers (idx : nat) (a : R) (w : pools) : option pools :=
  match p_inbox w !!! idx with
  | [] => None
  | r :: rest =>
      Some (Pools (p_pool w) (permits w) (tasks w) (gone w) (<[idx := rest]> (p_inbox w))
              (<[idx := p_pending w !!! idx ++ [(r, a)]]> (p_pending w)) (p_delivered w))
  end.

(** ** Histories *)

Inductive pevent :=
| PBegin (r : nat) (ls : list liveness) (os : list spawned) (sent : bool)
| PAnswer (idx : nat) (a : R)
| PComplete (r : nat)
| PFailed (r k : nat)
| PGone (r : nat).

Definition p_step (mode : WorkerMode) (e : pevent) (w : pools) : option pools :=
  match e with
  | PBegin r ls os sent =>
      match permits w, tasks w !! r with
      | S _, None => Some (begin_request mode r ls os sent w).2
      | _, _ => None
      end
  | PAnswer idx a => worker_answers idx a w
  | PComplete r => complete r w
  | PFailed r k => read_failed r k w
  | PGone r => handler_dropped r w
  end.

(** A step after which no worker has been retired for having served its quota. *)
Definition in_quota (w : pools) : Prop := ∀ x, x ∈ workers (p_pool w) → state x ≠ Stopping.

Definition quota_step (mode : WorkerMode) (w w' : pools) : Prop :=
  ∃ e, p_step mode e w = Some w' ∧ in_quota w'.

Definition is_failure (e : pevent) : bool := match e with PFailed _ _ => true | _ => false end.

(** A step that is no failure to read, either. *)
Definition clean_step (mode : WorkerMode) (w w' : pools) : Prop :=
  ∃ e, is_failure e = false ∧ p_step mode e w = Some w' ∧ in_quota w'.

(** ** The slots *)

(** Every worker is idle and queued once, or busy with one task, which has the
    permit. *)
Record slots_inv (n : nat) (w : pools) : Prop := {
  si_count : length (workers (p_pool w)) = n;
  si_slots : idle_queue (p_pool w) ++ (map_to_list (tasks w)).*2 ≡ₚ seq 0 n;
  si_idle idx x : idx ∈ idle_queue (p_pool w) → workers (p_pool w) !! idx = Some x →
    state x = Idle;
  si_permits : permits w = length (idle_queue (p_pool w)) }.

Lemma slot_bound n w idx : slots_inv n w →
  (idx ∈ idle_queue (p_pool w) ∨ idx ∈ (map_to_list (tasks w)).*2) →
  ∃ x, workers (p_pool w) !! idx = Some x.
Proof.
  intros [Hc Hs _ _] Hin. apply lookup_lt_is_Some. rewrite Hc.
  assert (idx ∈ seq 0 n) as [_ Hlt]%elem_of_seq; [|done].
  rewrite <-Hs. by apply elem_of_app.
Qed.

Lemma task_slot w r idx : tasks w !! r = Some idx → idx ∈ (map_to_list (tasks w)).*2.
Proof. intros H. apply list_elem_of_fmap. exists (r, idx). by rewrite elem_of_map_to_list. Qed.

Lemma claim_last mode ls os p q idx x : idle_queue p = q ++ [idx] → workers p !! idx = Some x →
  state x = Idle → claim_worker mode ls os p =
    (Some idx, {| config := config p; workers := <[idx := mark_busy x]> (workers p);
                  idle_queue := q |}).
Proof.
  intros Eq Hx Hst. unfold claim_worker, dispatch, get_idle_worker. rewrite Eq, reverse_snoc.
  simpl. rewrite Hx, bool_decide_true by done. simpl. rewrite Hx. unfold upd_worker. simpl.
  by rewrite reverse_involutive.
Qed.

Lemma return_requeues p idx x y : workers p !! idx = Some x → mark_idle x = (false, y) →
  (return_worker idx p).2 = {| config := config p; workers := <[idx := y]> (workers p);
                               idle_queue := idle_queue p ++ [idx] |}.
Proof. intros Hx Hm. unfold return_worker. by rewrite Hx, Hm. Qed.

(** With a permit the claim takes the worker at the end of the queue, and the
    reaper does not run. *)
Lemma claim_with_permit n w mode ls os : slots_inv n w → permits w ≠ O →
  ∃ q idx x, idle_queue (p_pool w) = q ++ [idx] ∧ workers (p_pool w) !! idx = Some x ∧
    state x = Idle ∧ claim_worker mode ls os (p_pool w) =
      (Some idx, {| config := config (p_pool w); workers := <[idx := mark_busy x]> (workers (p_pool w));
                    idle_queue := q |}).
Proof.
  intros Hi Hp. pose proof Hi as [Hc Hs Hd Hper]. rewrite Hper in Hp.
  destruct (idle_queue (p_pool w)) as [|idx q _] eqn:Eq using rev_ind; [done|].
  destruct (slot_bound n w idx Hi) as [x Hx]; [left; rewrite Eq; set_solver|].
  exists q, idx, x. assert (state x = Idle) as Hst by (apply (Hd idx); [set_solver|done]).
  split_and!; [done..|]. by apply claim_last.
Qed.

(** A return that does not retire the worker puts it back at the end. *)
Lemma return_in_quota p idx x : workers p !! idx = Some x →
  (∀ y, y ∈ workers (return_worker idx p).2 → state y ≠ Stopping) →
  ∃ y, state y = Idle ∧
    (return_worker idx p).2 = {| config := config p; workers := <[idx := y]> (workers p);
                                 idle_queue := idle_queue p ++ [idx] |}.
Proof.
  intros Hx Hq. unfold return_worker in *. rewrite Hx in *.
  destruct (mark_idle x) as [[] y] eqn:Em; simpl in *.
  - destruct (Hq (set_state Stopping y)); [|done]. apply list_elem_of_insert.
    by eapply lookup_lt_Some.
  - exists y. unfold mark_idle in Em. by simplify_eq.
Qed.

Lemma slots_nodup n w : slots_inv n w →
  NoDup (idle_queue (p_pool w) ++ (map_to_list (tasks w)).*2).
Proof. intros [_ Hs _ _]. rewrite Hs. apply NoDup_seq. Qed.

Lemma begin_slots n w mode r ls os sent : slots_inv n w → permits w ≠ O → tasks w !! r = None →
  in_quota (begin_request mode r ls os sent w).2 → slots_inv n (begin_request mode r ls os sent w).2.
Proof.
  intros Hi Hp Hr. destruct (claim_with_permit n w mode ls os Hi Hp) as (q & idx & x & Eq & Hx & Hst & Ec).
  pose proof (slots_nodup n w Hi) as Hnd. destruct Hi as [Hc Hs Hd Hper]. rewrite Eq in *.
  unfold begin_request. rewrite Ec. destruct sent; simpl.
  - intros _. split; simpl.
    + by rewrite length_insert.
    + rewrite map_to_list_insert, <-Hs by done. simpl. solve_Permutation.
    + intros i y Hin. apply NoDup_app in Hnd as (Hnd & _). apply NoDup_app in Hnd as (_ & Hn & _).
      rewrite list_lookup_insert_ne by (intros ->; by apply (Hn i); [|set_solver]).
      apply Hd. set_solver.
    + rewrite Hper, length_app. simpl. lia.
  - intros Hq. set (p := {| config := _ |}) in *.
    destruct (return_in_quota p idx (mark_busy x)) as (y & Hy & Er); [|done|].
    { apply list_lookup_insert_eq. by eapply lookup_lt_Some. }
    rewrite Er. split; simpl.
    + by rewrite !length_insert.
    + done.
    + intros i z Hin. destruct (decide (i = idx)) as [->|Hn].
      { rewrite list_lookup_insert_eq by (rewrite length_insert; by eapply lookup_lt_Some).
        by intros [= <-]. }
      rewrite !list_lookup_insert_ne by done. by apply Hd.
    + done.
Qed.

Lemma end_slots n w r idx k got : slots_inv n w → tasks w !! r = Some idx →
  in_quota (end_task r idx k got w) → slots_inv n (end_task r idx k got w).
Proof.
  intros Hi Hr Hq. pose proof (slot_bound n w idx Hi (or_intror (task_slot w r idx Hr))) as [x Hx].
  destruct (return_in_quota _ _ _ Hx Hq) as (y & Hy & Er). destruct Hi as [Hc Hs Hd Hper].
  split; simpl; unfold return_worker_to_pool; rewrite Er; simpl.
  - by rewrite length_insert.
  - rewrite <-Hs, <-(map_to_list_delete (tasks w) r idx) by done. simpl.
    solve_Permutation.
  - intros i z Hin. destruct (decide (i = idx)) as [->|Hn].
    { rewrite list_lookup_insert_eq by (by eapply lookup_lt_Some). by intros [= <-]. }
    rewrite list_lookup_insert_ne by done. apply Hd. set_solver.
  - rewrite Hper, length_app. simpl. lia.
Qed.

Lemma slots_step n mode w w' : slots_inv n w → quota_step mode w w' → slots_inv n w'.
Proof.
  intros Hi (e & E & Hq). destruct e as [r ls os sent|idx a|r|r k|r]; simpl in E.
  - destruct (permits w) eqn:Hp, (tasks w !! r) eqn:Hr; simplify_eq. apply begin_slots; [done|lia|done|done].
  - unfold worker_answers in E. case_match; simplify_eq. by destruct Hi.
  - unfold complete in E. destruct (tasks w !! r) eqn:Hr; simplify_eq/=. case_match; simplify_eq.
    by apply end_slots.
  - unfold read_failed in E. destruct (tasks w !! r) eqn:Hr; simplify_eq/=. by apply end_slots.
  - unfold handler_dropped in E. destruct (tasks w !! r) eqn:Hr; simplify_eq/=. by destruct Hi.
Qed.

(** ** The pipes *)

(** The requests that a pipe has anything of. *)
Definition p_contents (w : pools) (idx : nat) : list nat :=
  p_inbox w !!! idx ++ (p_pending w !!! idx).*1.

Record own_inv (w : pools) : Prop := {
  oi_idle idx : idx ∈ idle_queue (p_pool w) → p_contents w idx = [];
  oi_task r idx : tasks w !! r = Some idx → p_contents w idx = [r];
  oi_own x : x ∈ p_delivered w → x.1.2 = x.1.1 }.

Lemma task_not_idle n w r idx : slots_inv n w → tasks w !! r = Some idx → idx ∉ idle_queue (p_pool w).
Proof.
  intros Hi Hr Hin. apply slots_nodup, NoDup_app in Hi as (_ & Hn & _).
  by apply (Hn idx), (task_slot w r).
Qed.

Lemma task_unique n w r r' idx : slots_inv n w → tasks w !! r = Some idx → tasks w !! r' = Some idx →
  r = r'.
Proof.
  intros Hi Hr Hr'. destruct (decide (r = r')) as [|Hn]; [done|exfalso].
  apply slots_nodup, NoDup_app in Hi as (_ & _ & Hnd).
  rewrite <-(map_to_list_delete (tasks w) r idx) in Hnd by done. simpl in Hnd.
  apply NoDup_cons in Hnd as [Hni _]. apply Hni, list_elem_of_fmap. exists (r', idx).
  split; [done|]. apply elem_of_map_to_list. by rewrite lookup_delete_ne.
Qed.

Lemma begin_own n w mode r ls os sent : slots_inv n w → own_inv w → permits w ≠ O → tasks w !! r = None →
  in_quota (begin_request mode r ls os sent w).2 → own_inv (begin_request mode r ls os sent w).2.
Proof.
  intros Hi [Hid Ht Hd] Hp Hr Hq.
  destruct (claim_with_permit n w mode ls os Hi Hp) as (q & idx & x & Eq & Hx & Hst & Ec).
  pose proof (slots_nodup n w Hi) as Hnd. rewrite Eq in Hnd, Hid. unfold begin_request in *.
  rewrite Ec in *. destruct sent; simpl in *.
  - assert (∀ i, i ≠ idx → p_contents (Pools {| config := config (p_pool w);
        workers := <[idx:=mark_busy x]> (workers (p_pool w)); idle_queue := q |} (permits w - 1)
        (<[r:=idx]> (tasks w)) (gone w) (<[idx := p_inbox w !!! idx ++ [r]]> (p_inbox w))
        (p_pending w) (p_delivered w)) i = p_contents w i) as Ho.
    { intros i Hn. unfold p_contents. simpl. by rewrite lookup_total_insert_ne. }
    split; simpl; [| |done].
    + intros i Hin. apply NoDup_app in Hnd as (Hnd & _). apply NoDup_app in Hnd as (_ & Hn & _).
      rewrite Ho by (intros ->; by apply (Hn idx); [|set_solver]). apply Hid. set_solver.
    + intros r' i. destruct (decide (r' = r)) as [->|Hn].
      * rewrite lookup_insert_eq. intros [= <-]. pose proof (Hid idx ltac:(set_solver)) as He.
        apply app_eq_nil in He as [E1 E2]. unfold p_contents. simpl.
        by rewrite lookup_total_insert_eq, E1, E2.
      * rewrite lookup_insert_ne by done. intros Hr'.
        rewrite Ho; [by apply Ht|]. intros ->.
        apply (task_not_idle n w r' idx Hi Hr'). rewrite Eq. set_solver.
  - set (p := {| config := _ |}) in *.
    destruct (return_in_quota p idx (mark_busy x)) as (y & Hy & Er); [|done|].
    { apply list_lookup_insert_eq. by eapply lookup_lt_Some. }
    rewrite Er. by split.
Qed.

Lemma complete_own n w r w' : slots_inv n w → own_inv w → complete r w = Some w' → in_quota w' → own_inv w'.
Proof.
  intros Hi [Hid Ht Hd] E Hq. unfold complete in E. destruct (tasks w !! r) as [idx|] eqn:Hr; [|done].
  simpl in E. pose proof (Ht _ _ Hr) as Hc. unfold p_contents in Hc.
  destruct (p_pending w !!! idx) as [|[t a] rest] eqn:Ep; simplify_eq.
  destruct (p_inbox w !!! idx) as [|? l] eqn:Eb; [|by destruct l; simplify_eq/=].
  destruct rest; simplify_eq/=.
  pose proof (slot_bound n w idx Hi (or_intror (task_slot w r idx Hr))) as [x Hx].
  destruct (return_in_quota _ _ _ Hx Hq) as (y & Hy & Er).
  assert (∀ i, p_contents (end_task r idx 1 (Some (r, a)) w) i =
    if decide (i = idx) then [] else p_contents w i) as Ho.
  { intros i. unfold p_contents. simpl. case_decide as Hn; subst.
    - by rewrite lookup_total_insert_eq, Ep, Eb.
    - by rewrite lookup_total_insert_ne. }
  split.
  - intros i. rewrite Ho. case_decide; [done|]. simpl. unfold return_worker_to_pool. rewrite Er. simpl.
    intros Hin. apply Hid. set_solver.
  - intros r' i. rewrite Ho. simpl. rewrite lookup_delete_Some. intros [Hn Hr'].
    rewrite decide_False; [by apply Ht|]. intros ->. by apply Hn, (task_unique n w r r' idx).
  - intros z. simpl. case_decide; [apply Hd|]. rewrite elem_of_app, list_elem_of_singleton.
    intros [Hz| ->]; [by apply Hd|done].
Qed.

Lemma answer_own w idx a w' : own_inv w → worker_answers idx a w = Some w' → own_inv w'.
Proof.
  intros [Hid Ht Hd] E. unfold worker_answers in E.
  destruct (p_inbox w !!! idx) as [|r rest] eqn:Eb; simplify_eq.
  assert (∀ i l, p_contents w i = l → (length l ≤ 1)%nat → p_contents (Pools (p_pool w) (permits w)
    (tasks w) (gone w) (<[idx := rest]> (p_inbox w)) (<[idx := p_pending w !!! idx ++ [(r, a)]]>
    (p_pending w)) (p_delivered w)) i = l) as Ho.
  { unfold p_contents. simpl. intros i l Hl Hlen. destruct (decide (i = idx)) as [->|Hn].
    - rewrite !lookup_total_insert_eq. rewrite Eb in Hl. destruct l as [|? []]; simplify_eq/=; [|lia].
      by destruct rest, (p_pending w !!! idx).
    - by rewrite !lookup_total_insert_ne. }
  split; simpl; [|intros r' i Hr'|done].
  - intros i Hin. apply Ho; [by apply Hid|simpl; lia].
  - apply Ho; [by apply Ht|simpl; lia].
Qed.

Lemma clean_quota mode w w' : clean_step mode w w' → quota_step mode w w'.
Proof. intros (e & _ & ? & ?). by exists e. Qed.

Lemma own_step n mode w w' : slots_inv n w → own_inv w → clean_step mode w w' → own_inv w'.
Proof.
  intros Hi Ho (e & Hf & E & Hq). destruct e as [r ls os sent|idx a|r|r k|r]; simpl in E; [| | |done|].
  - destruct (permits w) eqn:Hp, (tasks w !! r) eqn:Hr; simplify_eq.
    apply (begin_own n); [done|done|lia|done|done].
  - by eapply answer_own.
  - by eapply (complete_own n).
  - unfold handler_dropped in E. destruct (tasks w !! r) eqn:Hr; simplify_eq/=. by destruct Ho.
Qed.

(** ** Start-up *)

Lemma named_spawn_each spawn mk ids os p :
  (∀ i o p, spawn i o p = spawn_push mk (quota i p) o p) → (length ids ≤ length os)%nat →
  (spawn_each spawn ids os p).1.1 = Ok tt →
  ∃ ws, length ws = length ids ∧ Forall (λ x, state x = Idle) ws ∧
    workers (spawn_each spawn ids os p).2 = workers p ++ ws ∧
    idle_queue (spawn_each spawn ids os p).2 =
      idle_queue p ++ seq (length (workers p)) (length ws).
Proof.
  intros Hsp. revert os p. induction ids as [|i ids IH]; intros os p Hl Hok.
  { exists []. simpl. by rewrite !app_nil_r. }
  destruct os as [|o os]; simpl in *; [lia|]. rewrite Hsp in *.
  destruct o as [[[id cmd] resp]|e]; simpl in *; [|done].
  set (p1 := push_worker _ p) in *. destruct (spawn_each spawn ids os p1) as [[res eff] p2] eqn:E.
  simpl in Hok. destruct (IH os p1) as (ws & Hlen & Hws & Ew & Eq); [lia|by rewrite E|].
  rewrite E in Ew, Eq. simpl in *. exists (worker_new (mk id) (quota i p) cmd resp :: ws).
  split_and!; [simpl; congruence|by constructor|by rewrite Ew, <-(assoc_L (++))|].
  rewrite Eq, length_app. simpl. by rewrite <-(assoc_L (++)), Nat.add_1_r.
Qed.

Lemma named_pool_inv n max mode zts pin os w : (n ≤ length os)%nat →
  named_pool n max mode zts pin os = Some w → slots_inv n w ∧ own_inv w.
Proof.
  intros Hl E. unfold named_pool in E. set (p := pool_new _) in *.
  unfold spawn_workers, spawn_workers_threaded in E. change (cfg_workers (config p)) with n in E.
  destruct (match mode with ModeProcess => _ | ModeThread => _ end) as [[[[]|?] eff] p'] eqn:Ep;
    simplify_eq.
  assert (∃ ws, length ws = n ∧ Forall (λ x, state x = Idle) ws ∧ workers p' = ws ∧
    idle_queue p' = seq 0 n) as (ws & Hn & Hws & Ew & Eq).
  { destruct mode.
    - destruct (named_spawn_each spawn_one Process (seq 0 n) os p) as (ws & H1 & H2 & H3 & H4);
        [done|by rewrite length_seq|by rewrite Ep|].
      rewrite Ep in H3, H4. rewrite length_seq in H1. rewrite H1 in H4. by exists ws.
    - destruct zts; [|done].
      destruct (named_spawn_each spawn_one_thread Thread (seq 0 n) os p) as (ws & H1 & H2 & H3 & H4);
        [done|by rewrite length_seq|by rewrite Ep|].
      rewrite Ep in H3, H4. rewrite length_seq in H1. rewrite H1 in H4. by exists ws. }
  split; split; simpl; rewrite ?Ew, ?Eq.
  - done.
  - by rewrite map_to_list_empty, app_nil_r.
  - intros idx x _ Hx. rewrite Forall_lookup in Hws. by eapply Hws.
  - by rewrite length_seq.
  - done.
  - intros r idx. by rewrite lookup_empty.
  - intros x. by rewrite elem_of_nil.
Qed.

Lemma slots_run n mode w w' : slots_inv n w → rtc (quota_step mode) w w' → slots_inv n w'.
Proof. intros Hi Hr. induction Hr; [done|]. by eauto using slots_step. Qed.

(** Histories that run. *)
Definition in_quotab (w : pools) : bool :=
  forallb (λ x, negb (bool_decide (state x = Stopping))) (workers (p_pool w)).

Fixpoint p_run (mode : WorkerMode) (es : list pevent) (w : pools) : option pools :=
  match es with
  | [] => Some w
  | e :: es => w' ← p_step mode e w; if in_quotab w' then p_run mode es w' else None
  end.

Lemma in_quotab_spec w : in_quotab w = true → in_quota w.
Proof.
  unfold in_quotab, in_quota. rewrite forallb_forall. intros H x Hx%list_elem_of_In.
  apply H, negb_true_iff, bool_decide_eq_false in Hx. done.
Qed.

Lemma p_run_quota mode es w w' : p_run mode es w = Some w' → rtc (quota_step mode) w w'.
Proof.
  revert w. induction es as [|e es IH]; simpl; intros w E; [by simplify_eq|].
  destruct (p_step mode e w) as [w1|] eqn:E1; [|done]. simpl in E.
  destruct (in_quotab w1) eqn:Hq; [|done]. eapply rtc_l; [|by apply IH].
  exists e. auto using in_quotab_spec.
Qed.

Lemma p_run_clean mode es w w' : forallb (negb ∘ is_failure) es = true →
  p_run mode es w = Some w' → rtc (clean_step mode) w w'.
Proof.
  revert w. induction es as [|e es IH]; simpl; intros w Hf E; [by simplify_eq|].
  apply andb_true_iff in Hf as [He Hf].
  destruct (p_step mode e w) as [w1|] eqn:E1; [|done]. simpl in E.
  destruct (in_quotab w1) eqn:Hq; [|done]. eapply rtc_l; [|by apply IH].
  exists e. apply negb_true_iff in He. auto using in_quotab_spec.
Qed.
End pools.
Arguments pools R : clear implicits.
Arguments pevent R : clear implicits.

(** ** Examples *)

Definition ex_os : list spawned := [Ok (100, 3, 4); Ok (101, 5, 6)].

(** A pool of two workers. *)
Definition ex_pool : pools bytes :=
  default (Pools (pool_new (default_pool_config 2)) 0 ∅ ∅ ∅ ∅ [])
    (named_pool 2 100 ModeProcess false false ex_os).

Definition ex_history : list (pevent bytes) :=
  [PBegin 1 [] [] true; PBegin 2 [] [] true; PGone 2; PAnswer 0 (lit "b"); PComplete 2;
   PBegin 3 [] [] false; PBegin 4 [] [] true; PAnswer 0 (lit "d"); PComplete 4;
   PAnswer 1 (lit "a"); PComplete 1; PBegin 5 [] [] true].

Definition ex_after : pools bytes := default ex_pool (p_run ModeProcess ex_history ex_pool).

(** ** The theorems *)

(** C27: A request of a named pool that has a permit always gets an idle worker of
    its own: as long as no worker is retired for its quota, whatever the
    interleaving of requests, failed sends, failed reads and clients that go away,
    the permits and the running tasks add up to the workers, no two tasks have the
    same worker, and with a permit left the claim takes a worker that no task has
    without running the reaper; the request is refused only by waiting in vain for
    a permit, when every worker has a task. *)
Theorem named_pool_never_refuses {R} (n : nat) (max : Z) (mode : WorkerMode) (zts pin : bool)
    (os : list spawned) (w0 w : pools R) :
  (n ≤ length os)%nat → named_pool n max mode zts pin os = Some w0 → rtc (quota_step mode) w0 w →
  (permits w + size (tasks w) = n)%nat ∧
  (∀ r r' idx, tasks w !! r = Some idx → tasks w !! r' = Some idx → r = r') ∧
  (∀ r ls os', permits w ≠ O → ∃ idx, (idx < n)%nat ∧ (∀ r', tasks w !! r' ≠ Some idx) ∧
     (begin_request mode r ls os' true w).1 = Sent idx ∧
     length (workers (p_pool (begin_request mode r ls os' true w).2)) = n).
Proof.
  intros Hl Hn Hr. destruct (named_pool_inv _ _ _ _ _ _ _ Hl Hn) as [Hi0 _].
  pose proof (slots_run n mode w0 w Hi0 Hr) as Hi. split_and!.
  - destruct Hi as [_ Hs _ ->]. apply Permutation_length in Hs.
    by rewrite length_app, length_fmap, length_seq, length_map_to_list in Hs.
  - intros r r' idx. by apply (task_unique n w).
  - intros r ls os' Hp.
    destruct (claim_with_permit n w mode ls os' Hi Hp) as (q & idx & x & Eq & Hx & _ & Ec).
    exists idx. unfold begin_request. rewrite Ec. simpl. rewrite length_insert. split_and!.
    + rewrite <-(si_count n w Hi). by eapply lookup_lt_Some.
    + intros r' Hr'. apply (task_not_idle n w r' idx Hi Hr'). rewrite Eq. set_solver.
    + done.
    + by apply si_count.
Qed.

Lemma named_pool_never_refuses_witness :
  permits ex_after = 1%nat ∧ tasks ex_after = {[5%nat := 1%nat]} ∧
  ∃ idx, (idx < 2)%nat ∧ (begin_request ModeProcess 6 [] [] true ex_after).1 = Sent idx.
Proof.
  destruct (named_pool_never_refuses 2 100 ModeProcess false false ex_os ex_pool ex_after)
    as (_ & _ & H).
  - vm_compute. lia.
  - vm_compute. reflexivity.
  - apply (p_run_quota _ ex_history). vm_compute. reflexivity.
  - split; [vm_compute; reflexivity|]. split; [vm_compute; reflexivity|].
    destruct (H 6%nat [] []) as (idx & Hi & _ & Hs & _); [vm_compute; discriminate|].
    exists idx. exact (conj Hi Hs).
Defined.

(** Requests of a named pool get their own responses: as long as no worker is
    retired for its quota and no read fails, in any interleaving of claims, failed
    sends, answers, clients that go away and ends of tasks, every response that is
    delivered is the answer to the request it is delivered to. *)
Theorem named_pool_isolated {R} (n : nat) (max : Z) (mode : WorkerMode) (zts pin : bool)
    (os : list spawned) (w0 w : pools R) :
  (n ≤ length os)%nat → named_pool n max mode zts pin os = Some w0 → rtc (clean_step mode) w0 w →
  ∀ r t a, (r, t, a) ∈ p_delivered w → t = r.
Proof.
  intros Hl Hn Hr. destruct (named_pool_inv _ _ _ _ _ _ _ Hl Hn) as [Hi Ho].
  assert (own_inv w) as [_ _ H]; [|by intros r t a ?%H]. clear Hn Hl.
  induction Hr as [|x y z Hxy _ IH]; [done|]. apply IH; [|by eapply own_step].
  by eapply slots_step, clean_quota.
Qed.

Lemma named_pool_isolated_witness :
  p_delivered ex_after = [(4, 4, lit "d"); (1, 1, lit "a")]%nat ∧
  ∀ r t a, (r, t, a) ∈ p_delivered ex_after → t = r.
Proof.
  split; [vm_compute; reflexivity|].
  apply (named_pool_isolated 2 100 ModeProcess false false ex_os ex_pool ex_after).
  - vm_compute. lia.
  - vm_compute. reflexivity.
  - apply (p_run_clean _ ex_history); vm_compute; reflexivity.
Defined.

(** A failed read leaks a response to another client. The task gives the
    worker back whatever became of the read, and the response that was not read
    stays in the pipe: the next request on the worker gets it. *)
Theorem failed_read_leaks {R} (mode : WorkerMode) (w : pools R) (r r' idx : nat) (x : Worker)
    (ls : list liveness) (os : list spawned) (a : R) :
  tasks w !! r = Some idx → workers (p_pool w) !! idx = Some x → (mark_idle x).1 = false →
  p_inbox w !!! idx = [r] → p_pending w !!! idx = [] → tasks w !! r' = None → r' ∉ gone w →
  ∃ w', foldl (λ w e, w ≫= p_step mode e) (Some w)
          [PFailed r 0; PBegin r' ls os true; PAnswer idx a; PComplete r'] = Some w' ∧
    (r', r, a) ∈ p_delivered w'.
Proof.
  intros Hr Hx Hm Hb Hp Hr' Hg. assert (r' ≠ r) as Hn by congruence.
  destruct (mark_idle x) as [c y] eqn:Em. simpl in Hm. subst c.
  assert (state y = Idle) as Hy by (unfold mark_idle in Em; by simplify_eq).
  assert (idx < length (workers (p_pool w)))%nat as Hlt by by eapply lookup_lt_Some.
  set (w1 := end_task r idx 0 None w).
  assert (p_pool w1 = {| config := config (p_pool w); workers := <[idx := y]> (workers (p_pool w));
    idle_queue := idle_queue (p_pool w) ++ [idx] |}) as E1 by (by eapply return_requeues).
  assert (p_step mode (PFailed r 0) w = Some w1) as S1 by (simpl; unfold read_failed; by rewrite Hr).
  assert (∃ p, p_step mode (PBegin r' ls os true) w1 = Some (Pools p (permits w)
    (<[r' := idx]> (tasks w1)) (gone w1) (<[idx := [r; r']]> (p_inbox w)) (p_pending w1)
    (p_delivered w))) as [p S2].
  { cbn [p_step]. change (permits w1) with (S (permits w)). cbn [tasks w1 end_task].
    rewrite lookup_delete_ne, Hr' by done. unfold begin_request.
    rewrite (claim_last _ _ _ (p_pool w1) (idle_queue (p_pool w)) idx y);
      [|by rewrite E1|rewrite E1; by apply list_lookup_insert_eq|done].
    eexists. simpl. by rewrite Hb, Nat.sub_0_r. }
  cbn [foldl mbind option_bind]. rewrite S1. cbn [mbind option_bind]. rewrite S2.
  cbn [mbind option_bind p_step]. unfold worker_answers. cbn [p_inbox]. rewrite lookup_total_insert_eq.
  cbn [mbind option_bind p_step]. unfold complete. cbn [tasks]. rewrite lookup_insert_eq.
  cbn [mbind option_bind p_pending w1 end_task]. rewrite !lookup_total_insert_eq, Hp.
  eexists. split; [done|]. simpl. rewrite decide_False by set_solver. set_solver.
Qed.

Lemma failed_read_leaks_witness :
  ∃ w', foldl (λ w e, w ≫= p_step ModeProcess e) (Some ex_after)
          [PFailed 5 0; PBegin 6 [] [] true; PAnswer 1 (lit "e"); PComplete 6] = Some w' ∧
    (6%nat, 5%nat, lit "e") ∈ p_delivered w'.
Proof.
  apply (failed_read_leaks ModeProcess ex_after 5 6 1
    {| kind := Process 101; state := Busy; requests_handled := 1; max_requests := 100; cmd_fd := 5;
       resp_fd := 6 |} [] [] (lit "e")); vm_compute; first [reflexivity | discriminate].
Defined.

(** A worker that died is given to request after request. A failed send puts the
    worker back at the end of the queue, from which the next claim takes it: until
    the dead worker has used up its quota every request gets a 502, while the other
    workers stay idle and untouched. *)
Theorem dead_worker_preferred {R} (mode : WorkerMode) (w : pools R) (q : list nat) (idx n : nat)
    (x : Worker) (r : nat) (ls : list liveness) (os : list spawned) :
  idle_queue (p_pool w) = q ++ [idx] → workers (p_pool w) !! idx = Some x → state x = Idle →
  0 ≤ requests_handled x → requests_handled x + Z.of_nat n < 2 ^ 64 →
  (max_requests x = 0 ∨ requests_handled x + Z.of_nat n < max_requests x) →
  let w' := Nat.iter n (λ w, (begin_request mode r ls os false w).2) w in
  (claim_worker mode ls os (p_pool w')).1 = Some idx ∧ permits w' = permits w ∧
  idle_queue (p_pool w') = q ++ [idx] ∧
  (∀ i, i ≠ idx → workers (p_pool w') !! i = workers (p_pool w) !! i).
Proof.
  intros Eq Hx Hst H0. revert w x Eq Hx Hst H0. induction n as [|n IH]; intros w x Eq Hx Hst H0 Hb Hm w'.
  { subst w'. simpl. by erewrite claim_last. }
  set (w1 := (begin_request mode r ls os false w).2).
  assert (w' = Nat.iter n (λ w, (begin_request mode r ls os false w).2) w1) as ->
    by (subst w' w1; by rewrite Nat.iter_succ_r).
  destruct (mark_idle (mark_busy x)) as [c y] eqn:Em. unfold mark_idle in Em. simpl in Em.
  rewrite wrap_u_small in Em by lia. injection Em as Hc Hy.
  assert (c = false) as ->.
  { rewrite <-Hc. apply andb_false_iff. destruct Hm as [->|Hm]; [by left|right; lia]. }
  assert (idx < length (workers (p_pool w)))%nat as Hlt by by eapply lookup_lt_Some.
  assert (p_pool w1 = {| config := config (p_pool w);
    workers := <[idx := y]> (<[idx := mark_busy x]> (workers (p_pool w)));
    idle_queue := q ++ [idx] |}) as E1.
  { subst w1. unfold begin_request. rewrite (claim_last _ _ _ _ q idx x) by done. simpl.
    erewrite return_requeues; [done|by apply list_lookup_insert_eq|].
    unfold mark_idle. simpl. rewrite wrap_u_small by lia. by rewrite Hc, Hy. }
  destruct (IH w1 y) as (? & ? & ? & Ho); rewrite ?E1; simpl; try done.
  - apply list_lookup_insert_eq. by rewrite length_insert.
  - by rewrite <-Hy.
  - rewrite <-Hy. simpl. lia.
  - rewrite <-Hy. simpl. lia.
  - rewrite <-Hy. simpl. lia.
  - split_and!; [done| |done|].
    + etrans; [done|]. subst w1. unfold begin_request. by erewrite claim_last.
    + intros i Hn. rewrite Ho, E1 by done. simpl. by rewrite !list_lookup_insert_ne.
Qed.

Lemma dead_worker_preferred_witness :
  let w' := Nat.iter 50 (λ w, (begin_request ModeProcess 7 [] [] false w).2) ex_pool in
  (claim_worker ModeProcess [] [] (p_pool w')).1 = Some 1%nat ∧ permits w' = 2%nat ∧
  idle_queue (p_pool w') = [0; 1]%nat.
Proof.
  destruct (dead_worker_preferred ModeProcess ex_pool [0%nat] 1 50
    {| kind := Process 101; state := Idle; requests_handled := 0; max_requests := 100; cmd_fd := 5;
       resp_fd := 6 |} 7 [] []) as (H1 & H2 & H3 & _);
    [vm_compute; reflexivity..|vm_compute; discriminate|vm_compute; reflexivity| |].
  - right. vm_compute. reflexivity.
  - exact (conj H1 (conj H2 H3)).
Defined.
