(* ===== verification/Autoscale.v ===== *)
(** * The autoscaler (turbine-core/src/main.rs, [run_hyper_server])

    A task that looks at the pool once a second and adds a worker when all are
    busy, or stops one when some have been idle for long enough. It counts with
    the pool locked, unlocks it, and locks it again to act. *)

From S2P Require Import Prelude WorkerPool ThreadDispatch Exchange.

Record AutoscaleConfig := {
  as_min : nat;
  as_max : nat;
  as_idle_threshold : Z;
  as_persistent : bool;
  as_mode : WorkerMode }.

(** [permits]: the semaphore of the default pool, when there is one. *)
Record scaler := {
  sc_pool : WorkerPool;
  sc_permits : option nat;
  idle_since : option Z }.

Definition grow_permits (permits : option nat) : option nat := S <$> permits.

(** All workers are busy: one is added. Persistent workers are not scaled. *)
Definition scale_up (cfg : AutoscaleConfig) (o : spawned) (s : scaler) : list effect * scaler :=
  if as_persistent cfg then ([], s)
  else
    let '(r, eff, p) :=
      match as_mode cfg with
      | ModeThread => spawn_additional_thread o (sc_pool s)
      | ModeProcess => spawn_additional o (sc_pool s)
      end in
    match r with
    | Ok _ => (eff, {| sc_pool := p; sc_permits := grow_permits (sc_permits s); idle_since := None |})
    | Err _ => (eff, {| sc_pool := p; sc_permits := sc_permits s; idle_since := idle_since s |})
    end.

(** More workers than the minimum, and some idle. *)
Definition scale_down (cfg : AutoscaleConfig) (now : Z) (s : scaler) : list effect * scaler :=
  match idle_since s with
  | None => ([], {| sc_pool := sc_pool s; sc_permits := sc_permits s; idle_since := Some now |})
  | Some since =>
      if as_idle_threshold cfg <=? now - since then
        let '(shrunk, eff, p) := shrink_one (sc_pool s) in
        (eff, {| sc_pool := p; sc_permits := sc_permits s;
                 idle_since := if shrunk : bool then None else Some since |})
      else ([], s)
  end.

(** A pass with the counts it took, on the pool it finds when it acts. *)
Definition autoscale_step (cfg : AutoscaleConfig) (now : Z) (alive idle : nat) (o : spawned)
    (s : scaler) : list effect * scaler :=
  if (idle =? 0)%nat && (alive <? as_max cfg)%nat then scale_up cfg o s
  else if (0 <? idle)%nat && (as_min cfg <? alive)%nat then scale_down cfg now s
  else ([], {| sc_pool := sc_pool s; sc_permits := sc_permits s; idle_since := None |}).

(** A pass that nobody interferes with. *)
Definition autoscale_tick (cfg : AutoscaleConfig) (now : Z) (o : spawned) (s : scaler)
    : list effect * scaler :=
  autoscale_step cfg now (alive_count (sc_pool s)) (idle_count (sc_pool s)) o s.

(** ** Lemmas *)

Lemma alive_push w p : state w = Idle → alive_count (push_worker w p) = S (alive_count p).
Proof.
  intros Hw. unfold alive_count, push_worker; simpl. rewrite filter_app, length_app.
  rewrite filter_cons_True by (by left). simpl. lia.
Qed.

Lemma alive_spawn mk max o p r eff p' : spawn_push mk max o p = (r, eff, p') →
  match r with Ok _ => alive_count p' = S (alive_count p) | Err _ => p' = p end.
Proof.
  unfold spawn_push. destruct o as [[[id cmd] resp]|e]; intros [= <- <- <-]; [|done].
  by apply alive_push.
Qed.

(** Replacing one worker that counts by one that does not. *)
Lemma filter_insert_drop {A} (P : A → Prop) `{∀ x, Decision (P x)} (l : list A) i x y :
  l !! i = Some x → P x → ¬ P y → length (filter P l) = S (length (filter P (<[i := y]> l))).
Proof.
  intros Hi Hx Hy. rewrite <- (take_drop_middle l i x Hi) at 1.
  rewrite insert_take_drop by (by apply lookup_lt_Some in Hi).
  rewrite !filter_app, !length_app, filter_cons_True, filter_cons_False by done. simpl. lia.
Qed.

Lemma alive_shrink p b eff p' : shrink_one p = (b, eff, p') →
  if b then alive_count p = S (alive_count p') else alive_count p' = alive_count p.
Proof.
  unfold shrink_one. destruct (reverse (idle_queue p)) as [|idx rest]; [by intros [= <- <- <-]|].
  simpl. destruct (workers p !! idx) as [w|] eqn:Hw; [|by intros [= <- <- <-]].
  case_bool_decide as Hi; [|by intros [= <- <- <-]].
  destruct (terminate w) as [e w'] eqn:Et. intros [= <- <- <-].
  unfold terminate in Et. injection Et as _ <-.
  unfold alive_count, upd_worker; simpl.
  apply (filter_insert_drop _ _ idx w); [done|by left|]. simpl. by intros [|].
Qed.

Lemma filter_all {A} (P : A → Prop) `{∀ x, Decision (P x)} (l : list A) :
  Forall P l → filter P l = l.
Proof. induction 1 as [|x l Hx _ IH]; [done|]. by rewrite filter_cons_True, IH. Qed.

(** ** Properties *)


(** A worker that is stopped leaves its permit behind. The semaphore that
    bounds how many requests use the pool gets a permit for every worker that
    is added and never loses one, so that each time a worker is stopped there is
    one request more that is let in and finds no worker. *)
Theorem scale_down_keeps_permit (cfg : AutoscaleConfig) (now : Z) (o : spawned) (s s' : scaler)
    (eff : list effect) :
  autoscale_tick cfg now o s = (eff, s') →
  alive_count (sc_pool s) = S (alive_count (sc_pool s')) → sc_permits s' = sc_permits s.
Proof.
  unfold autoscale_tick, autoscale_step. intros E Ha. repeat case_match; simplify_eq/=; try lia.
  - unfold scale_up in E. repeat case_match; simplify_eq/=; try lia;
      match goal with H : _ = (Ok _, _, _) |- _ => apply alive_spawn in H; lia | _ => done end.
  - unfold scale_down in E. repeat case_match; simplify_eq/=; done.
Qed.

(** The autoscaler stops workers that are in use. Requests are handed out by
    the dispatch, which does not tell the pool; in the pool all workers stay
    idle and queued, whatever the load. So once the idle threshold has passed
    since the first pass, a pass stops the worker at the end of the queue, which
    is the very one that the dispatch hands out first. *)
Theorem autoscale_stops_claimed (cfg : AutoscaleConfig) (now since : Z) (o : spawned) (s : scaler)
    (n : nat) (w : Worker) :
  let p := sc_pool s in
  Forall (λ w, state w = Idle) (workers p) → length (workers p) = S n →
  idle_queue p = seq 0 (S n) → workers p !! n = Some w →
  (as_min cfg ≤ n)%nat → idle_since s = Some since → as_idle_threshold cfg ≤ now - since →
  (∃ d, get_idle (td_new (worker_fds p) (worker_pids p)) = (Some n, d)) ∧
  (autoscale_tick cfg now o s).1 = (terminate w).1.
Proof.
  intros p Hall Hlen Hq Hw Hmin Hs Ht.
  assert (length (worker_fds p) = S n) as Hf by (unfold worker_fds; by rewrite length_fmap).
  split.
  - eexists. unfold td_new. rewrite Hf. apply (get_idle_last _ (seq 0 n)); simpl.
    + done.
    + exact (seq_S n 0).
    + apply fresh_pickable; unfold is_unhealthy, served; simpl.
      * rewrite length_replicate. lia.
      * change (false :: replicate n false) with (replicate (S n) false).
        by rewrite lookup_replicate_2 by lia.
      * change (0 :: replicate n 0) with (replicate (S n) 0).
        by rewrite lookup_replicate_2 by lia.
  - unfold autoscale_tick, autoscale_step. fold p.
    assert (alive_count p = S n) as ->.
    { unfold alive_count. rewrite filter_all; [done|].
      eapply Forall_impl; [exact Hall|]. simpl. auto. }
    assert (idle_count p = S n) as -> by (unfold idle_count; by rewrite Hq, length_seq).
    simpl. assert (as_min cfg <? S n = true)%nat as -> by (apply Nat.ltb_lt; lia).
    unfold scale_down. rewrite Hs. apply Z.leb_le in Ht as ->. unfold shrink_one. fold p.
    rewrite Hq, seq_S, reverse_snoc. simpl. rewrite Hw.
    rewrite Forall_lookup in Hall. rewrite bool_decide_eq_true_2 by (by eapply Hall).
    by destruct (terminate w).
Qed.

(** ** Witnesses *)

Definition ex_worker (p : Z) : Worker := worker_new (Process p) 100 (2 * p) (2 * p + 1).

Definition ex_scaler (since : option Z) : scaler :=
  {| sc_pool := {| config := default_pool_config 2; workers := [ex_worker 10; ex_worker 11];
                   idle_queue := [0; 1]%nat |};
     sc_permits := Some 2%nat; idle_since := since |}.

Definition ex_autoscale : AutoscaleConfig :=
  {| as_min := 1; as_max := 4; as_idle_threshold := 5; as_persistent := false;
     as_mode := ModeProcess |}.


Lemma scale_down_keeps_permit_witness :
  let s' := (autoscale_tick ex_autoscale 9 (Err ForkFailed) (ex_scaler (Some 2))).2 in
  alive_count (sc_pool s') = 1%nat ∧ sc_permits s' = Some 2%nat.
Proof.
  intros s'. split; [done|].
  by apply (scale_down_keeps_permit ex_autoscale 9 (Err ForkFailed) (ex_scaler (Some 2)) s'
    (autoscale_tick ex_autoscale 9 (Err ForkFailed) (ex_scaler (Some 2))).1).
Defined.

Lemma autoscale_stops_claimed_witness :
  let s := ex_scaler (Some 2) in
  (∃ d, get_idle (td_new (worker_fds (sc_pool s)) (worker_pids (sc_pool s))) = (Some 1%nat, d)) ∧
  (autoscale_tick ex_autoscale 9 (Err ForkFailed) s).1 = [SigTerm 11].
Proof.
  intros s.
  apply (autoscale_stops_claimed ex_autoscale 9 2 (Err ForkFailed) s 1 (ex_worker 11)); try done.
  by repeat constructor.
Defined.
