(* ===== verification/Config.v ===== *)
(** * Checking the configuration (turbine-core/src/config.rs)

    The life cycle of the workers that a configuration asks for, and the check
    that [turbine config check] and the start of the server run. Of the
    configuration only what these read is modelled; reading it from TOML is
    serde's. A message is a constructor with what the text mentions. *)

From S2P Require Import Prelude RustStr ResponseCache BehaviourGuard PathGuard Http RequestGate.

Inductive Lifecycle := ForkPerRequest | PoolReuse | PersistentApp.

#[global] Instance Lifecycle_eq_dec : EqDecision Lifecycle.
Proof. solve_decision. Defined.

Definition as_str (l : Lifecycle) : bytes :=
  match l with
  | ForkPerRequest => lit "fork_per_request"
  | PoolReuse => lit "pool_reuse"
  | PersistentApp => lit "persistent_app"
  end.

Definition workers_are_persistent (l : Lifecycle) : bool :=
  match l with PoolReuse | PersistentApp => true | ForkPerRequest => false end.

Definition application_is_persistent (l : Lifecycle) : bool :=
  match l with PersistentApp => true | _ => false end.

Record TlsConfig := {
  tls_enabled : bool;
  cert_file : option bytes;
  key_file : option bytes }.

(** [[[worker_pools]]] *)
Record WorkerPoolRouteConfig := {
  match_path : bytes;
  min_workers : Z;
  max_workers : Z }.

(** A virtual host with its certificate and key. *)
Record vhost := {
  vh_config : VirtualHostConfig;
  vh_tls_cert : option bytes;
  vh_tls_key : option bytes }.

Record RuntimeConfig := {
  c_listen : bytes;
  c_workers : Z;
  c_worker_mode : bytes;
  c_worker_max_requests : Z;
  c_persistent_workers : option bool;
  c_lifecycle : option bytes;
  c_worker_boot : option bytes;
  c_worker_handler : option bytes;
  c_tls : TlsConfig;
  c_sandbox : SandboxConfig;
  c_security_enabled : bool;
  c_sql_guard : bool;
  c_code_injection_guard : bool;
  c_behaviour_guard : bool;
  c_cache_enabled : bool;
  c_cache_ttl_seconds : Z;
  c_compression_level : Z;
  c_cookie_samesite : bytes;
  c_cors : CorsConfig;
  c_acme_enabled : bool;
  c_acme_domains : list bytes;
  c_worker_pools : list WorkerPoolRouteConfig;
  c_virtual_hosts : list vhost }.

Inductive config_error :=
| BadWorkerMode (mode : bytes)
| BadLifecycle (s : bytes)
| MissingBoot
| MissingHandler
| ForkWithScripts
| PoolWithScripts
| BadExecutionMode (mode : bytes)
| MissingCert
| MissingKey
| EmptyStrictWhitelist
| CertNotFound (file : bytes)
| KeyNotFound (file : bytes)
| PoolMinMax (i : nat) (min max : Z)
| EmptyDomain (i : nat)
| DuplicateDomain (i : nat) (domain : bytes)
| EmptyRoot (i : nat) (domain : bytes)
| RootNotFound (i : nat) (root domain : bytes)
| DuplicateAlias (i : nat) (alias : bytes)
| VhostCertNotFound (i : nat) (file domain : bytes)
| VhostKeyNotFound (i : nat) (file domain : bytes)
| CertWithoutKey (i : nat) (domain : bytes).

Inductive config_warning :=
| LegacyConflict (persistent : bool) (lifecycle : bytes)
| NoGuards
| CacheWithoutTtl
| ManyWorkers (n : Z)
| NeverRecycled
| CompressionLevel (level : Z)
| BadSameSite (s : bytes)
| NoOrigins
| AcmeAndTls
| AcmeDomainsRedundant
| EmptyMatchPath (i : nat)
| LocalVhosts.

(** ** The life cycle *)

Definition parse_lifecycle (s : bytes) : option Lifecycle :=
  if bool_decide (s = lit "fork_per_request") then Some ForkPerRequest
  else if bool_decide (s = lit "pool_reuse") then Some PoolReuse
  else if bool_decide (s = lit "persistent_app") then Some PersistentApp
  else None.

Definition is_set {A} (o : option A) : bool := match o with Some _ => true | None => false end.

(** An unknown name falls through to the old flags. *)
Definition effective_lifecycle (c : RuntimeConfig) : Lifecycle :=
  match c_lifecycle c ≫= parse_lifecycle with
  | Some l => l
  | None =>
      if negb (default false (c_persistent_workers c)) then ForkPerRequest
      else if is_set (c_worker_boot c) && is_set (c_worker_handler c) then PersistentApp
      else PoolReuse
  end.

(** The scripts the workers are started with. *)
Definition worker_scripts (c : RuntimeConfig) : option bytes * option bytes :=
  if application_is_persistent (effective_lifecycle c) then (c_worker_boot c, c_worker_handler c)
  else (None, None).

(** ** The check *)

(** [if b { v.push(x) }] *)
Definition push_if {A} (b : bool) (x : A) : list A := if b then [x] else [].

Section check.
Context (to_lowercase : bytes → bytes) (path_exists : bytes → bool).

Definition is_bytes (s t : bytes) : bool := bool_decide (s = t).

Definition lifecycle_errors (c : RuntimeConfig) : list config_error :=
  match c_lifecycle c with
  | None => []
  | Some s =>
      let scripts := is_set (c_worker_boot c) || is_set (c_worker_handler c) in
      push_if (negb (is_set (parse_lifecycle s))) (BadLifecycle s) ++
      push_if (is_bytes s (lit "persistent_app") && negb (is_set (c_worker_boot c))) MissingBoot ++
      push_if (is_bytes s (lit "persistent_app") && negb (is_set (c_worker_handler c))) MissingHandler ++
      push_if (is_bytes s (lit "fork_per_request") && scripts) ForkWithScripts ++
      push_if (is_bytes s (lit "pool_reuse") && scripts) PoolWithScripts
  end.

Definition lifecycle_warnings (c : RuntimeConfig) : list config_warning :=
  match c_lifecycle c, c_persistent_workers c with
  | Some s, Some pw =>
      push_if (negb (Bool.eqb pw (is_bytes s (lit "pool_reuse") || is_bytes s (lit "persistent_app"))))
        (LegacyConflict pw s)
  | _, _ => []
  end.

(** A file that is named and does not exist. *)
Definition absent (f : option bytes) (e : bytes → config_error) : list config_error :=
  match f with Some f => push_if (negb (path_exists f)) (e f) | None => [] end.

Definition file_errors (c : RuntimeConfig) : list config_error :=
  let t := c_tls c in
  push_if (tls_enabled t && negb (is_set (cert_file t))) MissingCert ++
  push_if (tls_enabled t && negb (is_set (key_file t))) MissingKey ++
  push_if (is_bytes (execution_mode (c_sandbox c)) (lit "strict") &&
           bool_decide (sb_execution_whitelist (c_sandbox c) = [])) EmptyStrictWhitelist ++
  absent (cert_file t) CertNotFound ++ absent (key_file t) KeyNotFound.

Definition general_warnings (c : RuntimeConfig) : list config_warning :=
  push_if (c_security_enabled c && negb (c_sql_guard c) && negb (c_code_injection_guard c) &&
           negb (c_behaviour_guard c)) NoGuards ++
  push_if (c_cache_enabled c && (c_cache_ttl_seconds c =? 0)) CacheWithoutTtl ++
  push_if (64 <? c_workers c) (ManyWorkers (c_workers c)) ++
  push_if (bool_decide (c_persistent_workers c = Some true) && (c_worker_max_requests c =? 0))
    NeverRecycled ++
  push_if (9 <? c_compression_level c) (CompressionLevel (c_compression_level c)) ++
  push_if (negb (is_bytes (c_cookie_samesite c) (lit "Lax")) &&
           negb (is_bytes (c_cookie_samesite c) (lit "Strict")) &&
           negb (is_bytes (c_cookie_samesite c) (lit "None"))) (BadSameSite (c_cookie_samesite c)) ++
  push_if (cors_enabled (c_cors c) && bool_decide (allow_origins (c_cors c) = [])) NoOrigins ++
  push_if (c_acme_enabled c && tls_enabled (c_tls c)) AcmeAndTls ++
  push_if (c_acme_enabled c && negb (bool_decide (c_acme_domains c = [])) &&
           negb (match c_virtual_hosts c with [] => true | _ => false end)) AcmeDomainsRedundant.

Definition pool_errors (c : RuntimeConfig) : list config_error :=
  mjoin (imap (λ i p, push_if (max_workers p <? min_workers p)
                        (PoolMinMax i (min_workers p) (max_workers p))) (c_worker_pools c)).

Definition pool_warnings (c : RuntimeConfig) : list config_warning :=
  mjoin (imap (λ i p, push_if (bool_decide (match_path p = [])) (EmptyMatchPath i)) (c_worker_pools c)).

(** The names that have been seen, in lower case. *)
Fixpoint alias_errors (i : nat) (aliases : list bytes) (seen : gset bytes)
    : list config_error * gset bytes :=
  match aliases with
  | [] => ([], seen)
  | a :: aliases =>
      let '(es, seen') := alias_errors i aliases ({[to_lowercase a]} ∪ seen) in
      (push_if (bool_decide (to_lowercase a ∈ seen)) (DuplicateAlias i a) ++ es, seen')
  end.

Definition vhost_errors (i : nat) (v : vhost) (seen : gset bytes) : list config_error * gset bytes :=
  let h := vh_config v in
  let '(es, seen) :=
    if bool_decide (vh_domain h = []) then ([EmptyDomain i], seen)
    else (push_if (bool_decide (to_lowercase (vh_domain h) ∈ seen)) (DuplicateDomain i (vh_domain h)),
          {[to_lowercase (vh_domain h)]} ∪ seen) in
  let root_errors :=
    if bool_decide (vh_root h = []) then [EmptyRoot i (vh_domain h)]
    else push_if (negb (path_exists (vh_root h))) (RootNotFound i (vh_root h) (vh_domain h)) in
  let '(as_, seen) := alias_errors i (vh_aliases h) seen in
  (es ++ root_errors ++ as_ ++
   absent (vh_tls_cert v) (λ f, VhostCertNotFound i f (vh_domain h)) ++
   absent (vh_tls_key v) (λ f, VhostKeyNotFound i f (vh_domain h)) ++
   push_if (negb (Bool.eqb (is_set (vh_tls_cert v)) (is_set (vh_tls_key v))))
     (CertWithoutKey i (vh_domain h)), seen).

Fixpoint vhosts_errors (i : nat) (vs : list vhost) (seen : gset bytes) : list config_error :=
  match vs with
  | [] => []
  | v :: vs =>
      let '(es, seen) := vhost_errors i v seen in es ++ vhosts_errors (S i) vs seen
  end.

Definition check (c : RuntimeConfig) : list config_error * list config_warning :=
  let mode := execution_mode (c_sandbox c) in
  (push_if (negb (is_bytes (c_worker_mode c) (lit "process")) &&
            negb (is_bytes (c_worker_mode c) (lit "thread"))) (BadWorkerMode (c_worker_mode c)) ++
   lifecycle_errors c ++
   push_if (negb (is_bytes mode (lit "framework")) && negb (is_bytes mode (lit "strict")))
     (BadExecutionMode mode) ++
   file_errors c ++ pool_errors c ++ vhosts_errors 0 (c_virtual_hosts c) ∅,
   lifecycle_warnings c ++ general_warnings c ++ pool_warnings c ++
   push_if (negb (match c_virtual_hosts c with [] => true | _ => false end) &&
            starts_with (lit "127.0.0.1") (c_listen c)) LocalVhosts).
End check.

(** What the server keeps for the workers it starts later. *)
Definition respawn_scripts (c : RuntimeConfig) : option bytes * option bytes :=
  (c_worker_boot c, c_worker_handler c).

(** ** Lemmas *)

Lemma push_if_nil {A} b (x : A) : push_if b x = [] ↔ b = false.
Proof. by destruct b. Qed.

Lemma join_cons_app {A} (x : list A) (l : list (list A)) : mjoin (x :: l) = x ++ mjoin l.
Proof. done. Qed.

Lemma parse_as_str s l : parse_lifecycle s = Some l ↔ s = as_str l.
Proof.
  unfold parse_lifecycle. split.
  - repeat case_bool_decide; intros [= <-]; done.
  - intros ->. by destruct l.
Qed.

Section names.
Context (to_lowercase : bytes → bytes) (path_exists : bytes → bool).

(** The names of a virtual host as the server looks them up. *)
Definition host_names (v : vhost) : list bytes :=
  to_lowercase <$> vh_domain (vh_config v) :: vh_aliases (vh_config v).

Lemma alias_errors_nil i aliases seen es seen' :
  alias_errors to_lowercase i aliases seen = (es, seen') → es = [] →
  NoDup (to_lowercase <$> aliases) ∧ (∀ n, n ∈ to_lowercase <$> aliases → n ∉ seen) ∧
  (∀ n, n ∈ seen' ↔ n ∈ to_lowercase <$> aliases ∨ n ∈ seen).
Proof.
  revert seen es seen'. induction aliases as [|a aliases IH]; intros seen es seen'; simpl.
  { intros [= <- <-] _. split_and!; [constructor|set_solver|set_solver]. }
  destruct (alias_errors _ _ _ _) as [es1 seen1] eqn:E. intros [= <- <-] Hn.
  apply app_nil in Hn as [Ha ->]. apply push_if_nil, bool_decide_eq_false in Ha.
  destruct (IH _ _ _ E eq_refl) as (Hnd & Hd & Hs). split_and!.
  - constructor; [|done]. intros Hin. by apply Hd in Hin; set_solver.
  - intros n [->|Hin]%elem_of_cons; [done|]. apply Hd in Hin. set_solver.
  - intros n. rewrite Hs. set_solver.
Qed.

Lemma vhost_errors_nil i v seen es seen' :
  vhost_errors to_lowercase path_exists i v seen = (es, seen') → es = [] →
  vh_domain (vh_config v) ≠ [] ∧ path_exists (vh_root (vh_config v)) = true ∧
  NoDup (host_names v) ∧ (∀ n, n ∈ host_names v → n ∉ seen) ∧
  (∀ n, n ∈ seen' ↔ n ∈ host_names v ∨ n ∈ seen).
Proof.
  unfold vhost_errors, host_names. case_bool_decide as Hd.
  { destruct (alias_errors _ _ _ _). by intros [= <- <-]. }
  destruct (alias_errors _ _ _ _) as [es1 seen1] eqn:E. intros [= <- <-] Hn.
  repeat match goal with H : _ ++ _ = [] |- _ => apply app_nil in H as [? ?] end. subst.
  destruct (alias_errors_nil _ _ _ _ _ E eq_refl) as (Hnd & Hal & Hs).
  assert (to_lowercase (vh_domain (vh_config v)) ∉ seen) as Hdom
    by (by apply (bool_decide_eq_false _), (push_if_nil _ (DuplicateDomain i (vh_domain (vh_config v))))).
  split_and!.
  - done.
  - destruct (bool_decide (vh_root (vh_config v) = [])); [done|].
    match goal with H : push_if (negb (path_exists _)) _ = [] |- _ =>
      by apply push_if_nil, negb_false_iff in H end.
  - simpl. constructor; [|done]. intros Hin. apply Hal in Hin. set_solver.
  - intros n [->|Hin]%elem_of_cons; [done|]. apply Hal in Hin. set_solver.
  - intros n. rewrite Hs. simpl. set_solver.
Qed.

(** Without errors no name belongs to two hosts, and every root exists. *)
Lemma vhosts_errors_nil i vs seen : vhosts_errors to_lowercase path_exists i vs seen = [] →
  NoDup (mjoin (host_names <$> vs)) ∧ (∀ n, n ∈ mjoin (host_names <$> vs) → n ∉ seen) ∧
  Forall (λ v, path_exists (vh_root (vh_config v)) = true) vs.
Proof.
  revert i seen. induction vs as [|v vs IH]; intros i seen; cbn [vhosts_errors].
  { intros _. split_and!; [constructor|set_solver|constructor]. }
  destruct (vhost_errors _ _ _ _ _) as [es seen1] eqn:E. intros [-> Hr]%app_nil.
  destruct (vhost_errors_nil _ _ _ _ _ E eq_refl) as (_ & Hx & Hnd & Hd & Hs).
  destruct (IH _ _ Hr) as (Hnd' & Hd' & Hf). rewrite fmap_cons, join_cons_app. split_and!.
  - apply NoDup_app. split_and!; [done| |done]. intros n Hn Hn'. apply Hd' in Hn'. set_solver.
  - intros n [Hn|Hn]%elem_of_app; [by apply Hd|]. apply Hd' in Hn. set_solver.
  - by constructor.
Qed.

(** The application of a virtual host with an absolute root. *)
Definition vhost_app (v : vhost) : AppStructure :=
  let app := detect path_exists (vh_root (vh_config v)) in
  match vh_entry_point (vh_config v) with Some ep => set_entry_point ep app | None => app end.

Lemma insert_all_lookup (app : AppStructure) (ns : list bytes) (m : gmap bytes AppStructure) n :
  foldl (λ m alias, <[to_lowercase alias := app]> m) m ns !! n =
    if decide (n ∈ to_lowercase <$> ns) then Some app else m !! n.
Proof.
  revert m. induction ns as [|a ns IH]; intros m; cbn [foldl fmap list_fmap].
  { case_decide; [set_solver|done]. }
  rewrite IH. do 2 case_decide; try done; try set_solver.
  - assert (n = to_lowercase a) as -> by set_solver. by rewrite lookup_insert_eq.
  - rewrite lookup_insert_ne; [done|set_solver].
Qed.

Lemma add_vhost_lookup app_root m v n :
  is_absolute (vh_root (vh_config v)) = true → path_exists (vh_root (vh_config v)) = true →
  add_vhost to_lowercase path_exists app_root m (vh_config v) !! n =
    if decide (n ∈ host_names v) then Some (vhost_app v) else m !! n.
Proof.
  intros Ha He. unfold add_vhost. rewrite Ha, He. simpl. rewrite insert_all_lookup.
  fold (vhost_app v). unfold host_names. rewrite fmap_cons.
  do 2 case_decide; try done; try set_solver.
  - assert (n = to_lowercase (vh_domain (vh_config v))) as -> by set_solver.
    by rewrite lookup_insert_eq.
  - rewrite lookup_insert_ne; [done|set_solver].
Qed.

Lemma vhosts_lookup app_root vs m v n :
  Forall (λ v, is_absolute (vh_root (vh_config v)) = true) vs →
  Forall (λ v, path_exists (vh_root (vh_config v)) = true) vs →
  NoDup (mjoin (host_names <$> vs)) → v ∈ vs → n ∈ host_names v →
  foldl (add_vhost to_lowercase path_exists app_root) m (vh_config <$> vs) !! n = Some (vhost_app v).
Proof.
  assert (∀ vs m, Forall (λ v, is_absolute (vh_root (vh_config v)) = true) vs →
    Forall (λ v, path_exists (vh_root (vh_config v)) = true) vs →
    n ∉ mjoin (host_names <$> vs) →
    foldl (add_vhost to_lowercase path_exists app_root) m (vh_config <$> vs) !! n = m !! n) as Hkeep.
  { intros us. induction us as [|u vs' IH]; intros m' Ha He Hn; [done|]. cbn [foldl fmap list_fmap].
    rewrite fmap_cons, join_cons_app in Hn.
    apply Forall_cons in Ha as [Ha1 Ha]. apply Forall_cons in He as [He1 He].
    rewrite IH, add_vhost_lookup, decide_False; set_solver. }
  revert m. induction vs as [|u vs IH]; intros m Ha He Hnd Hv Hn; [set_solver|].
  cbn [foldl fmap list_fmap]. rewrite fmap_cons, join_cons_app in Hnd.
  apply NoDup_app in Hnd as (_ & Hdis & Hnd). apply Forall_cons in Ha as [Ha1 Ha].
  apply Forall_cons in He as [He1 He]. apply elem_of_cons in Hv as [->|Hv]; [|by apply IH].
  rewrite Hkeep by auto. by rewrite add_vhost_lookup, decide_True.
Qed.
End names.

(** ** Properties *)


(** The life cycle of the workers follows the configuration. With a
    [lifecycle] the check accepts, that is the one the workers get, whatever the
    older flags say, and the workers run the boot and handler scripts exactly
    when it is [persistent_app], in which case both are configured; without a
    [lifecycle] the older flags decide. *)
Theorem lifecycle_resolved (c : RuntimeConfig) :
  lifecycle_errors c = [] →
  match c_lifecycle c with
  | Some s => as_str (effective_lifecycle c) = s
  | None => workers_are_persistent (effective_lifecycle c) = default false (c_persistent_workers c)
  end ∧
  match effective_lifecycle c with
  | PersistentApp => ∃ boot handler, c_worker_boot c = Some boot ∧
      c_worker_handler c = Some handler ∧ worker_scripts c = (Some boot, Some handler)
  | _ => worker_scripts c = (None, None)
  end.
Proof.
  unfold lifecycle_errors, worker_scripts, effective_lifecycle.
  destruct (c_lifecycle c) as [s|]; cbn [mbind option_bind].
  - intros Hn. repeat match goal with H : _ ++ _ = [] |- _ => apply app_nil in H as [? ?] end.
    repeat match goal with H : push_if _ _ = [] |- _ => apply push_if_nil in H end.
    destruct (parse_lifecycle s) as [l|] eqn:E; [|done]. apply parse_as_str in E as ->.
    destruct l; (split; [done|]); [done|done|]. simpl in *.
    destruct (c_worker_boot c), (c_worker_handler c); try done. eauto 10.
  - intros _. destruct (c_persistent_workers c) as [[]|]; try done. simpl.
    destruct (c_worker_boot c), (c_worker_handler c); simpl; eauto 10.
Qed.

(** Workers that are replaced may run other scripts than those of the start.
    With the older flags, persistent workers and only one of the two scripts, the
    check reports no error of the life cycle and the workers of the start run
    neither script; but the server keeps the scripts of the configuration
    unfiltered, and a worker it starts later is given the script. *)
Theorem respawned_worker_differs (c : RuntimeConfig) :
  c_lifecycle c = None → c_persistent_workers c = Some true →
  is_set (c_worker_boot c) = negb (is_set (c_worker_handler c)) →
  lifecycle_errors c = [] ∧ effective_lifecycle c = PoolReuse ∧ worker_scripts c = (None, None) ∧
  worker_scripts c ≠ respawn_scripts c.
Proof.
  intros Hl Hp Hs. unfold lifecycle_errors, worker_scripts, respawn_scripts, effective_lifecycle.
  rewrite Hl, Hp. destruct (c_worker_boot c), (c_worker_handler c); by simplify_eq/=.
Qed.

(** ** Witnesses *)

Definition ex_host (domain root : bytes) (aliases : list bytes) : vhost :=
  {| vh_config := {| vh_domain := domain; vh_root := root; vh_aliases := aliases;
                     vh_entry_point := None |};
     vh_tls_cert := None; vh_tls_key := None |}.

Definition ex_config (boot : option bytes) (hosts : list vhost) : RuntimeConfig :=
  {| c_listen := lit "0.0.0.0:80"; c_workers := 4; c_worker_mode := lit "process";
     c_worker_max_requests := 10000; c_persistent_workers := Some true; c_lifecycle := None;
     c_worker_boot := boot; c_worker_handler := None;
     c_tls := {| tls_enabled := false; cert_file := None; key_file := None |};
     c_sandbox := {| execution_mode := lit "framework"; sb_front_controller := None;
                     sb_execution_whitelist := []; sb_data_directories := [] |};
     c_security_enabled := true; c_sql_guard := true; c_code_injection_guard := true;
     c_behaviour_guard := true; c_cache_enabled := true; c_cache_ttl_seconds := 30;
     c_compression_level := 6; c_cookie_samesite := lit "Lax";
     c_cors := {| cors_enabled := false; allow_origins := []; allow_credentials := false;
                  allow_methods := []; allow_headers := []; expose_headers := []; max_age := 0 |};
     c_acme_enabled := false; c_acme_domains := []; c_worker_pools := []; c_virtual_hosts := hosts |}.

Definition ex_get (host : bytes) : Request :=
  {| rq_method := lit "GET"; rq_path := lit "/"; rq_query_string := []; rq_host := Some host |}.


Lemma lifecycle_resolved_witness :
  workers_are_persistent (effective_lifecycle (ex_config None [])) = true ∧
  worker_scripts (ex_config None []) = (None, None).
Proof. apply (lifecycle_resolved (ex_config None [])). done. Defined.

Lemma respawned_worker_differs_witness :
  let c := ex_config (Some (lit "boot.php")) [] in
  worker_scripts c = (None, None) ∧ worker_scripts c ≠ respawn_scripts c.
Proof. intros c. by apply (respawned_worker_differs c). Defined.

(** The check looks for a relative root below the working directory and the
    server below the root of the application: a configuration passes the check
    and its host is served by the main application. *)
Example relative_root_skipped :
  let h := ex_host (lit "a.org") (lit "site") [] in
  let exists_in p := bool_decide (p = lit "site") in
  (check to_ascii_lowercase exists_in (ex_config None [h])).1 = [] ∧
  virtual_hosts (server_state to_ascii_lowercase exists_in (lit "/srv/app")
    (c_sandbox (ex_config None [h])) (vh_config <$> [h]) true true) = ∅.
Proof. by vm_compute. Qed.
