(* ===== verification/ConfigFile.v ===== *)
(** * The configuration file (turbine-core/src/config.rs)

    The sections of turbine.toml, their defaults, and how a parsed document
    becomes a [RuntimeConfig]: a field that is missing takes the default its
    declaration names, a section that is missing the [Default] of its type, a
    value of the wrong type or out of the range of its field is an error, and
    keys that no field has are ignored.

    Parsing TOML is the [toml] crate's, a parameter of [load] and [load_from]; a
    document is its table of values, and a section is a table in it. [core] is
    what the check of Config reads. *)

From S2P Require Import Prelude RustStr PathGuard Http RequestGate Config.

(** ** Documents *)

Inductive toml :=
| TString (s : bytes)
| TInteger (n : Z)
| TFloat
| TBoolean (b : bool)
| TDatetime
| TArray (l : list toml)
| TTable (t : list (bytes * toml)).

Abbreviation table := (list (bytes * toml)).

Fixpoint get (k : bytes) (t : table) : option toml :=
  match t with
  | [] => None
  | (k', v) :: t => if bool_decide (k = k') then Some v else get k t
  end.

(** ** Fields *)

Definition as_string (v : toml) : option bytes :=
  match v with TString s => Some s | _ => None end.
Definition as_bool (v : toml) : option bool :=
  match v with TBoolean b => Some b | _ => None end.
(** An unsigned field of [w] bits. *)
Definition as_uint (w : Z) (v : toml) : option Z :=
  match v with
  | TInteger n => if (0 <=? n) && (n <? 2 ^ w) then Some n else None
  | _ => None
  end.
Definition as_list {A} (dec : toml → option A) (v : toml) : option (list A) :=
  match v with TArray l => mapM dec l | _ => None end.
Definition as_struct {A} (dec : table → option A) (v : toml) : option A :=
  match v with TTable t => dec t | _ => None end.
(** [HashMap<String, String>]; a document has no key twice. *)
Definition as_map (v : toml) : option (gmap bytes bytes) :=
  match v with
  | TTable t => list_to_map <$> mapM (λ p : bytes * toml, s ← as_string p.2; Some (p.1, s)) t
  | _ => None
  end.

Definition field {A} (dec : toml → option A) (t : table) (k : string) (dflt : A) : option A :=
  match get (lit k) t with Some v => dec v | None => Some dflt end.
Definition optional {A} (dec : toml → option A) (t : table) (k : string) : option (option A) :=
  match get (lit k) t with Some v => Some <$> dec v | None => Some None end.
Definition required {A} (dec : toml → option A) (t : table) (k : string) : option A :=
  match get (lit k) t with Some v => dec v | None => None end.

Abbreviation strings := (as_list as_string).
Abbreviation u64 := (as_uint 64).
Abbreviation usize := (as_uint 64).
Abbreviation u32 := (as_uint 32).

Definition lits (l : list string) : list bytes := lit <$> l.

(** ** Sections *)

Record ServerConfig := {
  sv_workers : Z;
  sv_listen : bytes;
  sv_worker_mode : bytes;
  sv_request_timeout : Z;
  sv_worker_max_requests : Z;
  sv_channel_capacity : Z;
  sv_pid_file : option bytes;
  sv_tls : TlsConfig;
  sv_max_wait_time : Z;
  sv_auto_scale : bool;
  sv_min_workers : Z;
  sv_max_workers : Z;
  sv_scale_down_idle_secs : Z;
  sv_persistent_workers : option bool;
  sv_lifecycle : option bytes;
  sv_worker_boot : option bytes;
  sv_worker_handler : option bytes;
  sv_worker_cleanup : option bytes;
  sv_tokio_worker_threads : option Z;
  sv_pin_workers : bool;
  sv_listen_busy_poll_us : option Z;
  sv_listen_reuseport_shards : option Z }.

Record PhpConfig := {
  ph_extension_dir : option bytes;
  ph_extensions : list bytes;
  ph_zend_extensions : list bytes;
  ph_memory_limit : bytes;
  ph_max_execution_time : Z;
  ph_upload_max_filesize : bytes;
  ph_post_max_size : bytes;
  ph_opcache_memory : Z;
  ph_jit_buffer_size : bytes;
  ph_upload_tmp_dir : bytes;
  ph_preload_script : option bytes;
  ph_opcache_validate_timestamps : option bool;
  ph_ini : gmap bytes bytes }.

Record SecurityToml := {
  se_enabled : bool;
  se_sql_guard : bool;
  se_path_traversal_guard : bool;
  se_code_injection_guard : bool;
  se_behaviour_guard : bool;
  se_paranoia_level : Z;
  se_exclude_paths : list bytes;
  se_max_requests_per_second : Z;
  se_rate_limit_window : Z;
  se_sqli_block_threshold : Z }.

Record SandboxToml := {
  sb_seccomp : bool;
  sb_rules : SandboxConfig;
  sb_blocked_upload_extensions : list bytes;
  sb_scan_upload_content : bool;
  sb_disabled_functions : list bytes;
  sb_enforce_open_basedir : bool;
  sb_block_url_include : bool;
  sb_block_url_fopen : bool }.

Record LoggingConfig := { lg_level : bytes; lg_access_log : option bytes }.
Record CacheToml := { ca_enabled : bool; ca_ttl_seconds : Z; ca_max_entries : Z }.
Record EarlyHintsConfig := { eh_enabled : bool }.
Record XSendfileConfig := { xs_enabled : bool; xs_root : option bytes }.
Record StructuredLoggingConfig := { sl_enabled : bool; sl_output : bytes }.

Record AcmeConfig := {
  am_enabled : bool;
  am_domains : list bytes;
  am_email : option bytes;
  am_cache_dir : bytes;
  am_staging : bool }.

Record EmbedToml := { em_enabled : bool; em_extract_dir : option bytes }.

Record DashboardConfig := {
  db_enabled : bool;
  db_statistics : bool;
  db_token : option bytes }.

Record SharedTableToml := {
  st_enabled : bool;
  st_max_entries : Z;
  st_sweep_interval_secs : Z }.

Record TaskQueueToml := {
  tq_enabled : bool;
  tq_max_channels : Z;
  tq_channel_capacity : Z;
  tq_max_wait_ms : Z }.

Record WebsocketConfig := {
  wb_enabled : bool;
  wb_max_channels : Z;
  wb_channel_capacity : Z;
  wb_max_frame_size : Z;
  wb_idle_timeout_secs : Z }.

Record AsyncIoToml := {
  ai_enabled : bool;
  ai_allowed_roots : list bytes;
  ai_max_io_bytes : Z;
  ai_max_timer_ms : Z }.

Record WorkerPoolToml := { wp_route : WorkerPoolRouteConfig; wp_name : option bytes }.

Record CompressionConfig := {
  cm_enabled : bool;
  cm_min_size : Z;
  cm_level : Z;
  cm_algorithms : list bytes }.

Record ErrorPagesConfig := { ep_not_found : option bytes; ep_server_error : option bytes }.

Record SessionConfig := {
  ss_enabled : bool;
  ss_save_path : bytes;
  ss_cookie_name : bytes;
  ss_cookie_lifetime : Z;
  ss_cookie_httponly : bool;
  ss_cookie_secure : bool;
  ss_cookie_samesite : bytes;
  ss_gc_maxlifetime : Z;
  ss_auto_start : bool }.

Record WatcherConfig := {
  wt_enabled : bool;
  wt_paths : list bytes;
  wt_extensions : list bytes;
  wt_debounce_ms : Z }.

Record FileConfig := {
  f_server : ServerConfig;
  f_php : PhpConfig;
  f_security : SecurityToml;
  f_sandbox : SandboxToml;
  f_cache : CacheToml;
  f_logging : LoggingConfig;
  f_compression : CompressionConfig;
  f_error_pages : ErrorPagesConfig;
  f_session : SessionConfig;
  f_cors : CorsConfig;
  f_watcher : WatcherConfig;
  f_early_hints : EarlyHintsConfig;
  f_x_sendfile : XSendfileConfig;
  f_structured_logging : StructuredLoggingConfig;
  f_acme : AcmeConfig;
  f_embed : EmbedToml;
  f_dashboard : DashboardConfig;
  f_shared_table : SharedTableToml;
  f_task_queue : TaskQueueToml;
  f_websocket : WebsocketConfig;
  f_async_io : AsyncIoToml;
  f_worker_pools : list WorkerPoolToml;
  f_virtual_hosts : list vhost }.

(** ** Defaults of fields *)

Definition default_cache_ttl : Z := 30.
Definition default_cache_max_entries : Z := 1024.
Definition default_compression_min_size : Z := 1024.
Definition default_compression_level : Z := 6.
Definition default_session_save_path : bytes := lit "/tmp/turbine-sessions".
Definition default_session_cookie_name : bytes := lit "PHPSESSID".
Definition default_session_samesite : bytes := lit "Lax".
Definition default_session_gc_maxlifetime : Z := 1440.
Definition default_cors_methods : list bytes :=
  lits ["GET"; "POST"; "PUT"; "DELETE"; "PATCH"; "OPTIONS"]%string.
Definition default_cors_headers : list bytes :=
  lits ["Content-Type"; "Authorization"; "X-Requested-With"]%string.
Definition default_cors_max_age : Z := 86400.
Definition default_rate_limit_rps : Z := 0.
Definition default_rate_limit_window : Z := 60.
Definition default_paranoia_level : Z := 1.
Definition default_sqli_block_threshold : Z := 3.
Definition default_listen : bytes := lit "127.0.0.1:9000".
Definition default_worker_mode : bytes := lit "process".
Definition default_log_level : bytes := lit "info".
Definition default_request_timeout : Z := 30.
Definition default_worker_max_requests : Z := 10000.
Definition default_channel_capacity : Z := 64.
Definition default_memory_limit : bytes := lit "256M".
Definition default_max_execution_time : Z := 30.
Definition default_upload_max_filesize : bytes := lit "64M".
Definition default_post_max_size : bytes := lit "64M".
Definition default_opcache_memory : Z := 128.
Definition default_jit_buffer_size : bytes := lit "64M".
Definition default_upload_tmp_dir : bytes := lit "/tmp/turbine-uploads".
Definition default_min_workers : Z := 1.
Definition default_pool_max_workers : Z := 4.
Definition default_scale_down_idle : Z := 5.
Definition default_compression_algorithms : list bytes := lits ["br"; "zstd"; "gzip"]%string.
Definition default_watch_paths : list bytes :=
  lits ["app/"; "config/"; "routes/"; "src/"; "public/"]%string.
Definition default_watch_extensions : list bytes := lits ["php"; "env"]%string.
Definition default_watch_debounce_ms : Z := 500.
Definition default_execution_mode : bytes := lit "framework".
Definition default_execution_whitelist : list bytes := [].
Definition default_data_directories : list bytes :=
  lits ["storage/"; "uploads/"; "public/uploads/"]%string.
Definition default_blocked_upload_extensions : list bytes :=
  lits [".php"; ".phtml"; ".phar"; ".php7"; ".php8"; ".inc"; ".phps"; ".pht"; ".pgif"]%string.
Definition default_disabled_functions : list bytes :=
  lits ["exec"; "system"; "passthru"; "shell_exec"; "proc_open"; "popen"; "pcntl_exec"; "dl";
        "putenv"]%string.
Definition default_structured_log_output : bytes := lit "stderr".
Definition default_acme_cache_dir : bytes := lit "/var/lib/turbine/acme".
Definition default_shared_table_max_entries : Z := 65536.
Definition default_shared_table_sweep_secs : Z := 5.
Definition default_task_max_channels : Z := 64.
Definition default_task_channel_capacity : Z := 10000.
Definition default_task_max_wait_ms : Z := 30000.
Definition default_ws_max_channels : Z := 128.
Definition default_ws_channel_capacity : Z := 256.
Definition default_ws_max_frame_size : Z := 65536.
Definition default_ws_idle_secs : Z := 300.
Definition default_async_max_io_bytes : Z := 16 * 1024 * 1024.
Definition default_async_max_timer_ms : Z := 60 * 60 * 1000.

(** [cpus] is what [available_parallelism] answers. *)
Definition default_workers (cpus : option Z) : Z := default 4 cpus.
Definition default_max_workers (cpus : option Z) : Z :=
  match cpus with Some n => n * 2 | None => 8 end.

(** ** Reading the sections *)

Definition TlsConfig_de (t : table) : option TlsConfig :=
  enabled ← field as_bool t "enabled" false;
  cert ← optional as_string t "cert_file";
  key ← optional as_string t "key_file";
  Some {| tls_enabled := enabled; cert_file := cert; key_file := key |}.

Definition TlsConfig_default : TlsConfig :=
  {| tls_enabled := false; cert_file := None; key_file := None |}.

Definition ServerConfig_de (cpus : option Z) (t : table) : option ServerConfig :=
  workers ← field usize t "workers" (default_workers cpus);
  listen ← field as_string t "listen" default_listen;
  worker_mode ← field as_string t "worker_mode" default_worker_mode;
  request_timeout ← field u64 t "request_timeout" default_request_timeout;
  worker_max_requests ← field u64 t "worker_max_requests" default_worker_max_requests;
  channel_capacity ← field usize t "channel_capacity" default_channel_capacity;
  pid_file ← optional as_string t "pid_file";
  tls ← field (as_struct TlsConfig_de) t "tls" TlsConfig_default;
  max_wait_time ← field u64 t "max_wait_time" 0;
  auto_scale ← field as_bool t "auto_scale" false;
  min_workers ← field usize t "min_workers" default_min_workers;
  max_workers ← field usize t "max_workers" (default_max_workers cpus);
  scale_down_idle_secs ← field u64 t "scale_down_idle_secs" default_scale_down_idle;
  persistent_workers ← optional as_bool t "persistent_workers";
  lifecycle ← optional as_string t "lifecycle";
  worker_boot ← optional as_string t "worker_boot";
  worker_handler ← optional as_string t "worker_handler";
  worker_cleanup ← optional as_string t "worker_cleanup";
  tokio_worker_threads ← optional usize t "tokio_worker_threads";
  pin_workers ← field as_bool t "pin_workers" false;
  listen_busy_poll_us ← optional u32 t "listen_busy_poll_us";
  listen_reuseport_shards ← optional usize t "listen_reuseport_shards";
  Some {| sv_workers := workers; sv_listen := listen; sv_worker_mode := worker_mode;
          sv_request_timeout := request_timeout; sv_worker_max_requests := worker_max_requests;
          sv_channel_capacity := channel_capacity; sv_pid_file := pid_file; sv_tls := tls;
          sv_max_wait_time := max_wait_time; sv_auto_scale := auto_scale;
          sv_min_workers := min_workers; sv_max_workers := max_workers;
          sv_scale_down_idle_secs := scale_down_idle_secs;
          sv_persistent_workers := persistent_workers; sv_lifecycle := lifecycle;
          sv_worker_boot := worker_boot; sv_worker_handler := worker_handler;
          sv_worker_cleanup := worker_cleanup; sv_tokio_worker_threads := tokio_worker_threads;
          sv_pin_workers := pin_workers; sv_listen_busy_poll_us := listen_busy_poll_us;
          sv_listen_reuseport_shards := listen_reuseport_shards |}.

Definition ServerConfig_default (cpus : option Z) : ServerConfig :=
  {| sv_workers := default_workers cpus; sv_listen := default_listen;
     sv_worker_mode := default_worker_mode; sv_request_timeout := default_request_timeout;
     sv_worker_max_requests := default_worker_max_requests;
     sv_channel_capacity := default_channel_capacity; sv_pid_file := None;
     sv_tls := TlsConfig_default; sv_max_wait_time := 0; sv_auto_scale := false;
     sv_min_workers := default_min_workers; sv_max_workers := default_max_workers cpus;
     sv_scale_down_idle_secs := default_scale_down_idle; sv_persistent_workers := None;
     sv_lifecycle := None; sv_worker_boot := None; sv_worker_handler := None;
     sv_worker_cleanup := None; sv_tokio_worker_threads := None; sv_pin_workers := false;
     sv_listen_busy_poll_us := None; sv_listen_reuseport_shards := None |}.

Definition PhpConfig_de (t : table) : option PhpConfig :=
  extension_dir ← optional as_string t "extension_dir";
  extensions ← field strings t "extensions" [];
  zend_extensions ← field strings t "zend_extensions" [];
  memory_limit ← field as_string t "memory_limit" default_memory_limit;
  max_execution_time ← field u64 t "max_execution_time" default_max_execution_time;
  upload_max_filesize ← field as_string t "upload_max_filesize" default_upload_max_filesize;
  post_max_size ← field as_string t "post_max_size" default_post_max_size;
  opcache_memory ← field usize t "opcache_memory" default_opcache_memory;
  jit_buffer_size ← field as_string t "jit_buffer_size" default_jit_buffer_size;
  upload_tmp_dir ← field as_string t "upload_tmp_dir" default_upload_tmp_dir;
  preload_script ← optional as_string t "preload_script";
  opcache_validate_timestamps ← optional as_bool t "opcache_validate_timestamps";
  ini ← field as_map t "ini" ∅;
  Some {| ph_extension_dir := extension_dir; ph_extensions := extensions;
          ph_zend_extensions := zend_extensions; ph_memory_limit := memory_limit;
          ph_max_execution_time := max_execution_time;
          ph_upload_max_filesize := upload_max_filesize; ph_post_max_size := post_max_size;
          ph_opcache_memory := opcache_memory; ph_jit_buffer_size := jit_buffer_size;
          ph_upload_tmp_dir := upload_tmp_dir; ph_preload_script := preload_script;
          ph_opcache_validate_timestamps := opcache_validate_timestamps; ph_ini := ini |}.

Definition PhpConfig_default : PhpConfig :=
  {| ph_extension_dir := None; ph_extensions := []; ph_zend_extensions := [];
     ph_memory_limit := default_memory_limit;
     ph_max_execution_time := default_max_execution_time;
     ph_upload_max_filesize := default_upload_max_filesize;
     ph_post_max_size := default_post_max_size; ph_opcache_memory := default_opcache_memory;
     ph_jit_buffer_size := default_jit_buffer_size; ph_upload_tmp_dir := default_upload_tmp_dir;
     ph_preload_script := None; ph_opcache_validate_timestamps := None; ph_ini := ∅ |}.

Definition SecurityToml_de (t : table) : option SecurityToml :=
  enabled ← field as_bool t "enabled" true;
  sql_guard ← field as_bool t "sql_guard" true;
  path_traversal_guard ← field as_bool t "path_traversal_guard" true;
  code_injection_guard ← field as_bool t "code_injection_guard" true;
  behaviour_guard ← field as_bool t "behaviour_guard" true;
  paranoia_level ← field (as_uint 8) t "paranoia_level" default_paranoia_level;
  exclude_paths ← field strings t "exclude_paths" [];
  max_requests_per_second ← field u32 t "max_requests_per_second" default_rate_limit_rps;
  rate_limit_window ← field u64 t "rate_limit_window" default_rate_limit_window;
  sqli_block_threshold ← field u32 t "sqli_block_threshold" default_sqli_block_threshold;
  Some {| se_enabled := enabled; se_sql_guard := sql_guard;
          se_path_traversal_guard := path_traversal_guard;
          se_code_injection_guard := code_injection_guard; se_behaviour_guard := behaviour_guard;
          se_paranoia_level := paranoia_level; se_exclude_paths := exclude_paths;
          se_max_requests_per_second := max_requests_per_second;
          se_rate_limit_window := rate_limit_window;
          se_sqli_block_threshold := sqli_block_threshold |}.

Definition SecurityToml_default : SecurityToml :=
  {| se_enabled := true; se_sql_guard := true; se_path_traversal_guard := true;
     se_code_injection_guard := true; se_behaviour_guard := true;
     se_paranoia_level := default_paranoia_level; se_exclude_paths := [];
     se_max_requests_per_second := default_rate_limit_rps;
     se_rate_limit_window := default_rate_limit_window;
     se_sqli_block_threshold := default_sqli_block_threshold |}.

Definition LoggingConfig_de (t : table) : option LoggingConfig :=
  level ← field as_string t "level" default_log_level;
  access_log ← optional as_string t "access_log";
  Some {| lg_level := level; lg_access_log := access_log |}.

Definition LoggingConfig_default : LoggingConfig :=
  {| lg_level := default_log_level; lg_access_log := None |}.

Definition CacheToml_de (t : table) : option CacheToml :=
  enabled ← field as_bool t "enabled" false;
  ttl_seconds ← field u64 t "ttl_seconds" default_cache_ttl;
  max_entries ← field usize t "max_entries" default_cache_max_entries;
  Some {| ca_enabled := enabled; ca_ttl_seconds := ttl_seconds; ca_max_entries := max_entries |}.

Definition CacheToml_default : CacheToml :=
  {| ca_enabled := false; ca_ttl_seconds := default_cache_ttl;
     ca_max_entries := default_cache_max_entries |}.

Definition EarlyHintsConfig_de (t : table) : option EarlyHintsConfig :=
  enabled ← field as_bool t "enabled" false;
  Some {| eh_enabled := enabled |}.

Definition EarlyHintsConfig_default : EarlyHintsConfig :=
  {| eh_enabled := true |}.

Definition XSendfileConfig_de (t : table) : option XSendfileConfig :=
  enabled ← field as_bool t "enabled" false;
  root ← optional as_string t "root";
  Some {| xs_enabled := enabled; xs_root := root |}.

Definition XSendfileConfig_default : XSendfileConfig :=
  {| xs_enabled := false; xs_root := None |}.

Definition StructuredLoggingConfig_de (t : table) : option StructuredLoggingConfig :=
  enabled ← field as_bool t "enabled" true;
  output ← field as_string t "output" default_structured_log_output;
  Some {| sl_enabled := enabled; sl_output := output |}.

Definition StructuredLoggingConfig_default : StructuredLoggingConfig :=
  {| sl_enabled := true; sl_output := default_structured_log_output |}.

Definition AcmeConfig_de (t : table) : option AcmeConfig :=
  enabled ← field as_bool t "enabled" false;
  domains ← field strings t "domains" [];
  email ← optional as_string t "email";
  cache_dir ← field as_string t "cache_dir" default_acme_cache_dir;
  staging ← field as_bool t "staging" false;
  Some {| am_enabled := enabled; am_domains := domains; am_email := email;
          am_cache_dir := cache_dir; am_staging := staging |}.

Definition AcmeConfig_default : AcmeConfig :=
  {| am_enabled := false; am_domains := []; am_email := None;
     am_cache_dir := default_acme_cache_dir; am_staging := false |}.

Definition EmbedToml_de (t : table) : option EmbedToml :=
  enabled ← field as_bool t "enabled" false;
  extract_dir ← optional as_string t "extract_dir";
  Some {| em_enabled := enabled; em_extract_dir := extract_dir |}.

Definition EmbedToml_default : EmbedToml :=
  {| em_enabled := false; em_extract_dir := None |}.

Definition DashboardConfig_de (t : table) : option DashboardConfig :=
  enabled ← field as_bool t "enabled" true;
  statistics ← field as_bool t "statistics" true;
  token ← optional as_string t "token";
  Some {| db_enabled := enabled; db_statistics := statistics; db_token := token |}.

Definition DashboardConfig_default : DashboardConfig :=
  {| db_enabled := true; db_statistics := true; db_token := None |}.

Definition SharedTableToml_de (t : table) : option SharedTableToml :=
  enabled ← field as_bool t "enabled" false;
  max_entries ← field usize t "max_entries" default_shared_table_max_entries;
  sweep_interval_secs ← field u64 t "sweep_interval_secs" default_shared_table_sweep_secs;
  Some {| st_enabled := enabled; st_max_entries := max_entries;
          st_sweep_interval_secs := sweep_interval_secs |}.

Definition SharedTableToml_default : SharedTableToml :=
  {| st_enabled := false; st_max_entries := default_shared_table_max_entries;
     st_sweep_interval_secs := default_shared_table_sweep_secs |}.

Definition TaskQueueToml_de (t : table) : option TaskQueueToml :=
  enabled ← field as_bool t "enabled" false;
  max_channels ← field usize t "max_channels" default_task_max_channels;
  channel_capacity ← field usize t "channel_capacity" default_task_channel_capacity;
  max_wait_ms ← field u64 t "max_wait_ms" default_task_max_wait_ms;
  Some {| tq_enabled := enabled; tq_max_channels := max_channels;
          tq_channel_capacity := channel_capacity; tq_max_wait_ms := max_wait_ms |}.

Definition TaskQueueToml_default : TaskQueueToml :=
  {| tq_enabled := false; tq_max_channels := default_task_max_channels;
     tq_channel_capacity := default_task_channel_capacity;
     tq_max_wait_ms := default_task_max_wait_ms |}.

Definition WebsocketConfig_de (t : table) : option WebsocketConfig :=
  enabled ← field as_bool t "enabled" false;
  max_channels ← field usize t "max_channels" default_ws_max_channels;
  channel_capacity ← field usize t "channel_capacity" default_ws_channel_capacity;
  max_frame_size ← field usize t "max_frame_size" default_ws_max_frame_size;
  idle_timeout_secs ← field u64 t "idle_timeout_secs" default_ws_idle_secs;
  Some {| wb_enabled := enabled; wb_max_channels := max_channels;
          wb_channel_capacity := channel_capacity; wb_max_frame_size := max_frame_size;
          wb_idle_timeout_secs := idle_timeout_secs |}.

Definition WebsocketConfig_default : WebsocketConfig :=
  {| wb_enabled := false; wb_max_channels := default_ws_max_channels;
     wb_channel_capacity := default_ws_channel_capacity;
     wb_max_frame_size := default_ws_max_frame_size; wb_idle_timeout_secs := default_ws_idle_secs |}.

Definition AsyncIoToml_de (t : table) : option AsyncIoToml :=
  enabled ← field as_bool t "enabled" false;
  allowed_roots ← field strings t "allowed_roots" [];
  max_io_bytes ← field usize t "max_io_bytes" default_async_max_io_bytes;
  max_timer_ms ← field u64 t "max_timer_ms" default_async_max_timer_ms;
  Some {| ai_enabled := enabled; ai_allowed_roots := allowed_roots;
          ai_max_io_bytes := max_io_bytes; ai_max_timer_ms := max_timer_ms |}.

Definition AsyncIoToml_default : AsyncIoToml :=
  {| ai_enabled := false; ai_allowed_roots := []; ai_max_io_bytes := default_async_max_io_bytes;
     ai_max_timer_ms := default_async_max_timer_ms |}.

Definition CompressionConfig_de (t : table) : option CompressionConfig :=
  enabled ← field as_bool t "enabled" true;
  min_size ← field usize t "min_size" default_compression_min_size;
  level ← field u32 t "level" default_compression_level;
  algorithms ← field strings t "algorithms" default_compression_algorithms;
  Some {| cm_enabled := enabled; cm_min_size := min_size; cm_level := level;
          cm_algorithms := algorithms |}.

Definition CompressionConfig_default : CompressionConfig :=
  {| cm_enabled := true; cm_min_size := default_compression_min_size;
     cm_level := default_compression_level; cm_algorithms := default_compression_algorithms |}.

Definition ErrorPagesConfig_de (t : table) : option ErrorPagesConfig :=
  not_found ← optional as_string t "not_found";
  server_error ← optional as_string t "server_error";
  Some {| ep_not_found := not_found; ep_server_error := server_error |}.

Definition ErrorPagesConfig_default : ErrorPagesConfig :=
  {| ep_not_found := None; ep_server_error := None |}.

Definition SessionConfig_de (t : table) : option SessionConfig :=
  enabled ← field as_bool t "enabled" true;
  save_path ← field as_string t "save_path" default_session_save_path;
  cookie_name ← field as_string t "cookie_name" default_session_cookie_name;
  cookie_lifetime ← field u64 t "cookie_lifetime" 0;
  cookie_httponly ← field as_bool t "cookie_httponly" true;
  cookie_secure ← field as_bool t "cookie_secure" false;
  cookie_samesite ← field as_string t "cookie_samesite" default_session_samesite;
  gc_maxlifetime ← field u64 t "gc_maxlifetime" default_session_gc_maxlifetime;
  auto_start ← field as_bool t "auto_start" false;
  Some {| ss_enabled := enabled; ss_save_path := save_path; ss_cookie_name := cookie_name;
          ss_cookie_lifetime := cookie_lifetime; ss_cookie_httponly := cookie_httponly;
          ss_cookie_secure := cookie_secure; ss_cookie_samesite := cookie_samesite;
          ss_gc_maxlifetime := gc_maxlifetime; ss_auto_start := auto_start |}.

Definition SessionConfig_default : SessionConfig :=
  {| ss_enabled := true; ss_save_path := default_session_save_path;
     ss_cookie_name := default_session_cookie_name; ss_cookie_lifetime := 0;
     ss_cookie_httponly := true; ss_cookie_secure := false;
     ss_cookie_samesite := default_session_samesite;
     ss_gc_maxlifetime := default_session_gc_maxlifetime; ss_auto_start := false |}.

Definition CorsConfig_de (t : table) : option CorsConfig :=
  enabled ← field as_bool t "enabled" false;
  allow_origins ← field strings t "allow_origins" [];
  allow_credentials ← field as_bool t "allow_credentials" false;
  allow_methods ← field strings t "allow_methods" default_cors_methods;
  allow_headers ← field strings t "allow_headers" default_cors_headers;
  expose_headers ← field strings t "expose_headers" [];
  max_age ← field u64 t "max_age" default_cors_max_age;
  Some {| cors_enabled := enabled; allow_origins := allow_origins;
          allow_credentials := allow_credentials; allow_methods := allow_methods;
          allow_headers := allow_headers; expose_headers := expose_headers; max_age := max_age |}.

Definition CorsConfig_default : CorsConfig :=
  {| cors_enabled := false; allow_origins := []; allow_credentials := false;
     allow_methods := default_cors_methods; allow_headers := default_cors_headers;
     expose_headers := []; max_age := default_cors_max_age |}.

Definition WatcherConfig_de (t : table) : option WatcherConfig :=
  enabled ← field as_bool t "enabled" false;
  paths ← field strings t "paths" default_watch_paths;
  extensions ← field strings t "extensions" default_watch_extensions;
  debounce_ms ← field u64 t "debounce_ms" default_watch_debounce_ms;
  Some {| wt_enabled := enabled; wt_paths := paths; wt_extensions := extensions;
          wt_debounce_ms := debounce_ms |}.

Definition WatcherConfig_default : WatcherConfig :=
  {| wt_enabled := false; wt_paths := default_watch_paths;
     wt_extensions := default_watch_extensions; wt_debounce_ms := default_watch_debounce_ms |}.

Definition SandboxToml_de (t : table) : option SandboxToml :=
  seccomp ← field as_bool t "seccomp" true;
  mode ← field as_string t "execution_mode" default_execution_mode;
  fc ← optional as_bool t "front_controller";
  whitelist ← field strings t "execution_whitelist" default_execution_whitelist;
  dirs ← field strings t "data_directories" default_data_directories;
  blocked ← field strings t "blocked_upload_extensions" default_blocked_upload_extensions;
  scan ← field as_bool t "scan_upload_content" true;
  disabled ← field strings t "disabled_functions" default_disabled_functions;
  basedir ← field as_bool t "enforce_open_basedir" true;
  url_include ← field as_bool t "block_url_include" true;
  url_fopen ← field as_bool t "block_url_fopen" true;
  Some {| sb_seccomp := seccomp;
          sb_rules := {| execution_mode := mode; sb_front_controller := fc;
                         sb_execution_whitelist := whitelist; sb_data_directories := dirs |};
          sb_blocked_upload_extensions := blocked; sb_scan_upload_content := scan;
          sb_disabled_functions := disabled; sb_enforce_open_basedir := basedir;
          sb_block_url_include := url_include; sb_block_url_fopen := url_fopen |}.

Definition SandboxToml_default : SandboxToml :=
  {| sb_seccomp := true;
     sb_rules := {| execution_mode := default_execution_mode; sb_front_controller := None;
                    sb_execution_whitelist := default_execution_whitelist;
                    sb_data_directories := default_data_directories |};
     sb_blocked_upload_extensions := default_blocked_upload_extensions;
     sb_scan_upload_content := true; sb_disabled_functions := default_disabled_functions;
     sb_enforce_open_basedir := true; sb_block_url_include := true; sb_block_url_fopen := true |}.

(** Entries of [[[worker_pools]]] and [[[virtual_hosts]]]; some fields have no
    default. *)
Definition WorkerPoolToml_de (t : table) : option WorkerPoolToml :=
  path ← required as_string t "match_path";
  lo ← field usize t "min_workers" default_min_workers;
  hi ← field usize t "max_workers" default_pool_max_workers;
  name ← optional as_string t "name";
  Some {| wp_route := {| match_path := path; min_workers := lo; max_workers := hi |};
          wp_name := name |}.

Definition VirtualHostConfig_de (t : table) : option vhost :=
  domain ← required as_string t "domain";
  root ← required as_string t "root";
  aliases ← field strings t "aliases" [];
  entry_point ← optional as_string t "entry_point";
  cert ← optional as_string t "tls_cert";
  key ← optional as_string t "tls_key";
  Some {| vh_config := {| vh_domain := domain; vh_root := root; vh_aliases := aliases;
                          vh_entry_point := entry_point |};
          vh_tls_cert := cert; vh_tls_key := key |}.

(** [RuntimeConfig]: every section may be missing. *)
Definition RuntimeConfig_de (cpus : option Z) (t : table) : option FileConfig :=
  server ← field (as_struct (ServerConfig_de cpus)) t "server" (ServerConfig_default cpus);
  php ← field (as_struct PhpConfig_de) t "php" PhpConfig_default;
  security ← field (as_struct SecurityToml_de) t "security" SecurityToml_default;
  sandbox ← field (as_struct SandboxToml_de) t "sandbox" SandboxToml_default;
  cache ← field (as_struct CacheToml_de) t "cache" CacheToml_default;
  logging ← field (as_struct LoggingConfig_de) t "logging" LoggingConfig_default;
  compression ← field (as_struct CompressionConfig_de) t "compression" CompressionConfig_default;
  error_pages ← field (as_struct ErrorPagesConfig_de) t "error_pages" ErrorPagesConfig_default;
  session ← field (as_struct SessionConfig_de) t "session" SessionConfig_default;
  cors ← field (as_struct CorsConfig_de) t "cors" CorsConfig_default;
  watcher ← field (as_struct WatcherConfig_de) t "watcher" WatcherConfig_default;
  early_hints ← field (as_struct EarlyHintsConfig_de) t "early_hints" EarlyHintsConfig_default;
  x_sendfile ← field (as_struct XSendfileConfig_de) t "x_sendfile" XSendfileConfig_default;
  structured ← field (as_struct StructuredLoggingConfig_de) t "structured_logging"
                 StructuredLoggingConfig_default;
  acme ← field (as_struct AcmeConfig_de) t "acme" AcmeConfig_default;
  embed ← field (as_struct EmbedToml_de) t "embed" EmbedToml_default;
  dashboard ← field (as_struct DashboardConfig_de) t "dashboard" DashboardConfig_default;
  shared_table ← field (as_struct SharedTableToml_de) t "shared_table" SharedTableToml_default;
  task_queue ← field (as_struct TaskQueueToml_de) t "task_queue" TaskQueueToml_default;
  websocket ← field (as_struct WebsocketConfig_de) t "websocket" WebsocketConfig_default;
  async_io ← field (as_struct AsyncIoToml_de) t "async_io" AsyncIoToml_default;
  pools ← field (as_list (as_struct WorkerPoolToml_de)) t "worker_pools" [];
  vhosts ← field (as_list (as_struct VirtualHostConfig_de)) t "virtual_hosts" [];
  Some {| f_server := server; f_php := php; f_security := security; f_sandbox := sandbox;
          f_cache := cache; f_logging := logging; f_compression := compression;
          f_error_pages := error_pages; f_session := session; f_cors := cors;
          f_watcher := watcher; f_early_hints := early_hints; f_x_sendfile := x_sendfile;
          f_structured_logging := structured; f_acme := acme; f_embed := embed;
          f_dashboard := dashboard; f_shared_table := shared_table; f_task_queue := task_queue;
          f_websocket := websocket; f_async_io := async_io; f_worker_pools := pools;
          f_virtual_hosts := vhosts |}.

Definition RuntimeConfig_default (cpus : option Z) : FileConfig :=
  {| f_server := ServerConfig_default cpus; f_php := PhpConfig_default;
     f_security := SecurityToml_default; f_sandbox := SandboxToml_default;
     f_cache := CacheToml_default; f_logging := LoggingConfig_default;
     f_compression := CompressionConfig_default; f_error_pages := ErrorPagesConfig_default;
     f_session := SessionConfig_default; f_cors := CorsConfig_default;
     f_watcher := WatcherConfig_default; f_early_hints := EarlyHintsConfig_default;
     f_x_sendfile := XSendfileConfig_default;
     f_structured_logging := StructuredLoggingConfig_default; f_acme := AcmeConfig_default;
     f_embed := EmbedToml_default; f_dashboard := DashboardConfig_default;
     f_shared_table := SharedTableToml_default; f_task_queue := TaskQueueToml_default;
     f_websocket := WebsocketConfig_default; f_async_io := AsyncIoToml_default;
     f_worker_pools := []; f_virtual_hosts := [] |}.

(** What the check reads. *)
Definition core (f : FileConfig) : RuntimeConfig :=
  let s := f_server f in
  {| c_listen := sv_listen s; c_workers := sv_workers s; c_worker_mode := sv_worker_mode s;
     c_worker_max_requests := sv_worker_max_requests s;
     c_persistent_workers := sv_persistent_workers s; c_lifecycle := sv_lifecycle s;
     c_worker_boot := sv_worker_boot s; c_worker_handler := sv_worker_handler s;
     c_tls := sv_tls s; c_sandbox := sb_rules (f_sandbox f);
     c_security_enabled := se_enabled (f_security f);
     c_sql_guard := se_sql_guard (f_security f);
     c_code_injection_guard := se_code_injection_guard (f_security f);
     c_behaviour_guard := se_behaviour_guard (f_security f);
     c_cache_enabled := ca_enabled (f_cache f); c_cache_ttl_seconds := ca_ttl_seconds (f_cache f);
     c_compression_level := cm_level (f_compression f);
     c_cookie_samesite := ss_cookie_samesite (f_session f); c_cors := f_cors f;
     c_acme_enabled := am_enabled (f_acme f); c_acme_domains := am_domains (f_acme f);
     c_worker_pools := wp_route <$> f_worker_pools f; c_virtual_hosts := f_virtual_hosts f |}.

(** ** Loading *)

(** What is told on the way: [warn!] and the like go to the log, [eprintln!] to
    the terminal. *)
Inductive note :=
| Loaded (path : bytes)
| CannotParse (path : bytes)
| CannotRead (path : bytes)
| NoConfigFile
| CheckError (e : config_error)
| CheckWarning (w : config_warning).

Inductive said := Log (n : note) | Eprint (n : note).

Section Load.
Context (cpus : option Z).
Context (path_exists : bytes → bool).
(** [read_to_string], and the parser of the [toml] crate. *)
Context (read_to_string : bytes → option bytes).
Context (parse : bytes → option table).

Definition from_str (content : bytes) : option FileConfig :=
  t ← parse content; RuntimeConfig_de cpus t.

(** [load] in the directory [cwd]. *)
Definition load (cwd : bytes) : FileConfig * list said :=
  let path := path_join cwd (lit "turbine.toml") in
  if path_exists path then
    match read_to_string path with
    | Some content =>
        match from_str content with
        | Some c => (c, [Log (Loaded path)])
        | None => (RuntimeConfig_default cpus, [Log (CannotParse path)])
        end
    | None => (RuntimeConfig_default cpus, [Log (CannotRead path)])
    end
  else (RuntimeConfig_default cpus, [Log NoConfigFile]).

Definition load_from (path : bytes) : FileConfig * list said :=
  match read_to_string path with
  | Some content =>
      match from_str content with
      | Some c => (c, [Log (Loaded path)])
      | None => (RuntimeConfig_default cpus, [Eprint (CannotParse path); Log (CannotParse path)])
      end
  | None => (RuntimeConfig_default cpus, [Eprint (CannotRead path); Log (CannotRead path)])
  end.

(** [validate] logs what the check finds and goes on. *)
Definition validate_config (to_lowercase : bytes → bytes) (c : FileConfig) : list said :=
  let '(errors, warnings) := check to_lowercase path_exists (core c) in
  ((λ e, Log (CheckError e)) <$> errors) ++ ((λ w, Log (CheckWarning w)) <$> warnings).
End Load.

(** ** Types *)

(** The values a type of the configuration has: integers within their width. *)
Class Typed (A : Type) := typed : A → Prop.

Definition fits (w n : Z) : Prop := 0 ≤ n < 2 ^ w.

#[global] Instance ServerConfig_typed : Typed ServerConfig := λ c,
  fits 64 (sv_workers c) ∧ fits 64 (sv_request_timeout c) ∧ fits 64 (sv_worker_max_requests c) ∧
  fits 64 (sv_channel_capacity c) ∧ fits 64 (sv_max_wait_time c) ∧ fits 64 (sv_min_workers c) ∧
  fits 64 (sv_max_workers c) ∧ fits 64 (sv_scale_down_idle_secs c) ∧
  from_option (fits 64) True (sv_tokio_worker_threads c) ∧
  from_option (fits 32) True (sv_listen_busy_poll_us c) ∧
  from_option (fits 64) True (sv_listen_reuseport_shards c).

#[global] Instance PhpConfig_typed : Typed PhpConfig := λ c,
  fits 64 (ph_max_execution_time c) ∧ fits 64 (ph_opcache_memory c).

#[global] Instance SecurityToml_typed : Typed SecurityToml := λ c,
  fits 8 (se_paranoia_level c) ∧ fits 32 (se_max_requests_per_second c) ∧
  fits 64 (se_rate_limit_window c) ∧ fits 32 (se_sqli_block_threshold c).

#[global] Instance CacheToml_typed : Typed CacheToml := λ c,
  fits 64 (ca_ttl_seconds c) ∧ fits 64 (ca_max_entries c).

#[global] Instance CompressionConfig_typed : Typed CompressionConfig := λ c,
  fits 64 (cm_min_size c) ∧ fits 32 (cm_level c).

#[global] Instance SessionConfig_typed : Typed SessionConfig := λ c,
  fits 64 (ss_cookie_lifetime c) ∧ fits 64 (ss_gc_maxlifetime c).

#[global] Instance CorsConfig_typed : Typed CorsConfig := λ c, fits 64 (max_age c).
#[global] Instance WatcherConfig_typed : Typed WatcherConfig := λ c, fits 64 (wt_debounce_ms c).

#[global] Instance SharedTableToml_typed : Typed SharedTableToml := λ c,
  fits 64 (st_max_entries c) ∧ fits 64 (st_sweep_interval_secs c).

#[global] Instance TaskQueueToml_typed : Typed TaskQueueToml := λ c,
  fits 64 (tq_max_channels c) ∧ fits 64 (tq_channel_capacity c) ∧ fits 64 (tq_max_wait_ms c).

#[global] Instance WebsocketConfig_typed : Typed WebsocketConfig := λ c,
  fits 64 (wb_max_channels c) ∧ fits 64 (wb_channel_capacity c) ∧ fits 64 (wb_max_frame_size c) ∧
  fits 64 (wb_idle_timeout_secs c).

#[global] Instance AsyncIoToml_typed : Typed AsyncIoToml := λ c,
  fits 64 (ai_max_io_bytes c) ∧ fits 64 (ai_max_timer_ms c).

#[global] Instance WorkerPoolToml_typed : Typed WorkerPoolToml := λ c,
  fits 64 (min_workers (wp_route c)) ∧ fits 64 (max_workers (wp_route c)).

#[global] Instance FileConfig_typed : Typed FileConfig := λ c,
  typed (f_server c) ∧ typed (f_php c) ∧ typed (f_security c) ∧ typed (f_cache c) ∧
  typed (f_compression c) ∧ typed (f_session c) ∧ typed (f_cors c) ∧ typed (f_watcher c) ∧
  typed (f_shared_table c) ∧ typed (f_task_queue c) ∧ typed (f_websocket c) ∧
  typed (f_async_io c) ∧ Forall typed (f_worker_pools c).

(** ** Lemmas *)

(** A decoder whose values have a property, and with it the fields it reads. *)
Class Yields {A} (dec : toml → option A) (P : A → Prop) : Prop :=
  yields v x : dec v = Some x → P x.

#[global] Instance uint_yields w : Yields (as_uint w) (fits w).
Proof.
  intros [s|n| | | | |] x; simpl; try done. destruct (_ && _) eqn:E; [|done].
  intros [= <-]. apply andb_prop in E as [H1 H2]. unfold fits. lia.
Qed.

#[global] Instance list_yields {A} (dec : toml → option A) P : Yields dec P →
  Yields (as_list dec) (Forall P).
Proof.
  intros Hd v x. destruct v; simpl; try done. intros Hm. apply mapM_Some in Hm.
  induction Hm; constructor; eauto.
Qed.

Lemma field_yields {A} (dec : toml → option A) P t k d x : Yields dec P → P d →
  field dec t k d = Some x → P x.
Proof. intros Hd Hp. unfold field. destruct (get _ t); [apply Hd|by intros [= <-]]. Qed.

Lemma optional_yields {A} (dec : toml → option A) P t k x : Yields dec P →
  optional dec t k = Some x → from_option P True x.
Proof.
  intros Hd. unfold optional. destruct (get _ t) as [v|]; [|by intros [= <-]].
  destruct (dec v) eqn:E; simpl; intros [= <-]. by apply (Hd v).
Qed.

(** Takes a successful reading of a section apart into its fields. *)
Ltac inv_section :=
  repeat match goal with
  | H : (_ ≫= _) = Some _ |- _ => apply bind_Some in H as (? & ? & H)
  | H : Some _ = Some _ |- _ => injection H as <-
  end; simpl.

(** An integer field that was read, or its default, fits. *)
Ltac solve_fits :=
  match goal with
  | H : field (as_uint ?w) _ _ _ = Some ?x |- fits ?w ?x =>
      apply (field_yields _ (fits w) _ _ _ _ _) with (2 := H);
      first [assumption | unfold fits; vm_compute; split; congruence]
  | H : optional (as_uint ?w) _ _ = Some ?x |- from_option (fits ?w) True ?x =>
      exact (optional_yields _ (fits w) _ _ _ _ H)
  end.

Ltac solve_section de ty :=
  intros [| | | | | |t] c H; try done; unfold as_struct, de in H; inv_section;
  unfold typed, ty; simpl; split_and?; solve_fits.

#[global] Instance PhpConfig_yields : Yields (as_struct PhpConfig_de) typed.
Proof. solve_section PhpConfig_de PhpConfig_typed. Qed.

#[global] Instance SecurityToml_yields : Yields (as_struct SecurityToml_de) typed.
Proof. solve_section SecurityToml_de SecurityToml_typed. Qed.

#[global] Instance CacheToml_yields : Yields (as_struct CacheToml_de) typed.
Proof. solve_section CacheToml_de CacheToml_typed. Qed.

#[global] Instance CompressionConfig_yields : Yields (as_struct CompressionConfig_de) typed.
Proof. solve_section CompressionConfig_de CompressionConfig_typed. Qed.

#[global] Instance SessionConfig_yields : Yields (as_struct SessionConfig_de) typed.
Proof. solve_section SessionConfig_de SessionConfig_typed. Qed.

#[global] Instance CorsConfig_yields : Yields (as_struct CorsConfig_de) typed.
Proof. solve_section CorsConfig_de CorsConfig_typed. Qed.

#[global] Instance WatcherConfig_yields : Yields (as_struct WatcherConfig_de) typed.
Proof. solve_section WatcherConfig_de WatcherConfig_typed. Qed.

#[global] Instance SharedTableToml_yields : Yields (as_struct SharedTableToml_de) typed.
Proof. solve_section SharedTableToml_de SharedTableToml_typed. Qed.

#[global] Instance TaskQueueToml_yields : Yields (as_struct TaskQueueToml_de) typed.
Proof. solve_section TaskQueueToml_de TaskQueueToml_typed. Qed.

#[global] Instance WebsocketConfig_yields : Yields (as_struct WebsocketConfig_de) typed.
Proof. solve_section WebsocketConfig_de WebsocketConfig_typed. Qed.

#[global] Instance AsyncIoToml_yields : Yields (as_struct AsyncIoToml_de) typed.
Proof. solve_section AsyncIoToml_de AsyncIoToml_typed. Qed.

#[global] Instance WorkerPoolToml_yields : Yields (as_struct WorkerPoolToml_de) typed.
Proof. solve_section WorkerPoolToml_de WorkerPoolToml_typed. Qed.

(** The number of processors, doubled, is still a [usize]. *)
Definition cpus_ok (cpus : option Z) : Prop := from_option (λ n, 0 < n < 2 ^ 63) True cpus.

Lemma cpus_fit cpus : cpus_ok cpus →
  fits 64 (default_workers cpus) ∧ fits 64 (default_max_workers cpus).
Proof. unfold fits, default_workers, default_max_workers. destruct cpus; simpl; lia. Qed.

Lemma ServerConfig_yields cpus : cpus_ok cpus → Yields (as_struct (ServerConfig_de cpus)) typed.
Proof.
  intros [Hw Hm]%cpus_fit. solve_section ServerConfig_de ServerConfig_typed.
Qed.

Lemma default_typed cpus : cpus_ok cpus → typed (RuntimeConfig_default cpus).
Proof.
  intros [Hw Hm]%cpus_fit.
  split.
  - unfold typed, ServerConfig_typed. cbn [RuntimeConfig_default f_server].
    unfold ServerConfig_default. simpl.
    split_and!; first [assumption | exact I | unfold fits; vm_compute; split; congruence].
  - split_and!; [..|constructor]; vm_compute; repeat split; congruence.
Qed.

(** ** What a configuration file can do *)

Lemma RuntimeConfig_yields cpus t c : cpus_ok cpus → RuntimeConfig_de cpus t = Some c → typed c.
Proof.
  intros Hc H. pose proof (ServerConfig_yields cpus Hc) as Hsv.
  pose proof (default_typed cpus Hc) as Hd. unfold RuntimeConfig_de in H. inv_section.
  destruct Hd as (? & ? & ? & ? & ? & ? & ? & ? & ? & ? & ? & ? & ?).
  cbn [RuntimeConfig_default f_server f_php f_security f_cache f_compression f_session f_cors
    f_watcher f_shared_table f_task_queue f_websocket f_async_io f_worker_pools] in *. clear Hc.
  do 2 red. cbn [f_server f_php f_security f_cache f_compression f_session f_cors f_watcher
    f_shared_table f_task_queue f_websocket f_async_io f_worker_pools].
  split_and!;
    match goal with
    | H : field ?dec _ _ ?d = Some ?x |- ?P ?x =>
        apply (field_yields dec P _ _ d x) with (3 := H); [apply _|assumption]
    end.
Qed.



(** ** Sections that are there and say nothing *)

Definition section_names : list bytes :=
  lits ["server"; "php"; "security"; "sandbox"; "cache"; "logging"; "compression"; "error_pages";
        "session"; "cors"; "watcher"; "x_sendfile"; "structured_logging"; "acme"; "embed";
        "dashboard"; "shared_table"; "task_queue"; "websocket"; "async_io"]%string.

Definition list_names : list bytes := lits ["worker_pools"; "virtual_hosts"]%string.

Definition blank (t : table) : Prop :=
  (∀ k, k ∈ section_names → get k t = None ∨ get k t = Some (TTable [])) ∧
  (∀ k, k ∈ list_names → get k t = None ∨ get k t = Some (TArray [])).

Lemma field_blank {A} (dec : table → option A) t k d :
  get (lit k) t = None ∨ get (lit k) t = Some (TTable []) → dec [] = Some d →
  field (as_struct dec) t k d = Some d.
Proof. intros [Hg|Hg] Hd; unfold field; by rewrite Hg. Qed.

Lemma field_blank_list {A} (dec : toml → option A) t k :
  get (lit k) t = None ∨ get (lit k) t = Some (TArray []) → field (as_list dec) t k [] = Some [].
Proof. intros [Hg|Hg]; unfold field; by rewrite Hg. Qed.

Definition without_early_hints (c : FileConfig) : FileConfig :=
  {| f_server := f_server c; f_php := f_php c; f_security := f_security c;
     f_sandbox := f_sandbox c; f_cache := f_cache c; f_logging := f_logging c;
     f_compression := f_compression c; f_error_pages := f_error_pages c;
     f_session := f_session c; f_cors := f_cors c; f_watcher := f_watcher c;
     f_early_hints := {| eh_enabled := false |}; f_x_sendfile := f_x_sendfile c;
     f_structured_logging := f_structured_logging c; f_acme := f_acme c; f_embed := f_embed c;
     f_dashboard := f_dashboard c; f_shared_table := f_shared_table c;
     f_task_queue := f_task_queue c; f_websocket := f_websocket c; f_async_io := f_async_io c;
     f_worker_pools := f_worker_pools c; f_virtual_hosts := f_virtual_hosts c |}.

(** A section that is there and sets nothing means what its absence means: the
    two places that give the defaults of a section agree, for every section but
    [early_hints], whose empty section turns off what its absence leaves on. *)
Theorem blank_sections_default (cpus : option Z) (t : table) : blank t →
  (get (lit "early_hints") t = None →
     RuntimeConfig_de cpus t = Some (RuntimeConfig_default cpus)) ∧
  (get (lit "early_hints") t = Some (TTable []) →
     RuntimeConfig_de cpus t = Some (without_early_hints (RuntimeConfig_default cpus))).
Proof.
  intros [Hs Hl]. unfold RuntimeConfig_de.
  assert (∀ k, bool_decide (lit k ∈ section_names) = true →
    get (lit k) t = None ∨ get (lit k) t = Some (TTable [])) as Hs'
    by (intros k Hk; apply Hs; by apply bool_decide_eq_true in Hk).
  assert (∀ k, bool_decide (lit k ∈ list_names) = true →
    get (lit k) t = None ∨ get (lit k) t = Some (TArray [])) as Hl'
    by (intros k Hk; apply Hl; by apply bool_decide_eq_true in Hk).
  assert (∀ e, get (lit "early_hints") t = e → field (as_struct EarlyHintsConfig_de) t "early_hints"
    EarlyHintsConfig_default = match e with
      | Some v => as_struct EarlyHintsConfig_de v | None => Some EarlyHintsConfig_default end) as He
    by (intros e <-; reflexivity).
  split; intros Hg%He; cbn in Hg;
    repeat first
      [ rewrite (field_blank _ t) by first [apply Hs'; reflexivity | reflexivity]
      | rewrite (field_blank_list _ t) by (apply Hl'; reflexivity)
      | rewrite Hg ]; reflexivity.
Qed.

Lemma blank_sections_default_witness :
  let t := [(lit "server", TTable []); (lit "early_hints", TTable []);
            (lit "virtual_hosts", TArray [])] in
  blank t ∧ RuntimeConfig_de (Some 8) t = Some (without_early_hints (RuntimeConfig_default (Some 8))).
Proof.
  intros t. assert (blank t) as Hb.
  { split; apply Forall_forall;
      repeat (apply Forall_cons_2; [vm_compute; auto|]); apply Forall_nil_2. }
  split; [exact Hb|]. apply (blank_sections_default (Some 8) t); [exact Hb|reflexivity].
Defined.

(** A file is read through the names of the sections only: a section under another
    name, a misspelt one say, changes nothing and is not reported. *)
Theorem unknown_sections_ignored (cpus : option Z) (t t' : table) :
  (∀ k, k ∈ lit "early_hints" :: section_names ++ list_names → get k t = get k t') →
  RuntimeConfig_de cpus t = RuntimeConfig_de cpus t'.
Proof.
  intros Hg. assert (∀ A (dec : toml → option A) k d,
    bool_decide (lit k ∈ lit "early_hints" :: section_names ++ list_names) = true →
    field dec t k d = field dec t' k d) as Hf.
  { intros A dec k d Hk. unfold field. rewrite Hg; [done|]. by apply bool_decide_eq_true in Hk. }
  unfold RuntimeConfig_de. repeat (rewrite Hf by reflexivity). reflexivity.
Qed.

Lemma unknown_sections_ignored_witness :
  RuntimeConfig_de None [(lit "sever", TTable [(lit "workers", TInteger 2)])] =
  RuntimeConfig_de None [].
Proof.
  apply unknown_sections_ignored. apply Forall_forall.
  repeat (apply Forall_cons_2; [vm_compute; reflexivity|]). apply Forall_nil_2.
Defined.

(** ** Falling back *)

Section Loading.
Context (cpus : option Z) (path_exists : bytes → bool) (read_to_string : bytes → option bytes).
Context (parse : bytes → option table).

(** Loading always gives a typed configuration: the defaults where the file is
    missing, unreadable or wrong. *)
Lemma load_typed cwd : cpus_ok cpus → 
  typed (load cpus path_exists read_to_string parse cwd).1 ∧
  ∀ path, typed (load_from cpus read_to_string parse path).1.
Proof.
  intros Hc. pose proof (default_typed cpus Hc).
  assert (∀ content c, from_str cpus parse content = Some c → typed c) as Hs.
  { unfold from_str. intros content c (t & _ & Ht)%bind_Some. by apply (RuntimeConfig_yields cpus t). }
  unfold load, load_from. split; [|intros path].
  - destruct (path_exists _); [|done]. destruct (read_to_string _) as [s|]; [|done].
    destruct (from_str cpus parse s) eqn:E; simpl; eauto.
  - destruct (read_to_string path) as [s|]; [|done].
    destruct (from_str cpus parse s) eqn:E; simpl; eauto.
Qed.
End Loading.

(** The configuration without a file passes the check: no errors, and at most the
    warning about many workers. *)
Theorem default_config_valid (to_lowercase : bytes → bytes) (path_exists : bytes → bool)
    (cpus : option Z) :
  check to_lowercase path_exists (core (RuntimeConfig_default cpus)) =
    ([], push_if (64 <? default_workers cpus) (ManyWorkers (default_workers cpus))).
Proof. unfold check, general_warnings. simpl. rewrite !app_nil_r. reflexivity. Qed.
