(* ===== verification/Engine.v ===== *)
(** * The embedded engine (turbine-engine/src/engine.rs) and the executor
    (turbine-core/src/main.rs, [php_executor_loop])

    Without workers PHP runs in the server, on a thread that takes requests one
    after the other: the code of a request is split into what sets it up and the
    inclusion of the script, and each part is evaluated. PHP is the parameter of
    PersistentWorker, its callbacks are those of OutputCapture; installing them
    changes nothing that is modelled. The generated php.ini is here as well. *)

From S2P Require Import Prelude Utf8 RustStr Stream OutputCapture Persistent PersistentWorker.
From S2P Require Import NativeWorker PathGuard Compat PhpCode.

(** ** php.ini *)

Record PhpIniOverrides := {
  io_memory_limit : bytes;
  io_max_execution_time : Z;
  io_upload_max_filesize : bytes;
  io_post_max_size : bytes;
  io_opcache_memory : Z;
  io_jit_buffer_size : bytes;
  io_session_save_path : bytes;
  io_session_cookie_name : bytes;
  io_session_cookie_lifetime : Z;
  io_session_cookie_httponly : bool;
  io_session_cookie_secure : bool;
  io_session_cookie_samesite : bytes;
  io_session_gc_maxlifetime : Z;
  io_open_basedir : bytes;
  io_disabled_functions : bytes;
  io_block_url_include : bool;
  io_block_url_fopen : bool;
  io_preload_script : bytes;
  io_extra_ini : gmap bytes bytes;
  io_extensions : list bytes;
  io_zend_extensions : list bytes;
  io_opcache_validate_timestamps : bool }.

Definition default_ini : PhpIniOverrides :=
  {| io_memory_limit := lit "256M"; io_max_execution_time := 30;
     io_upload_max_filesize := lit "64M"; io_post_max_size := lit "64M"; io_opcache_memory := 128;
     io_jit_buffer_size := lit "64M"; io_session_save_path := lit "/tmp/turbine-sessions";
     io_session_cookie_name := lit "PHPSESSID"; io_session_cookie_lifetime := 0;
     io_session_cookie_httponly := true; io_session_cookie_secure := false;
     io_session_cookie_samesite := lit "Lax"; io_session_gc_maxlifetime := 1440;
     io_open_basedir := []; io_disabled_functions := []; io_block_url_include := true;
     io_block_url_fopen := true; io_preload_script := []; io_extra_ini := ∅;
     io_extensions := []; io_zend_extensions := []; io_opcache_validate_timestamps := false |}.

Section ini.
Context (extension_dir : bytes) (path_exists : bytes → bool).
(** The name of the user that PHP runs as: of the password database, or [root]
    for user 0, or nothing. *)
Context (user : bytes).
(** The order in which a hash map lists its entries. *)
Context (entries : gmap bytes bytes → list (bytes * bytes)).

Definition bit (b : bool) : bytes := if b then lit "1" else lit "0".

Definition directive_if (b : bool) (k v : bytes) : list (bytes * bytes) := if b then [(k, v)] else [].

Definition opcache_directives (o : PhpIniOverrides) : list (bytes * bytes) :=
  [ (lit "opcache.enable", lit "1"); (lit "opcache.enable_cli", lit "1");
    (lit "opcache.memory_consumption", dec_string (io_opcache_memory o));
    (lit "opcache.interned_strings_buffer", lit "16");
    (lit "opcache.max_accelerated_files", lit "10000");
    (lit "opcache.validate_timestamps", bit (io_opcache_validate_timestamps o));
    (lit "opcache.revalidate_freq", lit "0"); (lit "opcache.save_comments", lit "1");
    (lit "opcache.file_cache", lit "/tmp/turbine-opcache"); (lit "opcache.protect_memory", lit "0");
    (lit "opcache.jit", lit "function"); (lit "opcache.jit_buffer_size", io_jit_buffer_size o) ] ++
  (if negb (bool_decide (io_preload_script o = [])) && path_exists (io_preload_script o)
   then [(lit "opcache.preload", io_preload_script o); (lit "opcache.preload_user", user)] else []).

Definition session_directives (o : PhpIniOverrides) : list (bytes * bytes) :=
  [ (lit "session.save_handler", lit "files"); (lit "session.save_path", io_session_save_path o);
    (lit "session.name", io_session_cookie_name o);
    (lit "session.cookie_lifetime", dec_string (io_session_cookie_lifetime o));
    (lit "session.cookie_httponly", bit (io_session_cookie_httponly o));
    (lit "session.cookie_secure", bit (io_session_cookie_secure o));
    (lit "session.cookie_samesite", io_session_cookie_samesite o);
    (lit "session.gc_maxlifetime", dec_string (io_session_gc_maxlifetime o));
    (lit "session.use_strict_mode", lit "1"); (lit "session.use_only_cookies", lit "1") ].

Definition hardening_directives (o : PhpIniOverrides) : list (bytes * bytes) :=
  directive_if (negb (bool_decide (io_open_basedir o = []))) (lit "open_basedir") (io_open_basedir o) ++
  directive_if (negb (bool_decide (io_disabled_functions o = []))) (lit "disable_functions")
    (io_disabled_functions o) ++
  directive_if (io_block_url_include o) (lit "allow_url_include") (lit "Off") ++
  directive_if (io_block_url_fopen o) (lit "allow_url_fopen") (lit "Off").

(** The directives of the configuration, except for the output buffering. *)
Definition extra_directives (o : PhpIniOverrides) : list (bytes * bytes) :=
  filter (λ kv, eq_ignore_ascii_case kv.1 (lit "output_buffering") = false) (entries (io_extra_ini o)).

Definition ini_directives (o : PhpIniOverrides) : list (bytes * bytes) :=
  let opcache_path := extension_dir ++ lit "/opcache.so" in
  directive_if (path_exists opcache_path) (lit "zend_extension") opcache_path ++
  opcache_directives o ++
  [ (lit "output_buffering", lit "0"); (lit "display_errors", lit "0"); (lit "log_errors", lit "1");
    (lit "memory_limit", io_memory_limit o);
    (lit "max_execution_time", dec_string (io_max_execution_time o));
    (lit "upload_max_filesize", io_upload_max_filesize o); (lit "post_max_size", io_post_max_size o) ] ++
  session_directives o ++ hardening_directives o ++
  ((λ ext, (lit "extension", ext)) <$> io_extensions o) ++
  ((λ ext, (lit "zend_extension", ext)) <$> io_zend_extensions o) ++ extra_directives o.

(** The text of the file. *)
Definition write_php_ini (o : PhpIniOverrides) : bytes :=
  mjoin ((λ '(k, v), k ++ [x3d] ++ v ++ [x0a]) <$> ini_directives o).

(** ** Reading it *)

(** The directives of a file of lines [name=value]. *)
Definition ini_lines (text : bytes) : list (bytes * bytes) := omap (split_once x3d) (split x0a text).

Definition one_line (kv : bytes * bytes) : Prop := (x0a ∉ kv.1) ∧ (x3d ∉ kv.1) ∧ (x0a ∉ kv.2).

#[global] Instance one_line_dec kv : Decision (one_line kv).
Proof. unfold one_line. apply _. Defined.

Lemma ini_lines_cons k v t : one_line (k, v) →
  ini_lines ((k ++ [x3d] ++ v ++ [x0a]) ++ t) = (k, v) :: ini_lines t.
Proof.
  intros (Hk & He & Hv). unfold ini_lines.
  replace (_ ++ t) with ((k ++ x3d :: v) ++ x0a :: t) by (by simplify_list_eq).
  rewrite split_app, split_single by (apply not_elem_of_app; split; [done|];
    by apply not_elem_of_cons).
  simpl. by rewrite split_once_fst.
Qed.

Lemma ini_lines_read ds : Forall one_line ds →
  ini_lines (mjoin ((λ '(k, v), k ++ [x3d] ++ v ++ [x0a]) <$> ds)) = ds.
Proof.
  intros Hds. induction Hds as [|[k v] ds Hkv _ IH]; [done|].
  rewrite <-IH at 2. by apply ini_lines_cons.
Qed.

(** Overrides whose texts have no line feed, and names no [=]. *)
Record one_line_overrides (o : PhpIniOverrides) : Prop := {
  ol_texts : Forall (λ v, x0a ∉ v)
    [io_memory_limit o; io_upload_max_filesize o; io_post_max_size o; io_jit_buffer_size o;
     io_session_save_path o; io_session_cookie_name o; io_session_cookie_samesite o;
     io_open_basedir o; io_disabled_functions o; io_preload_script o];
  ol_numbers : Forall (λ v, 0 ≤ v)
    [io_max_execution_time o; io_opcache_memory o; io_session_cookie_lifetime o;
     io_session_gc_maxlifetime o];
  ol_extensions : Forall (λ v, x0a ∉ v) (io_extensions o ++ io_zend_extensions o);
  ol_extra : map_Forall (λ k v, one_line (k, v)) (io_extra_ini o) }.

Lemma dec_string_line v : 0 ≤ v → x0a ∉ dec_string v.
Proof.
  intros H Hin. pose proof (dec_digits_digits (S (Z.to_nat (Z.log2 v))) v [] H (Forall_nil_2 _)) as Hd.
  rewrite Forall_forall in Hd. specialize (Hd _ Hin). by vm_compute in Hd; destruct Hd.
Qed.

Lemma literal_line k v : bool_decide ((x0a ∉ k) ∧ (x3d ∉ k)) = true → x0a ∉ v → one_line (k, v).
Proof. intros [? ?]%bool_decide_eq_true ?. by split_and!. Qed.

Lemma directive_if_line b k v : one_line (k, v) → Forall one_line (directive_if b k v).
Proof. intros H. destruct b; [by apply Forall_singleton|by apply Forall_nil]. Qed.

Lemma bit_line b : x0a ∉ bit b.
Proof. destruct b; by apply (bool_decide_unpack _). Qed.

Lemma lit_line t : bool_decide (x0a ∈ lit t) = false → x0a ∉ lit t.
Proof. apply bool_decide_eq_false. Qed.

(** A directive with a literal name. *)
Ltac ini_line :=
  apply literal_line;
  [reflexivity
  |first [assumption | apply bit_line | by apply dec_string_line | by apply lit_line
         | by apply not_elem_of_app; split; [assumption|apply lit_line]]].

Lemma ini_directives_lines o : (∀ m, entries m ≡ₚ map_to_list m) → x0a ∉ extension_dir →
  x0a ∉ user → one_line_overrides o → Forall one_line (ini_directives o).
Proof.
  intros He Hd Hu [Ht Hn Hx Hextra]. rewrite !Forall_cons in Ht.
  rewrite !Forall_cons in Hn. destruct_and!. apply Forall_app in Hx as [Hx1 Hx2].
  unfold ini_directives, opcache_directives, session_directives, hardening_directives, extra_directives.
  rewrite !Forall_app, !Forall_fmap.
  split_and!; repeat (apply Forall_cons; split; [ini_line|]); try apply Forall_nil_2;
    try (apply directive_if_line; ini_line).
  - case_match; [|apply Forall_nil_2]. repeat (apply Forall_cons; split; [ini_line|]). apply Forall_nil_2.
  - eapply Forall_impl; [exact Hx1|]. intros v Hv. ini_line.
  - eapply Forall_impl; [exact Hx2|]. intros v Hv. ini_line.
  - apply Forall_forall. intros [k v] [_ Hkv]%list_elem_of_filter.
    rewrite He, elem_of_map_to_list in Hkv. by apply (Hextra k v).
Qed.

(** Output buffering is off. *)
Definition unbuffered (kv : bytes * bytes) : Prop :=
  eq_ignore_ascii_case kv.1 (lit "output_buffering") = true → kv.2 = lit "0".

Lemma other_unbuffered k v : eq_ignore_ascii_case k (lit "output_buffering") = false →
  unbuffered (k, v).
Proof. unfold unbuffered. simpl. congruence. Qed.

Lemma ini_directives_unbuffered o : Forall unbuffered (ini_directives o).
Proof.
  unfold ini_directives, opcache_directives, session_directives, hardening_directives, extra_directives.
  rewrite !Forall_app, !Forall_fmap.
  split_and!;
    repeat (apply Forall_cons; split; [first [by apply other_unbuffered | done]|]);
    try apply Forall_nil_2; unfold directive_if;
    try (case_match; [|apply Forall_nil_2];
         repeat (apply Forall_cons; split; [by apply other_unbuffered|]); apply Forall_nil_2).
  1, 2: apply Forall_true; intros v; by apply other_unbuffered.
  apply Forall_forall. intros [k v] [Hk _]%list_elem_of_filter. by apply other_unbuffered.
Qed.
End ini.

(** ** The engine *)

Inductive EngineError :=
| InitFailed | RequestStartupFailed | EvalFailed (code : bytes) | AlreadyInitialized | NotInitialized
| NullByteInCode | RequestLifecycle.

Definition engine_message (e : EngineError) : bytes :=
  match e with
  | InitFailed => lit "PHP embed SAPI initialization failed"
  | RequestStartupFailed => lit "PHP request startup failed"
  | EvalFailed code => lit "PHP eval failed for: " ++ code
  | AlreadyInitialized => lit "PHP engine already initialized"
  | NotInitialized => lit "PHP engine not initialized"
  | NullByteInCode => lit "PHP code contains null byte"
  | RequestLifecycle => lit "PHP request lifecycle error"
  end.

Record PhpResponse := {
  e_body : bytes;
  e_headers : header_list;
  e_status : Z }.

Definition FAILURE : Z := -1.

Definition EVAL_NAME : bytes := lit "turbine_eval".

(** The code that prints the headers PHP will send, one per line. *)
Definition HEADERS_CODE : bytes :=
  q (lit "foreach (headers_list() as $__turbine_header) { echo $__turbine_header, ~\n~; }").

(** [rsplit_once] at a string: at its last occurrence. *)
Fixpoint rsplit_once (p s : bytes) : option (bytes * bytes) :=
  match s with
  | [] => None
  | x :: s' =>
      match rsplit_once p s' with
      | Some (l, r) => Some (x :: l, r)
      | None => r ← strip_prefix p s; Some ([], r)
      end
  end.

Definition INCLUDE : bytes := lit "include '".

Definition set_initialized (b : bool) (c : capture) : capture :=
  {| OUTPUT_BUFFER := OUTPUT_BUFFER c; HEADER_BUFFER := HEADER_BUFFER c;
     RESPONSE_CODE := RESPONSE_CODE c; STREAM_FD := STREAM_FD c; STREAM_ENGAGED := STREAM_ENGAGED c;
     sg_code := sg_code c; initialized := b; resp := resp c |}.

(** A line [name: value] of [headers_list()]. *)
Definition header_of_line (line : bytes) : option (bytes * bytes) :=
  '(n, v) ← split_once x3a line; Some (trim n, trim v).

Definition parse_headers (raw : bytes) : header_list :=
  if utf8_valid raw then omap header_of_line (lines raw) else [].

(** ** Finding the inclusion *)

Lemma rsplit_once_skip p x s : head p ≠ Some x → p ≠ [] → rsplit_once p s = None →
  rsplit_once p (x :: s) = None.
Proof.
  intros Hx Hp E. simpl. rewrite E. destruct p as [|y p]; [done|]. unfold strip_prefix, starts_with.
  simpl in *. by rewrite bool_decide_false by (intros ?; simplify_eq).
Qed.

Lemma replace_byte_cons c r x s :
  replace_byte c r (x :: s) = (if decide (x = c) then r else [x]) ++ replace_byte c r s.
Proof. done. Qed.

(** A quote of the path comes after a backslash, so the only quote after [w] is
    the closing one. *)
Lemma escaped_at_quote w path r : quote ∉ w → backslash ∉ w →
  replace_byte quote [backslash; quote] path ++ lit "';" = w ++ quote :: r → path = w.
Proof.
  revert path. induction w as [|c w IH]; intros [|x path] Hq Hb E; [done| | |].
  - rewrite replace_byte_cons in E. by case_decide; simplify_eq/=.
  - injection E as Ec _. destruct Hq. apply elem_of_cons. by left.
  - apply not_elem_of_cons in Hq as [Hq1 Hq2], Hb as [Hb1 Hb2].
    rewrite replace_byte_cons in E. case_decide; simplify_eq/=. f_equal. by apply IH.
Qed.

Lemma escaped_no_include path : ¬ lit "include " `suffix_of` path →
  rsplit_once INCLUDE (replace_byte quote [backslash; quote] path ++ lit "';") = None.
Proof.
  induction path as [|x path IH]; intros Hs; [done|].
  assert (rsplit_once INCLUDE (replace_byte quote [backslash; quote] path ++ lit "';") = None) as E.
  { apply IH. contradict Hs. by apply suffix_cons_r. }
  rewrite replace_byte_cons. case_decide as Hx; simpl app.
  { by apply rsplit_once_skip; [..|apply rsplit_once_skip]. }
  simpl rsplit_once. rewrite E. destruct (strip_prefix INCLUDE _) as [r|] eqn:Ep; [|done]. exfalso. apply Hs.
  unfold strip_prefix, starts_with in Ep. case_bool_decide as Hpre; [|done].
  exists []. simpl.
  apply (escaped_at_quote (lit "include ") (x :: path) r);
    [by apply (bool_decide_unpack _)..|].
  rewrite replace_byte_cons, decide_False by done. simplify_eq.
  simpl app.
  rewrite <-(take_drop (length INCLUDE) (x :: _)) at 1. by rewrite Hpre.
Qed.

Lemma rsplit_once_include setup path : ¬ lit "include " `suffix_of` path →
  rsplit_once INCLUDE (setup ++ INCLUDE ++ replace_byte quote [backslash; quote] path ++ lit "';") =
  Some (setup, replace_byte quote [backslash; quote] path ++ lit "';").
Proof.
  intros Hs%escaped_no_include. set (t := _ ++ lit "';") in *. clearbody t.
  induction setup as [|x setup IH]; simpl app.
  - assert (rsplit_once INCLUDE (lit "nclude '" ++ t) = None) as E.
    { do 8 (apply rsplit_once_skip; [done|done|]). exact Hs. }
    change (INCLUDE ++ t) with (x69 :: lit "nclude '" ++ t). simpl rsplit_once. by rewrite E.
  - simpl rsplit_once. by rewrite IH.
Qed.

Section engine.
Context (to_lowercase : bytes → bytes).
Context {php : Type} (run_php : php → php_call → php * list sapi_event * Z).

#[local] Abbreviation worker := (worker (php := php)).
#[local] Abbreviation call := (call to_lowercase run_php).

(** Whether a request is active, with PHP and the capture. *)
Record engine := Engine { request_active : bool; e_w : worker }.

Definition engine_eval (code : bytes) (w : worker) : result unit EngineError * worker :=
  if bool_decide (x00 ∈ code) then (Err NullByteInCode, w)
  else
    let '(r, w) := call (zend_eval_string code EVAL_NAME) w in
    (if r =? SUCCESS then Ok tt else Err (EvalFailed code), w).

Definition capture_headers_via_php (w : worker) : header_list * worker :=
  let w := on_cap clear_output_buffer w in
  let '(r, w) := engine_eval HEADERS_CODE w in
  match r with
  | Err _ => ([], w)
  | Ok _ => let '(raw, c) := take_output (w_cap w) in (parse_headers raw, Worker (w_php w) c)
  end.

Definition eval_capture (code : bytes) (w : worker) : result bytes EngineError * worker :=
  let '(r, w) := engine_eval code (on_cap clear_output_buffer w) in
  match r with
  | Err e => (Err e, w)
  | Ok _ => let '(out, c) := take_output (w_cap w) in (Ok out, Worker (w_php w) c)
  end.

Definition eval_capture_full (code : bytes) (w : worker) : result PhpResponse EngineError * worker :=
  let '(r, w) := engine_eval code (on_cap clear_output_buffer w) in
  match r with
  | Err e => (Err e, w)
  | Ok _ =>
      let '(_, w) := call sapi_send_headers w in
      let '(body, c) := take_output (w_cap w) in
      let '(headers, c) := take_headers c in
      let w := Worker (w_php w) c in
      let '(headers, w) :=
        if bool_decide (headers = []) then capture_headers_via_php w else (headers, w) in
      let '(status, c) := take_response_code (w_cap w) in
      (Ok {| e_body := body; e_headers := headers; e_status := status |}, Worker (w_php w) c)
  end.

Definition reset_request (e : engine) : result unit EngineError * engine :=
  let w := if request_active e then (call php_request_shutdown (e_w e)).2 else e_w e in
  let '(r, w) := call php_request_startup w in
  if r =? FAILURE then (Err RequestLifecycle, Engine false w) else (Ok tt, Engine true w).

(** Starting PHP writes the ini file, which it is given with the state. *)
Definition init_with (ini : bytes) (w : worker) : result engine EngineError * option bytes * worker :=
  if initialized (w_cap w) then (Err AlreadyInitialized, None, w)
  else
    let '(r, w) := call php_embed_init (on_cap (set_initialized true) w) in
    if r =? FAILURE
    then let w := on_cap (set_initialized false) w in (Err InitFailed, Some ini, w)
    else (Ok (Engine true w), Some ini, w).

(** [Drop for PhpEngine] *)
Definition drop_engine (e : engine) : worker :=
  on_cap (set_initialized false) (call php_embed_shutdown (e_w e)).2.

(** ** The executor *)

Record PhpRequest := { pq_code : bytes; pq_uploaded_files : list bytes }.

(** NUL bytes are left out of the path, but not of the length. *)
Definition register_uploaded_file (path : bytes) (w : worker) : worker :=
  (call (turbine_register_uploaded_file (filter (λ b, b ≠ x00) path) (zlen path)) w).2.

(** The result of a request, in the words of the error when there is one. *)
Definition described {A} (r : result A EngineError) : result A bytes :=
  match r with Ok a => Ok a | Err e => Err (engine_message e) end.

Definition execute_code (code : bytes) (w : worker) : result PhpResponse EngineError * worker :=
  match rsplit_once INCLUDE code with
  | Some (setup, include_part) =>
      let '(r, w) := engine_eval setup w in
      match r with
      | Err e => (Err e, w)
      | Ok _ => eval_capture_full (INCLUDE ++ include_part) w
      end
  | None => eval_capture_full code w
  end.

(** One turn of the loop; the outcome of the reset is ignored. *)
Definition executor_turn (rq : PhpRequest) (e : engine) : result PhpResponse bytes * engine :=
  let w := foldl (λ w p, register_uploaded_file p w) (e_w e) (pq_uploaded_files rq) in
  let '(r, w) := execute_code (pq_code rq) w in
  (described r, (reset_request (Engine (request_active e) w)).2).

Fixpoint php_executor_loop (rqs : list PhpRequest) (e : engine)
    : list (result PhpResponse bytes) * engine :=
  match rqs with
  | [] => ([], e)
  | rq :: rqs =>
      let '(r, e) := executor_turn rq e in
      let '(rs, e) := php_executor_loop rqs e in (r :: rs, e)
  end.

(** ** What a request should get *)

(** A request as the server builds it (main.rs): the code that sets it up, and
    the script. *)
Record script_request := {
  sr_superglobals : bytes;
  sr_session : bool;
  sr_bootstrap : bytes;
  sr_path : bytes;
  sr_uploads : list bytes }.

Definition php_request_of (sr : script_request) : PhpRequest :=
  {| pq_code := full_code (sr_superglobals sr) (sr_bootstrap sr) (sr_path sr) (sr_session sr);
     pq_uploaded_files := sr_uploads sr |}.

Definition setup_of (sr : script_request) : bytes :=
  sr_superglobals sr ++ (if sr_session sr then lit "session_start(); " else []) ++ sr_bootstrap sr.

Definition inclusion (path : bytes) : bytes :=
  INCLUDE ++ replace_byte quote [backslash; quote] path ++ lit "';".

#[local] Abbreviation spec_call := (spec_call run_php).
#[local] Abbreviation php_env := (php * Z)%type.

Definition spec_eval (code : bytes) (s : php_env) : result (list sapi_event) EngineError * php_env :=
  if bool_decide (x00 ∈ code) then (Err NullByteInCode, s)
  else
    let '(r, evs, s) := spec_call (zend_eval_string code EVAL_NAME) s in
    (if r =? SUCCESS then Ok evs else Err (EvalFailed code), s).

(** The headers PHP lists, and the status, when the script announced none. *)
Definition spec_listing (init : bool) (s : php_env) : header_list * Z * php_env :=
  let v0 := View [] [] 200 s.2 init in
  let '(r, evs, s') := spec_call (zend_eval_string HEADERS_CODE EVAL_NAME) s in
  let v := view_run to_lowercase v0 evs in
  (if r =? SUCCESS then parse_headers (v_out v) else [], view_status v, s').

(** What the script wrote between its start and the sending of its headers. *)
Definition spec_script (init : bool) (code : bytes) (s : php_env)
    : result PhpResponse EngineError * php_env :=
  let '(r, s') := spec_eval code s in
  match r with
  | Err e => (Err e, s')
  | Ok evs1 =>
      let '(_, evs2, s') := spec_call sapi_send_headers s' in
      let v := view_run to_lowercase (View [] [] 200 s.2 init) (evs1 ++ evs2) in
      if bool_decide (v_headers v = []) then
        let '(hs, st, s') := spec_listing init s' in
        (Ok {| e_body := v_out v; e_headers := hs; e_status := st |}, s')
      else (Ok {| e_body := v_out v; e_headers := v_headers v; e_status := view_status v |}, s')
  end.

Definition spec_upload (path : bytes) (s : php_env) : php_env :=
  (spec_call (turbine_register_uploaded_file (filter (λ b, b ≠ x00) path) (zlen path)) s).2.

Definition spec_reset (active : bool) (s : php_env) : bool * php_env :=
  let s := if active then (spec_call php_request_shutdown s).2 else s in
  let '(r, _, s) := spec_call php_request_startup s in (negb (r =? FAILURE), s).

(** The setup, and the script when it succeeded. *)
Definition spec_code (init : bool) (sr : script_request) (s : php_env)
    : result PhpResponse EngineError * php_env :=
  let '(r, s) := spec_eval (setup_of sr) s in
  match r with
  | Err e => (Err e, s)
  | Ok _ => spec_script init (inclusion (sr_path sr)) s
  end.

(** Uploads, setup, script, and the reset whatever the outcome. *)
Definition spec_turn (init : bool) (sr : script_request) (a : bool * php_env)
    : result PhpResponse bytes * (bool * php_env) :=
  let s := foldl (λ s p, spec_upload p s) a.2 (sr_uploads sr) in
  let '(r, s) := spec_code init sr s in (described r, spec_reset a.1 s).

Fixpoint spec_executor (init : bool) (srs : list script_request) (a : bool * php_env)
    : list (result PhpResponse bytes) * (bool * php_env) :=
  match srs with
  | [] => ([], a)
  | sr :: srs =>
      let '(r, a) := spec_turn init sr a in
      let '(rs, a) := spec_executor init srs a in (r :: rs, a)
  end.

(** ** The engine implements it *)

#[local] Abbreviation idle := (idle (php := php)).

Definition eval_outcome {A} (r : result A EngineError) : result unit EngineError :=
  match r with Ok _ => Ok tt | Err e => Err e end.

Lemma engine_eval_spec init s sent0 v w code r s' : idle init s sent0 w → buffers v (w_cap w) →
  spec_eval code s = (r, s') →
  ∃ w', engine_eval code w = (eval_outcome r, w') ∧ idle init s' sent0 w' ∧
    match r with Ok evs => buffers (view_run to_lowercase v evs) (w_cap w') | Err _ => True end.
Proof.
  intros Hi Hb E. unfold spec_eval in E. unfold engine_eval. case_bool_decide.
  { simplify_eq/=. by eexists. }
  destruct (spec_call _ s) as [[z evs] s1] eqn:Ec.
  destruct (call_buffers to_lowercase run_php _ _ _ _ _ _ _ _ _ Hi Hb Ec) as (w' & -> & Hi' & Hb').
  exists w'. by destruct (z =? SUCCESS); simplify_eq/=.
Qed.

Lemma engine_eval_idle init s sent0 w code r s' : idle init s sent0 w → spec_eval code s = (r, s') →
  ∃ w', engine_eval code w = (eval_outcome r, w') ∧ idle init s' sent0 w'.
Proof.
  intros Hi E. set (c := w_cap w).
  destruct (engine_eval_spec init s sent0
    (View (OUTPUT_BUFFER c) (HEADER_BUFFER c) (RESPONSE_CODE c) (sg_code c) (initialized c))
    w code r s' Hi) as (w' & ? & ? & _); [by split_and!|done|by exists w'].
Qed.

Lemma capture_headers_spec init s sent0 w : idle init s sent0 w →
  ∃ hs w' v, capture_headers_via_php w = (hs, w') ∧ idle init (spec_listing init s).2 sent0 w' ∧
    hs = (spec_listing init s).1.1 ∧ v_code v = RESPONSE_CODE (w_cap w') ∧
    v_sg v = sg_code (w_cap w') ∧ v_init v = initialized (w_cap w') ∧
    view_status v = (spec_listing init s).1.2.
Proof.
  intros Hi. unfold capture_headers_via_php, spec_listing, engine_eval.
  replace (bool_decide (x00 ∈ HEADERS_CODE)) with false by (vm_compute; reflexivity).
  destruct (clear_buffers _ _ _ _ Hi) as [Hi1 Hb1].
  destruct (spec_call _ s) as [[r evs] s1] eqn:Ec.
  destruct (call_buffers to_lowercase run_php _ _ _ _ _ _ _ _ _ Hi1 Hb1 Ec) as (w' & -> & Hi' & Hb').
  destruct Hb' as (B1 & B2 & B3 & B4 & B5).
  destruct (r =? SUCCESS); simpl; do 3 eexists; split_and!; try done; by rewrite B1.
Qed.

Lemma eval_capture_full_spec init s sent0 w code r s' : idle init s sent0 w →
  spec_script init code s = (r, s') →
  ∃ w', eval_capture_full code w = (r, w') ∧ idle init s' sent0 w'.
Proof.
  intros Hi E. unfold spec_script in E. unfold eval_capture_full.
  destruct (clear_buffers _ _ _ _ Hi) as [Hi1 Hb1].
  destruct (spec_eval code s) as [r1 s1] eqn:E1.
  destruct (engine_eval_spec _ _ _ _ _ _ _ _ Hi1 Hb1 E1) as (w1 & -> & Hi2 & Hb2).
  destruct r1 as [evs1|e]; simpl; [|simplify_eq; by eexists].
  destruct (spec_call sapi_send_headers s1) as [[r2 evs2] s2] eqn:E2.
  destruct (call_buffers to_lowercase run_php _ _ _ _ _ _ _ _ _ Hi2 Hb2 E2) as (w2 & -> & Hi3 & Hb3).
  unfold view_run in E, Hb3. rewrite foldl_app in E. destruct Hb3 as (B1 & B2 & B3 & B4 & B5).
  cbn -[take_response_code]. rewrite B1, B2. case_bool_decide.
  - destruct (capture_headers_spec init s2 sent0
      (Worker (w_php w2) (set_headers [] (set_output [] (w_cap w2)))) Hi3)
      as (hs & w3 & v & -> & Hi4 & -> & C3 & C4 & C5 & Hst).
    destruct (spec_listing init s2) as [[hs' st] s3]. simplify_eq/=.
    pose proof (take_response_code_view _ _ C3 C4 C5) as Hv.
    pose proof (take_response_code_idle _ _ _ _ _ Hi4 eq_refl) as Hi5.
    destruct (take_response_code _). simplify_eq/=. by eexists.
  - pose proof (take_response_code_view (set_headers [] (set_output [] (w_cap w2))) _
      (eq_sym B3) (eq_sym B4) (eq_sym B5)) as Hv.
    pose proof (take_response_code_idle init s2 sent0
      (Worker (w_php w2) (set_headers [] (set_output [] (w_cap w2)))) _ Hi3 eq_refl) as Hi5.
    cbn -[take_response_code] in Hv, Hi5 |- *. destruct (take_response_code _).
    simplify_eq/=. by eexists.
Qed.

(** ** Requests one after the other *)

Lemma uploads_idle init s sent0 w paths : idle init s sent0 w →
  idle init (foldl (λ s p, spec_upload p s) s paths) sent0
    (foldl (λ w p, register_uploaded_file p w) w paths).
Proof.
  revert s w. induction paths as [|p paths IH]; intros s w Hi; [done|]. simpl. apply IH.
  unfold spec_upload, register_uploaded_file. destruct (spec_call _ s) as [[r evs] s'] eqn:E.
  by destruct (call_idle to_lowercase run_php _ _ _ _ _ _ _ _ Hi E) as (w' & -> & Hi').
Qed.

Lemma reset_request_spec init s sent0 active w : idle init s sent0 w →
  request_active (reset_request (Engine active w)).2 = (spec_reset active s).1 ∧
  idle init (spec_reset active s).2 sent0 (e_w (reset_request (Engine active w)).2).
Proof.
  intros Hi. unfold reset_request, spec_reset. simpl.
  assert (idle init (if active then (spec_call php_request_shutdown s).2 else s) sent0
    (if active then (call php_request_shutdown w).2 else w)) as Hi1.
  { destruct active; [|done]. destruct (spec_call _ s) as [[r evs] s'] eqn:E.
    by destruct (call_idle to_lowercase run_php _ _ _ _ _ _ _ _ Hi E) as (w' & -> & Hi'). }
  destruct (spec_call php_request_startup _) as [[r evs] s'] eqn:E.
  destruct (call_idle to_lowercase run_php _ _ _ _ _ _ _ _ Hi1 E) as (w' & -> & Hi').
  by destruct (r =? FAILURE).
Qed.

Lemma full_code_inclusion sr : pq_code (php_request_of sr) = setup_of sr ++ inclusion (sr_path sr).
Proof. unfold php_request_of, setup_of, full_code, inclusion. simpl. by rewrite <-!(assoc_L (++)). Qed.

Lemma execute_code_spec init s sent0 w sr r s' : ¬ lit "include " `suffix_of` sr_path sr →
  idle init s sent0 w →
  spec_code init sr s = (r, s') →
  ∃ w', execute_code (pq_code (php_request_of sr)) w = (r, w') ∧ idle init s' sent0 w'.
Proof.
  intros Hp Hi E. rewrite full_code_inclusion. unfold execute_code, spec_code, inclusion in *.
  rewrite rsplit_once_include by done. destruct (spec_eval _ s) as [r1 s1] eqn:E1.
  destruct (engine_eval_idle _ _ _ _ _ _ _ Hi E1) as (w1 & -> & Hi1).
  destruct r1 as [evs|e]; simplify_eq/=; [|by eexists]. by apply (eval_capture_full_spec _ s1).
Qed.

Lemma executor_turn_spec init sr a sent0 e r a' : ¬ lit "include " `suffix_of` sr_path sr →
  request_active e = a.1 → idle init a.2 sent0 (e_w e) → spec_turn init sr a = (r, a') →
  ∃ e', executor_turn (php_request_of sr) e = (r, e') ∧ request_active e' = a'.1 ∧
    idle init a'.2 sent0 (e_w e').
Proof.
  intros Hp Ha Hi E. unfold spec_turn in E. unfold executor_turn.
  pose proof (uploads_idle _ _ _ _ (sr_uploads sr) Hi) as Hi1.
  destruct (spec_code init sr _) as [r1 s1] eqn:E1.
  destruct (execute_code_spec _ _ _ _ _ _ _ Hp Hi1 E1) as (w1 & Ex & Hi2).
  simplify_eq/=. rewrite Ex, Ha. eexists. split; [done|]. by apply reset_request_spec.
Qed.

Lemma executor_loop_spec init srs : ∀ a sent0 e rs a',
  Forall (λ sr, ¬ lit "include " `suffix_of` sr_path sr) srs →
  request_active e = a.1 → idle init a.2 sent0 (e_w e) → spec_executor init srs a = (rs, a') →
  ∃ e', php_executor_loop (php_request_of <$> srs) e = (rs, e') ∧ request_active e' = a'.1 ∧
    idle init a'.2 sent0 (e_w e').
Proof.
  induction srs as [|sr srs IH]; intros a sent0 e rs a' Hp Ha Hi E; simpl in *.
  { simplify_eq. by eexists. }
  inversion_clear Hp as [|?? Hp1 Hp2]. destruct (spec_turn init sr a) as [r a1] eqn:E1.
  destruct (executor_turn_spec _ _ _ _ _ _ _ Hp1 Ha Hi E1) as (e1 & -> & Ha1 & Hi1).
  destruct (spec_executor init srs a1) as [rs' a2] eqn:E2.
  destruct (IH _ _ _ _ _ Hp2 Ha1 Hi1 E2) as (e2 & Ex & ? & ?). unfold fmap in Ex.
  rewrite Ex. simplify_eq. by eexists.
Qed.
End engine.

(** The executor that runs PHP inside the server answers every request of a
    session by its own script: the split at the last [include '] separates the
    code that sets the request up from the inclusion of the script for every
    path that does not itself end with [include ], and the response is exactly
    the output of the script up to the sending of its headers, with the headers
    it announced (or those PHP lists) and its status, and nothing of the output
    of the setup, of the shutdown or of an earlier request; or the error of the
    part that failed. The request of PHP is renewed after each, failed or not. *)
Theorem executor_session_exact {php : Type} (to_lowercase : bytes → bytes)
    (run_php : php → php_call → php * list sapi_event * Z) (init : bool)
    (srs : list script_request) (a : bool * (php * Z)) (sent0 : bytes) (e : engine (php := php)) :
  Forall (λ sr, ¬ lit "include " `suffix_of` sr_path sr) srs →
  request_active e = a.1 → idle init a.2 sent0 (e_w e) →
  ∃ e', php_executor_loop to_lowercase run_php (php_request_of <$> srs) e =
    ((spec_executor to_lowercase run_php init srs a).1, e') ∧
    request_active e' = (spec_executor to_lowercase run_php init srs a).2.1 ∧
    idle init (spec_executor to_lowercase run_php init srs a).2.2 sent0 (e_w e').
Proof.
  intros Hp Ha Hi. destruct (spec_executor _ _ _ _ _) as [rs a'] eqn:E.
  by apply (executor_loop_spec to_lowercase run_php init srs a).
Qed.

(** A PHP that prints the code it evaluates, announces a header when it includes
    a script, fails on [bad], and prints at the end of a request. *)
Definition eval_php (s : nat) (k : php_call) : nat * list sapi_event * Z :=
  match k with
  | zend_eval_string code _ =>
      (S s, (if starts_with (lit "include") code then [Header ADD (Some (lit "X-N: 1"))] else []) ++
            [UbWrite code], if contains (lit "bad") code then -1 else 0)
  | php_request_shutdown => (s, [UbWrite (lit "late")], 0)
  | _ => (s, [], 0)
  end.

Definition eval_request (setup path : bytes) : script_request :=
  {| sr_superglobals := setup; sr_session := true; sr_bootstrap := []; sr_path := path;
     sr_uploads := [] |}.

Definition idle_capture : capture :=
  {| OUTPUT_BUFFER := []; HEADER_BUFFER := []; RESPONSE_CODE := 200; STREAM_FD := -1;
     STREAM_ENGAGED := false; sg_code := 0; initialized := true; resp := Wire [] None |}.

Lemma executor_session_exact_witness :
  let srs := [eval_request (lit "a;") (lit "/x's.php"); eval_request (lit "bad;") (lit "/b.php");
              eval_request [x00] (lit "/c.php")] in
  ∃ e', php_executor_loop to_ascii_lowercase eval_php (php_request_of <$> srs)
          (Engine true (Worker 0%nat idle_capture)) =
        ([Ok {| e_body := lit "include '/x\'s.php';"; e_headers := [(lit "X-N", lit "1")];
                e_status := 200 |};
          Err (lit "PHP eval failed for: bad;session_start(); ");
          Err (lit "PHP code contains null byte")], e') ∧ request_active e' = true.
Proof.
  intros srs.
  destruct (executor_session_exact to_ascii_lowercase eval_php true srs (true, (0%nat, 0)) []
    (Engine true (Worker 0%nat idle_capture))) as (e' & He & Ha & _).
  - repeat constructor; intros [k Hk]; apply (f_equal reverse) in Hk; rewrite reverse_app in Hk;
      vm_compute in Hk; discriminate.
  - reflexivity.
  - by split_and!.
  - exists e'. rewrite He, Ha. split; vm_compute; reflexivity.
Defined.

(** The php.ini the server writes holds exactly the directives it means to:
    read line by line, each at its first [=], the file is the list of the
    directives, with those of the configuration last, whenever the texts of the
    configuration have no line feed and the names no [=]; and every directive
    whose name is [output_buffering], in any case, sets it to 0, as the capture
    of output needs. *)
Theorem php_ini_exact (extension_dir : bytes) (path_exists : bytes → bool) (user : bytes)
    (entries : gmap bytes bytes → list (bytes * bytes)) (o : PhpIniOverrides) :
  (∀ m, entries m ≡ₚ map_to_list m) → x0a ∉ extension_dir → x0a ∉ user → one_line_overrides o →
  let text := write_php_ini extension_dir path_exists user entries o in
  ini_lines text = ini_directives extension_dir path_exists user entries o ∧
  (∀ k v, io_extra_ini o !! k = Some v → eq_ignore_ascii_case k (lit "output_buffering") = false →
     (k, v) ∈ ini_lines text) ∧
  (∀ k v, (k, v) ∈ ini_lines text → eq_ignore_ascii_case k (lit "output_buffering") = true →
     v = lit "0").
Proof.
  intros He Hd Hu Ho text. unfold text, write_php_ini. rewrite ini_lines_read; [split_and!|].
  - done.
  - intros k v Hkv Hk. unfold ini_directives. rewrite !elem_of_app. do 7 right. unfold extra_directives.
    rewrite list_elem_of_filter, He, elem_of_map_to_list. done.
  - intros k v Hin. pose proof (ini_directives_unbuffered extension_dir path_exists user entries o) as H.
    rewrite Forall_forall in H. exact (H _ Hin).
  - by apply ini_directives_lines.
Qed.

Definition sample_ini (extra : gmap bytes bytes) : PhpIniOverrides :=
  {| io_memory_limit := lit "1G"; io_max_execution_time := 60;
     io_upload_max_filesize := lit "64M"; io_post_max_size := lit "64M"; io_opcache_memory := 128;
     io_jit_buffer_size := lit "64M"; io_session_save_path := lit "/tmp/s";
     io_session_cookie_name := lit "SID"; io_session_cookie_lifetime := 0;
     io_session_cookie_httponly := true; io_session_cookie_secure := false;
     io_session_cookie_samesite := lit "Lax"; io_session_gc_maxlifetime := 1440;
     io_open_basedir := lit "/srv"; io_disabled_functions := []; io_block_url_include := true;
     io_block_url_fopen := true; io_preload_script := [];
     io_extra_ini := extra;
     io_extensions := [lit "redis.so"]; io_zend_extensions := [];
     io_opcache_validate_timestamps := false |}.

Lemma php_ini_exact_witness :
  let o := sample_ini {[ lit "Output_Buffering" := lit "4096"; lit "precision" := lit "17" ]} in
  let text := write_php_ini (lit "/ext") (λ _, true) (lit "www") map_to_list o in
  length (ini_lines text) = 35%nat ∧ (lit "precision", lit "17") ∈ ini_lines text.
Proof.
  intros o text.
  destruct (php_ini_exact (lit "/ext") (λ _, true) (lit "www") map_to_list o) as (E1 & E2 & _).
  - done.
  - by apply (bool_decide_unpack _).
  - by apply (bool_decide_unpack _).
  - split; refine (proj1 (bool_decide_eq_true _) _); vm_compute; reflexivity.
  - split; [unfold text; rewrite E1; vm_compute; reflexivity|]. by apply E2.
Defined.

(** A name with a space before it passes the check, and PHP ignores the space. *)
Example spaced_output_buffering :
  let m : gmap bytes bytes := {[ lit " output_buffering" := lit "4096" ]} in
  filter (λ kv : bytes * bytes, trim kv.1 = lit "output_buffering")
    (ini_directives [] (λ _, false) [] map_to_list (sample_ini m)) =
  [(lit "output_buffering", lit "0"); (lit " output_buffering", lit "4096")].
Proof. vm_compute. reflexivity. Qed.

(** Headers the setup announces, as a session does with its cookie, are lost when
    the script announces one of its own. *)
Example setup_header_lost :
  let php (s : nat) (k : php_call) :=
    (s, match k with
        | zend_eval_string code _ =>
            if contains (lit "session_start") code then [Header ADD (Some (lit "Set-Cookie: SID=1"))]
            else if starts_with (lit "include") code then [Header ADD (Some (lit "X-A: 1"))] else []
        | _ => []
        end, 0) in
  (php_executor_loop to_ascii_lowercase php [php_request_of (eval_request [] (lit "/a.php"))]
     (Engine true (Worker 0%nat idle_capture))).1 =
  [Ok {| e_body := []; e_headers := [(lit "X-A", lit "1")]; e_status := 200 |}].
Proof. vm_compute. reflexivity. Qed.
