(* ===== verification/Startup.v ===== *)
(** * Starting the server (turbine-core/src/main.rs, [cmd_serve])

    From the command line and the configuration file to what the server runs
    with: the directory and the configuration that are used, what is told on the
    way, the php.ini that PHP gets, the domains for the certificate, the
    certificates, and the number of workers.

    The file system, the environment and the [toml] crate are parameters, as in
    ConfigFile; extracting an embedded application (Embed) and the certificate
    authority are the results of calls. *)

From stdpp Require Import sorting.
From S2P Require Import Prelude RustStr PathGuard Http RequestGate Config ConfigFile Engine.

(** ** The command line *)

Record args := {
  arg_listen : option bytes;
  arg_workers : option Z;
  arg_config : option bytes;
  arg_root : option bytes;
  arg_tls_cert : option bytes;
  arg_tls_key : option bytes;
  arg_request_timeout : option Z;
  arg_access_log : option bytes }.

(** [std::process::exit] with what was said on the terminal. *)
Inductive exit_reason :=
| RootDoesNotExist (root : bytes)
| CannotChangeDirectory (dir : bytes)
| CertFileNotSet
| KeyFileNotSet.

Definition set_server (c : FileConfig) (s : ServerConfig) : FileConfig :=
  {| f_server := s; f_php := f_php c; f_security := f_security c; f_sandbox := f_sandbox c;
     f_cache := f_cache c; f_logging := f_logging c; f_compression := f_compression c;
     f_error_pages := f_error_pages c; f_session := f_session c; f_cors := f_cors c;
     f_watcher := f_watcher c; f_early_hints := f_early_hints c; f_x_sendfile := f_x_sendfile c;
     f_structured_logging := f_structured_logging c; f_acme := f_acme c; f_embed := f_embed c;
     f_dashboard := f_dashboard c; f_shared_table := f_shared_table c;
     f_task_queue := f_task_queue c; f_websocket := f_websocket c; f_async_io := f_async_io c;
     f_worker_pools := f_worker_pools c; f_virtual_hosts := f_virtual_hosts c |}.

Definition set_access_log (c : FileConfig) (p : bytes) : FileConfig :=
  {| f_server := f_server c; f_php := f_php c; f_security := f_security c;
     f_sandbox := f_sandbox c; f_cache := f_cache c;
     f_logging := {| lg_level := lg_level (f_logging c); lg_access_log := Some p |};
     f_compression := f_compression c; f_error_pages := f_error_pages c;
     f_session := f_session c; f_cors := f_cors c; f_watcher := f_watcher c;
     f_early_hints := f_early_hints c; f_x_sendfile := f_x_sendfile c;
     f_structured_logging := f_structured_logging c; f_acme := f_acme c; f_embed := f_embed c;
     f_dashboard := f_dashboard c; f_shared_table := f_shared_table c;
     f_task_queue := f_task_queue c; f_websocket := f_websocket c; f_async_io := f_async_io c;
     f_worker_pools := f_worker_pools c; f_virtual_hosts := f_virtual_hosts c |}.

(** The fields of [[server]] that start-up assigns. *)
Definition with_server (s : ServerConfig) (listen : bytes) (workers timeout : Z)
    (tls : TlsConfig) : ServerConfig :=
  {| sv_workers := workers; sv_listen := listen; sv_worker_mode := sv_worker_mode s;
     sv_request_timeout := timeout; sv_worker_max_requests := sv_worker_max_requests s;
     sv_channel_capacity := sv_channel_capacity s; sv_pid_file := sv_pid_file s; sv_tls := tls;
     sv_max_wait_time := sv_max_wait_time s; sv_auto_scale := sv_auto_scale s;
     sv_min_workers := sv_min_workers s; sv_max_workers := sv_max_workers s;
     sv_scale_down_idle_secs := sv_scale_down_idle_secs s;
     sv_persistent_workers := sv_persistent_workers s; sv_lifecycle := sv_lifecycle s;
     sv_worker_boot := sv_worker_boot s; sv_worker_handler := sv_worker_handler s;
     sv_worker_cleanup := sv_worker_cleanup s;
     sv_tokio_worker_threads := sv_tokio_worker_threads s; sv_pin_workers := sv_pin_workers s;
     sv_listen_busy_poll_us := sv_listen_busy_poll_us s;
     sv_listen_reuseport_shards := sv_listen_reuseport_shards s |}.

(** A certificate or a key on the command line turns TLS on. *)
Definition override_tls (a : args) (t : TlsConfig) : TlsConfig :=
  let t := match arg_tls_cert a with
           | Some f => {| tls_enabled := true; cert_file := Some f; key_file := key_file t |}
           | None => t end in
  match arg_tls_key a with
  | Some f => {| tls_enabled := true; cert_file := cert_file t; key_file := Some f |}
  | None => t
  end.

Definition apply_overrides (a : args) (c : FileConfig) : FileConfig :=
  let s := f_server c in
  let c := set_server c (with_server s (default (sv_listen s) (arg_listen a))
             (default (sv_workers s) (arg_workers a))
             (default (sv_request_timeout s) (arg_request_timeout a))
             (override_tls a (sv_tls s))) in
  match arg_access_log a with Some p => set_access_log c p | None => c end.

(** ** The configuration that is used *)

Section Boot.
Context (cpus : option Z).
Context (to_lowercase : bytes → bytes).
Context (path_exists : bytes → bool).
Context (read_to_string : bytes → option bytes).
Context (parse : bytes → option table).
(** [set_current_dir] from a directory: the new one. *)
Context (chdir : bytes → bytes → option bytes).
(** The directory an embedded application was extracted to, if there is one. *)
Context (embedded_app : option (EmbedToml → option bytes)).

Abbreviation load := (load cpus path_exists read_to_string parse).
Abbreviation load_from := (load_from cpus read_to_string parse).

Definition resolve_config_path (cwd p : bytes) : bytes :=
  if is_absolute p then p else path_join cwd p.

(** [--root]; a relative path is looked up from [cwd]. *)
Definition enter_root (cwd : bytes) (root : option bytes) : result bytes exit_reason :=
  match root with
  | None => Ok cwd
  | Some r =>
      if negb (path_exists (resolve_config_path cwd r)) then Err (RootDoesNotExist r)
      else match chdir cwd r with
           | Some d => Ok d
           | None => Err (CannotChangeDirectory r)
           end
  end.

(** The directory, the configuration before the overrides, and what was said. *)
Definition read_config (a : args) (cwd : bytes) :
    result (bytes * FileConfig * list said) exit_reason :=
  let config_path := resolve_config_path cwd <$> arg_config a in
  let? dir := enter_root cwd (arg_root a) in
  let '(c, notes) := match config_path with Some p => load_from p | None => load dir end in
  match embedded_app, arg_root a with
  | Some extract, None =>
      match extract (f_embed c) with
      | Some app_dir =>
          match chdir dir app_dir with
          | Some dir => let '(c, notes') := load dir in Ok (dir, c, notes ++ notes')
          | None => Err (CannotChangeDirectory app_dir)
          end
      | None => Ok (dir, c, notes)
      end
  | _, _ => Ok (dir, c, notes)
  end.

(** What reaches an operator: the terminal, and the log from the moment the
    subscriber is installed. *)
Inductive boot_event := Said (s : said) | LogInstalled (level : bytes).

Fixpoint seen (installed : bool) (es : list boot_event) : list note :=
  match es with
  | [] => []
  | LogInstalled _ :: es => seen true es
  | Said (Eprint n) :: es => n :: seen installed es
  | Said (Log n) :: es => (if installed then [n] else []) ++ seen installed es
  end.

(** The first part of [cmd_serve], up to the log. *)
Definition boot_config (a : args) (cwd : bytes) :
    result (bytes * FileConfig * list boot_event) exit_reason :=
  let? (dir, c, notes) := read_config a cwd in
  let c := apply_overrides a c in
  Ok (dir, c, (Said <$> notes ++ validate_config path_exists to_lowercase c) ++
              [LogInstalled (lg_level (f_logging c))]).
End Boot.

(** ** The php.ini *)

(** [String]'s order is that of the bytes. *)
Fixpoint bytes_leb (s t : bytes) : bool :=
  match s, t with
  | [], _ => true
  | _ :: _, [] => false
  | x :: s', y :: t' => (u8 x <? u8 y) || ((u8 x =? u8 y) && bytes_leb s' t')
  end.

Definition bytes_le (s t : bytes) : Prop := bytes_leb s t = true.

#[global] Instance bytes_le_dec s t : Decision (bytes_le s t).
Proof. unfold bytes_le. apply _. Defined.

(** [Vec::dedup] removes repeated neighbours. *)
Fixpoint dedup (l : list bytes) : list bytes :=
  match l with
  | [] => []
  | x :: l' =>
      match dedup l' with
      | [] => [x]
      | y :: r => if decide (x = y) then y :: r else x :: y :: r
      end
  end.

Definition colon : byte := x3a.

Section Ini.
Context (path_exists : bytes → bool).
(** [std::env::temp_dir] *)
Context (sys_tmp : bytes).

Definition vhost_root (app_root : bytes) (v : vhost) : bytes :=
  let r := vh_root (vh_config v) in
  if is_absolute r then r else path_join app_root r.

Definition basedir_paths (app_root : bytes) (c : FileConfig) : list bytes :=
  [app_root; ph_upload_tmp_dir (f_php c); ss_save_path (f_session c);
   lit "/tmp/turbine-opcache"; lit "/dev/fd"; sys_tmp] ++
  (path_join app_root <$> sb_data_directories (sb_rules (f_sandbox c))) ++
  (vhost_root app_root <$> f_virtual_hosts c).

Definition open_basedir (app_root : bytes) (c : FileConfig) : bytes :=
  if sb_enforce_open_basedir (f_sandbox c) then
    RustStr.join colon (dedup (merge_sort bytes_le (basedir_paths app_root c)))
  else [].

Definition preload_script (app_root : bytes) (c : FileConfig) : bytes :=
  let detect :=
    default [] (head (filter (λ p, path_exists p = true)
      [path_join app_root (lit "vendor/preload.php"); path_join app_root (lit "preload.php");
       path_join app_root (lit "config/preload.php")])) in
  match ph_preload_script (f_php c) with
  | None => detect
  | Some p => if bool_decide (p = lit "auto") then detect else p
  end.

(** Before any certificate has been obtained. *)
Definition session_secure (c : FileConfig) : bool :=
  ss_cookie_secure (f_session c) || tls_enabled (sv_tls (f_server c)).

Definition ini_overrides (app_root : bytes) (c : FileConfig) : PhpIniOverrides :=
  let php := f_php c in let ses := f_session c in let sb := f_sandbox c in
  {| io_memory_limit := ph_memory_limit php; io_max_execution_time := ph_max_execution_time php;
     io_upload_max_filesize := ph_upload_max_filesize php;
     io_post_max_size := ph_post_max_size php; io_opcache_memory := ph_opcache_memory php;
     io_jit_buffer_size := ph_jit_buffer_size php; io_session_save_path := ss_save_path ses;
     io_session_cookie_name := ss_cookie_name ses;
     io_session_cookie_lifetime := ss_cookie_lifetime ses;
     io_session_cookie_httponly := ss_cookie_httponly ses;
     io_session_cookie_secure := session_secure c;
     io_session_cookie_samesite := ss_cookie_samesite ses;
     io_session_gc_maxlifetime := ss_gc_maxlifetime ses;
     io_open_basedir := open_basedir app_root c;
     io_disabled_functions := RustStr.join x2c (sb_disabled_functions sb);
     io_block_url_include := sb_block_url_include sb; io_block_url_fopen := sb_block_url_fopen sb;
     io_preload_script := preload_script app_root c; io_extra_ini := ph_ini php;
     io_extensions := ph_extensions php; io_zend_extensions := ph_zend_extensions php;
     io_opcache_validate_timestamps := default false (ph_opcache_validate_timestamps php) |}.
End Ini.

(** ** Certificates *)

Section Tls.
Context (to_lowercase : bytes → bytes).

(** A name is added to the domains of the certificate unless it is there. *)
Definition add_domain (domains : list bytes) (name : bytes) : list bytes :=
  if existsb (λ d, bool_decide (to_lowercase d = to_lowercase name)) domains then domains
  else domains ++ [name].

Definition acme_domains (c : FileConfig) : list bytes :=
  if am_enabled (f_acme c) && negb (match f_virtual_hosts c with [] => true | _ => false end) then
    foldl (λ ds v, if is_set (vh_tls_cert v) then ds
                   else foldl add_domain ds (vh_domain (vh_config v) :: vh_aliases (vh_config v)))
      (am_domains (f_acme c)) (f_virtual_hosts c)
  else am_domains (f_acme c).

(** The certificate that was cached, or else the one that was obtained, if any. *)
Definition acme_tls (cached obtained : list bytes → option (bytes * bytes)) (c : FileConfig) : TlsConfig :=
  let t := sv_tls (f_server c) in
  let domains := acme_domains c in
  if am_enabled (f_acme c) && negb (bool_decide (domains = [])) then
    match (match cached domains with Some ck => Some ck | None => obtained domains end) with
    | Some (cert, key) => {| tls_enabled := true; cert_file := Some cert; key_file := Some key |}
    | None => t
    end
  else t.

Definition vhost_certs (c : FileConfig) : list (bytes * bytes * bytes) :=
  mjoin ((λ v, match vh_tls_cert v, vh_tls_key v with
               | Some cert, Some key =>
                   (λ n, (to_lowercase n, cert, key)) <$>
                     vh_domain (vh_config v) :: vh_aliases (vh_config v)
               | _, _ => []
               end) <$> f_virtual_hosts c).

(** What the listener presents: nothing, or a certificate with those of the
    virtual hosts. *)
Inductive tls_plan :=
| PlainHttp
| Tls (cert key : bytes)
| TlsWithSni (cert key : bytes) (hosts : list (bytes * bytes * bytes)).

Definition tls_setup (t : TlsConfig) (c : FileConfig) : result tls_plan exit_reason :=
  if tls_enabled t then
    match cert_file t, key_file t with
    | None, _ => Err CertFileNotSet
    | _, None => Err KeyFileNotSet
    | Some cert, Some key =>
        match vhost_certs c with
        | [] => Ok (Tls cert key)
        | hosts => Ok (TlsWithSni cert key hosts)
        end
    end
  else Ok PlainHttp.
End Tls.

(** ** Workers *)

Definition serve_workers (cpus : option Z) (c : FileConfig) : Z :=
  let n := sv_workers (f_server c) in
  if n =? 0 then default 4 cpus else n.

(** ** Sorting *)

#[global] Instance bytes_le_total : Total bytes_le.
Proof.
  intros s. unfold bytes_le. induction s as [|x s IH]; intros [|y t]; simpl; auto.
  destruct (Z.ltb_spec (u8 x) (u8 y)), (Z.ltb_spec (u8 y) (u8 x)); simpl; auto.
  destruct (Z.eqb_spec (u8 x) (u8 y)), (Z.eqb_spec (u8 y) (u8 x)); try lia. simpl. apply IH.
Qed.

#[global] Instance bytes_le_trans : Transitive bytes_le.
Proof.
  intros s t w. unfold bytes_le. revert t w. induction s as [|x s IH]; intros [|y t] [|z w]; simpl;
    try done.
  destruct (Z.ltb_spec (u8 x) (u8 y)), (Z.ltb_spec (u8 y) (u8 z)), (Z.ltb_spec (u8 x) (u8 z));
    simpl; try done; try lia;
    destruct (Z.eqb_spec (u8 x) (u8 y)), (Z.eqb_spec (u8 y) (u8 z)), (Z.eqb_spec (u8 x) (u8 z));
    simpl; try done; try lia. apply IH.
Qed.

#[global] Instance bytes_le_antisymm : AntiSymm (=) bytes_le.
Proof.
  intros s t. unfold bytes_le. revert t. induction s as [|x s IH]; intros [|y t]; simpl; try done.
  destruct (Z.ltb_spec (u8 x) (u8 y)), (Z.ltb_spec (u8 y) (u8 x)); simpl; try lia;
    destruct (Z.eqb_spec (u8 x) (u8 y)) as [E|], (Z.eqb_spec (u8 y) (u8 x)); simpl; try done; try lia.
  intros. f_equal; [by apply u8_inj|by apply IH].
Qed.

Lemma dedup_elem x l : x ∈ dedup l ↔ x ∈ l.
Proof.
  induction l as [|y l IH]; simpl; [done|]. rewrite elem_of_cons, <-IH.
  destruct (dedup l) as [|z r]; [set_solver|]. case_decide; set_solver.
Qed.

Lemma dedup_sorted l : StronglySorted bytes_le l → StronglySorted bytes_le (dedup l).
Proof.
  induction 1 as [|x l Hl IH Hx]; simpl; [constructor|].
  assert (Forall (bytes_le x) (dedup l)) as Hx'
    by (apply Forall_forall; intros y Hy; rewrite Forall_forall in Hx; apply Hx; by apply dedup_elem).
  destruct (dedup l) as [|y r]; [by constructor|]. case_decide; [done|by constructor].
Qed.

Lemma dedup_nodup l : StronglySorted bytes_le l → NoDup (dedup l).
Proof.
  induction 1 as [|x l Hl IH Hx]; simpl; [constructor|].
  pose proof (dedup_sorted l Hl) as Hs. pose proof (λ y, dedup_elem y l) as He.
  destruct (dedup l) as [|y r] eqn:E; [apply NoDup_singleton|]. case_decide as Hxy; [done|].
  apply NoDup_cons. split; [|done]. rewrite elem_of_cons. intros [?|Hr]; [done|].
  destruct Hxy. apply (anti_symm bytes_le).
  - rewrite Forall_forall in Hx. apply Hx. apply He. by left.
  - apply StronglySorted_inv in Hs as [_ Hs]. rewrite Forall_forall in Hs. by apply Hs.
Qed.

(** ** What PHP may open *)

Section IniLaws.
Context (path_exists : bytes → bool) (sys_tmp : bytes).

Lemma open_basedir_split app_root c :
  sb_enforce_open_basedir (f_sandbox c) = true →
  Forall (λ p, colon ∉ p) (basedir_paths sys_tmp app_root c) →
  NoDup (split colon (open_basedir sys_tmp app_root c)) ∧
  ∀ p, p ∈ split colon (open_basedir sys_tmp app_root c) ↔ p ∈ basedir_paths sys_tmp app_root c.
Proof.
  intros He Hc. unfold open_basedir. rewrite He. set (l := basedir_paths sys_tmp app_root c) in *.
  pose proof (merge_sort_Permutation bytes_le l) as Hp.
  assert (∀ p, p ∈ dedup (merge_sort bytes_le l) ↔ p ∈ l) as Hel
    by (intros p; by rewrite dedup_elem, Hp).
  rewrite split_join.
  - split; [|done]. apply dedup_nodup, StronglySorted_merge_sort; apply _.
  - intros E. apply (not_elem_of_nil app_root). rewrite <-E, Hel. by left.
  - apply Forall_forall. intros p Hin%Hel. rewrite Forall_forall in Hc. by apply Hc.
Qed.

Lemma open_basedir_nonempty app_root c : sb_enforce_open_basedir (f_sandbox c) = true →
  open_basedir sys_tmp app_root c ≠ [].
Proof.
  intros He. unfold open_basedir. rewrite He. set (l := basedir_paths sys_tmp app_root c).
  assert (lit "/dev/fd" ∈ dedup (merge_sort bytes_le l)) as Hin.
  { rewrite dedup_elem, merge_sort_Permutation. unfold l, basedir_paths. set_solver. }
  intros E. destruct (dedup (merge_sort bytes_le l)) as [|w [|w' ws]]; [by apply elem_of_nil in Hin|..].
  - simpl in E. subst w. apply list_elem_of_singleton in Hin. discriminate Hin.
  - cbn [RustStr.join] in E. by destruct w.
Qed.

(** The directives of a name. *)
Definition only (k v : bytes) (kv : bytes * bytes) : Prop := kv.1 = k → kv.2 = v.

Lemma only_other k v k' v' : bool_decide (k' = k) = false → only k v (k', v').
Proof. unfold only. by intros ?%bool_decide_eq_false. Qed.

Context (extension_dir user : bytes) (entries : gmap bytes bytes → list (bytes * bytes)).
Hypothesis entries_all : ∀ m, entries m ≡ₚ map_to_list m.

Abbreviation directives := (ini_directives extension_dir path_exists user entries).

Lemma basedir_directive_only o : io_extra_ini o !! lit "open_basedir" = None →
  Forall (only (lit "open_basedir") (io_open_basedir o)) (directives o).
Proof.
  intros Hx. unfold ini_directives, opcache_directives, session_directives, hardening_directives,
    extra_directives. rewrite !Forall_app, !Forall_fmap.
  split_and!;
    repeat (apply Forall_cons; split; [first [by apply only_other | done]|]);
    try apply Forall_nil_2; unfold directive_if;
    try (case_match; [|apply Forall_nil_2];
         repeat (apply Forall_cons; split; [first [by apply only_other | done]|]); apply Forall_nil_2).
  1, 2: apply Forall_true; intros v; by apply only_other.
  apply Forall_forall. intros [k v] [_ Hkv]%list_elem_of_filter.
  rewrite entries_all, elem_of_map_to_list in Hkv. intros E. simpl in *. congruence.
Qed.


End IniLaws.

(** A directory whose name has a colon becomes two: what is confined to
    [/srv/a:b] may open [/srv/a]. *)
Example colon_widens :
  let c := RuntimeConfig_default (Some 1) in
  bool_decide (lit "/srv/a" ∈ split colon (open_basedir (lit "/tmp") (lit "/srv/a:b") c)) = true ∧
  bool_decide (lit "/srv/a:b" ∈ split colon (open_basedir (lit "/tmp") (lit "/srv/a:b") c)) = false.
Proof. vm_compute. split; reflexivity. Qed.


(** ** The configuration that is used *)

Section BootLaws.
Context (cpus : option Z) (to_lowercase : bytes → bytes) (path_exists : bytes → bool).
Context (read_to_string : bytes → option bytes) (parse : bytes → option table).
Context (chdir : bytes → bytes → option bytes).

Abbreviation booted emb := (boot_config cpus to_lowercase path_exists read_to_string parse chdir emb).

(** The command line wins over the file, which wins over the defaults; without
    an argument the file's value stays, and no other section changes. *)
Lemma overrides_win a c :
  let s := f_server c in let s' := f_server (apply_overrides a c) in
  sv_listen s' = default (sv_listen s) (arg_listen a) ∧
  sv_workers s' = default (sv_workers s) (arg_workers a) ∧
  sv_request_timeout s' = default (sv_request_timeout s) (arg_request_timeout a) ∧
  cert_file (sv_tls s') = (match arg_tls_cert a with Some f => Some f | None => cert_file (sv_tls s) end) ∧
  key_file (sv_tls s') = (match arg_tls_key a with Some f => Some f | None => key_file (sv_tls s) end) ∧
  tls_enabled (sv_tls s') = tls_enabled (sv_tls s) || is_set (arg_tls_cert a) || is_set (arg_tls_key a) ∧
  lg_access_log (f_logging (apply_overrides a c)) =
    (match arg_access_log a with Some p => Some p | None => lg_access_log (f_logging c) end) ∧
  f_sandbox (apply_overrides a c) = f_sandbox c ∧ f_security (apply_overrides a c) = f_security c ∧
  f_virtual_hosts (apply_overrides a c) = f_virtual_hosts c.
Proof.
  unfold apply_overrides, override_tls.
  destruct (arg_access_log a), (arg_tls_cert a), (arg_tls_key a); simpl; split_and!; try done;
    by rewrite ?orb_true_r, ?orb_false_r.
Qed.

(** What is said on the terminal. *)
Definition printed (l : list said) : list note :=
  omap (λ s, match s with Eprint n => Some n | Log _ => None end) l.

Lemma seen_printed ns level : seen false ((Said <$> ns) ++ [LogInstalled level]) = printed ns.
Proof. induction ns as [|[n|n] ns IH]; simpl; [done|exact IH|by f_equal]. Qed.

Lemma validate_printed c : printed (validate_config path_exists to_lowercase c) = [].
Proof.
  unfold validate_config, printed. destruct (check _ _ _) as [es ws]. rewrite omap_app.
  replace (omap _ (_ <$> es)) with ([] : list note) by (by induction es). by induction ws.
Qed.

Lemma load_printed dir : printed (load cpus path_exists read_to_string parse dir).2 = [].
Proof. unfold load. by repeat case_match. Qed.

Lemma read_config_printed embedded a cwd dir c notes :
  read_config cpus path_exists read_to_string parse chdir embedded a cwd = Ok (dir, c, notes) →
  printed notes = match arg_config a with
    | Some p => printed (load_from cpus read_to_string parse (resolve_config_path cwd p)).2
    | None => []
    end.
Proof.
  unfold read_config, result_bind. destruct (enter_root _ _ _ _) as [d|e]; [|done].
  set (first := match _ <$> arg_config a with Some p => _ | None => _ end).
  assert (printed first.2 = match arg_config a with
    | Some p => printed (load_from cpus read_to_string parse (resolve_config_path cwd p)).2
    | None => [] end) as <- by (unfold first; destruct (arg_config a); [done|apply load_printed]).
  destruct first as [c0 n0]. simpl.
  destruct embedded as [f|], (arg_root a); try by intros [= <- <- <-].
  destruct (f (f_embed c0)) as [app|]; [|by intros [= <- <- <-]].
  destruct (chdir d app) as [d'|]; [|done].
  pose proof (load_printed d') as Hl. destruct (load _ _ _ _ d') as [c1 n1].
  intros [= <- <- <-]. unfold printed in *. rewrite omap_app. simpl in Hl. by rewrite Hl, app_nil_r.
Qed.

(** The start of the server tells nobody what is wrong with its configuration:
    errors and warnings of the check go to a log that is not there yet, as does
    the failure to read or parse the turbine.toml of the directory, which is then
    replaced by the defaults; only a file named on the command line is reported
    when it cannot be used. *)
Theorem config_problems_unseen (embedded : option (EmbedToml → option bytes)) (a : args)
    (cwd dir : bytes) (c : FileConfig) (es : list boot_event) :
  booted embedded a cwd = Ok (dir, c, es) →
  (arg_config a = None → seen false es = []) ∧
  ∀ n, n ∈ seen false es → ∃ p, arg_config a = Some p ∧
    (n = CannotParse (resolve_config_path cwd p) ∨ n = CannotRead (resolve_config_path cwd p)).
Proof.
  unfold boot_config, result_bind.
  destruct (read_config _ _ _ _ _ embedded a cwd) as [[[dir' c'] notes]|e] eqn:Er; [|done].
  intros [= -> <- <-]. rewrite seen_printed. unfold printed at 1 2. rewrite omap_app.
  fold (printed notes) (printed (validate_config path_exists to_lowercase (apply_overrides a c'))).
  rewrite validate_printed, app_nil_r, (read_config_printed _ _ _ _ _ _ Er).
  destruct (arg_config a) as [p|]; [|by split; [|intros n ?%elem_of_nil]].
  split; [done|]. intros n Hn. exists p. split; [done|]. revert Hn. unfold load_from.
  repeat case_match; simpl; set_solver.
Qed.

(** With an application in the executable and no [--root], the file named on the
    command line does not count: whatever it says, the configuration is that of
    the extracted application, or the defaults. *)
Theorem embedded_config_wins (extract : EmbedToml → option bytes) (a : args)
    (cwd app_dir dir : bytes) :
  arg_root a = None → (∀ e, extract e = Some app_dir) → chdir cwd app_dir = Some dir →
  ∃ es, booted (Some extract) a cwd =
    Ok (dir, apply_overrides a (load cpus path_exists read_to_string parse dir).1, es).
Proof.
  intros Hr Hx Hd. unfold boot_config, read_config, result_bind. rewrite Hr. simpl.
  destruct (match _ with Some p => _ | None => _ end) as [c0 n0]. rewrite Hx, Hd.
  destruct (load _ _ _ _ dir) as [c1 n1]. by eexists.
Qed.
End BootLaws.

(** ** Certificates *)

Section TlsLaws.
Context (to_lowercase : bytes → bytes).

Definition covers (ds : list bytes) (n : bytes) : Prop := ∃ d, d ∈ ds ∧ to_lowercase d = to_lowercase n.

Lemma covers_mono ds ds' n : ds `prefix_of` ds' → covers ds n → covers ds' n.
Proof. intros [k ->] (d & Hd & E). exists d. split; [|done]. apply elem_of_app. by left. Qed.

Lemma add_domain_spec ds n :
  (ds `prefix_of` add_domain to_lowercase ds n) ∧ covers (add_domain to_lowercase ds n) n ∧
  (∀ d, d ∈ add_domain to_lowercase ds n → d ∈ ds ∨ d = n) ∧
  (NoDup (to_lowercase <$> ds) → NoDup (to_lowercase <$> add_domain to_lowercase ds n)).
Proof.
  unfold add_domain. destruct (existsb _ ds) eqn:E.
  - split_and!; [done| |by left|done]. apply existsb_exists in E as (d & Hd & Ed).
    exists d. split; [by apply list_elem_of_In|]. by apply bool_decide_eq_true in Ed.
  - split_and!; [by exists [n]|exists n; set_solver|set_solver|].
    intros Hnd. rewrite fmap_app. apply NoDup_app. split_and!; [done| |apply NoDup_singleton].
    intros x Hx ->%list_elem_of_singleton. apply list_elem_of_fmap in Hx as (d & Ed & Hd).
    apply eq_true_false_abs in E; [done|]. apply existsb_exists. exists d.
    split; [by apply list_elem_of_In|]. by apply bool_decide_eq_true.
Qed.

Lemma add_domains_spec ns ds :
  let r := foldl (add_domain to_lowercase) ds ns in
  (ds `prefix_of` r) ∧ Forall (covers r) ns ∧ (∀ d, d ∈ r → d ∈ ds ∨ d ∈ ns) ∧
  (NoDup (to_lowercase <$> ds) → NoDup (to_lowercase <$> r)).
Proof.
  revert ds. induction ns as [|n ns IH]; intros ds; simpl; [by split_and!; auto|].
  destruct (add_domain_spec ds n) as (P1 & C1 & E1 & N1).
  destruct (IH (add_domain to_lowercase ds n)) as (P2 & C2 & E2 & N2). split_and!.
  - by etrans.
  - apply Forall_cons. split; [by eapply covers_mono|done].
  - intros d Hd. destruct (E2 d Hd) as [Hd'|?]; [|set_solver]. destruct (E1 d Hd'); set_solver.
  - auto.
Qed.

Abbreviation host_names v := (vh_domain (vh_config v) :: vh_aliases (vh_config v)).

Definition collect (ds : list bytes) (v : vhost) : list bytes :=
  if is_set (vh_tls_cert v) then ds else foldl (add_domain to_lowercase) ds (host_names v).

Lemma collect_spec vs ds :
  let r := foldl collect ds vs in
  (ds `prefix_of` r) ∧ (∀ v n, v ∈ vs → vh_tls_cert v = None → n ∈ host_names v → covers r n) ∧
  (∀ d, d ∈ r → d ∈ ds ∨ ∃ v, v ∈ vs ∧ vh_tls_cert v = None ∧ d ∈ host_names v) ∧
  (NoDup (to_lowercase <$> ds) → NoDup (to_lowercase <$> r)).
Proof.
  revert ds. induction vs as [|v vs IH]; intros ds; [split_and!; [done|set_solver|by left|done]|].
  simpl. destruct (IH (collect ds v)) as (P2 & C2 & E2 & N2). unfold collect at 3.
  assert ((ds `prefix_of` collect ds v) ∧
    (vh_tls_cert v = None → Forall (covers (collect ds v)) (host_names v)) ∧
    (∀ d, d ∈ collect ds v → d ∈ ds ∨ (vh_tls_cert v = None ∧ d ∈ host_names v)) ∧
    (NoDup (to_lowercase <$> ds) → NoDup (to_lowercase <$> collect ds v))) as (P1 & C1 & E1 & N1).
  { unfold collect. destruct (vh_tls_cert v); simpl is_set.
    - split_and!; [done..|by left|done].
    - destruct (add_domains_spec (host_names v) ds) as (? & ? & E & ?).
      split_and!; [done..| |done]. intros d Hd. destruct (E d Hd); auto. }
  split_and!.
  - by etrans.
  - intros w n Hw Hc Hn. apply elem_of_cons in Hw as [->|Hw]; [|by eapply C2].
    eapply covers_mono; [exact P2|]. specialize (C1 Hc). rewrite Forall_forall in C1. by apply C1.
  - intros d Hd. destruct (E2 d Hd) as [Hd'|(w & Hw & Hc & Hn)]; [|right; set_solver].
    destruct (E1 d Hd') as [?|[Hc Hn]]; [by left|right; set_solver].
  - auto.
Qed.

(** The certificate that is asked for covers every name of every virtual host that
    has none of its own, without regard to case; it keeps the domains of the
    configuration first, names nothing else and nothing twice. *)
Theorem acme_domains_exact (c : FileConfig) :
  am_enabled (f_acme c) = true →
  let ds := acme_domains to_lowercase c in
  (am_domains (f_acme c) `prefix_of` ds) ∧
  (∀ v n, v ∈ f_virtual_hosts c → vh_tls_cert v = None → n ∈ host_names v → covers ds n) ∧
  (∀ d, d ∈ ds → d ∈ am_domains (f_acme c) ∨
     ∃ v, v ∈ f_virtual_hosts c ∧ vh_tls_cert v = None ∧ d ∈ host_names v) ∧
  (NoDup (to_lowercase <$> am_domains (f_acme c)) → NoDup (to_lowercase <$> ds)).
Proof.
  intros He ds. unfold ds, acme_domains. rewrite He.
  pose proof (collect_spec (f_virtual_hosts c) (am_domains (f_acme c))) as Hc.
  destruct (f_virtual_hosts c); [|exact Hc]. simpl. split_and!; [done|set_solver|by left|done].
Qed.

Lemma acme_tls_complete cached obtained c :
  acme_tls to_lowercase cached obtained c = sv_tls (f_server c) ∨
  ∃ cert key, acme_tls to_lowercase cached obtained c =
    {| tls_enabled := true; cert_file := Some cert; key_file := Some key |}.
Proof.
  unfold acme_tls. destruct (_ && _); [|by left].
  destruct (match cached _ with Some ck => _ | None => _ end) as [[cert key]|]; eauto.
Qed.

(** A configuration that passes the check does not end the start at the
    certificates, whatever the authority answers. *)
Theorem checked_config_starts_tls (path_exists : bytes → bool)
    (cached obtained : list bytes → option (bytes * bytes)) (c : FileConfig) :
  (check to_lowercase path_exists (core c)).1 = [] →
  ∃ plan, tls_setup to_lowercase (acme_tls to_lowercase cached obtained c) c = Ok plan.
Proof.
  intros Hc. assert (tls_enabled (sv_tls (f_server c)) = true →
    is_set (cert_file (sv_tls (f_server c))) = true ∧ is_set (key_file (sv_tls (f_server c))) = true)
    as Hset.
  { unfold check in Hc. simpl in Hc. repeat (apply app_eq_nil in Hc as [? Hc]).
    match goal with H : file_errors _ _ = [] |- _ => rename H into Hf end.
    unfold file_errors in Hf. repeat (apply app_eq_nil in Hf as [? Hf]). simpl in *.
    rewrite !push_if_nil in *. intros E. rewrite E in *.
    destruct (is_set (cert_file _)), (is_set (key_file _)); done. }
  destruct (acme_tls_complete cached obtained c) as [->|(cert & key & ->)];
    unfold tls_setup; [|destruct (vhost_certs _ c); by eexists].
  destruct (tls_enabled (sv_tls (f_server c))); [|by eexists]. destruct (Hset eq_refl).
  destruct (cert_file _), (key_file _); try done. destruct (vhost_certs _ c); by eexists.
Qed.
End TlsLaws.

(** Sessions of a server that has its certificate from the authority get cookies
    without [Secure]: php.ini is written before the certificate turns TLS on. *)
Theorem acme_cookies_not_secure (to_lowercase : bytes → bytes)
    (cached obtained : list bytes → option (bytes * bytes)) (path_exists : bytes → bool)
    (sys_tmp extension_dir user app_root : bytes) (entries : gmap bytes bytes → list (bytes * bytes))
    (c : FileConfig) (cert key : bytes) :
  tls_enabled (sv_tls (f_server c)) = false → ss_cookie_secure (f_session c) = false →
  am_enabled (f_acme c) = true → acme_domains to_lowercase c ≠ [] →
  cached (acme_domains to_lowercase c) = Some (cert, key) →
  (∃ plan, tls_setup to_lowercase (acme_tls to_lowercase cached obtained c) c = Ok plan ∧
     plan ≠ PlainHttp) ∧
  (lit "session.cookie_secure", lit "0") ∈
    ini_directives extension_dir path_exists user entries (ini_overrides path_exists sys_tmp app_root c).
Proof.
  intros Ht Hs He Hd Hc. split.
  - unfold acme_tls. rewrite He, bool_decide_false by done. simpl. rewrite Hc. unfold tls_setup. simpl.
    destruct (vhost_certs to_lowercase c); by eexists.
  - unfold ini_directives, session_directives. do 3 (apply elem_of_app; right).
    apply elem_of_app; left. do 5 (apply elem_of_cons; right). apply elem_of_cons; left.
    unfold ini_overrides, session_secure. simpl. by rewrite Ht, Hs.
Qed.

(** ** Workers *)

(** There is always a worker: the single-process server is never chosen. *)
Theorem serve_workers_positive (cpus : option Z) (c : FileConfig) :
  from_option (λ n, 0 < n) True cpus → 0 ≤ sv_workers (f_server c) → 1 ≤ serve_workers cpus c.
Proof.
  intros Hc Hw. unfold serve_workers. destruct (Z.eqb_spec (sv_workers (f_server c)) 0); [|lia].
  destruct cpus; simpl in *; lia.
Qed.

Definition no_args : args :=
  {| arg_listen := None; arg_workers := None; arg_config := None; arg_root := None;
     arg_tls_cert := None; arg_tls_key := None; arg_request_timeout := None;
     arg_access_log := None |}.

(** A directory with a turbine.toml that cannot be parsed, as the one that
    [turbine init] writes. *)
Definition broken_boot (a : args) :=
  boot_config (Some 4) (λ s, s) (λ _, true) (λ _, Some (lit "[cors]")) (λ _, None) (λ _ _, None)
    None a (lit "/srv").

Lemma config_problems_unseen_witness :
  match broken_boot no_args with
  | Ok (_, c, es) => c = RuntimeConfig_default (Some 4) ∧ es ≠ [] ∧ seen false es = []
  | Err _ => False
  end.
Proof.
  destruct (broken_boot no_args) as [[[dir c] es]|e] eqn:E; [|discriminate E].
  pose proof (config_problems_unseen _ _ _ _ _ _ None no_args (lit "/srv") dir c es E) as [H _].
  specialize (H eq_refl). vm_compute in E. injection E as <- <- <-.
  split; [vm_compute; reflexivity|]. split; [discriminate|exact H].
Defined.
