(* ===== verification/WorkerStart.v ===== *)
(** * Starting the workers (turbine-core/src/main.rs, cmd_serve)

    From the configuration to the pool and the dispatch that requests are served
    with: which workers are spawned and on which cores, the wait for their ready
    messages, and the slots. What the system answers to spawns, and when the ready
    messages come, are arguments. The exchange of requests from then on is in Exchange.v; the named
    pools are in PoolExchange.v. *)

From S2P Require Import Prelude RustStr Config ConfigFile Startup NativeIpc NativeWorker.
From S2P Require Import WorkerPool ThreadDispatch Exchange.

(** ** Configuration *)

Definition worker_mode_of (to_lowercase : bytes → bytes) (s : bytes) : WorkerMode :=
  let s := to_lowercase s in
  if bool_decide (s = lit "thread") || bool_decide (s = lit "threads") then ModeThread else ModeProcess.

Definition pool_config (to_lowercase : bytes → bytes) (cpus : option Z) (c : FileConfig) : PoolConfig :=
  {| cfg_workers := Z.to_nat (serve_workers cpus c);
     cfg_max_requests := sv_worker_max_requests (f_server c);
     cfg_mode := worker_mode_of to_lowercase (sv_worker_mode (f_server c));
     cfg_pin_workers := sv_pin_workers (f_server c) |}.

(** ** CPU cores *)

(** The core that a worker is bound to as it starts, if [pin_workers] asks for it;
    [cpus] is [available_parallelism]. *)
Definition pinned_core (cpus : option Z) (pin : bool) (index : Z) : option Z :=
  if pin then Some (index `mod` default 1 cpus) else None.

(** ** Channel workers *)

Definition READY_LOOKS : nat := 500.

(** The looks at one worker's channel, 2 ms apart: [arrival] is when its ready
    message is there, if ever, [now] when the looks begin. Whether the message was
    taken, and the time. *)
Fixpoint await_ready (looks now : nat) (arrival : option nat) : bool * nat :=
  match looks with
  | O => (false, now)
  | S looks =>
      match arrival with
      | Some a => if (a <=? now)%nat then (true, now) else await_ready looks (S now) arrival
      | None => await_ready looks (S now) arrival
      end
  end.

(** One worker after the other. *)
Fixpoint await_all (looks now : nat) (arrivals : list (option nat)) : list bool :=
  match arrivals with
  | [] => []
  | a :: arrivals => let '(ready, now) := await_ready looks now a in ready :: await_all looks now arrivals
  end.

(** ** The start *)

(** [NoThreads]: PHP is not thread-safe. *)
Inductive start_exit := NoThreads | SpawnFailed (e : WorkerError).

(** The pool, the dispatch, and for each worker whether its ready message was read. *)
Record started := { st_pool : WorkerPool; st_dispatch : ThreadDispatch; st_ready : list bool }.

Definition dispatch_of (max : Z) (p : WorkerPool) : ThreadDispatch :=
  set_max_requests max (td_new (worker_fds p) (worker_pids p)).

(** [ids] are the ids of threads with channels; [signals] whether reading the ready
    message of a worker with pipes gave one, good or bad, or an error, which is only
    logged. *)
Definition start_workers (zts : bool) (lifecycle : Lifecycle) (os : list spawned) (ids : list Z)
    (arrivals : list (option nat)) (signals : list bool) (c : PoolConfig) : result started start_exit :=
  let p := pool_new c in
  let piped r := match r with
                 | (Ok _, _, p) => Ok {| st_pool := p; st_dispatch := dispatch_of (cfg_max_requests c) p;
                                         st_ready := take (length (workers p)) signals |}
                 | (Err e, _, _) => Err (SpawnFailed e)
                 end in
  match workers_are_persistent lifecycle, cfg_mode c with
  | true, ModeThread => piped (spawn_persistent_workers_threaded zts os p)
  | true, ModeProcess => piped (spawn_persistent_workers os p)
  | false, ModeThread =>
      if zts then
        Ok {| st_pool := foldl (λ p id, register_channel_thread id p) p (take (cfg_workers c) ids);
              st_dispatch := set_max_requests (cfg_max_requests c) (spawn_channel_workers (cfg_workers c));
              st_ready := await_all READY_LOOKS 0 (take (cfg_workers c) arrivals) |}
      else Err NoThreads
  | false, ModeProcess => piped (spawn_workers os p)
  end.

Definition uses_channels (lifecycle : Lifecycle) (c : PoolConfig) : bool :=
  match workers_are_persistent lifecycle, cfg_mode c with false, ModeThread => true | _, _ => false end.

(** ** Slots and workers *)

Lemma spawn_each_length mk (max : nat → WorkerPool → Z) ids os p eff p' :
  (length ids ≤ length os)%nat →
  spawn_each (λ i o p, spawn_push mk (max i p) o p) ids os p = (Ok tt, eff, p') →
  config p' = config p ∧ length (workers p') = (length (workers p) + length ids)%nat.
Proof.
  revert os p eff. induction ids as [|i ids IH]; intros os p eff Hl; simpl.
  - destruct os; intros [= _ <-]; auto.
  - destruct os as [|o os]; simpl in Hl; [lia|]. destruct o as [[[id cmd] resp]|e]; [|done]. simpl.
    destruct (spawn_each _ ids os _) as [[r eff'] p1] eqn:E. intros [= -> _ <-].
    apply IH in E as [Hc Hw]; [|lia]. split; [done|]. rewrite Hw. simpl. rewrite length_app. simpl. lia.
Qed.

Lemma register_length ids p : length (workers (foldl (λ p id, register_channel_thread id p) p ids)) =
  (length (workers p) + length ids)%nat.
Proof.
  revert p. induction ids as [|id ids IH]; intros p; simpl; [lia|].
  rewrite IH. simpl. rewrite length_app. simpl. lia.
Qed.

(** What requests find when the server starts: a slot for each worker, all of them in
    the queue, with a permit each. *)
Record slots_match (channels : bool) (c : PoolConfig) (s : started) : Prop := {
  sm_workers : length (workers (st_pool s)) = cfg_workers c;
  sm_permits : idle_sem (st_dispatch s) = cfg_workers c;
  sm_queue : td_queue (st_dispatch s) = seq 0 (cfg_workers c);
  sm_pipes : ∀ i w, channels = false → workers (st_pool s) !! i = Some w →
    td_fds (st_dispatch s) !! i = Some (cmd_fd w, resp_fd w);
  sm_channels : channels = true → td_fds (st_dispatch s) = [];
  sm_served : requests_served (st_dispatch s) = replicate (cfg_workers c) 0;
  sm_healthy : unhealthy (st_dispatch s) = replicate (cfg_workers c) false;
  sm_quota : max_requests_per_worker (st_dispatch s) = cfg_max_requests c }.

Lemma piped_slots c p ready : length (workers p) = cfg_workers c → config p = c →
  slots_match false c {| st_pool := p; st_dispatch := dispatch_of (cfg_max_requests c) p; st_ready := ready |}.
Proof.
  intros Hw Hc. unfold dispatch_of, td_new, worker_fds. split; simpl; rewrite ?length_fmap, ?Hw; try done.
  intros i w _ Hi. by rewrite list_lookup_fmap, Hi.
Qed.

(** The start gives the dispatch exactly one slot for each worker, which is idle and
    drives the worker of the same index, or the server does not start. *)
Theorem started_slots_match (zts : bool) (lifecycle : Lifecycle) (os : list spawned) (ids : list Z)
    (arrivals : list (option nat)) (signals : list bool) (c : PoolConfig) (s : started) :
  (cfg_workers c ≤ length os)%nat → (cfg_workers c ≤ length ids)%nat →
  start_workers zts lifecycle os ids arrivals signals c = Ok s →
  slots_match (uses_channels lifecycle c) c s.
Proof.
  intros Ho Hi. assert (∀ mk max r eff p ready,
    spawn_each (λ i o p, spawn_push mk (max i p) o p) (seq 0 (cfg_workers c)) os (pool_new c) = (Ok r, eff, p) →
    slots_match false c {| st_pool := p; st_dispatch := dispatch_of (cfg_max_requests c) p;
                           st_ready := ready |}) as Hp.
  { intros mk max [] eff p ready [Hc Hw]%spawn_each_length; [|by rewrite length_seq].
    rewrite length_seq in Hw. by apply piped_slots. }
  unfold start_workers, uses_channels. destruct (workers_are_persistent lifecycle), (cfg_mode c) eqn:Em;
    rewrite ?Em; simpl.
  - destruct (spawn_persistent_workers os _) as [[[r|e] eff] p] eqn:E; [|done]. intros [= <-]. by eapply Hp.
  - unfold spawn_persistent_workers_threaded. destruct zts; [|done].
    destruct (spawn_each _ _ os _) as [[[r|e] eff] p] eqn:E; [|done]. intros [= <-].
    eapply (Hp Thread (λ _ p, cfg_max_requests (WorkerPool.config p))), E.
  - destruct (spawn_workers os _) as [[[r|e] eff] p] eqn:E; [|done]. intros [= <-]. by eapply Hp.
  - destruct zts; [|done]. intros [= <-]. split; simpl; try done.
    rewrite register_length, length_take. simpl. lia.
Qed.

Lemma started_slots_match_witness :
  let c := {| cfg_workers := 2; cfg_max_requests := 100; cfg_mode := ModeProcess; cfg_pin_workers := false |} in
  ∃ s, start_workers false PoolReuse [Ok (101, 5, 6); Ok (102, 7, 8)] [0; 0] [] [true; true] c = Ok s ∧
    slots_match false c s.
Proof.
  intros c. eexists. split; [reflexivity|].
  apply (started_slots_match false PoolReuse [Ok (101, 5, 6); Ok (102, 7, 8)] [0; 0] [] [true; true] c);
    [simpl; lia..|reflexivity].
Defined.

(** ** Ready messages *)

(** A worker that could not boot is served with all the same. *)
Theorem signals_ignored (zts : bool) (lifecycle : Lifecycle) (os : list spawned) (ids : list Z)
    (arrivals : list (option nat)) (signals signals' : list bool) (c : PoolConfig) :
  match start_workers zts lifecycle os ids arrivals signals c,
        start_workers zts lifecycle os ids arrivals signals' c with
  | Ok s, Ok s' => st_pool s = st_pool s' ∧ st_dispatch s = st_dispatch s'
  | Err e, Err e' => e = e'
  | _, _ => False
  end.
Proof.
  unfold start_workers. destruct (workers_are_persistent lifecycle), (cfg_mode c);
    [destruct (spawn_persistent_workers _ _) as [[[]]]|destruct (spawn_persistent_workers_threaded _ _ _) as [[[]]]
    |destruct (spawn_workers _ _) as [[[]]]|destruct zts]; done.
Qed.

Lemma await_ready_exact looks now arrival : (await_ready looks now arrival).1 = true ↔
  ∃ a, arrival = Some a ∧ (a < now + looks)%nat ∧ (0 < looks)%nat.
Proof.
  revert now. induction looks as [|looks IH]; intros now; simpl; [naive_solver lia|].
  destruct arrival as [a|].
  - destruct (Nat.leb_spec a now); simpl; [split; [intros _; exists a; split_and!; [done|lia|lia]|done]|].
    rewrite IH. split; intros (a' & [= <-] & ? & ?); exists a; split_and!; [done|lia|lia|done|lia|lia].
  - rewrite IH. split; intros (a' & ? & _); done.
Qed.

Lemma await_ready_time looks now arrival :
  (now ≤ (await_ready looks now arrival).2 ≤ now + looks)%nat.
Proof.
  revert now. induction looks as [|looks IH]; intros now; simpl; [lia|].
  destruct arrival as [a|]; [destruct (a <=? now)%nat; simpl; [lia|]|]; specialize (IH (S now)); lia.
Qed.

(** The wait ends: after a second for each worker at most. *)
Fixpoint await_end (looks now : nat) (arrivals : list (option nat)) : nat :=
  match arrivals with
  | [] => now
  | a :: arrivals => await_end looks (await_ready looks now a).2 arrivals
  end.

Theorem await_bounded (looks now : nat) (arrivals : list (option nat)) :
  (await_end looks now arrivals ≤ now + looks * length arrivals)%nat.
Proof.
  revert now. induction arrivals as [|a arrivals IH]; intros now; simpl; [lia|].
  specialize (IH (await_ready looks now a).2). pose proof (await_ready_time looks now a). lia.
Qed.

(** The channels as the server begins to serve: a ready message that was not taken is
    still to come, as if it answered a request that nobody made. *)
Definition channel_world (nobody : nat) (s : started) : world NativeResponse :=
  World (st_dispatch s) ∅ ∅
    (list_to_map (omap (λ '(i, ready), if ready : bool then None else Some (i, [(nobody, ready_response)]))
                    (zip (seq 0 (length (st_ready s))) (st_ready s)))) [].

Lemma unread_pending n l ready i : ready !! i = Some false →
  list_to_map (M := gmap nat (list (nat * NativeResponse)))
    (omap (λ '(i, ready), if ready : bool then None else Some (i, l)) (zip (seq n (length ready)) ready))
    !! (n + i)%nat = Some l.
Proof.
  revert n i. induction ready as [|b ready IH]; intros n i Hi; [done|]. simpl.
  destruct i as [|i]; simpl in Hi.
  - simplify_eq/=. by rewrite Nat.add_0_r, lookup_insert_eq.
  - rewrite Nat.add_succ_r. destruct b; [apply (IH (S n) i Hi)|]. simpl.
    rewrite lookup_insert_ne by lia. apply (IH (S n) i Hi).
Qed.

(** A thread that is not ready within its time answers its first request with its
    ready message: the server starts all the same, and the first client, whose slot
    is the last of the queue, gets an empty response with status 200 before its
    script has run. *)
Theorem late_thread_answers_blank (n : nat) (ids : list Z) (arrivals : list (option nat))
    (signals : list bool) (os : list spawned) (c : PoolConfig) (s : started) (nobody r : nat) :
  start_workers true ForkPerRequest os ids arrivals signals c = Ok s →
  cfg_mode c = ModeThread → cfg_workers c = S n →
  st_ready s !! n = Some false →
  ∃ w, x_run true [EBegin r true; EReceive r] (channel_world nobody s) = Some w ∧
    delivered w = [(r, nobody, ready_response)] ∧ inbox w !!! n = [r].
Proof.
  intros Hs Hm Hn Hr. unfold start_workers in Hs. rewrite Hm in Hs. simpl in Hs.
  injection Hs as Hs.
  assert (td_queue (wd (channel_world nobody s)) = seq 0 n ++ [n]) as Hq.
  { rewrite <-Hs. simpl. by rewrite Hn, seq_S. }
  assert (is_pickable (st_dispatch s) n = true) as Hp.
  { rewrite <-Hs. unfold is_pickable.
    generalize (quota_for (set_max_requests (cfg_max_requests c) (spawn_channel_workers (cfg_workers c))) n).
    intros q. unfold is_unhealthy, served. simpl. rewrite Hn, length_replicate, !lookup_replicate_2 by lia.
    rewrite (proj2 (Nat.ltb_lt n (S n))) by lia. simpl.
    destruct (Z.ltb_spec 0 q), (Z.leb_spec q 0); simpl; done || lia. }
  pose proof (unread_pending 0 [(nobody, ready_response)] (st_ready s) n Hr) as Hpe. simpl in Hpe.
  erewrite x_run_cons; [|eapply (begin_last true _ r (seq 0 n) n n (guard_new n)); try done;
    rewrite <-Hs; simpl; by rewrite Hn].
  erewrite x_run_cons.
  2:{ simpl. unfold receive. simpl. rewrite lookup_insert_eq. simpl.
      rewrite lookup_total_alt, Hpe. simpl. reflexivity. }
  eexists. split; [reflexivity|]. simpl. rewrite lookup_total_insert_eq.
  by rewrite lookup_total_empty.
Qed.

Lemma late_thread_answers_blank_witness :
  let c := {| cfg_workers := 2; cfg_max_requests := 100; cfg_mode := ModeThread; cfg_pin_workers := false |} in
  ∃ s w, start_workers true ForkPerRequest [] [7; 8] [Some 3; Some 2000]%nat [] c = Ok s ∧
    x_run true [EBegin 1%nat true; EReceive 1%nat] (channel_world 0%nat s) = Some w ∧
    delivered w = [(1%nat, 0%nat, ready_response)] ∧ inbox w !!! 1%nat = [1%nat].
Proof.
  intros c. set (r := start_workers true ForkPerRequest [] [7; 8] [Some 3; Some 2000]%nat [] c).
  destruct r as [s|e] eqn:E; [|done].
  destruct (late_thread_answers_blank 1 [7; 8] [Some 3; Some 2000]%nat [] [] c s 0 1 E) as (w & Hw);
    [reflexivity..| |by exists s, w].
  unfold r in E. injection E as <-. vm_compute. reflexivity.
Defined.

(** Workers are spread evenly over the cores: each is bound to a core that is there, and those
    with the same core are a multiple of the number of cores apart, so that no core has two of
    as many workers as there are cores. *)
Theorem pins_spread (cpus : option Z) (i j : Z) : 0 < default 1 cpus → 0 ≤ i < j →
  ∃ c, pinned_core cpus true i = Some c ∧ 0 ≤ c < default 1 cpus ∧
    (pinned_core cpus true j = Some c ↔ ∃ k, 0 < k ∧ j = i + k * default 1 cpus).
Proof.
  intros Hn Hij. unfold pinned_core. eexists. split; [done|]. set (n := default 1 cpus) in *.
  split; [by apply Z.mod_pos_bound|]. split.
  - intros [= Hm]. exists (j `div` n - i `div` n).
    pose proof (Z.div_mod i n). pose proof (Z.div_mod j n). split; nia.
  - intros (k & _ & ->). by rewrite Z.mod_add by lia.
Qed.

Lemma pins_spread_witness :
  ∃ c, pinned_core (Some 4) true 1 = Some c ∧ 0 ≤ c < 4 ∧
    (pinned_core (Some 4) true 9 = Some c ↔ ∃ k, 0 < k ∧ 9 = 1 + k * 4).
Proof. apply (pins_spread (Some 4) 1 9); simpl; lia. Defined.
