(* ===== verification/Settings.v ===== *)
(** * What the components are configured with (turbine-core/src/main.rs)

    [cmd_serve] builds the configuration of each component from the sections of
    the file. The components have defaults of their own, for tests and other
    callers; the theorem compares them with what a server without a
    configuration file runs with. *)

From S2P Require Import Prelude RustStr PathGuard Http RequestGate Config ConfigFile ResponseCache BehaviourGuard Security WsHub Compat Features Admin TaskQueue SharedTable.

Definition sec_config (c : FileConfig) : SecurityConfig :=
  let s := f_security c in
  {| sc_enabled := se_enabled s; sc_sql_guard := se_sql_guard s;
     sc_code_injection_guard := se_code_injection_guard s;
     sc_behaviour_guard := se_behaviour_guard s; paranoia_level := se_paranoia_level s;
     exclude_paths := se_exclude_paths s |}.

(** The other fields are those of [BehaviourConfig::default]. *)
Definition behaviour_config (c : FileConfig) : BehaviourConfig :=
  let s := f_security c in
  {| max_rps := se_max_requests_per_second s; sqli_block_threshold := se_sqli_block_threshold s;
     scanning_error_rate := scanning_error_rate default_behaviour;
     scanning_min_requests := scanning_min_requests default_behaviour;
     window_seconds := se_rate_limit_window s |}.

(** [Duration::from_secs], in nanoseconds. *)
Definition cache_config (c : FileConfig) : CacheConfig :=
  {| cfg_ttl := ca_ttl_seconds (f_cache c) * 10 ^ 9; cfg_max_entries := ca_max_entries (f_cache c);
     cfg_enabled := ca_enabled (f_cache c) |}.

Definition upload_config (c : FileConfig) : UploadSecurityConfig :=
  {| blocked_extensions := sb_blocked_upload_extensions (f_sandbox c);
     scan_content := sb_scan_upload_content (f_sandbox c) |}.

Definition http_config (is_tls : bool) (c : FileConfig) : HttpConfig :=
  {| hc_is_tls := is_tls; hc_cors := f_cors c; compression_enabled := cm_enabled (f_compression c);
     compression_min_size := cm_min_size (f_compression c);
     compression_level := cm_level (f_compression c);
     compression_algorithms := cm_algorithms (f_compression c) |}.

Definition x_sendfile_dir (app_root : bytes) (c : FileConfig) : option bytes :=
  if xs_enabled (f_x_sendfile c) then
    Some (PathGuard.path_join app_root (default (lit ".") (xs_root (f_x_sendfile c))))
  else None.

Definition feature_config (app_root : bytes) (c : FileConfig) : FeatureConfig :=
  {| structured_logging_enabled := sl_enabled (f_structured_logging c);
     early_hints_enabled := eh_enabled (f_early_hints c);
     x_sendfile_enabled := xs_enabled (f_x_sendfile c);
     x_sendfile_root := x_sendfile_dir app_root c |}.

Definition ws_config (c : FileConfig) : WsConfig :=
  let w := f_websocket c in
  {| WsHub.max_channels := wb_max_channels w; WsHub.channel_capacity := wb_channel_capacity w;
     max_frame_size := wb_max_frame_size w; idle_timeout_secs := wb_idle_timeout_secs w |}.

Definition admin_config (workers : Z) (c : FileConfig) : AdminConfig :=
  {| ac_listen := sv_listen (f_server c); dashboard_enabled := db_enabled (f_dashboard c);
     dashboard_token := db_token (f_dashboard c);
     statistics_enabled := db_statistics (f_dashboard c); Admin.worker_count := workers;
     max_body_bytes := parse_php_size (ph_post_max_size (f_php c));
     task_max_wait_ms := tq_max_wait_ms (f_task_queue c);
     upload_tmp_dir := ph_upload_tmp_dir (f_php c); upload_security := upload_config c |}.

(** The stores exist where they are enabled. *)
Definition shared_table (c : FileConfig) : option SharedTable :=
  if st_enabled (f_shared_table c) then Some (table_new (st_max_entries (f_shared_table c))) else None.

Definition task_queue (c : FileConfig) : option TaskQueue :=
  if tq_enabled (f_task_queue c) then
    Some (queue_new (tq_max_channels (f_task_queue c)) (tq_channel_capacity (f_task_queue c)))
  else None.

(** A server without a configuration file runs with the defaults of its
    components: the security layer, the limits per client, uploads and websockets
    are configured as the components themselves would be; the response cache is
    theirs but turned off; bodies are limited to 64 MiB; no store is created; the
    pages for operators need no token. *)
Theorem default_settings (cpus : option Z) (workers : Z) :
  let c := RuntimeConfig_default cpus in
  sec_config c = default_security ∧ behaviour_config c = default_behaviour ∧
  upload_config c = default_upload_security ∧ ws_config c = default_ws_config ∧
  cfg_ttl (cache_config c) = cfg_ttl default_config ∧
  cfg_max_entries (cache_config c) = cfg_max_entries default_config ∧
  cfg_enabled (cache_config c) = false ∧
  max_body_bytes (admin_config workers c) = Some (64 * 1024 * 1024) ∧
  dashboard_token (admin_config workers c) = None ∧
  shared_table c = None ∧ task_queue c = None.
Proof. split_and!; reflexivity. Qed.
