(* ===== verification/Acme.v ===== *)
(** * Certificates from an authority (turbine-core/src/acme.rs)

    The cached certificate, the challenges of HTTP-01, the exchange with the
    authority that provides a certificate, and the task that renews it. The
    authority and the generation of keys are libraries ([instant_acme], [rcgen]):
    they are the parameter [Authority]. A call may do what the authority does
    meanwhile, which includes asking the server for its challenges, so the calls
    after an order are given what the server would answer. *)

From S2P Require Import Prelude Utf8 RustStr ConfigFile.

(** ** The cache *)

Record AcmeCertificate := { ac_cert : bytes; ac_key : bytes }.

Definition cert_path (c : AcmeConfig) : bytes := path_join (am_cache_dir c) (lit "cert.pem").
Definition key_path (c : AcmeConfig) : bytes := path_join (am_cache_dir c) (lit "key.pem").
Definition account_path (c : AcmeConfig) : bytes := path_join (am_cache_dir c) (lit "account.json").

(** The files, by path. *)
Abbreviation files := (gmap bytes bytes).

(** [std::fs::read_to_string] on a file that can be read: it has to be UTF-8. *)
Definition read_text (fs : files) (p : bytes) : option bytes :=
  content ← fs !! p; if utf8_valid content then Some content else None.

Section Cache.
(** [rustls_pemfile::certs], without the sections it cannot decode. *)
Context (pem_certs : bytes → list bytes).

Definition is_cert_valid (cert_pem : bytes) : bool :=
  contains (lit "BEGIN CERTIFICATE") cert_pem && negb (bool_decide (pem_certs cert_pem = [])).

Definition load_cached_certificate (c : AcmeConfig) (fs : files) : option AcmeCertificate :=
  if bool_decide (is_Some (fs !! cert_path c)) && bool_decide (is_Some (fs !! key_path c)) then
    match read_text fs (cert_path c) with
    | Some cert_pem =>
        if is_cert_valid cert_pem then Some {| ac_cert := cert_path c; ac_key := key_path c |}
        else None
    | None => None
    end
  else None.
End Cache.

(** What the file system tells of the certificate: whether it is there, and when
    it was written. *)
Inductive metadata := NoFile | NoTime | Written (mtime : Z).

Definition RENEWAL_AGE : Z := 60 * 24 * 3600.

(** Times are in seconds; [duration_since] of a later time is zero. *)
Definition needs_renewal (m : metadata) (now : Z) : bool :=
  match m with
  | Written mtime => RENEWAL_AGE <? Z.max 0 (now - mtime)
  | NoTime | NoFile => true
  end.

(** ** Challenges *)

Abbreviation ChallengeTokens := (gmap bytes bytes).

Definition ACME_PREFIX : bytes := lit "/.well-known/acme-challenge/".

Definition handle_challenge_request (path : bytes) (tokens : ChallengeTokens) : option bytes :=
  token ← strip_prefix ACME_PREFIX path;
  if bool_decide (token = []) || contains [x2f] token then None else tokens !! token.

(** The temporary server on port 80 during the first provisioning. *)
Definition challenge_server (path : bytes) (tokens : ChallengeTokens) : Z * bytes :=
  match handle_challenge_request path tokens with
  | Some response => (200, response)
  | None => (404, lit "Not Found")
  end.

(** ** The authority *)

Inductive AuthorizationStatus := AuthPending | AuthValid | AuthOther (status : bytes).

Inductive OrderStatus := OrderPending | OrderReady | OrderProcessing | OrderValid | OrderInvalid.

Record challenge := { ch_http01 : bool; ch_url : bytes; ch_token : bytes }.

Record authorization := { au_status : AuthorizationStatus; au_challenges : list challenge }.

(** [A] is the state of the authority, the network and the random numbers. A key
    authorization is made of the token of the challenge and the key of the
    account. *)
Class Authority (A : Type) := {
  credentials : Type; account : Type; order : Type; key_pair : Type; cert_params : Type;
  parse_credentials : bytes → result credentials bytes;
  credentials_json : credentials → result bytes bytes;
  from_credentials : credentials → A → result account bytes * A;
  create_account : list bytes → bytes → A → result (account * credentials) bytes * A;
  new_order : account → list bytes → A → result order bytes * A;
  authorizations : order → A → result (list authorization) bytes * A;
  key_authorization : order → challenge → bytes;
  set_challenge_ready : order → bytes → (bytes → option bytes) → A → result () bytes * A;
  refresh : order → (bytes → option bytes) → A → result OrderStatus bytes * A;
  params_new : list bytes → result cert_params bytes;
  generate_key : A → result key_pair bytes * A;
  signing_request : cert_params → key_pair → result bytes bytes;
  key_pem : key_pair → bytes;
  finalize : order → bytes → (bytes → option bytes) → A → result () bytes * A;
  certificate : order → A → result (option bytes) bytes * A;
  key_authorization_token o c c' :
    ch_token c = ch_token c' → key_authorization o c = key_authorization o c' }.

(** ** Provisioning *)

Inductive acme_error :=
| CacheDirError (e : bytes) | ReadAccount (e : bytes) | ParseAccount (e : bytes)
| LoadAccount (e : bytes) | CreateAccount (e : bytes) | SerializeAccount (e : bytes)
| SaveAccount (e : bytes) | CreateOrder (e : bytes) | GetAuthorizations (e : bytes)
| UnexpectedStatus (status : bytes) | NoHttp01 | SetReady (e : bytes)
| RefreshOrder (e : bytes) | ChallengeFailed | ChallengeTimeout
| CertParams (e : bytes) | GenerateKey (e : bytes) | GenerateCsr (e : bytes) | FinalizeOrder (e : bytes)
| DownloadCertificate (e : bytes) | NoCertificate | FinalizationFailed
| WriteCertificate (e : bytes) | WriteKey (e : bytes).

(** How a write may fail: with the error, and what it leaves in the file if it got
    as far as opening it. *)
Record io_outcome := { io_error : bytes; io_left : option bytes }.

(** How an attempt ends; [StillPolling]: the polls that were allowed for are over
    and the code asks again. *)
Inductive attempt (T : Type) := Done (v : T) | Failed (e : acme_error) | StillPolling.
Arguments Done {T} v.
Arguments Failed {T} e.
Arguments StillPolling {T}.

Section Provision.
Context {A : Type} `{Auth : !Authority A}.
(** Which operations on files fail. *)
Context (mkdir_error read_error : option bytes) (write_error : bytes → option io_outcome).

(** The calls to the authority that may make it ask for challenges, with what the
    server answers at that time. *)
Inductive call :=
| ToldReady (o : order) (c : challenge) (tokens : ChallengeTokens)
| Polled (tokens : ChallengeTokens)
| Finalized (tokens : ChallengeTokens).

Definition call_tokens (x : call) : ChallengeTokens :=
  match x with ToldReady _ _ t | Polled t | Finalized t => t end.

Record acme_world := AcmeWorld {
  w_files : files;
  w_tokens : ChallengeTokens;
  w_authority : A;
  w_calls : list call }.

Definition M (T : Type) : Type := acme_world → attempt T * acme_world.

Definition ret {T : Type} (v : T) : M T := λ w, (Done v, w).
Definition fail {T : Type} (e : acme_error) : M T := λ w, (Failed e, w).
Definition bind {T U : Type} (m : M T) (k : T → M U) : M U := λ w,
  match m w with
  | (Done v, w) => k v w
  | (Failed e, w) => (Failed e, w)
  | (StillPolling, w) => (StillPolling, w)
  end.
Notation "'do' x '<-' m ';;' k" := (bind m (λ x, k)) (at level 100, x pattern, m at level 99, k at level 200).
Notation "m ';;' k" := (bind m (λ _, k)) (at level 100, right associativity).

Definition or_fail {T : Type} (e : bytes → acme_error) (r : result T bytes) : M T :=
  match r with Ok v => ret v | Err x => fail (e x) end.

(** A call to the authority, [?] with its error. *)
Definition ask {T : Type} (e : bytes → acme_error) (f : A → result T bytes * A) : M T := λ w,
  let '(r, a) := f (w_authority w) in
  or_fail e r (AcmeWorld (w_files w) (w_tokens w) a (w_calls w)).

Definition note (x : ChallengeTokens → call) : M () := λ w,
  (Done (), AcmeWorld (w_files w) (w_tokens w) (w_authority w) (w_calls w ++ [x (w_tokens w)])).

(** A call during which the authority may ask for challenges. *)
Definition ask_seen {T : Type} (x : ChallengeTokens → call) (e : bytes → acme_error)
    (f : (bytes → option bytes) → A → result T bytes * A) : M T :=
  note x ;;
  λ w, ask e (f (λ path, handle_challenge_request path (w_tokens w))) w.

Definition set_tokens (t : ChallengeTokens → ChallengeTokens) : M () := λ w,
  (Done (), AcmeWorld (w_files w) (t (w_tokens w)) (w_authority w) (w_calls w)).

Definition write_file (e : bytes → acme_error) (p content : bytes) : M () := λ w,
  let put content := AcmeWorld (<[p := content]> (w_files w)) (w_tokens w) (w_authority w) (w_calls w) in
  match write_error p with
  | None => (Done (), put content)
  | Some o => (Failed (e (io_error o)), match io_left o with Some c => put c | None => w end)
  end.

Definition directory_url (c : AcmeConfig) : bytes :=
  if am_staging c then lit "https://acme-staging-v02.api.letsencrypt.org/directory"
  else lit "https://acme-v02.api.letsencrypt.org/directory".

(** The account: the one of the cache, or a new one that is saved there. *)
Definition load_account (c : AcmeConfig) : M account := λ w,
  match w_files w !! account_path c with
  | Some _ =>
      (do json <- or_fail ReadAccount (match read_error, read_text (w_files w) (account_path c) with
                                       | Some e, _ => Err e
                                       | None, Some text => Ok text
                                       | None, None => Err (lit "stream did not contain valid UTF-8")
                                       end) ;;
       do creds <- or_fail ParseAccount (parse_credentials json) ;;
       ask LoadAccount (from_credentials creds)) w
  | None =>
      let contact := match am_email c with Some e => [lit "mailto:" ++ e] | None => [] end in
      (do (acct, creds) <- ask CreateAccount (create_account contact (directory_url c)) ;;
       do json <- or_fail SerializeAccount (credentials_json creds) ;;
       write_file SaveAccount (account_path c) json ;;
       ret acct) w
  end.

(** One authorization: its token is stored, then the authority is told. *)
Definition authorize (o : order) (auth : authorization) : M () :=
  match au_status auth with
  | AuthValid => ret ()
  | AuthOther status => fail (UnexpectedStatus status)
  | AuthPending =>
      match list_find (λ c, ch_http01 c = true) (au_challenges auth) with
      | None => fail NoHttp01
      | Some (_, c) =>
          set_tokens <[ch_token c := key_authorization o c]> ;;
          ask_seen (ToldReady o c) SetReady (set_challenge_ready o (ch_url c))
      end
  end.

Fixpoint authorize_all (o : order) (auths : list authorization) : M () :=
  match auths with
  | [] => ret ()
  | auth :: auths => authorize o auth ;; authorize_all o auths
  end.

(** The wait for the challenges to be verified; [fuel] bounds the polls of the
    model, [tries] those of the code. *)
Fixpoint poll_ready (o : order) (fuel : nat) (tries : Z) : M () :=
  match fuel with
  | O => λ w, (StillPolling, w)
  | S fuel =>
      do status <- ask_seen Polled RefreshOrder (refresh o) ;;
      match status with
      | OrderReady | OrderValid => ret ()
      | OrderInvalid => fail ChallengeFailed
      | OrderPending | OrderProcessing =>
          if 30 <? tries + 1 then fail ChallengeTimeout else poll_ready o fuel (tries + 1)
      end
  end.

(** The wait for the certificate has no bound of its own. *)
Fixpoint poll_certificate (o : order) (fuel : nat) : M bytes :=
  match fuel with
  | O => λ w, (StillPolling, w)
  | S fuel =>
      do status <- ask_seen Polled RefreshOrder (refresh o) ;;
      match status with
      | OrderValid =>
          do cert <- ask DownloadCertificate (certificate o) ;;
          match cert with Some chain => ret chain | None => fail NoCertificate end
      | OrderInvalid => fail FinalizationFailed
      | OrderPending | OrderReady | OrderProcessing => poll_certificate o fuel
      end
  end.

(** Enough for [poll_ready]: see [poll_ready_ends]. *)
Definition READY_POLLS : nat := 31.

(** All that comes before the files are written, with [fuel] polls for the
    certificate: the key and the chain. *)
Definition obtain (c : AcmeConfig) (fuel : nat) : M (key_pair * bytes) :=
  match mkdir_error with Some e => fail (CacheDirError e) | None => ret () end ;;
  do acct <- load_account c ;;
  do o <- ask CreateOrder (new_order acct (am_domains c)) ;;
  do auths <- ask GetAuthorizations (authorizations o) ;;
  authorize_all o auths ;;
  poll_ready o READY_POLLS 0 ;;
  do params <- or_fail CertParams (params_new (am_domains c)) ;;
  do key <- ask GenerateKey generate_key ;;
  do csr <- or_fail GenerateCsr (signing_request params key) ;;
  ask_seen Finalized FinalizeOrder (finalize o csr) ;;
  do chain <- poll_certificate o fuel ;;
  ret (key, chain).

Definition save (c : AcmeConfig) (key : key_pair) (chain : bytes) : M AcmeCertificate :=
  write_file WriteCertificate (cert_path c) chain ;;
  write_file WriteKey (key_path c) (key_pem key) ;;
  set_tokens (λ _, ∅) ;;
  ret {| ac_cert := cert_path c; ac_key := key_path c |}.

Definition provision_certificate (c : AcmeConfig) (fuel : nat) : M AcmeCertificate :=
  do (key, chain) <- obtain c fuel ;; save c key chain.

(** At the start: the cached certificate, or a new one if port 80 can be had. *)
Definition boot_acme (pem_certs : bytes → list bytes) (port_error : option bytes) (c : AcmeConfig)
    (fuel : nat) : M (option AcmeCertificate) := λ w,
  match load_cached_certificate pem_certs c (w_files w) with
  | Some cert => (Done (Some cert), w)
  | None =>
      match port_error with
      | Some _ => (Done None, w)
      | None =>
          match provision_certificate c fuel w with
          | (Done cert, w) => (Done (Some cert), w)
          | (Failed _, w) => (Done None, w)
          | (StillPolling, w) => (StillPolling, w)
          end
      end
  end.
End Provision.

(** ** Renewal *)

Definition RENEWAL_INTERVAL : Z := 12 * 3600.

(** The times at which a renewal is attempted in the first [checks] rounds of the
    task; [meta] is what is seen of the certificate, [takes] how long an attempt
    lasts. *)
Fixpoint renewal_task (meta : Z → metadata) (takes : Z → Z) (checks : nat) (now : Z) : list Z :=
  match checks with
  | O => []
  | S checks =>
      let now := now + RENEWAL_INTERVAL in
      if needs_renewal (meta now) now then now :: renewal_task meta takes checks (now + takes now)
      else renewal_task meta takes checks now
  end.

(** ** Paths *)

Lemma path_join_inj d p q : ¬ starts_with [x2f] p → ¬ starts_with [x2f] q →
  path_join d p = path_join d q → p = q.
Proof.
  intros Hp Hq. unfold path_join. rewrite (Is_true_false_1 _ Hp), (Is_true_false_1 _ Hq).
  case_decide; [done|]. destruct (ends_with _ _); intros E; simplify_list_eq; congruence.
Qed.

Lemma cache_paths_differ c :
  cert_path c ≠ key_path c ∧ cert_path c ≠ account_path c ∧ key_path c ≠ account_path c.
Proof. split_and!; intros E; apply path_join_inj in E; vm_compute in *; tauto || discriminate. Qed.

(** ** Steps *)

Section Steps.
Context {A : Type} `{Auth : !Authority A}.
Implicit Types w : acme_world (A := A).

Lemma bind_done {T U} (m : M (A := A) T) (k : T → M U) w v w' : bind m k w = (Done v, w') →
  ∃ x w1, m w = (Done x, w1) ∧ k x w1 = (Done v, w').
Proof. unfold bind. destruct (m w) as [[] w1]; [eauto|done..]. Qed.

Lemma or_fail_done {T} e (r : result T bytes) w v w' : or_fail e r w = (Done v, w') → r = Ok v ∧ w' = w.
Proof. unfold or_fail, ret, fail. destruct r; naive_solver. Qed.

Lemma ask_done {T} e (f : A → result T bytes * A) w v w' : ask e f w = (Done v, w') →
  f (w_authority w) = (Ok v, w_authority w') ∧
  w' = AcmeWorld (w_files w) (w_tokens w) (w_authority w') (w_calls w).
Proof.
  unfold ask. destruct (f (w_authority w)) as [r a]. intros [-> ->]%or_fail_done. done.
Qed.

(** What every step keeps. *)
Definition keeps {T} (I : acme_world → Prop) (m : M (A := A) T) : Prop := ∀ w, I w → I (m w).2.

Lemma keeps_bind {T U} I (m : M T) (k : T → M U) :
  keeps I m → (∀ x, keeps I (k x)) → keeps I (bind m k).
Proof.
  intros Hm Hk w Hw. specialize (Hm w Hw). unfold bind. destruct (m w) as [[] w1]; [by apply Hk|done..].
Qed.

Lemma keeps_ret {T} I (v : T) : keeps I (ret v).
Proof. by intros w. Qed.

Lemma keeps_fail {T} I e : keeps I (fail (T := T) e).
Proof. by intros w. Qed.

Lemma keeps_still {T} I : keeps I (λ w, (StillPolling (T := T), w)).
Proof. by intros w. Qed.

Lemma keeps_or_fail {T} I e (r : result T bytes) : keeps I (or_fail e r).
Proof. destruct r; [apply keeps_ret|apply keeps_fail]. Qed.

(** An invariant does not speak of the authority. *)
Definition blind (I : acme_world (A := A) → Prop) : Prop :=
  ∀ fs ts a a' cs, I (AcmeWorld fs ts a cs) → I (AcmeWorld fs ts a' cs).

Lemma keeps_ask {T} I e (f : A → result T bytes * A) : blind I → keeps I (ask e f).
Proof.
  intros Hb [fs ts a cs] Hw. unfold ask. simpl. destruct (f a) as [r a'].
  apply keeps_or_fail. by eapply Hb.
Qed.

Lemma keeps_ask_seen {T} I x e (f : _ → A → result T bytes * A) :
  blind I → keeps I (note x) → keeps I (ask_seen x e f).
Proof. intros Hb Hn. apply keeps_bind; [done|]. intros _ w. by apply keeps_ask. Qed.

Lemma keeps_poll_ready I o fuel tries : (∀ e, keeps I (ask_seen Polled e (refresh o))) →
  keeps I (poll_ready o fuel tries).
Proof.
  intros Hp. revert tries. induction fuel as [|fuel IH]; intros tries; simpl; [apply keeps_still|].
  apply keeps_bind; [done|]. assert (keeps I (if 30 <? tries + 1 then fail ChallengeTimeout
    else poll_ready o fuel (tries + 1))) by (destruct (_ <? _); [apply keeps_fail|apply IH]).
  intros []; [done|apply keeps_ret|done|apply keeps_ret|apply keeps_fail].
Qed.

Lemma keeps_poll_certificate I o fuel : blind I → (∀ e, keeps I (ask_seen Polled e (refresh o))) →
  keeps I (poll_certificate o fuel).
Proof.
  intros Hb Hp. induction fuel as [|fuel IH]; simpl; [apply keeps_still|].
  apply keeps_bind; [done|]. intros []; [done..| |apply keeps_fail].
  apply keeps_bind; [by apply keeps_ask|]. intros []; [apply keeps_ret|apply keeps_fail].
Qed.

Lemma keeps_authorize_all I o auths :
  (∀ c, keeps I (bind (set_tokens <[ch_token c := key_authorization o c]>)
          (λ _, ask_seen (ToldReady o c) SetReady (set_challenge_ready o (ch_url c))))) →
  keeps I (authorize_all o auths).
Proof.
  intros Ht. induction auths as [|auth auths IH]; simpl; [apply keeps_ret|]. apply keeps_bind; [|done].
  unfold authorize. destruct (au_status auth); [|apply keeps_ret|apply keeps_fail].
  destruct (list_find _ _) as [[]|]; [apply Ht|apply keeps_fail].
Qed.

(** The account is the only file before the certificate. *)
Lemma keeps_load_account I read_error write_error c : blind I →
  (∀ content, keeps I (write_file write_error SaveAccount (account_path c) content)) →
  keeps I (load_account read_error write_error c).
Proof.
  intros Hb Hw w HI. unfold load_account. destruct (w_files w !! account_path c).
  - apply (keeps_bind I); [apply keeps_or_fail| |done]. intros json.
    apply keeps_bind; [apply keeps_or_fail|]. intros. by apply keeps_ask.
  - apply (keeps_bind I); [by apply keeps_ask| |done].
    intros [acct creds]. apply keeps_bind; [apply keeps_or_fail|intros].
    apply keeps_bind; [apply Hw|intros; apply keeps_ret].
Qed.
End Steps.

(** ** Challenges are answered *)

Section Answered.
Context {A : Type} `{Auth : !Authority A}.
Context (mkdir_error read_error : option bytes) (write_error : bytes → option io_outcome).
Implicit Types w : acme_world (A := A).

(** What the authority was told of is in what it could see from then on. *)
Definition shown w : Prop := ∀ i j o c t x, (i ≤ j)%nat →
  w_calls w !! i = Some (ToldReady o c t) → w_calls w !! j = Some x →
  call_tokens x !! ch_token c = Some (key_authorization o c).

Definition answered (o : order) w : Prop :=
  shown w ∧ ∀ o' c t, ToldReady o' c t ∈ w_calls w →
    o' = o ∧ w_tokens w !! ch_token c = Some (key_authorization o c).

Lemma answered_blind o : blind (answered o).
Proof. intros fs ts a a' cs H. exact H. Qed.

Lemma silent_blind : blind (λ w, w_calls w = []).
Proof. by intros fs ts a a' cs. Qed.

(** One more call, about a challenge that is answered if it is one. *)
Lemma answered_note o x : (∀ t, call_tokens (x t) = t) →
  ∀ w, (∀ o' c t, x (w_tokens w) = ToldReady o' c t →
         o' = o ∧ w_tokens w !! ch_token c = Some (key_authorization o c)) →
  answered o w → answered o (note x w).2.
Proof.
  intros Hx w Hnew [Hs Ht]. simpl. split; simpl.
  - intros i j o' c t y Hij Hi Hj.
    assert (y = x (w_tokens w) ∨ w_calls w !! j = Some y) as [->|Hj'].
    { apply lookup_app_Some in Hj as [?|[_ Hj]]; [auto|]. apply list_lookup_singleton_Some in Hj. naive_solver. }
    + rewrite Hx. apply lookup_app_Some in Hi as [Hi|[_ Hi]].
      * destruct (Ht o' c t) as [-> ?]; [by eapply list_elem_of_lookup_2|done].
      * apply list_lookup_singleton_Some in Hi as [_ Hi]. by destruct (Hnew _ _ _ Hi) as [-> ?].
    + apply lookup_lt_Some in Hj' as Hlt. simpl in Hi. rewrite lookup_app_l in Hi by lia. exact (Hs i j o' c t y Hij Hi Hj').
  - intros o' c t [Hin|Hin]%elem_of_app; [eauto|]. apply list_elem_of_singleton in Hin. eauto.
Qed.

Lemma answered_note_quiet o x : (∀ t, call_tokens (x t) = t) → (∀ t o' c t', x t ≠ ToldReady o' c t') →
  keeps (answered o) (note x).
Proof. intros Hx Hq w. apply answered_note; [done|]. intros o' c t E. by destruct (Hq _ _ _ _ E). Qed.

Lemma answered_tell o c : keeps (answered o)
  (bind (set_tokens <[ch_token c := key_authorization o c]>)
        (λ _, ask_seen (ToldReady o c) SetReady (set_challenge_ready o (ch_url c)))).
Proof.
  intros w [Hs Ht]. unfold bind at 1. simpl. set (w1 := AcmeWorld _ _ _ _).
  assert (answered o w1) as H1.
  { split; [done|]. intros o' c' t Hin. destruct (Ht _ _ _ Hin) as [-> Hl]. split; [done|]. simpl.
    destruct (decide (ch_token c = ch_token c')) as [E|].
    - rewrite E, lookup_insert_eq. by rewrite (key_authorization_token o _ _ E).
    - by rewrite lookup_insert_ne. }
  unfold ask_seen, bind. simpl. apply keeps_ask; [apply answered_blind|].
  apply (answered_note o (ToldReady o c) (λ _, eq_refl) w1); [|done].
  intros o' c' t [= <- <- _]. split; [done|]. apply lookup_insert_eq.
Qed.

Lemma answered_polled {T} o e (f : _ → A → result T bytes * A) : keeps (answered o) (ask_seen Polled e f).
Proof. apply keeps_ask_seen; [apply answered_blind|by apply answered_note_quiet]. Qed.

Lemma answered_finalized {T} o e (f : _ → A → result T bytes * A) :
  keeps (answered o) (ask_seen Finalized e f).
Proof. apply keeps_ask_seen; [apply answered_blind|by apply answered_note_quiet]. Qed.

(** From a world of [P] to one of [Q], with the steps of [m] kept in [P] before. *)
Lemma leads_bind {T U} (P Q : acme_world → Prop) (m : M T) (k : T → M U) w :
  P w → keeps P m → (∀ w, P w → Q w) → (∀ x w, P w → Q (k x w).2) → Q (bind m k w).2.
Proof.
  intros Hw Hm HPQ Hk. specialize (Hm w Hw). unfold bind. destruct (m w) as [[] w1]; simpl in *; auto.
Qed.

Lemma silent_load_account c : keeps (λ w, w_calls w = []) (load_account read_error write_error c).
Proof.
  apply keeps_load_account; [apply silent_blind|]. intros content w Hw. unfold write_file.
  destruct (write_error _) as [[? []]|]; exact Hw.
Qed.

Lemma shown_silent w : w_calls w = [] → shown w.
Proof. intros E i j o c t x _ Hi. by rewrite E in Hi. Qed.

Lemma obtain_shown c fuel w : w_calls w = [] → shown (obtain mkdir_error read_error write_error c fuel w).2.
Proof.
  intros Hw. unfold obtain.
  apply (leads_bind (λ w, w_calls w = [])); 
    [done|destruct mkdir_error; [apply keeps_fail|apply keeps_ret]|apply shown_silent|].
  intros _ w1 H1. apply (leads_bind (λ w, w_calls w = [])); [done|apply silent_load_account|apply shown_silent|].
  intros acct w2 H2. apply (leads_bind (λ w, w_calls w = []));
    [done|apply keeps_ask, silent_blind|apply shown_silent|].
  intros o w3 H3. apply (leads_bind (λ w, w_calls w = []));
    [done|apply keeps_ask, silent_blind|apply shown_silent|].
  intros auths w4 H4. refine (proj1 (_ : answered o _)).
  assert (answered o w4) as Ha.
  { split; [by apply shown_silent|]. intros o' ch t Hin. rewrite H4 in Hin. by apply not_elem_of_nil in Hin. }
  revert w4 H4 Ha. intros w4 _. revert w4.
  pose proof (answered_blind o) as Hb.
  apply keeps_bind; [apply keeps_authorize_all, answered_tell|intros _].
  apply keeps_bind; [apply keeps_poll_ready; intros; apply answered_polled|intros _].
  apply keeps_bind; [apply keeps_or_fail|intros params].
  apply keeps_bind; [by apply keeps_ask|intros key].
  apply keeps_bind; [apply keeps_or_fail|intros csr].
  apply keeps_bind; [apply answered_finalized|intros _].
  apply keeps_bind; [apply keeps_poll_certificate; [done|intros; apply answered_polled]|intros chain]. apply keeps_ret.
Qed.

Lemma write_file_calls e p content w : w_calls (write_file write_error e p content w).2 = w_calls w.
Proof. unfold write_file. by destruct (write_error p) as [[? []]|]. Qed.

Lemma save_calls c key chain w : w_calls (save write_error c key chain w).2 = w_calls w.
Proof.
  unfold save, bind. pose proof (write_file_calls WriteCertificate (cert_path c) chain w) as H1.
  destruct (write_file _ _ _ _ w) as [[] w1]; simpl in *; try done.
  pose proof (write_file_calls WriteKey (key_path c) (key_pem key) w1) as H2.
  destruct (write_file _ _ _ _ w1) as [[] w2]; simpl in *; congruence.
Qed.

(** C31: whenever the authority is told that a challenge is ready, and at every later
    call of the attempt during which it may come and look, the server answers the
    request for that challenge with its key authorization, however the attempt
    ends. *)
Theorem challenges_answered (c : AcmeConfig) (fuel : nat) w (i j : nat) (o : order) (ch : challenge)
    (t : ChallengeTokens) (x : call) :
  let w' := (provision_certificate mkdir_error read_error write_error c fuel w).2 in
  w_calls w = [] → (i ≤ j)%nat →
  w_calls w' !! i = Some (ToldReady o ch t) → w_calls w' !! j = Some x →
  ch_token ch ≠ [] → contains [x2f] (ch_token ch) = false →
  handle_challenge_request (ACME_PREFIX ++ ch_token ch) (call_tokens x) = Some (key_authorization o ch).
Proof.
  intros w' Hw Hij Hi Hj Hne Hs.
  assert (shown w') as H'.
  { pose proof (obtain_shown c fuel w Hw) as Ho. unfold w', provision_certificate, bind.
    destruct (obtain _ _ _ c fuel w) as [[[key chain]| |] w1]; [|done..]. simpl in *.
    unfold shown. by rewrite save_calls. }
  unfold handle_challenge_request. rewrite strip_prefix_app. simpl.
  rewrite bool_decide_false, Hs by done. simpl. exact (H' i j o ch t x Hij Hi Hj).
Qed.
End Answered.

(** ** What an attempt leaves *)

Section Saved.
Context {A : Type} `{Auth : !Authority A}.
Context (pem_certs : bytes → list bytes).
Context (mkdir_error read_error : option bytes) (write_error : bytes → option io_outcome).
Implicit Types w : acme_world (A := A).

Lemma write_file_done e p content w v w' : write_file write_error e p content w = (Done v, w') →
  w' = AcmeWorld (<[p := content]> (w_files w)) (w_tokens w) (w_authority w) (w_calls w).
Proof. unfold write_file. destruct (write_error p); naive_solver. Qed.

Lemma poll_certificate_done o fuel w chain w' : poll_certificate o fuel w = (Done chain, w') →
  ∃ a a', certificate o a = (Ok (Some chain), a').
Proof.
  revert w. induction fuel as [|fuel IH]; intros w; simpl; [done|].
  intros (status & w1 & _ & H)%bind_done. destruct status; try done; eauto.
  apply bind_done in H as (cert & w2 & [Hc _]%ask_done & H).
  destruct cert as [chain'|]; [|done]. injection H as -> ->. eauto.
Qed.

(** The chain is the authority's for an order of the configured domains, the key the
    one that signed the request for them. *)
Definition issued (c : AcmeConfig) (key : key_pair) (chain : bytes) : Prop :=
  ∃ acct o params csr, (∃ a a', new_order acct (am_domains c) a = (Ok o, a')) ∧
    params_new (am_domains c) = Ok params ∧ signing_request params key = Ok csr ∧
    (∃ f a a', finalize o csr f a = (Ok (), a')) ∧ (∃ a a', certificate o a = (Ok (Some chain), a')).

Lemma obtain_issued c fuel w key chain w' :
  obtain mkdir_error read_error write_error c fuel w = (Done (key, chain), w') → issued c key chain.
Proof.
  unfold obtain. intros (? & w0 & _ & H)%bind_done.
  apply bind_done in H as (acct & w1 & _ & H). apply bind_done in H as (o & w2 & [Ho _]%ask_done & H).
  apply bind_done in H as (auths & w3 & _ & H). apply bind_done in H as (? & w4 & _ & H).
  apply bind_done in H as (? & w5 & _ & H). apply bind_done in H as (params & w6 & [Hp _]%or_fail_done & H).
  apply bind_done in H as (k & w7 & _ & H). apply bind_done in H as (csr & w8 & [Hcsr _]%or_fail_done & H).
  apply bind_done in H as (u & w9 & Hf & H).
  apply bind_done in H as (ch & w10 & (a & a' & Hc)%poll_certificate_done & H).
  injection H as -> -> _. apply bind_done in Hf as (? & w11 & _ & [Hf _]%ask_done). destruct u.
  exists acct, o, params, csr. split_and!; eauto.
Qed.

Lemma save_done c key chain w cert w' : save write_error c key chain w = (Done cert, w') →
  cert = {| ac_cert := cert_path c; ac_key := key_path c |} ∧ w_tokens w' = ∅ ∧
  w_files w' = <[key_path c := key_pem key]> (<[cert_path c := chain]> (w_files w)).
Proof.
  unfold save. intros (? & w1 & ->%write_file_done & H)%bind_done.
  apply bind_done in H as (? & w2 & ->%write_file_done & H).
  apply bind_done in H as (? & w3 & H3 & H). injection H3 as <- <-. by injection H as <- <-.
Qed.

Lemma load_cached_written c fs chain key : fs !! cert_path c = Some chain → fs !! key_path c = Some key →
  utf8_valid chain → is_cert_valid pem_certs chain →
  load_cached_certificate pem_certs c fs = Some {| ac_cert := cert_path c; ac_key := key_path c |}.
Proof.
  intros Hc Hk Hu Hv. unfold load_cached_certificate, read_text. rewrite Hc, Hk. simpl.
  by rewrite (Is_true_true_1 _ Hu), (Is_true_true_1 _ Hv).
Qed.

(** An attempt that succeeds leaves in the cache a chain that the authority issued
    for the configured domains and the key that asked for it, no challenge is
    answered any more, and the next start finds exactly this certificate without
    asking the authority for anything. *)
Theorem provisioned_is_cached (c : AcmeConfig) (fuel : nat) w (cert : AcmeCertificate) w' :
  provision_certificate mkdir_error read_error write_error c fuel w = (Done cert, w') →
  ∃ key chain, issued c key chain ∧
    w_files w' !! ac_cert cert = Some chain ∧ w_files w' !! ac_key cert = Some (key_pem key) ∧
    (∀ path, handle_challenge_request path (w_tokens w') = None) ∧
    (utf8_valid chain → is_cert_valid pem_certs chain → ∀ port_error fuel',
     boot_acme mkdir_error read_error write_error pem_certs port_error c fuel' w' = (Done (Some cert), w')).
Proof.
  intros ([key chain] & w1 & Ho%obtain_issued & (-> & Ht & Hf)%save_done)%bind_done.
  destruct (cache_paths_differ c) as (Hne & _ & _). simpl.
  assert (w_files w' !! cert_path c = Some chain) as Hc
    by (rewrite Hf, lookup_insert_ne by done; apply lookup_insert_eq).
  assert (w_files w' !! key_path c = Some (key_pem key)) as Hk by (rewrite Hf; apply lookup_insert_eq).
  exists key, chain. split_and!; [done..| |].
  - intros path. unfold handle_challenge_request. rewrite Ht. destruct (strip_prefix _ path); [|done].
    simpl. by destruct (_ || _).
  - intros Hu Hv port_error fuel'. unfold boot_acme. by erewrite load_cached_written.
Qed.

Definition key_is (c : AcmeConfig) (x : option bytes) w : Prop := w_files w !! key_path c = x.

(** Nothing but the account is written before the certificate is there. *)
Lemma obtain_key_file c fuel x : keeps (key_is c x) (obtain mkdir_error read_error write_error c fuel).
Proof.
  assert (blind (A := A) (key_is c x)) as Hb by (by intros fs ts a a' cs).
  assert (∀ T (y : ChallengeTokens → call) e (f : _ → A → result T bytes * A),
    keeps (key_is c x) (ask_seen y e f)) as Hs
    by (intros; apply keeps_ask_seen; [done|by intros w]).
  unfold obtain. apply keeps_bind; [destruct mkdir_error; [apply keeps_fail|apply keeps_ret]|intros _].
  apply keeps_bind; [|intros acct].
  { apply keeps_load_account; [done|]. destruct (cache_paths_differ c) as (_ & _ & Hne).
    intros content w1 H1. unfold write_file, key_is.
    destruct (write_error _) as [[? []]|]; simpl; rewrite ?lookup_insert_ne by done; exact H1. }
  apply keeps_bind; [by apply keeps_ask|intros o]. apply keeps_bind; [by apply keeps_ask|intros auths].
  apply keeps_bind; [|intros _].
  { apply keeps_authorize_all. intros ch. apply keeps_bind; [by intros w|done]. }
  apply keeps_bind; [by apply keeps_poll_ready|intros _].
  apply keeps_bind; [apply keeps_or_fail|intros params]. apply keeps_bind; [by apply keeps_ask|intros key].
  apply keeps_bind; [apply keeps_or_fail|intros csr]. apply keeps_bind; [done|intros _].
  apply keeps_bind; [by apply keeps_poll_certificate|intros; apply keeps_ret].
Qed.

(** A key that cannot be written leaves the new chain beside the old key: the
    attempt fails, and the next start takes the two for the cached certificate. *)
Theorem failed_key_keeps_old (c : AcmeConfig) (fuel : nat) w (key : key_pair) (chain old : bytes) w1
    (e : bytes) :
  obtain mkdir_error read_error write_error c fuel w = (Done (key, chain), w1) →
  w_files w !! key_path c = Some old →
  write_error (cert_path c) = None →
  write_error (key_path c) = Some {| io_error := e; io_left := None |} →
  utf8_valid chain → is_cert_valid pem_certs chain →
  ∃ w', provision_certificate mkdir_error read_error write_error c fuel w = (Failed (WriteKey e), w') ∧
    w_files w' !! cert_path c = Some chain ∧ w_files w' !! key_path c = Some old ∧
    load_cached_certificate pem_certs c (w_files w') =
      Some {| ac_cert := cert_path c; ac_key := key_path c |}.
Proof.
  intros Ho Hold Hc Hk Hu Hv. destruct (cache_paths_differ c) as (Hne & _ & _).
  pose proof (obtain_key_file c fuel (Some old) w Hold) as Hold1. rewrite Ho in Hold1.
  unfold provision_certificate, bind. rewrite Ho. unfold save, bind, write_file. rewrite Hc, Hk. simpl.
  set (w' := AcmeWorld _ _ _ _). exists w'.
  assert (w_files w' !! cert_path c = Some chain) by apply lookup_insert_eq.
  assert (w_files w' !! key_path c = Some old)
    by (unfold w'; simpl; by rewrite lookup_insert_ne).
  split_and!; [done..|]. by eapply load_cached_written.
Qed.

(** Once there is an account, [staging] has no effect: the attempt goes to the
    authority of the account. *)
Theorem staging_ignored (c c' : AcmeConfig) (fuel : nat) w :
  am_domains c = am_domains c' → am_cache_dir c = am_cache_dir c' →
  is_Some (w_files w !! account_path c) →
  provision_certificate mkdir_error read_error write_error c fuel w =
  provision_certificate mkdir_error read_error write_error c' fuel w.
Proof.
  intros Hd Hdir [json Hj]. destruct c as [e ds m dir s], c' as [e' ds' m' dir' s']. simpl in *. subst.
  assert (load_account read_error write_error (Build_AcmeConfig e ds' m dir' s) w =
          load_account read_error write_error (Build_AcmeConfig e' ds' m' dir' s') w) as El.
  { unfold load_account. change (account_path (Build_AcmeConfig e' ds' m' dir' s'))
      with (account_path (Build_AcmeConfig e ds' m dir' s)). by rewrite Hj. }
  unfold provision_certificate, obtain, bind at 1 5. destruct mkdir_error; [done|]. unfold ret at 1 3.
  unfold bind at 1 2 11 12. by rewrite El.
Qed.
End Saved.

(** ** How long an attempt lasts *)

Section Polls.
Context {A : Type} `{Auth : !Authority A}.
Context (mkdir_error read_error : option bytes) (write_error : bytes → option io_outcome).
Implicit Types w : acme_world (A := A).

Definition returns {T} (m : M (A := A) T) : Prop := ∀ w, (m w).1 ≠ StillPolling.

Lemma returns_bind {T U} (m : M T) (k : T → M U) : returns m → (∀ x, returns (k x)) → returns (bind m k).
Proof.
  intros Hm Hk w. specialize (Hm w). unfold bind. destruct (m w) as [[] w1]; [apply Hk|done..].
Qed.

Lemma returns_or_fail {T} e (r : result T bytes) : returns (or_fail e r).
Proof. by destruct r; intros w. Qed.

Lemma returns_ask {T} e (f : A → result T bytes * A) : returns (ask e f).
Proof. intros w. unfold ask. destruct (f _) as [r a]. apply returns_or_fail. Qed.

Lemma returns_ask_seen {T} x e (f : _ → A → result T bytes * A) : returns (ask_seen x e f).
Proof. apply returns_bind; [by intros w|]. intros _ w. apply returns_ask. Qed.

(** The wait for the challenges asks 31 times at most. *)
Theorem poll_ready_ends (o : order) w :
  (poll_ready o READY_POLLS 0 w).1 ≠ StillPolling ∧
  (length (w_calls (poll_ready o READY_POLLS 0 w).2) ≤ length (w_calls w) + READY_POLLS)%nat.
Proof.
  assert (∀ fuel tries, (0 ≤ tries ≤ 30 ∧ 31 - tries ≤ Z.of_nat fuel) →
    returns (poll_ready (Auth := Auth) o fuel tries) ∧
    ∀ w, (length (w_calls (poll_ready o fuel tries w).2) ≤ length (w_calls w) + fuel)%nat) as Hp.
  { induction fuel as [|fuel IH]; intros tries Ht; [lia|]. simpl. split.
    - apply returns_bind; [apply returns_ask_seen|].
      assert (returns (if 30 <? tries + 1 then fail ChallengeTimeout else poll_ready o fuel (tries + 1)))
        by (destruct (Z.ltb_spec 30 (tries + 1)); [by intros w0|apply IH; lia]).
      by intros [].
    - intros w0. unfold bind, ask_seen, bind, note, ask. simpl.
      destruct (refresh _ _ _) as [r a]. set (w1 := AcmeWorld _ _ a _).
      assert (length (w_calls w1) = S (length (w_calls w0))) as H1
        by (simpl; rewrite length_app; simpl; lia).
      assert (length (w_calls ((if (30 <? tries + 1)%Z then fail ChallengeTimeout
        else poll_ready o fuel (tries + 1)%Z) w1).2) ≤ length (w_calls w0) + S fuel)%nat.
      { destruct (Z.ltb_spec 30 (tries + 1)); simpl; [rewrite length_app; simpl; lia|].
        destruct (IH (tries + 1)) as [_ H2]; [lia|]. specialize (H2 w1). lia. }
      destruct r as [[]|]; simpl; rewrite ?length_app; simpl; lia || done. }
  destruct (Hp READY_POLLS 0) as [H1 H2]; [unfold READY_POLLS; lia|]. auto.
Qed.

(** An order that waits for the certificate. *)
Definition waiting (s : OrderStatus) : bool :=
  match s with OrderPending | OrderReady | OrderProcessing => true | OrderValid | OrderInvalid => false end.

Lemma poll_certificate_step o fuel w : poll_certificate o (S fuel) w =
  let '(r, a) := refresh o (λ path, handle_challenge_request path (w_tokens w)) (w_authority w) in
  let w1 := AcmeWorld (w_files w) (w_tokens w) a (w_calls w ++ [Polled (w_tokens w)]) in
  match r with
  | Err e => (Failed (RefreshOrder e), w1)
  | Ok OrderValid => bind (ask DownloadCertificate (certificate o))
      (λ cert, match cert with Some chain => ret chain | None => fail NoCertificate end) w1
  | Ok OrderInvalid => (Failed FinalizationFailed, w1)
  | Ok _ => poll_certificate o fuel w1
  end.
Proof. simpl. unfold bind at 1, ask_seen, bind at 1, note, ask at 1. simpl.
  by destruct (refresh _ _ _) as [[[]|] a]. Qed.

(** With an authority that does not keep an order waiting for ever the wait for the
    certificate ends: [left] bounds the answers that are still to come. *)
Theorem poll_certificate_ends (left : A → nat) (o : order) w :
  (∀ f a s a', refresh o f a = (Ok s, a') → waiting s → (left a' < left a)%nat) →
  (poll_certificate o (S (left (w_authority w))) w).1 ≠ StillPolling.
Proof.
  intros Hl. enough (∀ fuel w, (left (w_authority w) < fuel)%nat →
    (poll_certificate o fuel w).1 ≠ StillPolling) as H by (apply H; lia).
  clear w. induction fuel as [|fuel IH]; intros w Hw; [lia|]. rewrite poll_certificate_step.
  destruct (refresh _ _ _) as [[s|] a] eqn:E; [|done].
  assert (waiting s → (poll_certificate o fuel (AcmeWorld (w_files w) (w_tokens w) a
    (w_calls w ++ [Polled (w_tokens w)]))).1 ≠ StillPolling) as Hr
    by (intros Hs; apply IH; simpl; specialize (Hl _ _ _ _ E Hs); lia).
  destruct s; try (by apply Hr); [|done]. simpl.
  by apply returns_bind; [apply returns_ask|intros []; intros ?].
Qed.

(** With one that does, it does not end, and neither does the start of the server. *)
Theorem provision_hangs (stuck : A → Prop) (o : order) (fuel : nat) w :
  (∀ f a, stuck a → ∃ s a', refresh o f a = (Ok s, a') ∧ waiting s ∧ stuck a') →
  stuck (w_authority w) → (poll_certificate o fuel w).1 = StillPolling.
Proof.
  intros Hs. revert w. induction fuel as [|fuel IH]; intros w Hw; [done|].
  rewrite poll_certificate_step. destruct (Hs (λ path, handle_challenge_request path (w_tokens w)) _ Hw)
    as (s & a & -> & Hwait & Ha).
  destruct s; try done; by apply IH.
Qed.
End Polls.

(** ** Renewal *)

(** A server that runs attempts the renewal in time: when the certificate file is
    60 days old, or at the start if it is older, it takes 12 hours at most. *)
Theorem renewal_in_time (takes : Z → Z) (mtime start : Z) (checks : nat) :
  mtime ≤ start → (0 < checks)%nat → mtime + RENEWAL_AGE < start + RENEWAL_INTERVAL * Z.of_nat checks →
  ∃ t, head (renewal_task (λ _, Written mtime) takes checks start) = Some t ∧
    mtime + RENEWAL_AGE < t ≤ Z.max start (mtime + RENEWAL_AGE) + RENEWAL_INTERVAL ∧
    start + RENEWAL_INTERVAL ≤ t.
Proof.
  revert start. induction checks as [|checks IH]; intros start Hs Hn Hc; [lia|simpl].
  destruct (Z.ltb_spec RENEWAL_AGE (Z.max 0 (start + RENEWAL_INTERVAL - mtime))) as [Hd|Hd].
  - eexists. split; [done|]. unfold RENEWAL_AGE, RENEWAL_INTERVAL in *. lia.
  - assert (0 < RENEWAL_INTERVAL) by done.
    destruct (IH (start + RENEWAL_INTERVAL)) as (t & -> & Ht); [lia| |lia|].
    + destruct checks; [exfalso; unfold RENEWAL_AGE, RENEWAL_INTERVAL in *; lia|lia].
    + exists t. split; [done|]. lia.
Qed.

(** A server that is restarted every 12 hours never renews its certificate, and it
    starts with the cached one however old it is. *)
Theorem restarts_never_renew {A : Type} `{!Authority A} (pem_certs : bytes → list bytes)
    (mkdir_error read_error port_error : option bytes) (write_error : bytes → option io_outcome)
    (c : AcmeConfig) (fuel : nat) (w : acme_world (A := A)) (cert : AcmeCertificate)
    (meta : Z → metadata) (takes : Z → Z) (start uptime : Z) :
  load_cached_certificate pem_certs c (w_files w) = Some cert → 0 ≤ uptime < RENEWAL_INTERVAL →
  boot_acme mkdir_error read_error write_error pem_certs port_error c fuel w = (Done (Some cert), w) ∧
  renewal_task meta takes (Z.to_nat (uptime / RENEWAL_INTERVAL)) start = [].
Proof.
  intros Hl Hu. split; [unfold boot_acme; by rewrite Hl|]. by rewrite Z.div_small.
Qed.

(** ** An authority *)

(** An authority that verifies a challenge when it is told that it is ready, by asking
    for it, and issues the certificate some polls after the order was finalized.
    [auths] are what it asks for. *)
Record honest := { hn_verified : list bytes; hn_final : bool; hn_wait : nat }.

Definition hn_key_authorization (acct token : bytes) : bytes := token ++ lit "." ++ acct.

Definition hn_verify (auths : list authorization) (acct url : bytes) (fetch : bytes → option bytes)
    (a : honest) : honest :=
  match list_find (λ c, ch_url c = url) (mjoin (au_challenges <$> auths)) with
  | Some (_, c) =>
      if decide (fetch (ACME_PREFIX ++ ch_token c) = Some (hn_key_authorization acct (ch_token c)))
      then {| hn_verified := url :: hn_verified a; hn_final := hn_final a; hn_wait := hn_wait a |}
      else a
  | None => a
  end.

Definition hn_status (auths : list authorization) (a : honest) : OrderStatus * honest :=
  if hn_final a then
    match hn_wait a with
    | O => (OrderValid, a)
    | S n => (OrderProcessing,
              {| hn_verified := hn_verified a; hn_final := true; hn_wait := n |})
    end
  else if forallb (λ au, existsb (λ c, bool_decide (ch_url c ∈ hn_verified a)) (au_challenges au)) auths
  then (OrderReady, a) else (OrderPending, a).

#[local] Instance honest_authority (auths : list authorization) : Authority honest := {|
  credentials := bytes; account := bytes; order := bytes; key_pair := bytes; cert_params := list bytes;
  parse_credentials := Ok; credentials_json := Ok;
  from_credentials creds a := (Ok creds, a);
  create_account contact url a := (Ok (url, url), a);
  new_order acct domains a := (Ok acct, a);
  authorizations o a := (Ok auths, a);
  key_authorization o c := hn_key_authorization o (ch_token c);
  set_challenge_ready o url fetch a := (Ok (), hn_verify auths o url fetch a);
  refresh o fetch a := let '(s, a) := hn_status auths a in (Ok s, a);
  params_new domains := Ok domains;
  generate_key a := (Ok (lit "key"), a);
  signing_request params key := Ok (key ++ mjoin params);
  key_pem key := key;
  finalize o csr fetch a :=
    (Ok (), {| hn_verified := hn_verified a; hn_final := true; hn_wait := hn_wait a |});
  certificate o a := (Ok (Some (lit "-----BEGIN CERTIFICATE-----")), a);
  key_authorization_token o c c' E := f_equal (hn_key_authorization o) E |}.

Definition ex_acme : AcmeConfig := {| am_enabled := true; am_domains := [lit "a.test"; lit "b.test"];
  am_email := None; am_cache_dir := lit "/var/acme"; am_staging := false |}.

Definition ex_auth (name : string) : authorization := {| au_status := AuthPending;
  au_challenges := [{| ch_http01 := false; ch_url := lit "dns"; ch_token := lit "d" |};
                    {| ch_http01 := true; ch_url := lit name; ch_token := lit "t" ++ lit name |}] |}.

Definition ex_auths : list authorization := [ex_auth "a"; ex_auth "b"].

Definition ex_start (key : option bytes) (wait : nat) : acme_world (Auth := honest_authority ex_auths) :=
  AcmeWorld (match key with Some k => {[key_path ex_acme := k]} | None => ∅ end) ∅
    {| hn_verified := []; hn_final := false; hn_wait := wait |} [].

Definition ex_provision (fail_key : bool) (fuel : nat) :=
  provision_certificate (Auth := honest_authority ex_auths) None None
    (λ p, if fail_key && bool_decide (p = key_path ex_acme)
          then Some {| io_error := lit "no space"; io_left := None |} else None) ex_acme fuel.

(** With it an attempt succeeds, and the calls are those of the protocol. *)
Example honest_provisions : let '(r, w) := ex_provision false 3 (ex_start None 2) in
  (r, length (w_calls w), w_files w !! cert_path ex_acme) =
  (Done {| ac_cert := lit "/var/acme/cert.pem"; ac_key := lit "/var/acme/key.pem" |}, 7%nat,
   Some (lit "-----BEGIN CERTIFICATE-----")).
Proof. vm_compute. reflexivity. Qed.

Definition ex_challenge (name : string) : challenge :=
  {| ch_http01 := true; ch_url := lit name; ch_token := lit "t" ++ lit name |}.

Definition ex_token (name : string) : bytes :=
  hn_key_authorization (directory_url ex_acme) (ch_token (ex_challenge name)).

Lemma challenges_answered_witness :
  let o := directory_url ex_acme in
  let t := {[ch_token (ex_challenge "a") := ex_token "a"]} : ChallengeTokens in
  let x := Polled (Auth := honest_authority ex_auths)
             (<[ch_token (ex_challenge "b") := ex_token "b"]> t) in
  let w' := (ex_provision false 3 (ex_start None 2)).2 in
  w_calls w' !! 0%nat = Some (ToldReady (Auth := honest_authority ex_auths) o (ex_challenge "a") t) ∧
  w_calls w' !! 5%nat = Some x ∧
  handle_challenge_request (ACME_PREFIX ++ ch_token (ex_challenge "a")) (call_tokens x) =
    Some (ex_token "a").
Proof.
  intros o t x w'.
  assert (w_calls w' !! 0%nat =
    Some (ToldReady (Auth := honest_authority ex_auths) o (ex_challenge "a") t)) as Hi
    by (vm_compute; reflexivity).
  assert (w_calls w' !! 5%nat = Some x) as Hj by (vm_compute; reflexivity).
  split; [exact Hi|]. split; [exact Hj|].
  apply (challenges_answered (Auth := honest_authority ex_auths) None None
    (λ p, if false && bool_decide (p = key_path ex_acme)
          then Some {| io_error := lit "no space"; io_left := None |} else None) ex_acme 3
    (ex_start None 2) 0 5 o (ex_challenge "a") t x eq_refl); [lia|exact Hi|exact Hj|done|reflexivity].
Defined.

Lemma provisioned_is_cached_witness : ∃ w' cert key chain,
  ex_provision false 3 (ex_start None 2) = (Done cert, w') ∧
  issued (Auth := honest_authority ex_auths) ex_acme key chain ∧
  w_files w' !! ac_cert cert = Some chain.
Proof.
  destruct (ex_provision false 3 (ex_start None 2)) as [r w'] eqn:E.
  assert (r = Done {| ac_cert := cert_path ex_acme; ac_key := key_path ex_acme |}) as ->
    by (change r with (r, w').1; rewrite <-E; vm_compute; reflexivity).
  destruct (provisioned_is_cached (λ s, [s]) _ _ _ _ _ _ _ _ E) as (key & chain & Hi & Hc & _).
  exists w', {| ac_cert := cert_path ex_acme; ac_key := key_path ex_acme |}, key, chain. auto.
Defined.

Lemma renewal_in_time_witness :
  ∃ t, head (renewal_task (λ _, Written 0) (λ _, 60) 121 0) = Some t ∧
    0 + RENEWAL_AGE < t ≤ Z.max 0 (0 + RENEWAL_AGE) + RENEWAL_INTERVAL ∧ 0 + RENEWAL_INTERVAL ≤ t.
Proof. apply (renewal_in_time (λ _, 60) 0 0 121); [lia..|]. vm_compute. reflexivity. Defined.

(** The key of a renewal cannot be written: the new chain is beside the old key. *)
Example renewal_breaks_pair : let '(r, w) := ex_provision true 3 (ex_start (Some (lit "old")) 0) in
  (r, w_files w !! cert_path ex_acme, w_files w !! key_path ex_acme,
   load_cached_certificate (λ s, [s]) ex_acme (w_files w)) =
  (Failed (WriteKey (lit "no space")), Some (lit "-----BEGIN CERTIFICATE-----"), Some (lit "old"),
   Some {| ac_cert := cert_path ex_acme; ac_key := key_path ex_acme |}).
Proof. vm_compute. reflexivity. Qed.
