(* ===== verification/Listener.v ===== *)
(** * Listening (turbine-core/src/tls.rs and run_hyper_server of main.rs)

    The certificates that a connection is given and the sockets that the server
    listens on. Decoding PEM, keys and the resolver by name are libraries
    ([rustls]), and so parameters; what the resolver promises is the class
    [SniResolver]. The operating system's answers to calls on sockets are
    arguments. *)

From S2P Require Import Prelude RustStr PathGuard ConfigFile Startup.

(** ** Certificates *)

Inductive tls_exit :=
| NoCertFile (path : bytes) | NoKeyFile (path : bytes) | NoCertificates (path : bytes)
| BadPrivateKey (path : bytes) | NoPrivateKey (path : bytes) | InvalidPair
| BadSigningKey (domain : bytes) | SniRefused (domain : bytes) | BadDefaultKey.

(** A resolver by name: a name is stored in a canonical form, the last certificate
    added for it counts, and certificates that are not for the name are refused. *)
Class SniResolver (ck : Type) := {
  sni : Type;
  sni_new : sni;
  sni_key : bytes → bytes;
  sni_add : bytes → ck → sni → option sni;
  sni_resolve : bytes → sni → option ck;
  sni_resolve_new n : sni_resolve n sni_new = None;
  sni_resolve_add d c s s' n : sni_add d c s = Some s' →
    sni_resolve n s' = if decide (n = sni_key d) then Some c else sni_resolve n s }.

Section Tls.
(** Certificates, private keys and keys that sign. *)
Context {der PrivateKey signing : Type}.
Record CertifiedKey := { ck_certs : list der; ck_signing : signing }.
Context `{Sni : !SniResolver CertifiedKey}.
Context (open_file : bytes → option bytes).
Context (pem_certs : bytes → list der) (pem_key : bytes → option (option PrivateKey)).
Context (any_supported_type : PrivateKey → option signing).
(** [with_single_cert]: [None] when the key is not the certificate's. *)
Context (with_single_cert : list der → PrivateKey → option CertifiedKey).

Definition load_cert_key (cert_path key_path : bytes) : result (list der * PrivateKey) tls_exit :=
  match open_file cert_path, open_file key_path with
  | None, _ => Err (NoCertFile cert_path)
  | _, None => Err (NoKeyFile key_path)
  | Some cert_file, Some key_file =>
      if match pem_certs cert_file with [] => true | _ => false end then Err (NoCertificates cert_path)
      else match pem_key key_file with
           | None => Err (BadPrivateKey key_path)
           | Some None => Err (NoPrivateKey key_path)
           | Some (Some k) => Ok (pem_certs cert_file, k)
           end
  end.

Definition ALPN : list bytes := lits ["h2"; "http/1.1"]%string.

Inductive resolver := SingleCert (c : CertifiedKey) | SniWithFallback (s : sni) (fallback : CertifiedKey).

Record TlsAcceptor := { ta_resolver : resolver; ta_alpn : list bytes }.

Definition certified (e : tls_exit) (cert_path key_path : bytes) : result CertifiedKey tls_exit :=
  let? (certs, k) := load_cert_key cert_path key_path in
  match any_supported_type k with
  | Some sk => Ok {| ck_certs := certs; ck_signing := sk |}
  | None => Err e
  end.

Fixpoint add_hosts (hosts : list (bytes * bytes * bytes)) (s : sni) : result sni tls_exit :=
  match hosts with
  | [] => Ok s
  | (domain, cert_path, key_path) :: hosts =>
      let? c := certified (BadSigningKey domain) cert_path key_path in
      match sni_add domain c s with
      | Some s => add_hosts hosts s
      | None => Err (SniRefused domain)
      end
  end.

Definition build_tls_acceptor_with_sni (cert_path key_path : bytes) (hosts : list (bytes * bytes * bytes)) :
    result TlsAcceptor tls_exit :=
  match hosts with
  | [] =>
      let? (certs, k) := load_cert_key cert_path key_path in
      match with_single_cert certs k with
      | Some c => Ok {| ta_resolver := SingleCert c; ta_alpn := ALPN |}
      | None => Err InvalidPair
      end
  | _ =>
      let? s := add_hosts hosts sni_new in
      let? c := certified BadDefaultKey cert_path key_path in
      Ok {| ta_resolver := SniWithFallback s c; ta_alpn := ALPN |}
  end.

Definition build_tls_acceptor (cert_path key_path : bytes) : result TlsAcceptor tls_exit :=
  build_tls_acceptor_with_sni cert_path key_path [].

(** The acceptor for what the configuration says. *)
Definition acceptor_of (plan : tls_plan) : result (option TlsAcceptor) tls_exit :=
  match plan with
  | PlainHttp => Ok None
  | Tls cert key => let? a := build_tls_acceptor cert key in Ok (Some a)
  | TlsWithSni cert key hosts => let? a := build_tls_acceptor_with_sni cert key hosts in Ok (Some a)
  end.

(** The certificate for a client that names a server, or not. *)
Definition resolve_cert (r : resolver) (server_name : option bytes) : CertifiedKey :=
  match r with
  | SingleCert c => c
  | SniWithFallback s fallback =>
      match server_name with
      | Some n => default fallback (sni_resolve n s)
      | None => fallback
      end
  end.

(** ** Who gets which certificate *)

(** The last of the hosts that goes by the name. *)
Fixpoint host_for (n : bytes) (hosts : list (bytes * bytes * bytes)) : option (bytes * bytes * bytes) :=
  match hosts with
  | [] => None
  | h :: hosts =>
      match host_for n hosts with
      | Some h' => Some h'
      | None => if decide (n = sni_key h.1.1) then Some h else None
      end
  end.

Lemma add_hosts_resolve hosts s s' n : add_hosts hosts s = Ok s' →
  match host_for n hosts with
  | Some (d, cert, key) => ∃ c, certified (BadSigningKey d) cert key = Ok c ∧ sni_resolve n s' = Some c
  | None => sni_resolve n s' = sni_resolve n s
  end.
Proof.
  revert s. induction hosts as [|[[d cert] key] hosts IH]; intros s; simpl; [by intros [= ->]|].
  destruct (certified _ _ _) as [c|] eqn:Ec; [|done]. simpl.
  destruct (sni_add d c s) as [s1|] eqn:Ea; [|done]. intros H%IH.
  destruct (host_for n hosts) as [[[d' cert'] key']|]; [done|].
  rewrite H, (sni_resolve_add _ _ _ _ n Ea). case_decide; [|done]. exists c. by rewrite Ec.
Qed.

(** A client is given the certificate of the virtual host that it names, the last of
    them if there are several, and the server's own otherwise. *)
Theorem sni_exact (cert key : bytes) (hosts : list (bytes * bytes * bytes)) (a : TlsAcceptor) :
  hosts ≠ [] → build_tls_acceptor_with_sni cert key hosts = Ok a →
  ∃ own, certified BadDefaultKey cert key = Ok own ∧ resolve_cert (ta_resolver a) None = own ∧
    ∀ n, match host_for n hosts with
         | Some (d, vcert, vkey) =>
             certified (BadSigningKey d) vcert vkey = Ok (resolve_cert (ta_resolver a) (Some n))
         | None => resolve_cert (ta_resolver a) (Some n) = own
         end.
Proof.
  intros Hne. unfold build_tls_acceptor_with_sni. destruct hosts as [|h hosts]; [done|].
  destruct (add_hosts (h :: hosts) sni_new) as [s|] eqn:Es; [|done]. unfold result_bind.
  destruct (certified BadDefaultKey cert key) as [own|]; [|done]. intros [= <-].
  exists own. split_and!; [done..|]. intros n. pose proof (add_hosts_resolve _ _ _ n Es) as H.
  cbn [ta_resolver resolve_cert]. destruct (host_for n (h :: hosts)) as [[[d vcert] vkey]|].
  - destruct H as (c & -> & ->). done.
  - by rewrite H, sni_resolve_new.
Qed.

(** A certificate that is not the key's stops a server without certificates of virtual
    hosts; a server with them starts all the same. *)
Theorem mismatched_pair (cert key : bytes) (certs : list der) (k : PrivateKey) (hosts : list (bytes * bytes * bytes))
    (s : sni) (sk : signing) :
  load_cert_key cert key = Ok (certs, k) → with_single_cert certs k = None →
  hosts ≠ [] → add_hosts hosts sni_new = Ok s → any_supported_type k = Some sk →
  build_tls_acceptor cert key = Err InvalidPair ∧
  ∃ a, build_tls_acceptor_with_sni cert key hosts = Ok a ∧ 
    resolve_cert (ta_resolver a) None = {| ck_certs := certs; ck_signing := sk |}.
Proof.
  intros Hl Hp Hne Hs Hk. unfold build_tls_acceptor, build_tls_acceptor_with_sni, certified.
  rewrite Hl. simpl. rewrite Hp. split; [done|]. destruct hosts as [|h hosts]; [done|].
  rewrite Hs. simpl. rewrite Hk. simpl. eauto.
Qed.
End Tls.

(** ** Sockets *)

(** The answers to the calls that make one listener. *)
Record sock_calls := {
  sc_socket : result Z bytes;
  sc_reuseaddr : option bytes;
  sc_reuseport : option bytes;
  sc_bind : option bytes;
  sc_listen : option bytes;
  sc_tokio : option bytes }.

(** The descriptor is owned from the moment it is there, and so closed when a call
    fails; [fds] are the descriptors that are open. *)
Definition bind_reuseport_linux (c : sock_calls) (fds : gset Z) : result Z bytes * gset Z :=
  match sc_socket c with
  | Err e => (Err e, fds)
  | Ok fd =>
      let opened := {[fd]} ∪ fds in
      let closed := opened ∖ {[fd]} in
      match sc_reuseaddr c, sc_reuseport c, sc_bind c, sc_listen c, sc_tokio c with
      | Some e, _, _, _, _ | None, Some e, _, _, _ | None, None, Some e, _, _
      | None, None, None, Some e, _ | None, None, None, None, Some e => (Err e, closed)
      | None, None, None, None, None => (Ok fd, opened)
      end
  end.

(** The shards: the first has to succeed, the others stop at the first failure. *)
Fixpoint bind_shards (first : bool) (calls : list sock_calls) (fds : gset Z) :
    result (list Z) bytes * gset Z :=
  match calls with
  | [] => (Ok [], fds)
  | c :: calls =>
      match bind_reuseport_linux c fds with
      | (Ok fd, fds) =>
          match bind_shards false calls fds with
          | (Ok l, fds) => (Ok (fd :: l), fds)
          | (Err e, fds) => (Err e, fds)
          end
      | (Err e, fds) => if first then (Err e, fds) else (Ok [], fds)
      end
  end.

(** [single] is what [TcpListener::bind] does, when there are no shards. An [Err] ends
    the process. *)
Definition bind_listeners (linux : bool) (reuseport_shards : nat) (calls : nat → sock_calls)
    (single : result Z bytes) (fds : gset Z) : result (list Z) bytes * gset Z :=
  if linux && (1 <? reuseport_shards)%nat then bind_shards true (calls <$> seq 0 reuseport_shards) fds
  else match single with
       | Ok fd => (Ok [fd], {[fd]} ∪ fds)
       | Err e => (Err e, fds)
       end.

(** [us as c_int]. *)
Definition busy_poll_value (us : Z) : Z := wrap_i 32 us.

(** A listener's descriptor is new. *)
Fixpoint fresh_calls (calls : list sock_calls) (fds : gset Z) : Prop :=
  match calls with
  | [] => True
  | c :: calls =>
      (∀ fd, sc_socket c = Ok fd → fd ∉ fds) ∧ fresh_calls calls (bind_reuseport_linux c fds).2
  end.

Lemma bind_reuseport_open c fds : (∀ fd, sc_socket c = Ok fd → fd ∉ fds) →
  match bind_reuseport_linux c fds with
  | (Ok fd, fds') => fds' = {[fd]} ∪ fds ∧ fd ∉ fds
  | (Err _, fds') => fds' = fds
  end.
Proof.
  intros Hf. unfold bind_reuseport_linux. destruct (sc_socket c) as [fd|e]; [|done].
  specialize (Hf fd eq_refl). assert (({[fd]} ∪ fds) ∖ {[fd]} = fds) by set_solver.
  by destruct (sc_reuseaddr c), (sc_reuseport c), (sc_bind c), (sc_listen c), (sc_tokio c).
Qed.

Lemma bind_shards_open first calls fds : fresh_calls calls fds →
  match bind_shards first calls fds with
  | (Ok l, fds') => fds' = list_to_set l ∪ fds ∧ NoDup l ∧ list_to_set l ## fds ∧
      (length l ≤ length calls)%nat ∧ (first = true → calls ≠ [] → l ≠ [])
  | (Err _, fds') => fds' = fds ∧ first = true
  end.
Proof.
  revert first fds. induction calls as [|c calls IH]; intros first fds; simpl.
  { intros _. split_and!; [set_solver|constructor|set_solver|done|done]. }
  intros [Hc Hf]. pose proof (bind_reuseport_open c fds Hc) as Ho.
  destruct (bind_reuseport_linux c fds) as [[fd|e] fds1]; simpl in *.
  - destruct Ho as [-> Hn]. specialize (IH false _ Hf).
    destruct (bind_shards false calls _) as [[l|e] fds2]; [|naive_solver].
    destruct IH as (-> & Hd & Hs & Hl & _). split_and!; [set_solver| |set_solver|simpl; lia|done].
    constructor; [set_solver|done].
  - subst. destruct first; [done|]. split_and!; [set_solver|constructor|set_solver|simpl; lia|done].
Qed.

(** Listening opens exactly the listeners: at least one, and a shard that cannot be had
    leaves no descriptor behind. *)
Theorem listeners_open (linux : bool) (shards : nat) (calls : nat → sock_calls) (single : result Z bytes)
    (fds : gset Z) :
  fresh_calls (calls <$> seq 0 shards) fds → (∀ fd, single = Ok fd → fd ∉ fds) →
  match bind_listeners linux shards calls single fds with
  | (Ok l, fds') => fds' = list_to_set l ∪ fds ∧ NoDup l ∧ list_to_set l ## fds ∧
      (1 ≤ length l ≤ Nat.max 1 shards)%nat
  | (Err _, fds') => fds' = fds
  end.
Proof.
  intros Hf Hs. unfold bind_listeners. destruct (linux && _) eqn:E.
  - apply andb_prop in E as [_ E%Nat.ltb_lt]. pose proof (bind_shards_open true _ _ Hf) as H.
    destruct (bind_shards _ _ _) as [[l|e] fds']; [|naive_solver].
    destruct H as (-> & Hd & Hdis & Hl & Hne). split_and!; [done..| |].
    + destruct l; [|simpl; lia]. destruct Hne; [done| |done]. destruct shards; [lia|done].
    + rewrite length_fmap, length_seq in Hl. lia.
  - destruct single as [fd|e]; [|done]. specialize (Hs fd eq_refl).
    split_and!; [set_solver|apply NoDup_singleton|set_solver|simpl; lia..].
Qed.

Lemma listeners_open_witness :
  let fine fd := {| sc_socket := Ok fd; sc_reuseaddr := None; sc_reuseport := None; sc_bind := None;
                    sc_listen := None; sc_tokio := None |} in
  let calls i := match i with
                 | 0%nat => fine 7
                 | 1%nat => fine 8
                 | _ => {| sc_socket := Ok 9; sc_reuseaddr := None; sc_reuseport := None;
                           sc_bind := Some (lit "in use"); sc_listen := None; sc_tokio := None |}
                 end in
  match bind_listeners true 4 calls (Err (lit "unused")) {[0; 1; 2]} with
  | (Ok l, fds') => fds' = list_to_set l ∪ {[0; 1; 2]} ∧ NoDup l ∧ list_to_set l ## ({[0; 1; 2]} : gset Z) ∧
      (1 ≤ length l ≤ Nat.max 1 4)%nat
  | (Err _, fds') => fds' = {[0; 1; 2]}
  end.
Proof.
  intros fine calls. apply (listeners_open true 4 calls (Err (lit "unused")) {[0; 1; 2]}).
  - simpl. repeat split; intros fd [= <-]; set_solver.
  - done.
Defined.

(** A period of 2^31 microseconds or more becomes a negative number, which the kernel
    refuses. *)
Example busy_poll_wraps : busy_poll_value (2 ^ 31) = - 2 ^ 31.
Proof. reflexivity. Qed.
