(* ===== verification/ServerLife.v ===== *)
(** * The life of the server (turbine-core/src/main.rs)

    What happens beside the requests from the moment the server listens: the file
    watcher that restarts the workers, the reload of the error pages on SIGHUP,
    the count of open connections, and the drain when the server is told to
    stop. Time is in milliseconds here, and an argument. *)

From S2P Require Import Prelude RustStr PathGuard WorkerPool ThreadDispatch ConfigFile Startup.

(** ** The file watcher *)

(** [Path::file_name]: the last component if it is a name. *)
Definition file_name (p : bytes) : option bytes :=
  match last (components p) with Some (Normal n) => Some n | _ => None end.

Fixpoint rsplit_dot (s : bytes) : option (bytes * bytes) :=
  match s with
  | [] => None
  | x :: s' =>
      match rsplit_dot s' with
      | Some (before, after) => Some (x :: before, after)
      | None => if decide (x = x2e) then Some ([], s') else None
      end
  end.

(** [Path::extension]: what follows the last dot, unless the name begins with it. *)
Definition extension (p : bytes) : option bytes :=
  n ← file_name p;
  match rsplit_dot n with
  | Some ([], _) | None => None
  | Some (_, after) => Some after
  end.

Definition watched (extensions : list bytes) (p : bytes) : bool :=
  match extension p with
  | Some e => existsb (λ w, bool_decide (w = e)) extensions
  | None => false
  end.

(** One event of the watcher: the paths that changed, at [now]. The workers are
    restarted when one of them is watched and the last restart is long enough
    ago. *)
Definition on_change (cfg : WatcherConfig) (last_reload now : Z) (paths : list bytes) : bool :=
  existsb (watched (wt_extensions cfg)) paths && (wt_debounce_ms cfg <=? now - last_reload).

(** The times of the restarts along a list of events; [last_reload] is first the
    start of the watcher. *)
Fixpoint reloads (cfg : WatcherConfig) (last_reload : Z) (events : list (Z * list bytes)) : list Z :=
  match events with
  | [] => []
  | (now, paths) :: events =>
      if on_change cfg last_reload now paths then now :: reloads cfg now events
      else reloads cfg last_reload events
  end.

(** The restart: all workers are stopped, and native ones spawned again. *)
Definition reload_pool (persistent : bool) (mode : WorkerMode) (zts : bool) (os : list spawned)
    (p : WorkerPool) : list effect * WorkerPool :=
  let '(eff, p) := shutdown p in
  if persistent then (eff, p)
  else
    let '(_, eff', p) :=
      match mode with
      | ModeThread => spawn_workers_threaded zts os p
      | ModeProcess => spawn_workers os p
      end in
    (eff ++ eff', p).

(** ** SIGHUP *)

(** The pages for 404 and 500, read when the configuration names them. *)
Definition error_pages (read : bytes → option bytes) (c : FileConfig) : option bytes * option bytes :=
  (ep_not_found (f_error_pages c) ≫= read, ep_server_error (f_error_pages c) ≫= read).

(** ** Connections *)

(** Each connection is a task; [active] is the counter they share, [live] and
    [panicked] are tasks that run and tasks that a panic has ended. *)
Record conns := { active : Z; live : nat; panicked : nat }.

Inductive conn_event := Accepted | HandshakeFailed | Served | TaskPanicked.

(** [None]: no task is there for the event. *)
Definition conn_step (e : conn_event) (c : conns) : option conns :=
  match e, live c with
  | Accepted, n => Some {| active := wrap_u 64 (active c + 1); live := S n; panicked := panicked c |}
  | (HandshakeFailed | Served), S n =>
      Some {| active := wrap_u 64 (active c - 1); live := n; panicked := panicked c |}
  | TaskPanicked, S n => Some {| active := active c; live := n; panicked := S (panicked c) |}
  | _, O => None
  end.

(** ** Stopping *)

Inductive drained := AllDrained | TimedOut (left : Z).

(** A drain loop looks every 250 ms: [obs] are the counts it sees with the time
    elapsed. [None]: it looks again. *)
Fixpoint drain (timeout : Z) (obs : list (Z * Z)) : option drained :=
  match obs with
  | [] => None
  | (count, elapsed) :: obs =>
      if count =? 0 then Some AllDrained
      else if timeout <? elapsed then Some (TimedOut count)
      else drain timeout obs
  end.

Definition WORKER_DRAIN : Z := 15000.
Definition CONNECTION_DRAIN : Z := 10000.
Definition PAUSE : Z := 250.

(** ** The watcher *)

(** Each restart is at least [d] after the one before. *)
Fixpoint spaced (d last : Z) (ts : list Z) : Prop :=
  match ts with [] => True | t :: ts => last + d ≤ t ∧ spaced d t ts end.

(** Restarts are [debounce_ms] apart at least, and each answers a change of a file
    with a watched extension. *)
Theorem reloads_justified (cfg : WatcherConfig) (last : Z) (events : list (Z * list bytes)) :
  spaced (wt_debounce_ms cfg) last (reloads cfg last events) ∧
  ∀ t, t ∈ reloads cfg last events → ∃ paths p, (t, paths) ∈ events ∧ p ∈ paths ∧
    watched (wt_extensions cfg) p = true.
Proof.
  revert last. induction events as [|[now paths] events IH]; intros last; simpl; [split; set_solver|].
  destruct (on_change cfg last now paths) eqn:E; simpl.
  - apply andb_prop in E as [Hw Hd]. destruct (IH now) as [Hs He]. split; [split; [lia|done]|].
    intros t [->|Ht]%elem_of_cons; [|destruct (He t Ht) as (ps & p & ? & ? & ?); set_solver].
    apply existsb_exists in Hw as (p & Hp & Hwp). exists paths, p.
    split; [by left|]. by rewrite list_elem_of_In.
  - destruct (IH last) as [Hs He]. split; [done|].
    intros t Ht. destruct (He t Ht) as (ps & p & ? & ? & ?). set_solver.
Qed.

Lemma reloads_last cfg last events ev : ∃ l, (l = last ∨ l ∈ reloads cfg last events) ∧
  reloads cfg last (events ++ [ev]) =
    reloads cfg last events ++ (if on_change cfg l ev.1 ev.2 then [ev.1] else []).
Proof.
  revert last. induction events as [|[now paths] events IH]; intros last; simpl.
  - exists last. split; [by left|]. destruct ev as [t ps]. simpl. by destruct (on_change _ _ _ _).
  - destruct (on_change cfg last now paths); [|apply IH].
    destruct (IH now) as (l & Hl & ->). exists l. split; [|done]. set_solver.
Qed.

(** A change that comes too soon after a restart is dropped, not postponed: with
    no later change the workers never see it. *)
Theorem change_dropped (cfg : WatcherConfig) (start : Z) (events : list (Z * list bytes)) (t : Z)
    (paths : list bytes) :
  (∀ l, l = start ∨ l ∈ reloads cfg start events → t - l < wt_debounce_ms cfg) →
  reloads cfg start (events ++ [(t, paths)]) = reloads cfg start events.
Proof.
  intros Hs. destruct (reloads_last cfg start events (t, paths)) as (l & Hl & ->).
  unfold on_change. simpl. specialize (Hs l Hl).
  by rewrite (proj2 (Z.leb_gt _ _) Hs), andb_false_r, app_nil_r.
Qed.

Lemma rsplit_dot_after s before after : rsplit_dot s = Some (before, after) →
  (x2e ∉ after) ∧ s = before ++ x2e :: after.
Proof.
  assert (∀ s, rsplit_dot s = None → x2e ∉ s) as Hn.
  { induction s0 as [|x s0 IH]; simpl; [set_solver|].
    destruct (rsplit_dot s0) as [[]|]; [done|]. case_decide; [done|].
    intros _ [?|?]%elem_of_cons; [congruence|]. by apply IH. }
  revert before after. induction s as [|x s IH]; intros before after; simpl; [done|].
  destruct (rsplit_dot s) as [[b a]|] eqn:E.
  - intros [= <- <-]. destruct (IH b a eq_refl) as [? ->]. by split.
  - case_decide; [|done]. intros [= <- <-]. split; [by apply Hn|by subst].
Qed.

(** A file whose name begins with its only dot, as [.env], is never watched, and no
    extension with a dot, as [blade.php], ever matches, whatever is configured. *)
Theorem dotfiles_unwatched (extensions : list bytes) (p n e : bytes) :
  (file_name p = Some (x2e :: n) → x2e ∉ n → watched extensions p = false) ∧
  (x2e ∈ e → watched [e] p = false).
Proof.
  unfold watched, extension. split.
  - intros -> Hn. simpl. destruct (rsplit_dot n) as [[b a]|] eqn:E; [|done].
    apply rsplit_dot_after in E as [_ ->]. destruct Hn. set_solver.
  - intros He. destruct (file_name p) as [f|]; [|done]. simpl.
    destruct (rsplit_dot f) as [[[|x b] a]|] eqn:E; try done.
    apply rsplit_dot_after in E as [Ha _]. simpl.
    rewrite bool_decide_false; [done|]. congruence.
Qed.

Example env_unwatched : watched (lits ["php"; "env"]%string) (lit "/srv/app/.env") = false.
Proof. reflexivity. Qed.

(** ** Restarts and the pool *)

Lemma reap_empty spawn ls os p : workers p = [] → workers (reap spawn ls os p).2 = [].
Proof. intros E. unfold reap. rewrite E. by destruct ls, os. Qed.

Lemma reaper_pass_empty persistent mode ls os p d : workers p = [] →
  workers (reaper_pass persistent mode ls os p d).1.2 = [] ∧
  ∀ d', (reaper_pass persistent mode ls os p d).2 = Some d' → td_fds d' = [].
Proof.
  intros E. unfold reaper_pass. destruct (foldl _ _ _) as [eff d1].
  set (r := match persistent, mode with true, ModeThread => _ | _, _ => _ end).
  assert (workers (r ls os p).2 = []) as Hr
    by (unfold r; destruct persistent, mode; by apply reap_empty).
  destruct (r ls os p) as [[res eff'] p']. simpl in *. split; [done|].
  unfold worker_fds, worker_pids, refresh_fds. rewrite Hr. simpl. intros d'.
  unfold grow. by destruct (length (td_fds d1)); simpl; intros [= <-].
Qed.

(** A change of a file stops the persistent workers for good: none are spawned
    again, and no pass of the reaper brings one back; the slots of the dispatch
    have no pipes from then on. *)
Theorem hot_reload_stops_persistent (mode : WorkerMode) (zts : bool) (os : list spawned)
    (p : WorkerPool) (passes : list (list liveness * list spawned * ThreadDispatch)) :
  let p' := foldl (λ p '(ls, os, d), (reaper_pass true mode ls os p d).1.2)
              (reload_pool true mode zts os p).2 passes in
  workers p' = [] ∧
  ∀ ls os' d d', (reaper_pass true mode ls os' p' d).2 = Some d' → td_fds d' = [].
Proof.
  set (p' := foldl _ _ _). assert (workers p' = []) as E.
  { unfold p'. assert (workers (reload_pool true mode zts os p).2 = []) as E by done. revert E.
    generalize (reload_pool true mode zts os p).2. induction passes as [|[[ls os1] d] passes IH];
      intros q Hq; simpl; [done|]. apply IH. by apply reaper_pass_empty. }
  split; [done|]. intros ls os' d d'. by apply reaper_pass_empty.
Qed.

(** ** The drain of the workers *)

Definition none_busy (p : WorkerPool) : Prop := Forall (λ w, state w ≠ Busy) (workers p).

Lemma none_busy_count p : none_busy p → busy_count p = 0%nat.
Proof.
  intros Hp. unfold busy_count. apply length_zero_iff_nil.
  induction Hp as [|w ws Hw _ IH]; [done|]. by rewrite filter_cons_False.
Qed.

Lemma none_busy_push mk max o p : none_busy p → none_busy (spawn_push mk max o p).2.
Proof.
  intros Hp. destruct o as [[[k c] r]|e]; [|done]. unfold none_busy. simpl.
  apply Forall_app. split; [done|]. by apply Forall_singleton.
Qed.

Lemma none_busy_replace mk max i o p : none_busy p → none_busy (spawn_replace mk max i o p).2.
Proof.
  intros Hp. destruct o as [[[k c] r]|e]; [|done]. unfold spawn_replace, replace_worker. simpl.
  destruct (workers p !! i); [|done]. unfold none_busy. simpl. by apply Forall_insert.
Qed.

Lemma none_busy_reap spawn ls os p : (∀ i o p, none_busy p → none_busy (spawn i o p).2) →
  none_busy p → none_busy (reap spawn ls os p).2.
Proof.
  intros Hs Hp. unfold reap. pose proof (reap_scan_workers 0 ls (workers p)) as Hws.
  destruct (reap_scan 0 ls (workers p)) as [dead ws]. apply spawn_each_ind; [auto|].
  unfold none_busy in *. rewrite Forall_lookup in *. simpl in *. intros i w Hi.
  rewrite Hws in Hi. destruct (workers p !! i) as [w0|] eqn:E; [|done]. injection Hi as <-.
  unfold scanned. destruct (ls !! i) as [l|]; [|eauto].
  destruct (is_alive_cases l w0) as [[-> _]|(code & -> & _)]; simpl; [eauto|done].
Qed.

Lemma none_busy_pass persistent mode ls os p d : none_busy p →
  none_busy (reaper_pass persistent mode ls os p d).1.2.
Proof.
  intros Hp. unfold reaper_pass. destruct (foldl _ _ _) as [eff d1].
  set (r := match persistent, mode with true, ModeThread => _ | _, _ => _ end).
  assert (none_busy (r ls os p).2) as Hr.
  { unfold r. destruct persistent, mode; (apply none_busy_reap; [|done]); intros i o q Hq;
      first [by apply none_busy_replace | by apply none_busy_push]. }
  by destruct (r ls os p) as [[res eff'] p'].
Qed.

Lemma none_busy_shrink p : none_busy p → none_busy (shrink_one p).2.
Proof.
  intros Hp. unfold shrink_one. destruct (reverse (idle_queue p)) as [|idx rest]; [done|]. simpl.
  destruct (workers p !! idx) as [w|]; [|done]. case_bool_decide; [|done].
  unfold none_busy. simpl. by apply Forall_insert.
Qed.

Lemma none_busy_each spawn os ids p : (∀ i o p, none_busy p → none_busy (spawn i o p).2) →
  none_busy p → none_busy (spawn_each spawn ids os p).2.
Proof. intros Hs Hp. apply spawn_each_ind; auto. Qed.

Lemma none_busy_reload persistent mode zts os p : none_busy (reload_pool persistent mode zts os p).2.
Proof.
  unfold reload_pool. simpl. destruct persistent; [constructor|].
  set (q := {| config := config p; workers := []; idle_queue := [] |}).
  set (r := match mode with ModeThread => _ | ModeProcess => _ end).
  assert (none_busy r.2) as Hr.
  { unfold r, spawn_workers_threaded. destruct mode, zts;
      first [constructor | apply none_busy_each; [intros; by apply none_busy_push|constructor]]. }
  by destruct r as [[? ?] p'].
Qed.

(** The pool as the server uses it: workers are spawned at the start, and then the
    reaper, the autoscaler and the watcher run; requests go through the dispatch, which has slots of its own. *)
Inductive served_pool (c : PoolConfig) : WorkerPool → Prop :=
| served_process os : served_pool c (spawn_workers os (pool_new c)).2
| served_persistent os : served_pool c (spawn_persistent_workers os (pool_new c)).2
| served_threads zts os : served_pool c (spawn_persistent_workers_threaded zts os (pool_new c)).2
| served_pass p persistent mode ls os d : served_pool c p →
    served_pool c (reaper_pass persistent mode ls os p d).1.2
| served_grow p o : served_pool c p → served_pool c (spawn_additional o p).2
| served_grow_thread p o : served_pool c p → served_pool c (spawn_additional_thread o p).2
| served_shrink p : served_pool c p → served_pool c (shrink_one p).2
| served_reload p persistent mode zts os : served_pool c p →
    served_pool c (reload_pool persistent mode zts os p).2.

Lemma served_none_busy c p : served_pool c p → none_busy p.
Proof.
  induction 1 as [os|os|zts os|p persistent mode ls os d _ IH|p o _ IH|p o _ IH|p _ IH
    |p persistent mode zts os _ IH];
    [| | |by apply none_busy_pass|by apply none_busy_push|by apply none_busy_push
    |by apply none_busy_shrink|by apply none_busy_reload].
  - apply none_busy_each; [intros; by apply none_busy_push|constructor].
  - apply none_busy_each; [intros; by apply none_busy_push|constructor].
  - unfold spawn_persistent_workers_threaded. destruct zts; [|constructor].
    apply none_busy_each; [intros; by apply none_busy_push|constructor].
Qed.

(** The server does not wait for the requests that its workers are on when it is
    told to stop: the drain asks the pool, and no worker of the pool is ever marked
    busy by a request that goes through the dispatch, so the first look finds
    nothing to wait for, whatever slots are claimed, and the workers are stopped. *)
Theorem drain_waits_for_nothing (c : PoolConfig) (p : WorkerPool) (elapsed : Z)
    (later : list (Z * Z)) : served_pool c p →
  drain WORKER_DRAIN ((Z.of_nat (busy_count p), elapsed) :: later) = Some AllDrained.
Proof. intros Hp%served_none_busy. simpl. by rewrite none_busy_count. Qed.

Lemma drain_waits_for_nothing_witness :
  let c := {| cfg_workers := 2; cfg_max_requests := 0; cfg_mode := ModeProcess;
              cfg_pin_workers := false |} in
  let p := (spawn_workers [Ok (101, 5, 6); Ok (102, 7, 8)] (pool_new c)).2 in
  let d := td_new (worker_fds p) (worker_pids p) in
  length (workers p) = 2%nat ∧
  drain WORKER_DRAIN [(Z.of_nat (busy_count p), 0)] = Some AllDrained.
Proof.
  intros c p d. split; [reflexivity|]. apply (drain_waits_for_nothing c p 0 []). constructor.
Defined.

(** A drain ends: after [timeout / 250 + 2] looks that are 250 ms apart it has
    finished or given up. *)
Theorem drain_ends (timeout : Z) (obs : list (Z * Z)) : 0 ≤ timeout →
  (∀ i c e, obs !! i = Some (c, e) → PAUSE * Z.of_nat i ≤ e) →
  timeout / PAUSE + 1 < Z.of_nat (length obs) → drain timeout obs ≠ None.
Proof.
  intros Ht He Hl.
  assert (∀ obs, drain timeout obs = None → Forall (λ x : Z * Z, x.2 ≤ timeout) obs) as Hn.
  { induction obs0 as [|[c e] obs0 IH]; simpl; [constructor|].
    destruct (c =? 0); [done|]. destruct (Z.ltb_spec timeout e); [done|]. auto. }
  intros Hd. apply Hn in Hd. rewrite Forall_lookup in Hd.
  set (i := Z.to_nat (timeout / PAUSE + 1)).
  assert (0 ≤ timeout / PAUSE) by (apply Z.div_pos; unfold PAUSE; lia).
  destruct (lookup_lt_is_Some_2 obs i) as [[c e] Hi]; [lia|].
  specialize (He i c e Hi). specialize (Hd i (c, e) Hi). simpl in Hd.
  assert (timeout < PAUSE * (timeout / PAUSE + 1)) by (unfold PAUSE in *; apply Z.mul_succ_div_gt; lia).
  unfold i in He. rewrite Z2Nat.id in He by lia. lia.
Qed.

(** ** Connections *)

Definition run_conns (es : list conn_event) : option conns :=
  foldl (λ c e, c ≫= conn_step e) (Some {| active := 0; live := 0; panicked := 0 |}) es.

(** The counter is the number of tasks that run, and of those that a panic ended
    without taking them off: it is zero exactly when there are neither, so the
    drain of a server with one panic behind it always lasts until its timeout. *)
Theorem connections_counted (es : list conn_event) (c : conns) : run_conns es = Some c →
  active c = wrap_u 64 (Z.of_nat (live c + panicked c)) ∧
  (Z.of_nat (live c + panicked c) < 2 ^ 64 →
   (active c = 0 ↔ live c = 0%nat ∧ panicked c = 0%nat)).
Proof.
  intros Hr. assert (active c = wrap_u 64 (Z.of_nat (live c + panicked c))) as Ha.
  { revert c Hr. unfold run_conns. induction es as [|e es IH] using rev_ind; intros c.
    { by intros [= <-]. }
    rewrite foldl_app. simpl. destruct (foldl _ _ es) as [c0|]; [|done]. simpl. intros Hs.
    specialize (IH c0 eq_refl). unfold conn_step in Hs.
    destruct e, (live c0) as [|n] eqn:El; simplify_eq/=; rewrite IH; unfold wrap_u;
      rewrite ?Zplus_mod_idemp_l, ?Zminus_mod_idemp_l; f_equal; lia. }
  split; [done|]. intros Hb. rewrite Ha, wrap_u_small by lia. lia.
Qed.

Lemma connections_counted_witness :
  ∃ c, run_conns [Accepted; Accepted; HandshakeFailed; Accepted; TaskPanicked; Served] = Some c ∧
    active c = wrap_u 64 (Z.of_nat (live c + panicked c)) ∧
    (Z.of_nat (live c + panicked c) < 2 ^ 64 →
     (active c = 0 ↔ live c = 0%nat ∧ panicked c = 0%nat)).
Proof.
  eexists. split; [reflexivity|].
  apply (connections_counted [Accepted; Accepted; HandshakeFailed; Accepted; TaskPanicked; Served]).
  reflexivity.
Defined.

(** ** SIGHUP *)

Section Sighup.
Context (cpus : option Z) (to_lowercase : bytes → bytes) (path_exists : bytes → bool).
Context (read_to_string : bytes → option bytes) (parse : bytes → option table).
Context (chdir : bytes → bytes → option bytes) (read_file : bytes → option bytes).

(** The pages are those of the turbine.toml in the directory of the server. *)
Definition sighup_reload (dir : bytes) : option bytes * option bytes :=
  error_pages read_file (load cpus path_exists read_to_string parse dir).1.

Lemma apply_overrides_pages a c : f_error_pages (apply_overrides a c) = f_error_pages c.
Proof. unfold apply_overrides. by destruct (arg_access_log a). Qed.

(** Without [--config] a reload with unchanged files leaves the pages that the server
    started with. *)
Theorem sighup_keeps_pages (embedded : option (EmbedToml → option bytes)) (a : args)
    (cwd dir : bytes) (c : FileConfig) (es : list boot_event) :
  boot_config cpus to_lowercase path_exists read_to_string parse chdir embedded a cwd =
    Ok (dir, c, es) →
  arg_config a = None → sighup_reload dir = error_pages read_file c.
Proof.
  unfold boot_config, read_config, result_bind, sighup_reload, error_pages. intros Hb Ha. revert Hb.
  rewrite Ha. simpl. destruct (enter_root _ _ _ _) as [d|]; [|done].
  destruct (load _ _ _ _ d) as [c0 n0] eqn:El.
  destruct embedded as [f|], (arg_root a); try (intros [= <- <- _]; by rewrite apply_overrides_pages, El).
  destruct (f (f_embed c0)); [|intros [= <- <- _]; by rewrite apply_overrides_pages, El].
  destruct (chdir d _) as [d'|]; [|done]. destruct (load _ _ _ _ d') as [c1 n1] eqn:El'.
  intros [= <- <- _]. by rewrite apply_overrides_pages, El'.
Qed.
End Sighup.

(** With [--config] it replaces them by what the directory has: here, by nothing. *)
Example sighup_loses_pages :
  let parse := λ _, Some [(lit "error_pages", TTable [(lit "not_found", TString (lit "/404.html"))])] in
  let a := {| arg_listen := None; arg_workers := None; arg_config := Some (lit "/etc/turbine.toml");
              arg_root := None; arg_tls_cert := None; arg_tls_key := None;
              arg_request_timeout := None; arg_access_log := None |} in
  let read := λ f, Some (lit "page " ++ f) in
  match boot_config (Some 2) (λ s, s) (λ _, false) read parse (λ _ _, None) None a (lit "/srv") with
  | Ok (dir, c, _) => (error_pages read c, sighup_reload (Some 2) (λ _, false) read parse read dir)
  | Err _ => ((None, None), (None, None))
  end = ((Some (lit "page /404.html"), None), (None, None)).
Proof. vm_compute. reflexivity. Qed.
