(* ===== verification/Connections.v ===== *)
(** * Accepting and serving connections (turbine-core/src/main.rs, run_hyper_server)

    One accept loop for each listening socket, all with the same counter and the same
    shutdown signal; the task of a connection, with TLS or without; and the task that
    [handle_ws_upgrade] leaves behind, which depends on how the connection is served.
    [select!] takes either branch that is ready, so the events of a loop come in any
    order. The counter and the drain are those of ServerLife. *)

From S2P Require Import Prelude RustStr Http WsHub ServerLife.

(** ** The accept loops *)

(** [told] is the value of the watch channel, [shards] which loops still run. *)
Record accepting := { told : bool; shards : list bool; tasks : conns }.

Definition accept_start (listeners : nat) : accepting :=
  {| told := false; shards := replicate listeners true;
     tasks := {| active := 0; live := 0; panicked := 0 |} |}.

(** A loop accepts a connection or an error, or finds the signal changed; the system
    asks the server to stop; or the task of a connection goes on. *)
Inductive accept_event :=
| ShardAccepts (shard : nat) (ok : bool)
| ShardNotified (shard : nat)
| StopSignal
| OfTask (e : conn_event).

#[global] Instance conn_event_eq_dec : EqDecision conn_event.
Proof. solve_decision. Defined.

(** [None]: the event cannot happen. A loop is notified only after the one [send],
    which sets the value first. *)
Definition accept_step (e : accept_event) (s : accepting) : option accepting :=
  match e with
  | ShardAccepts i ok =>
      if decide (shards s !! i = Some true) then
        if ok then
          c ← conn_step Accepted (tasks s);
          Some {| told := told s; shards := shards s; tasks := c |}
        else Some s
      else None
  | ShardNotified i =>
      if decide (shards s !! i = Some true) then
        if told s then Some {| told := told s; shards := <[i := false]> (shards s); tasks := tasks s |}
        else None
      else None
  | StopSignal => Some {| told := true; shards := shards s; tasks := tasks s |}
  | OfTask e =>
      if decide (e = Accepted) then None
      else
        c ← conn_step e (tasks s);
        Some {| told := told s; shards := shards s; tasks := c |}
  end.

Definition run_accepting (es : list accept_event) (s : accepting) : option accepting :=
  foldl (λ s e, s ≫= accept_step e) (Some s) es.

(** All handles are awaited before the drain begins. *)
Definition drain_begins (s : accepting) : bool := told s && forallb negb (shards s).

(** ** The task of a connection *)

(** How hyper serves a stream: the versions of HTTP it speaks, and whether requests
    can take the stream over. *)
Record http_server := { sv_http2 : bool; sv_with_upgrades : bool }.

(** [acceptor] is there when TLS is on, with whether the handshake succeeds. The server
    of the stream, if it comes to that, and how the task ends. *)
Definition connection_task (acceptor : option bool) : option http_server * conn_event :=
  match acceptor with
  | Some false => (None, HandshakeFailed)
  | Some true => (Some {| sv_http2 := true; sv_with_upgrades := false |}, Served)
  | None => (Some {| sv_http2 := false; sv_with_upgrades := true |}, Served)
  end.

(** ** The task of an upgrade *)

Section upgrade.
Context {B : Type} `{Broadcast B}.
Context (sha1_base64 : bytes → bytes).
(** [hyper::upgrade::on]: whether the stream is handed over. hyper documents that it is
    when the connection is served with upgrades, and an error otherwise. *)
Context (upgrade_on : http_server → bool).

(** The task has the receiver; when the upgrade fails it ends and drops it. *)
Definition upgrade_task (srv : http_server) (name : bytes) (rx : nat) (h : WsHub B)
    : option session * WsHub B :=
  if upgrade_on srv then (Some (new_session name rx), h)
  else (None,
        match hub_channels h !! name with
        | Some b => set_channel name (bc_drop rx b) h
        | None => h
        end).

(** A request for a channel on a connection: the response, the session that it opens,
    and the hub when the task has begun. *)
Definition ws_request (srv : http_server) (req : upgrade_request) (name : bytes) (h : WsHub B)
    : Response * option session * WsHub B :=
  match handle_ws_upgrade sha1_base64 req name h with
  | (resp, Some rx, h) => let '(s, h) := upgrade_task srv name rx h in (resp, s, h)
  | (resp, None, h) => (resp, None, h)
  end.
End upgrade.

(** ** What the loops guarantee *)

Lemma run_accepting_snoc es e s :
  run_accepting (es ++ [e]) s = run_accepting es s ≫= accept_step e.
Proof. unfold run_accepting. by rewrite foldl_app. Qed.

Lemma run_accepting_app es es' s :
  run_accepting (es ++ es') s = run_accepting es s ≫= run_accepting es'.
Proof.
  unfold run_accepting. rewrite foldl_app. destruct (foldl _ (Some s) es); [done|]. simpl.
  by induction es'.
Qed.

Lemma drain_begins_closed s i : drain_begins s = true → shards s !! i ≠ Some true.
Proof.
  unfold drain_begins. intros [_ Hs]%andb_true_iff Hi.
  rewrite forallb_forall in Hs. by specialize (Hs true (proj1 (list_elem_of_In _ _) (list_elem_of_lookup_2 _ _ _ Hi))).
Qed.

(** One step keeps the closed loops closed and starts no task. *)
Lemma closed_step e s s' : accept_step e s = Some s' → drain_begins s = true →
  drain_begins s' = true ∧ (live (tasks s') ≤ live (tasks s))%nat.
Proof.
  intros Hs Hd. destruct e as [i ok|i| |ev]; simpl in Hs.
  - by rewrite decide_False in Hs by by apply drain_begins_closed.
  - by rewrite decide_False in Hs by by apply drain_begins_closed.
  - simplify_eq/=. split; [|done]. unfold drain_begins in *. simpl. by apply andb_true_iff in Hd as [_ ->].
  - case_decide; [done|]. apply bind_Some in Hs as (c & Hc & [= <-]). split; [done|]. simpl.
    unfold conn_step in Hc. destruct ev, (live (tasks s)) eqn:E; simplify_eq/=; lia.
Qed.

(** Loops end only after the signal. *)
Lemma ended_after_signal n es s : run_accepting es (accept_start n) = Some s →
  length (shards s) = n ∧ (told s = false → shards s = replicate n true).
Proof.
  revert s. induction es as [|e es IH] using rev_ind; intros s.
  { intros [= <-]. split; [by apply length_replicate|done]. }
  rewrite run_accepting_snoc. destruct (run_accepting es _) as [s0|]; [|done]. simpl. intros Hs.
  destruct (IH s0 eq_refl) as [Hl Ht].
  destruct e as [i ok|i| |ev]; simpl in Hs.
  - case_decide; [|done]. destruct ok; [|by simplify_eq]. by simplify_eq/=.
  - case_decide; [|done]. destruct (told s0) eqn:E; simplify_eq/=. by rewrite length_insert.
  - by simplify_eq/=.
  - case_decide; [done|]. apply bind_Some in Hs as (c & _ & [= <-]). done.
Qed.

(** The loops that still run, notified one after another, all end. *)
Definition notify_all (s : accepting) : list accept_event :=
  ShardNotified <$> List.filter (λ i, bool_decide (shards s !! i = Some true)) (seq 0 (length (shards s))).

Lemma notify_run l s : NoDup l → told s = true → Forall (λ i, shards s !! i = Some true) l →
  ∃ s', run_accepting (ShardNotified <$> l) s = Some s' ∧ told s' = true ∧ tasks s' = tasks s ∧
    length (shards s') = length (shards s) ∧
    ∀ i, shards s' !! i = Some true ↔ shards s !! i = Some true ∧ i ∉ l.
Proof.
  revert s. induction l as [|i l IH]; intros s Hn Ht Hf.
  { exists s. split_and!; try done. intros i. set_solver. }
  apply NoDup_cons in Hn as [Hi Hn]. apply Forall_cons in Hf as [Hsi Hf].
  set (s1 := {| told := true; shards := <[i := false]> (shards s); tasks := tasks s |}).
  destruct (IH s1 Hn eq_refl) as (s' & Hr & Ht' & Hk & Hl & Hs').
  { rewrite Forall_forall in *. intros j Hj. simpl. rewrite list_lookup_insert_ne by set_solver. by apply Hf. }
  exists s'. split_and!; [|done|done|by rewrite Hl; simpl; rewrite length_insert|].
  - assert (accept_step (ShardNotified i) s = Some s1) as Hi1
      by (unfold accept_step; by rewrite (decide_True _ _ Hsi), Ht).
    change (ShardNotified <$> i :: l) with ([ShardNotified i] ++ (ShardNotified <$> l)).
    rewrite run_accepting_app. unfold run_accepting at 2.
    change (foldl _ _ _) with (accept_step (ShardNotified i) s). by rewrite Hi1.
  - intros j. rewrite Hs'. simpl. destruct (decide (j = i)) as [->|Hj].
    + rewrite list_lookup_insert_eq by by eapply lookup_lt_Some. set_solver.
    + rewrite list_lookup_insert_ne by done. set_solver.
Qed.

(** The server closes before it drains: after the signal the loops can all end, whatever has
    happened before and however many are left, with no connection lost from the count; they end
    for no other reason; and from then on no connection is accepted, so that the tasks the drain
    waits for only become fewer. *)
Theorem shutdown_closes_listeners (n : nat) (before : list accept_event) (s : accepting) :
  run_accepting before (accept_start n) = Some s →
  (told s = false → shards s = replicate n true) ∧
  (told s = true → ∃ s', run_accepting (notify_all s) s = Some s' ∧ drain_begins s' = true ∧ tasks s' = tasks s) ∧
  (drain_begins s = true → ∀ after s', run_accepting after s = Some s' →
    drain_begins s' = true ∧ (live (tasks s') ≤ live (tasks s))%nat).
Proof.
  intros Hr. destruct (ended_after_signal _ _ _ Hr) as [Hl Hw]. split_and!; [done| |].
  - intros Ht. destruct (notify_run (List.filter (λ i, bool_decide (shards s !! i = Some true))
        (seq 0 (length (shards s)))) s) as (s' & Hr' & Ht' & Hk & Hl' & Hs').
    + apply NoDup_ListNoDup, List.NoDup_filter, NoDup_ListNoDup, NoDup_seq.
    + done.
    + apply Forall_forall. intros i [_ Hi]%list_elem_of_In%filter_In. by apply bool_decide_eq_true in Hi.
    + exists s'. split_and!; [done| |done]. unfold drain_begins. rewrite Ht'. simpl.
      apply forallb_forall. intros b [i Hi]%list_elem_of_In%list_elem_of_lookup.
      destruct b; [|done]. pose proof Hi as [Hi1 Hi2]%Hs'. exfalso. apply Hi2.
      apply list_elem_of_In, filter_In. split; [|by apply bool_decide_eq_true].
      apply in_seq. apply lookup_lt_Some in Hi1. lia.
  - intros Hd after. induction after as [|e es IH] using rev_ind; intros s'.
    { intros [= <-]. done. }
    rewrite run_accepting_snoc. destruct (run_accepting es s) as [s0|]; [|done]. simpl. intros Hs.
    destruct (IH s0 eq_refl) as [Hd0 Hle]. destruct (closed_step _ _ _ Hs Hd0) as [Hd1 Hle1].
    split; [done|lia].
Qed.

Definition ex_accepts : list accept_event :=
  [ShardAccepts 1 true; ShardAccepts 0 true; ShardAccepts 0 false; StopSignal; ShardNotified 0;
   ShardAccepts 1 true; OfTask Served; ShardNotified 1].

Definition ex_closed (n : nat) : accepting :=
  {| told := true; shards := [false; false];
     tasks := {| active := Z.of_nat n; live := n; panicked := 0 |} |}.

Lemma shutdown_closes_listeners_witness :
  run_accepting ex_accepts (accept_start 2) = Some (ex_closed 2) ∧
  run_accepting [OfTask HandshakeFailed] (ex_closed 2) = Some (ex_closed 1) ∧
  drain_begins (ex_closed 1) = true ∧ (live (tasks (ex_closed 1)) ≤ live (tasks (ex_closed 2)))%nat.
Proof.
  split; [vm_compute; reflexivity|]. split; [vm_compute; reflexivity|].
  apply (shutdown_closes_listeners 2 ex_accepts (ex_closed 2)) with (after := [OfTask HandshakeFailed]);
    vm_compute; reflexivity.
Defined.

(** ** WebSockets over TLS *)

Section tls.
Context {B : Type} `{Broadcast B}.
Context (sha1_base64 : bytes → bytes) (upgrade_on : http_server → bool).
Hypothesis upgrade_on_spec : ∀ srv, upgrade_on srv = sv_with_upgrades srv.

(** A subscription that is dropped at once leaves the channel with the receivers it had. *)
Lemma subscribe_drop_pos name (h h' : WsHub B) rx : subscribe name h = (Some rx, h') →
  ∃ b, hub_channels h' !! name = Some b ∧
    bc_pos (bc_drop rx b) = from_option bc_pos ∅ (hub_channels h !! name).
Proof.
  unfold subscribe, channel. intros Hs.
  destruct (hub_channels h !! name) as [b0|] eqn:E.
  - destruct (bc_subscribe b0) as [i b] eqn:Eb. simplify_eq/=. exists b. split; [by rewrite lookup_insert_eq|].
    pose proof (subscribe_pos b0) as Hp. pose proof (subscribe_fresh b0) as Hf. rewrite Eb in Hp, Hf. simpl in Hp, Hf.
    by rewrite drop_pos, Hp, delete_insert_id.
  - destruct (max_channels _ <=? _); [done|]. destruct (bc_subscribe (bc_new _)) as [i b] eqn:Eb. simplify_eq/=.
    exists b. split; [by rewrite lookup_insert_eq|].
    pose proof (subscribe_pos (bc_new (channel_capacity (hub_config h)) : B)) as Hp.
    rewrite Eb in Hp. simpl in Hp. by rewrite drop_pos, Hp, new_pos, delete_insert_id.
Qed.

(** A client that asks for a channel over TLS is told that the protocol is switched, as over a
    plain connection, but no session begins and its subscription is dropped: a message published
    afterwards counts no receiver for it. Over a plain connection the session opens. *)
Theorem ws_over_tls_never_opens (req : upgrade_request) (name key : bytes) (h h' : WsHub B) (rx : nat) :
  is_upgrade req = true → up_key req = Some key → subscribe name h = (Some rx, h') →
  (∃ srv resp, (connection_task None).1 = Some srv ∧
    ws_request sha1_base64 upgrade_on srv req name h = (resp, Some (new_session name rx), h') ∧
    rs_status resp = 101) ∧
  (∃ srv resp h'', (connection_task (Some true)).1 = Some srv ∧
    ws_request sha1_base64 upgrade_on srv req name h = (resp, None, h'') ∧
    rs_status resp = 101 ∧ subscriber_count name h'' = subscriber_count name h).
Proof.
  intros Hu Hk Hs. destruct (subscribe_drop_pos _ _ _ _ Hs) as (b & Hb & Hp).
  unfold ws_request, handle_ws_upgrade. rewrite Hu, Hk, Hs. simpl. unfold upgrade_task. split.
  - exists {| sv_http2 := false; sv_with_upgrades := true |}. rewrite upgrade_on_spec. eexists. split_and!; reflexivity.
  - exists {| sv_http2 := true; sv_with_upgrades := false |}. rewrite upgrade_on_spec. simpl. rewrite Hb.
    do 2 eexists. split_and!; [reflexivity..|].
    unfold subscriber_count. simpl. rewrite lookup_insert_eq, Hp. by destruct (hub_channels h !! name).
Qed.
End tls.

Lemma ws_over_tls_never_opens_witness :
  ∃ h', subscribe (lit "chat") (hub_new ex_cfg : WsHub simple_broadcast) = (Some 1%nat, h') ∧
  ∃ srv resp h'', (connection_task (Some true)).1 = Some srv ∧
    ws_request id sv_with_upgrades srv ex_upgrade (lit "chat") (hub_new ex_cfg) = (resp, None, h'') ∧
    rs_status resp = 101 ∧ subscriber_count (lit "chat") h'' = 0%nat.
Proof.
  eexists. split; [vm_compute; reflexivity|].
  eapply (ws_over_tls_never_opens id sv_with_upgrades (λ _, eq_refl) ex_upgrade (lit "chat") _ (hub_new ex_cfg));
    vm_compute; reflexivity.
Defined.

(** The message of a publisher to a client over TLS reaches nobody. *)
Example published_to_nobody :
  let '(resp, s, h) := ws_request id sv_with_upgrades {| sv_http2 := true; sv_with_upgrades := false |}
                         ex_upgrade (lit "chat") (hub_new ex_cfg : WsHub simple_broadcast) in
  (rs_status resp, s, (publish (lit "chat") (lit "hello") h).1) = (101, None, Some 0%nat).
Proof. vm_compute. reflexivity. Qed.
