(* ===== verification/ServerStart.v ===== *)
(** * The state of a server that starts (turbine-core/src/main.rs, cmd_serve)

    What [cmd_serve] puts into the state that every request is given, with workers and
    without them, and the tasks it leaves running beside the server: the renewal of
    certificates, the sweeper of the shared table and the reaper. The workers
    themselves are in WorkerStart.v, the parts that read the request in RequestGate.v. *)

From S2P Require Import Prelude RustStr PathGuard Http Compat RequestGate Config ConfigFile Startup.
From S2P Require Import ResponseCache BehaviourGuard Security WsHub AsyncIo Features Admin TaskQueue SharedTable.
From S2P Require Import WorkerPool ThreadDispatch Settings WorkerStart ServerLife.

(** ** The state *)

(** Who runs PHP: the executor behind a channel of some capacity, or workers. *)
Inductive runner :=
| Executor (capacity : Z)
| Workers (mode : WorkerMode) (pool : WorkerPool) (dispatch : ThreadDispatch) (permits : Z).

(** What requests find, apart from who runs PHP. *)
Record features {B} := {
  sf_http : HttpConfig;
  sf_admin : AdminConfig;
  sf_gate : RequestGate.ServerState;
  sf_features : FeatureConfig;
  sf_security : SecurityConfig;
  sf_behaviour : BehaviourConfig;
  sf_cache : CacheConfig;
  sf_pages : option bytes * option bytes;
  sf_request_timeout : Z;
  sf_max_wait_time : Z;
  sf_pid_file : option bytes;
  sf_session_auto_start : bool;
  sf_watcher : WatcherConfig;
  sf_pool_routes : list WorkerPoolToml;
  sf_table : option SharedTable;
  sf_queue : option TaskQueue;
  sf_io : option AsyncIo;
  sf_hub : option (WsHub B) }.
Arguments features : clear implicits.

Record scripts := {
  sc_app_root : bytes;
  sc_boot : option bytes;
  sc_handler : option bytes;
  sc_cleanup : option bytes }.

Record scaling := {
  scale_enabled : bool;
  scale_min : Z;
  scale_max : Z;
  scale_idle_secs : Z }.

Record state {B} := {
  ss_features : features B;
  ss_runner : runner;
  ss_persistent : bool;
  ss_scripts : scripts;
  ss_scaling : scaling;
  ss_named_pools : nat }.
Arguments state : clear implicits.

(** The tasks that run beside the server. *)
Inductive task := Renew (domains : list bytes) | Sweep (interval_secs : Z) | Reap.

Section start.
Context {B : Type} `{BroadcastOps B} {FS : Type}.
Context (to_lowercase : bytes → bytes) (path_exists : bytes → bool) (read_file : bytes → option bytes).
Context (canonicalize : FS → bytes → option bytes) (fs : FS).
Context (cpus : option Z) (app_root : bytes) (is_tls : bool).

Definition features_of (workers : Z) (persistent ready : bool) (c : FileConfig) : features B :=
  {| sf_http := http_config is_tls c;
     sf_admin := admin_config workers c;
     sf_gate := server_state to_lowercase path_exists app_root (sb_rules (f_sandbox c))
                  (vh_config <$> f_virtual_hosts c) persistent ready;
     sf_features := feature_config app_root c;
     sf_security := sec_config c; sf_behaviour := behaviour_config c; sf_cache := cache_config c;
     sf_pages := error_pages read_file c;
     sf_request_timeout := sv_request_timeout (f_server c);
     sf_max_wait_time := sv_max_wait_time (f_server c);
     sf_pid_file := sv_pid_file (f_server c);
     sf_session_auto_start := ss_enabled (f_session c) && ss_auto_start (f_session c);
     sf_watcher := f_watcher c; sf_pool_routes := f_worker_pools c;
     sf_table := shared_table c; sf_queue := task_queue c;
     sf_io := (let a := f_async_io c in
               if ai_enabled a then
                 Some (io_new canonicalize fs (ai_allowed_roots a) (ai_max_io_bytes a) (ai_max_timer_ms a))
               else None);
     sf_hub := if wb_enabled (f_websocket c) then Some (hub_new (ws_config c)) else None |}.

(** With workers, [named] of the pools of routes having started. *)
Definition workers_state (lifecycle : Lifecycle) (named : nat) (s : started) (c : FileConfig) : state B :=
  let n := serve_workers cpus c in
  let persistent := workers_are_persistent lifecycle in
  {| ss_features := features_of n persistent true c;
     ss_runner := Workers (worker_mode_of to_lowercase (sv_worker_mode (f_server c))) (st_pool s)
                    (st_dispatch s) n;
     ss_persistent := persistent;
     ss_scripts := {| sc_app_root := app_root; sc_boot := sv_worker_boot (f_server c);
                      sc_handler := sv_worker_handler (f_server c);
                      sc_cleanup := sv_worker_cleanup (f_server c) |};
     ss_scaling := {| scale_enabled := sv_auto_scale (f_server c); scale_min := sv_min_workers (f_server c);
                      scale_max := sv_max_workers (f_server c);
                      scale_idle_secs := sv_scale_down_idle_secs (f_server c) |};
     ss_named_pools := named |}.

(** Without: PHP on one thread. *)
Definition single_state (c : FileConfig) : state B :=
  {| ss_features := features_of 1 false false c;
     ss_runner := Executor (sv_channel_capacity (f_server c));
     ss_persistent := false;
     ss_scripts := {| sc_app_root := []; sc_boot := None; sc_handler := None; sc_cleanup := None |};
     ss_scaling := {| scale_enabled := false; scale_min := 1; scale_max := 1; scale_idle_secs := 5 |};
     ss_named_pools := 0 |}.

(** The tasks of each. *)
Definition workers_tasks (c : FileConfig) : list task :=
  (if am_enabled (f_acme c) && negb (bool_decide (am_domains (f_acme c) = []))
   then [Renew (am_domains (f_acme c))] else []) ++
  (if st_enabled (f_shared_table c) then [Sweep (st_sweep_interval_secs (f_shared_table c))] else []) ++
  [Reap].

Definition single_tasks (c : FileConfig) : list task := [].
End start.

(** ** The sweeper *)

(** [tokio::time::interval] panics with a period of zero; its first tick, at once, is
    dropped, and the table is swept at the ones that follow. *)
Definition sweep_time (start interval_secs : Z) (n : nat) : option Z :=
  if interval_secs =? 0 then None else Some (start + interval_secs * 10 ^ 9 * (Z.of_nat n + 1)).

(** The table beside its sweeper, with the time of its last tick: calls come before the next
    tick, and set no time to live that is not positive. *)
Inductive beside (period : Z) : SharedTable * Z → SharedTable * Z → Prop :=
| beside_call t last now o :
    last ≤ now < last + period → o ≠ OSweep →
    (∀ k v ttl, o = OSet k v (Some ttl) → 0 < ttl) →
    beside period (t, last) ((table_step now o t).2, last)
| beside_tick t last :
    beside period (t, last) ((sweep_expired (last + period) t).2, last + period).

(** Nothing in the table expired before the last tick. *)
Definition fresh (s : SharedTable * Z) : Prop :=
  ∀ k e d, tbl_map s.1 !! k = Some e → expires_at e = Some d → s.2 < d.

Lemma insert_fresh k e t last : fresh (t, last) → from_option (λ d, last < d) True (expires_at e) →
  fresh (with_map t (<[k := e]> (tbl_map t)), last).
Proof.
  intros Hf He k' e' d. simpl. destruct (decide (k' = k)) as [->|Hne].
  - rewrite lookup_insert_eq. intros [= <-] Hd. by rewrite Hd in He.
  - rewrite lookup_insert_ne by done. apply Hf.
Qed.

Lemma delete_fresh k t last : fresh (t, last) → fresh (with_map t (delete k (tbl_map t)), last).
Proof. intros Hf k' e d. simpl. rewrite lookup_delete_Some. intros [_ He] Hd. by apply (Hf k' e d). Qed.

Lemma get_fresh now k t last : fresh (t, last) → fresh ((SharedTable.get now k t).2, last).
Proof.
  intros Hf. unfold SharedTable.get. destruct (tbl_map t !! k) as [e|]; [|done].
  destruct (is_expired now e); [by apply delete_fresh|done].
Qed.

Lemma incr_fresh now k d t last : fresh (t, last) → fresh ((incr now k d t).2, last).
Proof.
  intros Hf. unfold incr, incr_existing. destruct (tbl_map t !! k) as [e|] eqn:E.
  - destruct (is_expired now e); [by apply insert_fresh|]. destruct (negb _); [done|].
    apply insert_fresh; [done|]. simpl. destruct (expires_at e) as [dl|] eqn:Ee; [|done].
    by apply (Hf k e).
  - destruct (at_capacity t); [done|by apply insert_fresh].
Qed.

Lemma set_fresh now k v ttl t last : last ≤ now → (∀ d, ttl = Some d → 0 < d) →
  fresh (t, last) → fresh ((SharedTable.set now k v ttl t).2, last).
Proof.
  intros Hn Httl Hf. unfold SharedTable.set, set_existing.
  assert (from_option (λ d, last < d) True ((λ d, now + d) <$> ttl)) as Hd.
  { destruct ttl as [d|]; [|done]. simpl. specialize (Httl d eq_refl). lia. }
  destruct (tbl_map t !! k); [by apply insert_fresh|].
  destruct (at_capacity t); [done|by apply insert_fresh].
Qed.

Lemma beside_fresh period s s' : beside period s s' → fresh s → fresh s'.
Proof.
  intros [t last now o Hn Ho Httl|t last] Hf.
  - destruct o as [k|k v ttl|k|k|k d| |]; simpl.
    + pose proof (get_fresh now k t last Hf). by destruct (SharedTable.get now k t).
    + pose proof (set_fresh now k v ttl t last ltac:(lia) ltac:(intros d ->; by eapply Httl) Hf).
      by destruct (SharedTable.set now k v ttl t).
    + unfold SharedTable.del. destruct (tbl_map t !! k); [by apply delete_fresh|done].
    + unfold exists_key. pose proof (get_fresh now k t last Hf). by destruct (SharedTable.get now k t).
    + pose proof (incr_fresh now k d t last Hf). by destruct (incr now k d t).
    + intros k e d. simpl. by rewrite lookup_empty.
    + done.
  - intros k e d. simpl. rewrite map_lookup_filter_Some. intros [He Hx] Hd.
    unfold is_expired in Hx. rewrite Hd in Hx. lia.
Qed.

(** An entry outlives its deadline by less than the interval of the sweeper: whatever the calls
    in between, at any time before the next tick the entries of the table, expired or not,
    have deadlines less than one interval ago. *)
Theorem sweeper_bounds_stale (period start now : Z) (max last : Z) (t : SharedTable) (k : bytes)
    (e : Entry) (d : Z) :
  rtc (beside period) (table_new max, start) (t, last) → now < last + period →
  tbl_map t !! k = Some e → expires_at e = Some d → now - period < d.
Proof.
  intros Hr Hn Hk Hd.
  assert (fresh (t, last)) as Hf.
  { apply (rtc_ind_r (λ s, fresh s) (table_new max, start)) in Hr; [done| |].
    - intros k' e' d'. simpl. by rewrite lookup_empty.
    - intros s s' _ Hs. by apply (beside_fresh period). }
  specialize (Hf k e d Hk Hd). simpl in Hf. lia.
Qed.

Lemma sweeper_bounds_stale_witness :
  let t := (SharedTable.set 5 (lit "k") (lit "v") (Some 3) (table_new 4)).2 in
  rtc (beside 10) (table_new 4, 0) (t, 0) ∧ 9 - 10 < 8.
Proof.
  intros t. assert (Hr : rtc (beside 10) (table_new 4, 0) (t, 0)).
  { apply rtc_once. apply (beside_call 10 (table_new 4) 0 5 (OSet (lit "k") (lit "v") (Some 3)));
      [lia|done|]. intros k v ttl [= _ _ <-]. lia. }
  split; [exact Hr|].
  apply (sweeper_bounds_stale 10 0 9 4 0 t (lit "k") {| value := lit "v"; expires_at := Some 8 |} 8 Hr);
    [lia|reflexivity|reflexivity].
Defined.

(** ** With and without workers *)

(** Both ways of running PHP are configured alike: requests find the same protocol, checks, limits,
    pages and stores, in the same initial state, and the operators the same pages, except for the
    number of workers that is shown and what the handler looks at to choose a path. *)
Theorem runners_share_features {B : Type} `{BroadcastOps B} {FS : Type} (to_lowercase : bytes → bytes)
    (path_exists : bytes → bool) (read_file : bytes → option bytes)
    (canonicalize : FS → bytes → option bytes) (fs : FS) (cpus : option Z) (app_root : bytes)
    (is_tls : bool) (lifecycle : Lifecycle) (named : nat) (s : started) (c : FileConfig) :
  let w := ss_features (workers_state (B := B) to_lowercase path_exists read_file canonicalize fs cpus
             app_root is_tls lifecycle named s c) in
  let p := ss_features (single_state (B := B) to_lowercase path_exists read_file canonicalize fs app_root
             is_tls c) in
  sf_http w = sf_http p ∧ sf_features w = sf_features p ∧ sf_security w = sf_security p ∧
  sf_behaviour w = sf_behaviour p ∧ sf_cache w = sf_cache p ∧ sf_pages w = sf_pages p ∧
  sf_table w = sf_table p ∧ sf_queue w = sf_queue p ∧ sf_io w = sf_io p ∧ sf_hub w = sf_hub p ∧
  sf_session_auto_start w = sf_session_auto_start p ∧
  (∀ r, resolve_app to_lowercase (sf_gate w) r = resolve_app to_lowercase (sf_gate p) r) ∧
  (∀ req, authorized (sf_admin w) req = authorized (sf_admin p) req).
Proof. split_and!; reflexivity. Qed.

(** The executor has no sweeper: a table that is full of expired entries stays full, while the
    server with workers makes room at the next tick. *)
Example single_never_swept :
  let c := RuntimeConfig_default (Some 4) in
  let t := (SharedTable.set 5 (lit "old") (lit "v") (Some 3) (table_new 1)).2 in
  single_tasks c = [] ∧ workers_tasks c = [Reap] ∧
  (SharedTable.set 1000 (lit "new") (lit "w") None t).1 = Err (Full 1) ∧
  (SharedTable.set 1000 (lit "new") (lit "w") None (sweep_expired 900 t).2).1 = Ok tt.
Proof. by vm_compute. Qed.

(** An interval of zero, which the configuration may have, ends the sweeper at its start. *)
Example sweeper_panics : sweep_time 0 0 7 = None ∧ sweep_time 100 5 0 = Some (100 + 5 * 10 ^ 9).
Proof. by vm_compute. Qed.
