(* ===== verification/Embed.v ===== *)
(** * Embedded applications (turbine-core/build.rs and turbine-core/src/embed.rs)

    The build packs the files of an application into a tar archive that becomes
    part of the binary; the server unpacks it into a directory and serves it from
    there. Compression is the parameter. The file system is a map from paths, as
    lists of names from the root, to directories and files; there are no symbolic
    links in it, and the directory that is unpacked into is given by its
    canonical path. *)

From S2P Require Import Prelude Utf8 RustStr PathGuard.

(** ** The archive *)

(** An entry of a directory; [Other] is what is neither a directory nor a file
    that can be read. *)
#[local] Unset Elimination Schemes.
Inductive node :=
| File (content : bytes)
| Dir (entries : list (bytes * node))
| Other.
#[local] Set Elimination Schemes.

Section node_ind.
Context (P : node → Prop).
Context (P_File : ∀ c, P (File c)) (P_Other : P Other).
Context (P_Dir : ∀ es, Forall (λ e, P e.2) es → P (Dir es)).

Fixpoint node_ind (n : node) : P n :=
  match n with
  | File c => P_File c
  | Dir es =>
      P_Dir es ((fix go es := match es return Forall (λ e, P e.2) es with
                              | [] => Forall_nil_2 _
                              | e :: es => Forall_cons_2 _ e es (node_ind e.2) (go es)
                              end) es)
  | Other => P_Other
  end.
End node_ind.

(** Octal digits, without leading zeros. *)
Fixpoint oct_digits (fuel : nat) (v : Z) (acc : bytes) : bytes :=
  match fuel with
  | O => acc
  | S fuel' =>
      let acc := as_u8 (48 + v `mod` 8) :: acc in
      if v <? 8 then acc else oct_digits fuel' (v / 8) acc
  end.

(** [format!("{:0w$o}", v)] *)
Definition oct_padded (w : nat) (v : Z) : bytes :=
  let s := oct_digits (S (Z.to_nat (Z.log2 v))) v [] in replicate (w - length s) x30 ++ s.

(** A field of the header; [copy_from_slice] panics when the lengths differ. *)
Definition tar_field (n : nat) (s : bytes) : option bytes :=
  if decide (length s = n) then Some s else None.

Definition byte_sum (s : bytes) : Z := foldr (λ b acc, u8 b + acc) 0 s.

Definition zeros (n : nat) : bytes := replicate n x00.

(** The block that describes an entry. *)
Definition write_tar_header (mtime : Z) (name : bytes) (size : Z) (type_flag : byte) : option bytes :=
  let name_field := take 100 name ++ zeros (100 - length name) in
  let mode := if decide (type_flag = x35) then lit "0000755" else lit "0000644" in
  size_field ← tar_field 12 (oct_padded 11 size ++ [x00]);
  mtime_field ← tar_field 12 (oct_padded 11 mtime ++ [x00]);
  let before := name_field ++ mode ++ [x00] ++ lit "0001000" ++ [x00] ++ lit "0001000" ++ [x00] ++
                size_field ++ mtime_field in
  let after := [type_flag] ++ zeros 100 ++ lit "ustar" ++ [x00] ++ lit "00" ++ zeros 247 in
  let checksum := byte_sum (before ++ lit "        " ++ after) in
  cksum_field ← tar_field 8 (oct_padded 6 checksum ++ [x00; x20]);
  Some (before ++ cksum_field ++ after).

Definition padding (size : Z) : nat := Z.to_nat ((512 - size `mod` 512) `mod` 512).

(** Hidden files and some directories are left out. *)
Definition left_out (relative : bytes) : bool :=
  starts_with (lit ".") relative || contains (lit "/.") relative ||
  bool_decide (relative = lit "node_modules") || starts_with (lit "node_modules/") relative ||
  bool_decide (relative = lit ".git") || starts_with (lit ".git/") relative.

Definition child (dir name : bytes) : bytes := if decide (dir = []) then name else dir ++ slash :: name.

Fixpoint concat_all {A} (f : A → option bytes) (l : list A) : option bytes :=
  match l with
  | [] => Some []
  | x :: l => a ← f x; b ← concat_all f l; Some (a ++ b)
  end.

Section archive.
(** The clock, when an entry is written. *)
Context (mtime : bytes → Z).

(** What is written for one entry; [None]: the build panics. *)
Fixpoint pack_node (path : bytes) (n : node) : option bytes :=
  let relative := from_utf8_lossy path in
  if left_out relative then Some []
  else match n with
       | Dir entries =>
           h ← write_tar_header (mtime relative) (relative ++ [slash]) 0 x35;
           b ← concat_all (λ '(name, n), pack_node (child path name) n) entries;
           Some (h ++ b)
       | File content =>
           h ← write_tar_header (mtime relative) relative (zlen content) x30;
           Some (h ++ content ++ zeros (padding (zlen content)))
       | Other => Some []
       end.

Definition pack_directory (entries : list (bytes * node)) : option bytes :=
  concat_all (λ '(name, n), pack_node (child [] name) n) entries.

Definition pack_tar (entries : list (bytes * node)) : option bytes :=
  b ← pack_directory entries; Some (b ++ zeros 1024).
End archive.

(** ** The file system *)

Inductive fnode := FDir | FFile (content : bytes).

#[global] Instance fnode_eq_dec : EqDecision fnode.
Proof. solve_decision. Defined.

Abbreviation path := (list bytes).
Abbreviation fsys := (gmap path fnode).

Definition dir_at (fs : fsys) (p : path) : bool :=
  bool_decide (p = []) || bool_decide (fs !! p = Some FDir).

(** [canonicalize]: every piece must exist, and be a directory unless it is the
    last one. *)
Fixpoint realpath (fs : fsys) (cur : path) (cs : list Component) : option path :=
  match cs with
  | [] => Some cur
  | c :: cs' =>
      if dir_at fs cur then
        match c with
        | Normal n =>
            match fs !! (cur ++ [n]) with
            | Some _ => realpath fs (cur ++ [n]) cs'
            | None => None
            end
        | ParentDir => realpath fs (removelast cur) cs'
        | CurDir => realpath fs cur cs'
        | RootDir => realpath fs [] cs'
        end
      else None
  end.

(** [create_dir_all]: it stops at a piece that is a file. *)
Fixpoint create_dir_all (fs : fsys) (cur : path) (cs : list Component) : fsys :=
  match cs with
  | [] => fs
  | c :: cs' =>
      match c with
      | Normal n =>
          match fs !! (cur ++ [n]) with
          | Some FDir => create_dir_all fs (cur ++ [n]) cs'
          | Some (FFile _) => fs
          | None => create_dir_all (<[cur ++ [n] := FDir]> fs) (cur ++ [n]) cs'
          end
      | ParentDir => create_dir_all fs (removelast cur) cs'
      | CurDir => create_dir_all fs cur cs'
      | RootDir => create_dir_all fs [] cs'
      end
  end.

(** [fs::write] to a path: its directory must exist, and it must not be a
    directory itself. *)
Definition write_file (fs : fsys) (cs : list Component) (content : bytes) : option fsys :=
  match last cs with
  | Some (Normal n) =>
      dir ← realpath fs [] (removelast cs);
      if dir_at fs dir && negb (bool_decide (fs !! (dir ++ [n]) = Some FDir))
      then Some (<[dir ++ [n] := FFile content]> fs) else None
  | _ => None
  end.

(** ** Unpacking *)

Definition oct_digit (x : byte) : option Z :=
  if (48 <=? u8 x) && (u8 x <=? 55) then Some (u8 x - 48) else None.

Fixpoint parse_oct_digits (acc : Z) (s : bytes) : option Z :=
  match s with
  | [] => Some acc
  | x :: s' =>
      d ← oct_digit x;
      let v := acc * 8 + d in if 2 ^ 64 <=? v then None else parse_oct_digits v s'
  end.

(** [usize::from_str_radix(s, 8)] *)
Definition parse_octal (s : bytes) : option Z :=
  match s with
  | [] => None
  | [x2b] => None
  | x2b :: s' => parse_oct_digits 0 s'
  | _ => parse_oct_digits 0 s
  end.

(** The bytes of a field up to its first NUL. *)
Fixpoint until_nul (s : bytes) : bytes :=
  match s with
  | [] => []
  | x :: s' => if decide (x = x00) then [] else x :: until_nul s'
  end.

Definition tar_name (header : bytes) : bytes := from_utf8_lossy (until_nul (take 100 header)).

Definition tar_size (header : bytes) : Z :=
  default 0 (parse_octal (trim_matches x00 (trim (from_utf8_lossy (take 12 (drop 124 header)))))).

(** [dest.join(name)] *)
Definition target (dest : path) (name : bytes) : list Component :=
  (if is_absolute name then [] else Normal <$> dest) ++ omap component_of (split slash name).

(** The system refuses to write a file whose name ends with a separator, or is
    [.] or [..]. *)
Definition file_name_ok (name : bytes) : bool :=
  match last (split slash name) with
  | Some w => negb (bool_decide (w = [] ∨ w = lit "." ∨ w = lit ".."))
  | None => false
  end.

(** Where the target is, or will be once it is written. *)
Definition canonical_target (fs : fsys) (t : list Component) : option path :=
  match realpath fs [] t with
  | Some p => Some p
  | None =>
      match t with
      | [] => None
      | _ =>
          dir ← realpath fs [] (removelast t);
          Some (dir ++ match last t with Some (Normal n) => [n] | _ => [] end)
      end
  end.

(** Whether the entry is skipped, after its directory was made. *)
Definition traversal_check (dest : path) (t : list Component) (fs : fsys) : bool * fsys :=
  match realpath fs [] (Normal <$> dest) with
  | None => (true, fs)
  | Some canonical_dest =>
      let fs := if bool_decide (t = []) then fs else create_dir_all fs [] (removelast t) in
      (match canonical_target fs t with
       | Some p => bool_decide (take (length canonical_dest) p = canonical_dest)
       | None => true
       end, fs)
  end.

(** One entry, with what follows its header. *)
Definition extract_entry (dest : path) (header data : bytes) (st : fsys * nat) : fsys * nat :=
  let name := tar_name header in
  let size := tar_size header in
  if bool_decide (name = []) || bool_decide (name = lit ".") then st
  else
    let t := target dest name in
    let '(allowed, fs) := traversal_check dest t st.1 in
    if negb allowed then (fs, st.2)
    else
      let flag := nth 156 header x00 in
      if bool_decide (flag = x35) || bool_decide (flag = slash) then (create_dir_all fs [] t, st.2)
      else if bool_decide (flag = x30) || bool_decide (flag = x00) then
        if size <=? zlen data then
          let fs := if bool_decide (t = []) then fs else create_dir_all fs [] (removelast t) in
          match (if file_name_ok name then write_file fs t (take (Z.to_nat size) data) else None) with
          | Some fs => (fs, S st.2)
          | None => (fs, st.2)
          end
        else (fs, st.2)
      else (fs, st.2).

Definition blocks (size : Z) : Z := (size + 511) / 512 * 512.

(** The loop; [None]: out of fuel. *)
Fixpoint extract_loop (fuel : nat) (dest : path) (archive : bytes) (st : fsys * nat)
    : option (fsys * nat) :=
  match fuel with
  | O => None
  | S fuel' =>
      if (length archive <? 512)%nat then Some st
      else
        let header := take 512 archive in
        if forallb (λ b, bool_decide (b = x00)) header then Some st
        else
          let data := drop 512 archive in
          extract_loop fuel' dest (drop (Z.to_nat (blocks (tar_size header))) data)
            (extract_entry dest header data st)
  end.

Section embed.
Context (gunzip : bytes → option bytes).
Context (xxh3 : bytes → bytes).

(** Every header takes 512 bytes, so the length is enough fuel. *)
Definition extract_tar_gz (data : bytes) (dest : path) (fs : fsys) : option (fsys * nat) :=
  archive ← gunzip data; extract_loop (S (length archive)) dest archive (fs, O).

Definition MARKER : bytes := lit ".turbine-embed-hash".

(** The directory when it holds the application; [xxh3] is the hash in
    hexadecimal. *)
Definition extract_embedded_app (embedded : bytes) (dest : path) (fs : fsys) : option path * fsys :=
  if bool_decide (embedded = []) then (None, fs)
  else
    let fs := create_dir_all fs [] (Normal <$> dest) in
    if negb (dir_at fs dest) then (None, fs)
    else
      let hash := xxh3 embedded in
      let current :=
        match fs !! (dest ++ [MARKER]) with
        | Some (FFile c) => utf8_valid c && bool_decide (trim c = hash)
        | _ => false
        end in
      if current then (Some dest, fs)
      else
        match extract_tar_gz embedded dest fs with
        | Some (fs, _) =>
            (Some dest, default fs (write_file fs (Normal <$> dest ++ [MARKER]) hash))
        | None => (None, fs)
        end.
End embed.

(** ** Headers are read back *)

Lemma oct_digit_char d : 0 ≤ d < 8 → u8 (as_u8 (48 + d)) = 48 + d ∧ oct_digit (as_u8 (48 + d)) = Some d.
Proof.
  intros Hd. unfold oct_digit. rewrite u8_as_u8, Z.mod_small by lia.
  rewrite !(proj2 (Z.leb_le _ _)) by lia. simpl. split; [done|]. f_equal. lia.
Qed.

Lemma parse_oct_digits_read fuel v acc : 0 ≤ v < 8 ^ Z.of_nat fuel → v < 2 ^ 64 →
  parse_oct_digits 0 (oct_digits fuel v acc) = parse_oct_digits v acc.
Proof.
  revert v acc. induction fuel as [|fuel IH]; intros v acc Hv Hm.
  { replace v with 0 by lia. done. }
  pose proof (Z.mod_pos_bound v 8 ltac:(lia)) as Hmod. pose proof (Z.div_mod v 8 ltac:(lia)) as Hdm.
  assert (∀ a, a * 8 + v `mod` 8 < 2 ^ 64 → parse_oct_digits a (as_u8 (48 + v `mod` 8) :: acc) =
    parse_oct_digits (a * 8 + v `mod` 8) acc) as Hd.
  { intros a Ha. cbn [parse_oct_digits]. rewrite (proj2 (oct_digit_char _ Hmod)). simpl.
    by rewrite (proj2 (Z.leb_gt _ _)) by lia. }
  change (oct_digits (S fuel) v acc) with
    (if v <? 8 then as_u8 (48 + v `mod` 8) :: acc
     else oct_digits fuel (v / 8) (as_u8 (48 + v `mod` 8) :: acc)).
  destruct (Z.ltb_spec v 8).
  - rewrite Hd by (rewrite Z.mod_small; lia). f_equal. rewrite Z.mod_small; lia.
  - rewrite Nat2Z.inj_succ, Z.pow_succ_r in Hv by lia.
    rewrite IH, Hd by (try split; try apply Z.div_pos; try apply Z.div_lt_upper_bound; lia).
    f_equal; lia.
Qed.

Lemma oct_fuel v : 0 ≤ v → v < 8 ^ Z.of_nat (S (Z.to_nat (Z.log2 v))).
Proof.
  intros Hv. destruct (decide (v = 0)) as [->|]; [done|].
  pose proof (Z.log2_spec v ltac:(lia)). pose proof (Z.log2_nonneg v).
  rewrite Nat2Z.inj_succ, Z2Nat.id by lia.
  pose proof (Z.pow_le_mono_l 2 8 (Z.succ (Z.log2 v))). lia.
Qed.

Definition is_octal (x : byte) : Prop := 48 ≤ u8 x ≤ 55.

Lemma oct_digits_octal fuel v acc : 0 ≤ v → Forall is_octal acc → Forall is_octal (oct_digits fuel v acc).
Proof.
  revert v acc. induction fuel as [|fuel IH]; intros v acc Hv Ha; [done|]. simpl.
  pose proof (Z.mod_pos_bound v 8 ltac:(lia)) as Hmod.
  assert (Forall is_octal (as_u8 (48 + v `mod` 8) :: acc)) as Hc.
  { constructor; [|done]. unfold is_octal. rewrite (proj1 (oct_digit_char _ Hmod)). lia. }
  case_match; [done|]. apply IH; [|done]. by apply Z.div_pos.
Qed.

Lemma oct_padded_octal w v : 0 ≤ v → Forall is_octal (oct_padded w v).
Proof.
  intros Hv. apply Forall_app. split; [|by apply oct_digits_octal].
  apply Forall_replicate. by vm_compute.
Qed.

Lemma parse_octal_padded w v : 0 ≤ v < 2 ^ 64 → oct_padded w v ≠ [] →
  parse_octal (oct_padded w v) = Some v.
Proof.
  intros Hv Hne. assert (parse_octal (oct_padded w v) = parse_oct_digits 0 (oct_padded w v)) as ->.
  { pose proof (oct_padded_octal w v ltac:(lia)) as Hf. destruct (oct_padded w v) as [|x s]; [done|].
    apply Forall_cons in Hf as [Hx _]. destruct x; try done. by vm_compute in Hx; destruct Hx. }
  unfold oct_padded. generalize (w - length (oct_digits (S (Z.to_nat (Z.log2 v))) v []))%nat as k.
  induction k as [|k IH]; [|by rewrite <-IH]. change (replicate 0 x30 ++ ?s) with s.
  rewrite parse_oct_digits_read; [done| |lia]. split; [lia|]. apply oct_fuel. lia.
Qed.

(** A field of octal digits closed by a NUL. *)
Lemma trim_nul s : Forall is_octal s → s ≠ [] → trim_matches x00 (trim (s ++ [x00])) = s.
Proof.
  intros Hs Hne.
  assert (∀ x, x ∈ s → 48 ≤ u8 x ≤ 55) as Hin by (intros x Hx; rewrite Forall_forall in Hs; by apply Hs).
  rewrite (trim_unspaced (λ x, (u8 x =? 0) || ((48 <=? u8 x) && (u8 x <=? 55)))).
  - unfold trim_matches, trim_end_matches.
    assert (∀ t, (∀ x, head t = Some x → x ≠ x00) → trim_start_matches x00 t = t) as Hst.
    { intros [|y t] Ht; [done|]. simpl. rewrite decide_False; [done|]. by apply Ht. }
    assert (∀ x, x ∈ s → x ≠ x00) as Hz by (intros x Hx ->; by apply Hin in Hx; vm_compute in Hx; destruct Hx).
    rewrite (Hst (s ++ [x00])).
    + rewrite reverse_snoc. simpl. rewrite Hst; [apply reverse_involutive|].
      intros x Hx. apply Hz, elem_of_reverse. by apply head_Some_elem_of in Hx.
    + destruct s as [|y s]; [done|]. intros x [= <-]. apply Hz. by left.
  - by vm_compute.
  - destruct s as [|y s]; [done|]. intros x [= <-]. specialize (Hin y ltac:(by left)).
    apply orb_true_iff. right. apply andb_true_iff. split; apply Z.leb_le; lia.
  - intros x. rewrite last_snoc. by intros [= <-].
Qed.

Lemma tar_field_length n s t : tar_field n s = Some t → t = s ∧ length s = n.
Proof. unfold tar_field. case_decide; naive_solver. Qed.

(** The shape of a header: its name, size and type are at their places. *)
Lemma header_shape mtime name size flag h : write_tar_header mtime name size flag = Some h →
  ∃ a b c, h = (take 100 name ++ zeros (100 - length name)) ++ a ++
    (oct_padded 11 size ++ [x00]) ++ b ++ [flag] ++ c ∧
  length a = 24%nat ∧ length (oct_padded 11 size ++ [x00]) = 12%nat ∧ length b = 20%nat ∧
  length c = 355%nat.
Proof.
  unfold write_tar_header. set (mode := if decide _ then _ else _).
  set (tl := zeros 100 ++ _). set (nf := take 100 name ++ _).
  assert (length mode = 7%nat) as Hmode by (subst mode; by case_decide).
  assert (length tl = 355%nat) as Htl by (vm_compute; reflexivity). clearbody tl mode nf.
  destruct (tar_field 12 (oct_padded 11 size ++ [x00])) as [sf|] eqn:Es; [|done].
  destruct (tar_field 12 (oct_padded 11 mtime ++ [x00])) as [mf|] eqn:Em; [|done]. cbn [mbind option_bind].
  destruct (tar_field 8 _) as [cf|] eqn:Ec; [|done]. intros [= <-].
  apply tar_field_length in Es as [-> Hs], Em as [-> Hm], Ec as [Ecf Hc]. rewrite <-Ecf in Hc.
  exists (mode ++ [x00] ++ lit "0001000" ++ [x00] ++ lit "0001000" ++ [x00]),
    ((oct_padded 11 mtime ++ [x00]) ++ cf), tl.
  split_and!; [by repeat progress (simpl; rewrite <-?app_assoc)| |done| |done].
  - rewrite !length_app, Hmode. reflexivity.
  - rewrite length_app, Hm, Hc. reflexivity.
Qed.

Lemma name_field_length name : length (take 100 name ++ zeros (100 - length name)) = 100%nat.
Proof. unfold zeros. rewrite length_app, length_replicate, length_take. lia. Qed.

Lemma header_length mtime name size flag h : write_tar_header mtime name size flag = Some h →
  length h = 512%nat.
Proof.
  intros (a & b & c & -> & Ha & Hs & Hb & Hc)%header_shape.
  rewrite !length_app in *. pose proof (name_field_length name) as Hn. rewrite length_app in Hn.
  simpl in *. lia.
Qed.

Lemma until_nul_zeros s n : x00 ∉ s → until_nul (s ++ zeros n) = s.
Proof.
  induction s as [|x s IH]; intros Hs; simpl; [by destruct n|].
  apply not_elem_of_cons in Hs as [Hx Hs]. by rewrite decide_False, IH by done.
Qed.

Lemma header_name mtime name size flag h : write_tar_header mtime name size flag = Some h →
  (length name ≤ 100)%nat → x00 ∉ name → utf8_valid name → tar_name h = name.
Proof.
  intros (a & b & c & -> & _)%header_shape Hl Hz Hu. unfold tar_name.
  rewrite take_app_length' by (by rewrite name_field_length). rewrite take_ge by done.
  rewrite until_nul_zeros by done. by apply lossy_valid.
Qed.

Lemma header_size mtime name size flag h : write_tar_header mtime name size flag = Some h →
  0 ≤ size < 2 ^ 64 → tar_size h = size.
Proof.
  intros (a & b & c & -> & Ha & Hs & Hb & Hc)%header_shape Hsize. unfold tar_size.
  replace (drop 124 _) with ((oct_padded 11 size ++ [x00]) ++ b ++ [flag] ++ c).
  2:{ rewrite (assoc_L (++) (take 100 name ++ _) a), drop_app_length'; [done|].
      rewrite length_app, name_field_length. lia. }
  rewrite take_app_length' by done. pose proof (oct_padded_octal 11 size ltac:(lia)) as Ho.
  assert (oct_padded 11 size ≠ []) as Hne by (intros E; by rewrite E in Hs).
  rewrite lossy_valid.
  - by rewrite trim_nul, parse_octal_padded.
  - apply utf8_valid_ascii, Forall_app. split; [|by repeat constructor].
    eapply Forall_impl; [exact Ho|]. unfold is_octal. lia.
Qed.

Lemma header_flag mtime name size flag h : write_tar_header mtime name size flag = Some h →
  nth 156 h x00 = flag.
Proof.
  intros (a & b & c & -> & Ha & Hs & Hb & Hc)%header_shape.
  rewrite app_nth2; rewrite name_field_length; [|lia]. rewrite app_nth2 by lia. rewrite Ha.
  rewrite app_nth2 by lia. rewrite Hs. rewrite app_nth2 by lia. by rewrite Hb.
Qed.

Lemma header_not_zero mtime name size flag h : write_tar_header mtime name size flag = Some h →
  flag ≠ x00 → forallb (λ b, bool_decide (b = x00)) h = false.
Proof.
  intros E Hf. apply not_true_is_false. rewrite forallb_forall. intros H.
  assert (In (nth 156 h x00) h) as Hin by (apply nth_In; rewrite (header_length _ _ _ _ _ E); lia).
  apply H, bool_decide_eq_true in Hin. by rewrite (header_flag _ _ _ _ _ E) in Hin.
Qed.

(** ** Unpacking ends *)

Lemma extract_loop_total fuel dest archive st : (length archive < fuel)%nat →
  is_Some (extract_loop fuel dest archive st).
Proof.
  revert archive st. induction fuel as [|fuel IH]; intros archive st Hf; [lia|]. cbn [extract_loop].
  destruct (Nat.ltb_spec (length archive) 512); [done|]. case_match; [done|].
  apply IH. rewrite !length_drop. lia.
Qed.

(** ** Unpacking stays in its directory *)

(** The pieces of the path are directories. *)
Definition dir_chain (fs : fsys) (p : path) : Prop := ∀ k, dir_at fs (take k p) = true.

Lemma dir_chain_at fs p : dir_chain fs p → dir_at fs p = true.
Proof. intros H. specialize (H (length p)). by rewrite take_ge in H. Qed.

Lemma dir_chain_app fs p q : dir_chain fs (p ++ q) → dir_chain fs p.
Proof.
  intros H k. destruct (decide (k ≤ length p)%nat).
  - specialize (H k). by rewrite take_app_le in H.
  - rewrite take_ge by lia. specialize (H (length p)). by rewrite take_app_length in H.
Qed.

Lemma realpath_app fs cur cs cs' :
  realpath fs cur (cs ++ cs') = realpath fs cur cs ≫= λ p, realpath fs p cs'.
Proof.
  revert cur. induction cs as [|c cs IH]; intros cur; simpl; [done|].
  destruct (dir_at fs cur); [|done]. destruct c; [apply IH..|]. case_match; [apply IH|done].
Qed.

Lemma realpath_chain fs cur p : dir_chain fs (cur ++ p) →
  realpath fs cur (Normal <$> p) = Some (cur ++ p).
Proof.
  revert cur. induction p as [|n p IH]; intros cur H; [by rewrite app_nil_r|]. simpl.
  rewrite (dir_chain_at fs cur) by by eapply dir_chain_app.
  assert (dir_chain fs ((cur ++ [n]) ++ p)) as H' by by rewrite <-(assoc_L (++)).
  pose proof (dir_chain_at _ _ (dir_chain_app _ _ _ H')) as Hd. unfold dir_at in Hd.
  rewrite (bool_decide_false (cur ++ [n] = [])) in Hd by (by destruct cur). simpl in Hd.
  apply bool_decide_eq_true in Hd. rewrite Hd, IH by done. by rewrite <-(assoc_L (++)).
Qed.

(** Creating directories changes nothing that is there. *)
Lemma create_dir_all_keeps fs cur cs p n : fs !! p = Some n → create_dir_all fs cur cs !! p = Some n.
Proof.
  revert fs cur. induction cs as [|c cs IH]; intros fs cur H; simpl; [done|].
  destruct c; [by apply IH..|]. destruct (fs !! (cur ++ [c])) as [[]|] eqn:E; [by apply IH|done|].
  apply IH. rewrite lookup_insert_ne; [done|]. intros Hp. rewrite Hp in E. congruence.
Qed.

Lemma create_dir_all_new fs cur cs p n : create_dir_all fs cur cs !! p = Some n →
  fs !! p = Some n ∨ fs !! p = None ∧ n = FDir.
Proof.
  revert fs cur. induction cs as [|c cs IH]; intros fs cur H; simpl in *; [by left|].
  destruct c; [by eapply IH..|]. destruct (fs !! (cur ++ [c])) as [[]|] eqn:E; [by eapply IH|by left|].
  apply IH in H as [H|[H ->]]; apply lookup_insert_Some in H || apply lookup_insert_None in H.
  - destruct H as [[<- <-]|[_ H]]; [by right|by left].
  - right. by destruct H.
Qed.

Lemma create_dir_all_idem fs cur cs :
  create_dir_all (create_dir_all fs cur cs) cur cs = create_dir_all fs cur cs.
Proof.
  revert fs cur. induction cs as [|c cs IH]; intros fs cur; simpl; [done|].
  destruct c; [apply IH..|]. destruct (fs !! (cur ++ [c])) as [[]|] eqn:E.
  - erewrite create_dir_all_keeps by done. apply IH.
  - by rewrite E.
  - erewrite create_dir_all_keeps by apply lookup_insert_eq. apply IH.
Qed.

Lemma dir_at_mono fs fs' p : (∀ p, fs !! p = Some FDir → fs' !! p = Some FDir) →
  dir_at fs p = true → dir_at fs' p = true.
Proof.
  intros H. unfold dir_at. rewrite !orb_true_iff, !bool_decide_eq_true. naive_solver.
Qed.

(** A file is written where its path was found to be. *)
Lemma write_file_spec fs t content fs' : write_file fs t content = Some fs' →
  ∃ p, canonical_target fs t = Some p ∧ fs !! p ≠ Some FDir ∧ fs' = <[p := FFile content]> fs.
Proof.
  unfold write_file, canonical_target. destruct t as [|c t _] using rev_ind; [done|].
  rewrite last_snoc, removelast_last. destruct c as [| | |n]; [done..|].
  destruct (realpath fs [] t) as [d|] eqn:Ed; [|done]. simpl. rewrite realpath_app, Ed. simpl.
  destruct (dir_at fs d); [|done]. simpl. case_bool_decide as Hd; [done|]. intros [= <-].
  exists (d ++ [n]). split_and!; [|done|done].
  destruct (fs !! (d ++ [n])); [done|]. by destruct t.
Qed.

(** Outside of [dest] the files are the same, and no directory is lost. *)
Definition confined (dest : path) (fs fs' : fsys) : Prop :=
  (∀ p c, take (length dest) p ≠ dest → fs' !! p = Some (FFile c) ↔ fs !! p = Some (FFile c)) ∧
  (∀ p, fs !! p = Some FDir → fs' !! p = Some FDir).

#[global] Instance confined_preorder dest : PreOrder (confined dest).
Proof.
  split; [by split|]. intros x y z [H1 H2] [H3 H4]. split; [|naive_solver].
  intros p c Hp. by rewrite H3, H1.
Qed.

Lemma create_dir_all_confined dest fs cur cs : confined dest fs (create_dir_all fs cur cs).
Proof.
  split; [|intros p; apply create_dir_all_keeps]. intros p c _. split; [|apply create_dir_all_keeps].
  by intros [?|[_ ?]]%create_dir_all_new.
Qed.

Lemma dir_chain_confined dest fs fs' : confined dest fs fs' → dir_chain fs dest → dir_chain fs' dest.
Proof. intros [_ H] Hd k. by eapply dir_at_mono. Qed.

(** A test of the goal. *)
Ltac goal_if := match goal with |- context [if ?b then _ else _] => destruct b end.

Lemma extract_entry_confined dest header data fs n : dir_chain fs dest →
  confined dest fs (extract_entry dest header data (fs, n)).1.
Proof.
  intros Hd. unfold extract_entry. case_match; [done|]. simpl. set (t := target dest _).
  unfold traversal_check. rewrite (realpath_chain fs [] dest Hd). cbn [app].
  set (fs1 := if bool_decide (t = []) then fs else create_dir_all fs [] (removelast t)).
  assert (confined dest fs fs1) as H1
    by (subst fs1; destruct (bool_decide (t = [])); [done|apply create_dir_all_confined]).
  assert ((if bool_decide (t = []) then fs1 else create_dir_all fs1 [] (removelast t)) = fs1) as ->
    by (subst fs1; destruct (bool_decide (t = [])); [done|apply create_dir_all_idem]).
  destruct (match canonical_target fs1 t with Some _ => _ | None => _ end) eqn:Hc; simpl; [|done].
  goal_if; [simpl; etrans; [done|apply create_dir_all_confined]|].
  goal_if; [|done]. goal_if; [|done]. goal_if; [|done].
  destruct (write_file fs1 t _) as [fs2|] eqn:Ew; [|done]. simpl. etrans; [done|].
  apply write_file_spec in Ew as (p & Hp & Hnd & ->). rewrite Hp in Hc.
  apply bool_decide_eq_true in Hc. split; intros q.
  - intros c Hq. rewrite lookup_insert_ne by congruence. done.
  - intros Hq. rewrite lookup_insert_ne by congruence. done.
Qed.

Lemma extract_loop_confined fuel dest archive fs n fs' n' : dir_chain fs dest →
  extract_loop fuel dest archive (fs, n) = Some (fs', n') → confined dest fs fs'.
Proof.
  revert archive fs n. induction fuel as [|fuel IH]; intros archive fs n Hd E; [done|].
  cbn [extract_loop] in E. case_match; [by simplify_eq|]. case_match; [by simplify_eq|].
  destruct (extract_entry dest (take 512 archive) (drop 512 archive) (fs, n)) as [fs1 n1] eqn:E1.
  assert (confined dest fs fs1) as H1
    by (change fs1 with (fs1, n1).1; rewrite <-E1; by apply extract_entry_confined).
  etrans; [done|]. eapply IH; [|done]. by eapply dir_chain_confined.
Qed.

(** ** What is packed is unpacked *)

(** Hidden entries and the dependencies of the front end at the top. *)
Definition hidden (p : path) : bool :=
  match last p with Some n => starts_with (lit ".") n | None => false end ||
  bool_decide (p = [lit "node_modules"]).

(** The directories and files of an application, each directory before what is
    in it. *)
Fixpoint installed (p : path) (n : node) : list (path * fnode) :=
  if hidden p then []
  else match n with
       | File c => [(p, FFile c)]
       | Dir es => (p, FDir) :: flat_map (λ '(name, n), installed (p ++ [name]) n) es
       | Other => []
       end.

Definition installed_in (p : path) (es : list (bytes * node)) : list (path * fnode) :=
  flat_map (λ '(name, n), installed (p ++ [name]) n) es.

(** Names that a file system gives, in UTF-8, each once. *)
Definition good_name (n : bytes) : Prop := n ≠ [] ∧ (slash ∉ n) ∧ (x00 ∉ n) ∧ utf8_valid n.

Fixpoint good_node (n : node) : Prop :=
  match n with
  | Dir es => NoDup es.*1 ∧ foldr (λ '(name, n) acc, good_name name ∧ good_node n ∧ acc) True es
  | _ => True
  end.

Definition good_entries (es : list (bytes * node)) : Prop := good_node (Dir es).

Lemma good_entries_unfold es : good_entries es ↔
  NoDup es.*1 ∧ Forall (λ e, good_name e.1 ∧ good_node e.2) es.
Proof.
  unfold good_entries. cbn [good_node]. f_equiv.
  induction es as [|[name n] es IH]; [done|]. cbn [foldr]. rewrite Forall_cons, <-IH. naive_solver.
Qed.

(** The path of an entry in the archive. *)
Definition rel (p : path) : bytes := RustStr.join slash p.

Lemma rel_child p n : Forall good_name p → child (rel p) n = rel (p ++ [n]).
Proof.
  unfold child, rel. intros Hp. destruct p as [|m p]; [done|].
  rewrite decide_False.
  - revert m Hp. induction p as [|k p IH]; intros m Hp; [done|]. apply Forall_cons in Hp as [_ Hp].
    cbn [RustStr.join app] in *. rewrite <-IH by done. by rewrite <-(assoc_L (++)).
  - apply Forall_cons in Hp as [(Hm & _) _]. destruct p; [done|]. cbn [RustStr.join]. by destruct m.
Qed.

Lemma rel_valid p : Forall good_name p → utf8_valid (rel p).
Proof.
  unfold rel. induction p as [|n [|m p] IH]; intros Hp; [done|..].
  - by apply Forall_singleton in Hp as (_ & _ & _ & ?).
  - apply Forall_cons in Hp as [(_ & _ & _ & Hn) Hp]. cbn [RustStr.join] in *.
    apply utf8_valid_app; [done|]. change (slash :: ?s) with ([slash] ++ s).
    by apply utf8_valid_app; [|apply IH].
Qed.

Lemma rel_no_nul p : Forall good_name p → x00 ∉ rel p.
Proof.
  unfold rel. induction p as [|n [|m p] IH]; intros Hp; [by apply not_elem_of_nil|..].
  - by apply Forall_singleton in Hp as (_ & _ & ? & _).
  - apply Forall_cons in Hp as [(_ & _ & Hn & _) Hp]. cbn [RustStr.join] in *.
    apply not_elem_of_app. split; [done|]. apply not_elem_of_cons. split; [done|]. by apply IH.
Qed.

Lemma split_rel p : p ≠ [] → Forall good_name p → split slash (rel p) = p.
Proof.
  intros Hne Hp. apply split_join; [done|]. eapply Forall_impl; [exact Hp|]. by intros n (_ & ? & _).
Qed.

Lemma split_head c x s : x ≠ c →
  match split c s with w :: _ => starts_with [x] w = starts_with [x] s | [] => False end.
Proof.
  intros Hx. destruct s as [|y s]; simpl; [done|]. case_decide as Hy; subst.
  - unfold starts_with. simpl. by rewrite !bool_decide_false by (intros [=]; congruence).
  - pose proof (split_nonempty c s). destruct (split c s); [done|]. unfold starts_with. simpl.
    by rewrite !take_0.
Qed.

(** A piece after the first one that starts with [x] is a separator before [x]. *)
Lemma contains_split c x s : x ≠ c →
  contains [c; x] s = existsb (starts_with [x]) (tail (split c s)).
Proof.
  intros Hx. apply Bool.eq_iff_eq_true. rewrite <-Is_true_true, contains_spec.
  induction s as [|y s IH]; simpl.
  { split; [|done]. intros (l & r & E). destruct l; discriminate. }
  pose proof (split_head c x s Hx) as Hh. destruct (split c s) as [|w ws] eqn:E; [done|].
  assert ((∃ l r, y :: s = l ++ [c; x] ++ r) ↔
    (y = c ∧ starts_with [x] s) ∨ ∃ l r, s = l ++ [c; x] ++ r) as ->.
  { rewrite starts_with_spec. split.
    - intros ([|z l] & r & Es); simplify_eq/=; [left; naive_solver|right; by exists l, r].
    - intros [[-> [k ->]]|(l & r & ->)]; [by exists [], k|by exists (y :: l), r]. }
  rewrite IH. simpl. case_decide as Hy; simpl.
  - rewrite orb_true_iff, Hh, Is_true_true. naive_solver.
  - naive_solver.
Qed.

Definition visible (p : path) : Prop := ∀ k, hidden (take k p) = false.

Lemma visible_names p : visible p → existsb (starts_with (lit ".")) p = false.
Proof.
  intros H. apply not_true_is_false. rewrite existsb_exists. intros (n & Hin & Hn).
  apply list_elem_of_In, list_elem_of_lookup in Hin as [i Hi].
  specialize (H (S i)). rewrite (take_S_r _ _ n) in H by done.
  unfold hidden in H. rewrite last_snoc, Hn in H. done.
Qed.

Lemma starts_with_dot_rel p : p ≠ [] → Forall good_name p →
  starts_with (lit ".") (rel p) || contains (lit "/.") (rel p) = existsb (starts_with (lit ".")) p.
Proof.
  intros Hne Hp. change (lit "/.") with [slash; x2e]. change (lit ".") with [x2e].
  rewrite contains_split by done.
  pose proof (split_head slash x2e (rel p) ltac:(done)) as Hh. rewrite split_rel in * by done.
  destruct p as [|n p]; [done|]. cbn [tail existsb]. by rewrite <-Hh.
Qed.

Lemma node_modules_rel p : p ≠ [] → Forall good_name p →
  starts_with (lit "node_modules/") (rel p) = true → take 1 p = [lit "node_modules"].
Proof.
  intros Hne Hp [k Hk]%Is_true_true%starts_with_spec.
  change (lit "node_modules/") with (lit "node_modules" ++ [slash]) in Hk.
  rewrite <-(assoc_L (++)) in Hk.
  pose proof (split_rel p Hne Hp) as Hs. rewrite Hk in Hs. simpl app in Hs at 1.
  rewrite (split_app slash (lit "node_modules") k), split_single in Hs
    by (apply (bool_decide_unpack _); by vm_compute).
  by rewrite <-Hs.
Qed.

Lemma left_out_hidden q n : visible q → Forall good_name (q ++ [n]) →
  left_out (rel (q ++ [n])) = hidden (q ++ [n]).
Proof.
  intros Hv Hg. assert (q ++ [n] ≠ []) as Hne by by destruct q.
  unfold left_out. rewrite starts_with_dot_rel, existsb_app, (visible_names q Hv) by done.
  unfold hidden. rewrite last_snoc. simpl existsb. rewrite orb_false_r, orb_false_l.
  destruct (starts_with (lit ".") n) eqn:En; [done|]. simpl orb.
  assert (starts_with (lit ".") (rel (q ++ [n])) = false) as Hd.
  { pose proof (starts_with_dot_rel _ Hne Hg) as H.
    rewrite existsb_app, (visible_names q Hv) in H. simpl in H. rewrite En in H.
    by apply orb_false_iff in H as [H _]. }
  assert (∀ t, starts_with (lit ".") (lit ".git" ++ t) = true) as Hgit by done.
  assert (bool_decide (rel (q ++ [n]) = lit ".git") = false) as ->
    by (apply bool_decide_eq_false; intros E; by rewrite E in Hd).
  assert (starts_with (lit ".git/") (rel (q ++ [n])) = false) as ->.
  { apply not_true_is_false. intros [k Hk]%Is_true_true%starts_with_spec. by rewrite Hk in Hd. }
  assert (starts_with (lit "node_modules/") (rel (q ++ [n])) = true →
    bool_decide (rel (q ++ [n]) = lit "node_modules") = true) as Hnm.
  { intros H. pose proof (node_modules_rel _ Hne Hg H) as H1. destruct q as [|m q].
    - by simplify_eq/=.
    - specialize (Hv 1%nat). simpl in H1, Hv. rewrite take_0 in *. by simplify_eq. }
  assert (bool_decide (rel (q ++ [n]) = lit "node_modules") =
    bool_decide (q ++ [n] = [lit "node_modules"])) as Hb.
  { apply bool_decide_ext. split; [|by intros ->]. intros E.
    rewrite <-(split_rel _ Hne Hg), E. by vm_compute. }
  rewrite !orb_false_r, <-Hb. destruct (starts_with (lit "node_modules/") _); [|by rewrite orb_false_r].
  by rewrite Hnm.
Qed.

(** The archive is the sequence of the blocks of what will be installed. *)
Section blocks.
Context (mtime : bytes → Z).

Definition block (e : path * fnode) : option bytes :=
  match e.2 with
  | FDir => write_tar_header (mtime (rel e.1)) (rel e.1 ++ [slash]) 0 x35
  | FFile c =>
      h ← write_tar_header (mtime (rel e.1)) (rel e.1) (zlen c) x30;
      Some (h ++ c ++ zeros (padding (zlen c)))
  end.

Lemma concat_all_app {A} (f : A → option bytes) l l' :
  concat_all f (l ++ l') = (a ← concat_all f l; b ← concat_all f l'; Some (a ++ b)).
Proof.
  induction l as [|x l IH]; simpl.
  - by destruct (concat_all f l').
  - rewrite IH. destruct (f x), (concat_all f l); simpl; [|done..].
    destruct (concat_all f l'); simpl; [by rewrite (assoc_L (++))|done].
Qed.

Lemma visible_snoc q n : visible q → hidden (q ++ [n]) = false → visible (q ++ [n]).
Proof.
  intros Hq Hn k. destruct (decide (k ≤ length q)%nat).
  - rewrite take_app_le by done. apply Hq.
  - by rewrite take_ge by (rewrite length_app; simpl; lia).
Qed.

Lemma pack_node_blocks n : ∀ q name, visible q → Forall good_name (q ++ [name]) → good_node n →
  pack_node mtime (rel (q ++ [name])) n = concat_all block (installed (q ++ [name]) n).
Proof.
  induction n as [c| |es IH] using node_ind; intros q name Hv Hg Hn; cbn [pack_node installed];
    rewrite (lossy_valid (rel _)) by (by apply rel_valid);
    rewrite left_out_hidden by done; destruct (hidden (q ++ [name])) eqn:Eh; try done.
  - simpl. unfold block. simpl. destruct (write_tar_header _ _ _ _); simpl; [|done].
    by rewrite app_nil_r.
  - cbn [concat_all block fst snd]. destruct (write_tar_header _ _ _ _) as [h|]; [|done].
    cbn [mbind option_bind]. f_equal.
    apply good_entries_unfold in Hn as [_ Hn]. set (p := q ++ [name]) in *.
    assert (concat_all (λ '(name, n), pack_node mtime (child (rel p) name) n) es =
      concat_all block (flat_map (λ '(name, n), installed (p ++ [name]) n) es)) as ->; [|done].
    induction es as [|[m n] es IHes]; [done|]. cbn [concat_all flat_map].
    apply Forall_cons in IH as [IH1 IH2], Hn as [[Hm Hn1] Hn2].
    rewrite concat_all_app, IHes, rel_child by done.
    rewrite IH1; [done|by apply visible_snoc| |done].
    apply Forall_app. by rewrite Forall_singleton.
Qed.

Lemma pack_directory_blocks es : good_entries es →
  pack_directory mtime es = concat_all block (installed_in [] es).
Proof.
  intros [_ Hes]%good_entries_unfold. unfold pack_directory, installed_in.
  induction Hes as [|[name n] es [Hm Hn] _ IH]; [done|]. cbn [concat_all flat_map].
  rewrite concat_all_app, IH.
  assert (visible []) as Hv by (intros k; by rewrite take_nil).
  rewrite <-(pack_node_blocks n [] name Hv); [done|by apply Forall_singleton|done].
Qed.
End blocks.

(** ** Unpacking the blocks *)

Definition install (dest : path) (fs : fsys) (e : path * fnode) : fsys := <[dest ++ e.1 := e.2]> fs.

(** Each entry finds its directory and nothing at its own place. *)
Fixpoint ready (dest : path) (fs : fsys) (l : list (path * fnode)) : Prop :=
  match l with
  | [] => True
  | e :: l => dir_chain fs (dest ++ removelast e.1) ∧ fs !! (dest ++ e.1) = None ∧
      ready dest (install dest fs e) l
  end.

(** Names that fit into a header. *)
Definition short (e : path * fnode) : Prop :=
  e.1 ≠ [] ∧ Forall good_name e.1 ∧ visible e.1 ∧
  (length (rel e.1) + match e.2 with FDir => 1 | FFile _ => 0 end ≤ 100)%nat.

Definition is_file (e : path * fnode) : bool := match e.2 with FFile _ => true | FDir => false end.

Lemma visible_plain (p : path) (n : bytes) : visible p → Forall good_name p → n ∈ p → component_of n = Some (Normal n).
Proof.
  intros Hv Hg Hin. rewrite Forall_forall in Hg. destruct (Hg n Hin) as (Hne & _).
  pose proof (visible_names p Hv) as H. unfold component_of. rewrite decide_False by done.
  rewrite !decide_False; [done|..]; intros ->; apply not_false_iff_true in H; try done;
    apply existsb_exists; eexists; split; try by apply list_elem_of_In. all: done.
Qed.

Lemma omap_plain (p : path) : (∀ n, n ∈ p → component_of n = Some (Normal n)) → omap component_of p = Normal <$> p.
Proof.
  induction p as [|n p IH]; intros H; [done|]. cbn. rewrite (H n) by (by left).
  f_equal. apply IH. intros m Hm. apply H. by right.
Qed.

Lemma target_rel dest e : short e → target dest (rel e.1) = Normal <$> dest ++ e.1.
Proof.
  intros (Hne & Hg & Hv & _). unfold target. rewrite split_rel by done.
  rewrite omap_plain by (intros n; by apply visible_plain).
  rewrite fmap_app. destruct (is_absolute (rel e.1)) eqn:Ha; [|done]. exfalso.
  destruct e.1 as [|n p]; [done|]. apply Forall_cons in Hg as [(Hn & Hs & _) _].
  destruct n as [|x n]; [done|]. unfold rel in Ha. destruct p; cbn in Ha;
    apply bool_decide_eq_true in Ha; simpl in Ha; rewrite take_0 in Ha; simplify_eq; apply Hs; by left.
Qed.

Lemma target_dir dest e : short e → target dest (rel e.1 ++ [slash]) = Normal <$> dest ++ e.1.
Proof.
  intros He. rewrite <-target_rel by done. destruct He as (Hne & Hg & _). unfold target.
  assert (is_absolute (rel e.1 ++ [slash]) = is_absolute (rel e.1)) as ->.
  { destruct e.1 as [|n p]; [done|]. apply Forall_cons in Hg as [(Hn & _) _].
    destruct n; [done|]. unfold rel. by destruct p. }
  f_equal. rewrite (split_app slash (rel e.1) []), omap_app. simpl. by rewrite app_nil_r.
Qed.

Lemma create_chain fs cur p cs : dir_chain fs (cur ++ p) →
  create_dir_all fs cur ((Normal <$> p) ++ cs) = create_dir_all fs (cur ++ p) cs.
Proof.
  revert cur. induction p as [|n p IH]; intros cur H; [by rewrite app_nil_r|]. simpl.
  assert (dir_chain fs ((cur ++ [n]) ++ p)) as H' by by rewrite <-(assoc_L (++)).
  pose proof (dir_chain_at _ _ (dir_chain_app _ _ _ H')) as Hd. unfold dir_at in Hd.
  rewrite (bool_decide_false (cur ++ [n] = [])) in Hd by (by destruct cur). simpl in Hd.
  apply bool_decide_eq_true in Hd. rewrite Hd, IH by done. by rewrite <-(assoc_L (++)).
Qed.

(** A path of which everything but the last piece is there. *)
Section last_piece.
Context (dest q : path) (n : bytes) (fs : fsys).
Context (Hc : dir_chain fs (dest ++ q)) (Hn : fs !! (dest ++ q ++ [n]) = None).

Lemma last_target : (Normal <$> dest ++ q ++ [n]) = (Normal <$> dest ++ q) ++ [Normal n].
Proof. by rewrite (assoc_L (++)), fmap_app. Qed.

Lemma last_check : traversal_check dest (Normal <$> dest ++ q ++ [n]) fs = (true, fs).
Proof.
  unfold traversal_check. rewrite (realpath_chain fs [] dest) by by eapply dir_chain_app.
  rewrite last_target, removelast_last.
  rewrite bool_decide_false by (by destruct (Normal <$> dest ++ q)).
  pose proof (create_chain fs [] (dest ++ q) [] Hc) as E. rewrite app_nil_r in E. simpl in E.
  rewrite E. f_equal. unfold canonical_target. rewrite last_snoc, removelast_last, realpath_app.
  rewrite (realpath_chain fs [] (dest ++ q) Hc). simpl. rewrite (dir_chain_at _ _ Hc).
  rewrite <-(assoc_L (++)), Hn. destruct ((Normal <$> dest ++ q) ++ [Normal n]) eqn:Et.
  { by destruct (Normal <$> dest ++ q). }
  simpl. apply bool_decide_eq_true. by rewrite take_app_length.
Qed.

Lemma last_mkdir : create_dir_all fs [] (Normal <$> dest ++ q ++ [n]) = <[dest ++ q ++ [n] := FDir]> fs.
Proof.
  rewrite last_target, (create_chain fs [] (dest ++ q)) by done. simpl.
  by rewrite <-(assoc_L (++)), Hn.
Qed.

Lemma last_write c : write_file fs (Normal <$> dest ++ q ++ [n]) c = Some (<[dest ++ q ++ [n] := FFile c]> fs).
Proof.
  unfold write_file. rewrite last_target, last_snoc, removelast_last.
  rewrite (realpath_chain fs [] (dest ++ q) Hc). simpl. rewrite (dir_chain_at _ _ Hc).
  by rewrite <-(assoc_L (++)), Hn.
Qed.
End last_piece.

Lemma short_name e : short e → rel e.1 ≠ [] ∧ rel e.1 ≠ lit ".".
Proof.
  intros (Hne & Hg & Hv & _). split; intros E; pose proof (split_rel _ Hne Hg) as Hs; rewrite E in Hs.
  - rewrite <-Hs in Hg. by apply Forall_singleton in Hg as (? & _).
  - rewrite <-Hs in Hv. specialize (Hv 1%nat). by vm_compute in Hv.
Qed.

Lemma short_file_name e : short e → file_name_ok (rel e.1) = true.
Proof.
  intros (Hne & Hg & Hv & _). unfold file_name_ok. rewrite split_rel by done.
  destruct (e.1) as [|n q _] using rev_ind; [done|]. rewrite last_snoc.
  assert (component_of n = Some (Normal n)) as Hn
    by (apply (visible_plain (q ++ [n])); [done|done|apply elem_of_app; right; by left]).
  apply negb_true_iff, bool_decide_eq_false. by intros [->|[->| ->]].
Qed.

Lemma blocks_padding size : 0 ≤ size → blocks size = size + Z.of_nat (padding size).
Proof.
  intros H. unfold blocks, padding. rewrite Z2Nat.id by (apply Z.mod_pos_bound; lia).
  pose proof (Z.div_mod size 512 ltac:(lia)). pose proof (Z.mod_pos_bound size 512 ltac:(lia)).
  set (q := size / 512) in *. set (r := size `mod` 512) in *.
  destruct (decide (r = 0)) as [E|E].
  - rewrite E in *. replace (size + 511) with (511 + q * 512) by lia.
    rewrite Z.div_add by lia. change ((512 - 0) `mod` 512) with 0. change (511 / 512) with 0. lia.
  - rewrite (Z.mod_small (512 - r)) by lia.
    replace (size + 511) with ((r - 1) + (q + 1) * 512) by lia.
    rewrite Z.div_add by lia. rewrite (Z.div_small (r - 1)) by lia. lia.
Qed.

Definition files (l : list (path * fnode)) : nat := length (filter (λ e, is_file e = true) l).

(** A block is a header and the data it announces. *)
Lemma block_parts mtime dest e b : short e → block mtime e = Some b →
  match e.2 with FFile c => zlen c < 2 ^ 64 | FDir => True end →
  ∃ h size flag data name, b = h ++ data ∧ size + Z.of_nat (padding size) = zlen data ∧
    0 ≤ size < 2 ^ 64 ∧ flag ≠ x00 ∧ write_tar_header (mtime (rel e.1)) name size flag = Some h ∧
    tar_name h = name ∧ name ≠ [] ∧ name ≠ lit "." ∧
    target dest name = Normal <$> dest ++ e.1 ∧
    match e.2 with
    | FDir => flag = x35
    | FFile c => flag = x30 ∧ name = rel e.1 ∧ data = c ++ zeros (padding size) ∧ size = zlen c
    end.
Proof.
  intros He Hb Hsz. pose proof (short_name e He) as [Hr1 Hr2]. pose proof He as (Hne & Hg & Hv & Hlen).
  unfold block in Hb. pose proof (rel_valid _ Hg). pose proof (rel_no_nul _ Hg). destruct (e.2) as [|c].
  - exists b, 0, x35, [], (rel e.1 ++ [slash]).
    split_and!; try done; [by rewrite app_nil_r| | | |by apply target_dir].
    + eapply header_name; [done|rewrite length_app; simpl; lia| |by apply utf8_valid_app].
      apply not_elem_of_app. split; [done|]. by apply (bool_decide_unpack _).
    + by destruct (rel e.1).
    + intros E%(f_equal length). rewrite length_app in E. change (length (lit ".")) with 1%nat in E. destruct (rel e.1); [done|]. simpl in E. lia.
  - destruct (write_tar_header _ _ _ _) as [h|] eqn:Eh; [|done]. simplify_eq/=.
    exists h, (zlen c), x30, (c ++ zeros (padding (zlen c))), (rel e.1).
    split_and!; try done; [|unfold zlen; lia| |by apply target_rel].
    + unfold zlen, zeros. rewrite length_app, length_replicate. lia.
    + eapply header_name; [done|lia|done|done].
Qed.

(** One block of the archive is one round of the loop. *)
Lemma extract_block mtime dest e b rest fs k fuel : short e → block mtime e = Some b →
  match e.2 with FFile c => zlen c < 2 ^ 64 | FDir => True end →
  dir_chain fs (dest ++ removelast e.1) → fs !! (dest ++ e.1) = None →
  extract_loop (S fuel) dest (b ++ rest) (fs, k) =
  extract_loop fuel dest rest (install dest fs e, (k + files [e])%nat).
Proof.
  intros He Hb Hsz Hc Hn.
  destruct (block_parts mtime dest e b He Hb Hsz) as (h & size & flag & data & name & -> & Hdata & Hsize &
    Hflag & Hh & Hname & Hn1 & Hn2 & Ht & Hkind).
  pose proof (header_length _ _ _ _ _ Hh) as Hhl. cbn [extract_loop]. rewrite <-(assoc_L (++)).
  destruct (Nat.ltb_spec (length (h ++ data ++ rest)) 512) as [Hlt|_];
    [rewrite length_app in Hlt; lia|].
  rewrite take_app_length', drop_app_length' by done. rewrite (header_not_zero _ _ _ _ _ Hh) by done.
  rewrite (header_size _ _ _ _ _ Hh), blocks_padding by lia.
  rewrite drop_app_length' by (unfold zlen in Hdata; lia). f_equal.
  unfold extract_entry. rewrite Hname, (header_size _ _ _ _ _ Hh), (header_flag _ _ _ _ _ Hh) by done.
  rewrite !(bool_decide_false (name = _)) by done. cbn [orb fst snd]. rewrite Ht.
  destruct e as [p nd]. cbn [fst snd] in *. destruct p as [|n q _] using rev_ind; [by destruct He|].
  rewrite removelast_last in Hc. rewrite last_check by done. cbn [negb].
  unfold install, files. cbn [fst snd]. destruct nd as [|c].
  - subst flag. rewrite last_mkdir by done. cbn. by rewrite Nat.add_0_r.
  - destruct Hkind as (-> & -> & -> & ->). cbn [bool_decide decide decide_rel orb].
    change (bool_decide (x30 = x35) || bool_decide (x30 = slash)) with false.
    change (bool_decide (x30 = x30) || bool_decide (x30 = x00)) with true. cbn iota.
    destruct (Z.leb_spec (zlen c) (zlen ((c ++ zeros (padding (zlen c))) ++ rest))) as [_|Hle].
    2:{ unfold zlen in Hle. rewrite !length_app in Hle. lia. }
    rewrite last_target, removelast_last.
    rewrite bool_decide_false by (by destruct (Normal <$> dest ++ q)).
    pose proof (create_chain fs [] (dest ++ q) [] Hc) as E. rewrite app_nil_r in E. simpl in E.
    pose proof (short_file_name _ He) as Hok. cbn [fst] in Hok.
    rewrite E, Hok, <-last_target, last_write by done.
    rewrite <-(assoc_L (++)), take_app_length' by (unfold zlen; lia). cbn. by rewrite Nat.add_1_r.
Qed.

Lemma extract_blocks mtime dest l : ∀ fs k fuel d, Forall short l →
  Forall (λ e, match e.2 with FFile c => zlen c < 2 ^ 64 | FDir => True end) l →
  concat_all (block mtime) l = Some d → ready dest fs l → (length l < fuel)%nat →
  extract_loop fuel dest (d ++ zeros 1024) (fs, k) = Some (foldl (install dest) fs l, (k + files l)%nat).
Proof.
  induction l as [|e l IH]; intros fs k fuel d Hs Hz E Hr Hf; simpl in E.
  - simplify_eq. destruct fuel; [lia|]. simpl app. cbn [extract_loop].
    change (length (zeros 1024) <? 512)%nat with false. cbn iota.
    replace (forallb _ (take 512 (zeros 1024))) with true by (vm_compute; reflexivity).
    by rewrite Nat.add_0_r.
  - apply Forall_cons in Hs as [He Hs], Hz as [Hz1 Hz2]. destruct Hr as (Hc & Hn & Hr).
    destruct (block mtime e) as [b|] eqn:Eb; [|done]. simpl in E.
    destruct (concat_all (block mtime) l) as [d'|] eqn:El; [|done]. simplify_eq/=.
    destruct fuel as [|fuel]; [lia|]. rewrite <-(assoc_L (++)), (extract_block mtime dest e) by done.
    rewrite IH by (done || simpl in Hf; lia). f_equal. f_equal. unfold files. rewrite <-Nat.add_assoc.
    f_equal. by rewrite filter_cons, filter_cons; case_decide.
Qed.

(** ** Directories come before what is in them *)

Lemma ready_app dest fs l l' :
  ready dest fs (l ++ l') ↔ ready dest fs l ∧ ready dest (foldl (install dest) fs l) l'.
Proof. revert fs. induction l as [|e l IH]; intros fs; simpl; [naive_solver|]. rewrite IH. naive_solver. Qed.

Lemma ready_keeps dest fs l k x : ready dest fs l → fs !! k = Some x →
  foldl (install dest) fs l !! k = Some x.
Proof.
  revert fs. induction l as [|e l IH]; intros fs; simpl; [done|]. intros (_ & Hn & Hr) Hk.
  apply IH; [done|]. unfold install. rewrite lookup_insert_ne; [done|]. intros E. congruence.
Qed.

Lemma install_lookup dest fs l k x : foldl (install dest) fs l !! k = Some x →
  fs !! k = Some x ∨ ∃ e, e ∈ l ∧ k = dest ++ e.1 ∧ x = e.2.
Proof.
  revert fs. induction l as [|e l IH]; intros fs; simpl; [by left|]. intros [H|(e' & ? & ?)]%IH.
  - unfold install in H. apply lookup_insert_Some in H as [[<- <-]|[_ ?]]; [|by left].
    right. exists e. split; [by left|done].
  - right. exists e'. split; [by right|done].
Qed.

Lemma ready_installs dest fs l e : ready dest fs l → e ∈ l →
  foldl (install dest) fs l !! (dest ++ e.1) = Some e.2.
Proof.
  revert fs. induction l as [|e' l IH]; intros fs; simpl; [by intros ? ?%elem_of_nil|].
  intros (_ & _ & Hr) [->|Hin]%elem_of_cons; [|by apply IH].
  apply ready_keeps; [done|]. unfold install. by rewrite lookup_insert_eq.
Qed.

Lemma dir_chain_keeps dest fs l p : ready dest fs l → dir_chain fs p →
  dir_chain (foldl (install dest) fs l) p.
Proof. intros Hr Hp k. eapply dir_at_mono; [|apply Hp]. intros q. by apply ready_keeps. Qed.

Lemma dir_chain_snoc fs p n : dir_chain fs p → fs !! (p ++ [n]) = Some FDir → dir_chain fs (p ++ [n]).
Proof.
  intros Hp Hn k. destruct (decide (k ≤ length p)%nat).
  - rewrite take_app_le by done. apply Hp.
  - rewrite take_ge by (rewrite length_app; simpl; lia). unfold dir_at.
    rewrite (bool_decide_true (_ = Some FDir)) by done. apply orb_true_r.
Qed.

Lemma installed_prefix n : ∀ p e, e ∈ installed p n → p `prefix_of` e.1.
Proof.
  induction n as [c| |es IH] using node_ind; intros p e; cbn [installed]; case_match;
    try by intros ?%elem_of_nil.
  - by intros ->%list_elem_of_singleton.
  - intros [->|Hin]%elem_of_cons; [done|]. induction es as [|[m n] es IHes]; simpl in Hin.
    { by apply elem_of_nil in Hin. }
    apply Forall_cons in IH as [IH1 IH2]. apply elem_of_app in Hin as [Hin|Hin]; [|by apply IHes].
    apply IH1 in Hin. etrans; [by apply prefix_app_r|done].
Qed.

(** Nothing is there below a path. *)
Definition vacant (dest : path) (fs : fsys) (p : path) : Prop :=
  ∀ r, p `prefix_of` r → fs !! (dest ++ r) = None.

Lemma vacant_sibling dest fs p m m' n : m ≠ m' → vacant dest fs (p ++ [m']) →
  vacant dest (foldl (install dest) fs (installed (p ++ [m]) n)) (p ++ [m']).
Proof.
  intros Hm Hv r Hr. destruct (foldl _ _ _ !! _) as [x|] eqn:E; [exfalso|done].
  apply install_lookup in E as [E|(e & Hin & E & _)]; [by rewrite Hv in E|].
  apply app_inv_head in E. subst r. apply installed_prefix in Hin.
  destruct Hin as [s Hs], Hr as [s' Hs']. rewrite Hs, <-!(assoc_L (++)) in Hs'.
  apply app_inv_head in Hs'. by simplify_eq/=.
Qed.

Lemma installed_in_ready dest p es : ∀ fs, NoDup es.*1 → dir_chain fs (dest ++ p) →
  (∀ m, m ∈ es.*1 → vacant dest fs (p ++ [m])) →
  Forall (λ e, ∀ fs m, dir_chain fs (dest ++ p) → vacant dest fs (p ++ [m]) →
    ready dest fs (installed (p ++ [m]) e.2)) es →
  ready dest fs (installed_in p es).
Proof.
  unfold installed_in. induction es as [|[m n] es IH]; intros fs Hnd Hc Hv Hr; [done|]. simpl in *.
  apply NoDup_cons in Hnd as [Hm Hnd]. apply Forall_cons in Hr as [Hr1 Hr2]. apply ready_app.
  assert (ready dest fs (installed (p ++ [m]) n)) as H1 by (apply Hr1; [done|apply Hv; by left]).
  split; [done|]. apply IH; [done|by apply dir_chain_keeps| |done].
  intros m' Hm'. apply vacant_sibling; [by intros ->|]. apply Hv. by right.
Qed.

Lemma installed_ready dest n : ∀ q name fs, good_node n → dir_chain fs (dest ++ q) →
  vacant dest fs (q ++ [name]) → ready dest fs (installed (q ++ [name]) n).
Proof.
  induction n as [c| |es IH] using node_ind; intros q name fs Hg Hc Hv; cbn [installed];
    destruct (hidden (q ++ [name])); try done; cbn [ready fst snd]; rewrite removelast_last.
  - split_and!; [done|by apply Hv|done].
  - apply good_entries_unfold in Hg as [Hnd Hg]. split_and!; [done|by apply Hv|].
    set (p := q ++ [name]) in *. apply (installed_in_ready dest p es); [done|..].
    + unfold install. subst p. cbn [fst snd]. rewrite (assoc_L (++)). apply dir_chain_snoc.
      * intros k. eapply dir_at_mono; [|apply Hc]. intros r Hr. rewrite lookup_insert_ne; [done|].
        intros E. rewrite <-(assoc_L (++)) in E. rewrite <-E, Hv in Hr by done. done.
      * by rewrite lookup_insert_eq.
    + intros m _ r [s Hs]. unfold install. cbn [fst snd]. rewrite lookup_insert_ne.
      * apply Hv. exists ([m] ++ s). by rewrite (assoc_L (++)).
      * intros E%app_inv_head. rewrite Hs in E. apply (f_equal length) in E.
        rewrite !length_app in E. simpl in E. lia.
    + clear -IH Hg. induction es as [|[m n] es IHes]; constructor.
      * apply Forall_cons in IH as [IH _], Hg as [[_ Hg] _]. intros fs m' Hc Hv. by apply IH.
      * apply Forall_cons in IH as [_ IH], Hg as [_ Hg]. by apply IHes.
Qed.

Lemma installed_names n : ∀ q name e, visible q → Forall good_name (q ++ [name]) → good_node n →
  e ∈ installed (q ++ [name]) n → e.1 ≠ [] ∧ Forall good_name e.1 ∧ visible e.1.
Proof.
  induction n as [c| |es IH] using node_ind; intros q name e Hv Hg Hn; cbn [installed];
    destruct (hidden (q ++ [name])) eqn:Eh; try by intros ?%elem_of_nil.
  - intros ->%list_elem_of_singleton. split_and!; [by destruct q|done|by apply visible_snoc].
  - intros [->|Hin]%elem_of_cons; [split_and!; [by destruct q|done|by apply visible_snoc]|].
    apply good_entries_unfold in Hn as [_ Hn]. induction es as [|[m n] es IHes]; simpl in Hin.
    { by apply elem_of_nil in Hin. }
    apply Forall_cons in IH as [IH1 IH2], Hn as [[Hm Hn1] Hn2].
    apply elem_of_app in Hin as [Hin|Hin]; [|by apply IHes].
    apply (IH1 (q ++ [name]) m); [by apply visible_snoc| |done|done].
    apply Forall_app. by rewrite Forall_singleton.
Qed.

(** What a header can hold. *)
Definition fits (e : path * fnode) : Prop :=
  match e.2 with
  | FDir => (length (rel e.1) < 100)%nat
  | FFile c => (length (rel e.1) ≤ 100)%nat ∧ zlen c < 2 ^ 64
  end.

Lemma installed_in_short es : good_entries es → Forall fits (installed_in [] es) →
  Forall short (installed_in [] es).
Proof.
  intros [_ Hes]%good_entries_unfold Hf. rewrite Forall_forall in Hf. apply Forall_forall.
  intros e Hin. pose proof (Hf e Hin) as He.
  assert (e.1 ≠ [] ∧ Forall good_name e.1 ∧ visible e.1) as (H1 & H2 & H3).
  { clear Hf He. unfold installed_in in Hin. induction Hes as [|[m n] es [Hm Hn] _ IH]; simpl in Hin.
    { by apply elem_of_nil in Hin. }
    apply elem_of_app in Hin as [Hin|Hin]; [|by apply IH]. eapply (installed_names n [] m); try done.
    - intros k. by rewrite take_nil.
    - by apply Forall_singleton. }
  split_and!; [done..|]. unfold fits in He. destruct (e.2); lia.
Qed.

Lemma block_length mtime e b : block mtime e = Some b → (512 ≤ length b)%nat.
Proof.
  unfold block. destruct (e.2).
  - intros H. by rewrite (header_length _ _ _ _ _ H).
  - destruct (write_tar_header _ _ _ _) as [h|] eqn:E; [|done]. simpl. intros [= <-].
    rewrite length_app, (header_length _ _ _ _ _ E). lia.
Qed.

Lemma blocks_length mtime l d : concat_all (block mtime) l = Some d → (length l ≤ length d)%nat.
Proof.
  revert d. induction l as [|e l IH]; intros d; simpl; [lia|].
  destruct (block mtime e) as [b|] eqn:Eb; [|done]. simpl.
  destruct (concat_all _ l) as [d'|]; [|done]. simpl. intros [= <-]. specialize (IH d' eq_refl).
  apply block_length in Eb. rewrite length_app. lia.
Qed.


(** Unpacking writes no file outside of its directory, whatever the archive:
    for any bytes, with absolute names or names with [..] as well, it comes to an
    end, the files outside of the directory are as before, and no directory is
    lost. *)
Theorem embedded_confined (gunzip : bytes → option bytes) (gz archive : bytes) (dest : path)
    (fs : fsys) : gunzip gz = Some archive → dir_chain fs dest →
  ∃ fs' n, extract_tar_gz gunzip gz dest fs = Some (fs', n) ∧ confined dest fs fs'.
Proof.
  intros Hgz Hc. unfold extract_tar_gz. rewrite Hgz. cbn [mbind option_bind].
  destruct (extract_loop_total (S (length archive)) dest archive (fs, O)) as [[fs' n] E]; [lia|].
  exists fs', n. split; [done|]. by eapply extract_loop_confined.
Qed.

(** ** Examples *)

(** Compression that does nothing. *)
Definition plain_gzip (b : bytes) : option bytes := Some b.

Definition srv : path := [lit "srv"].

Definition ex_fs : fsys := {[ srv := FDir; [lit "etc"] := FDir ]}.

Definition ex_app : list (bytes * node) :=
  [(lit "public", Dir [(lit "index.php", File (lit "<?php echo 1;")); (lit ".htaccess", File [])]);
   (lit ".env", File (lit "KEY=1")); (lit "node_modules", Dir [(lit "x.js", File [])]);
   (lit "empty", Dir [])].

Lemma ex_fs_chain : dir_chain ex_fs srv.
Proof. intros [|[|k]]; vm_compute; reflexivity. Qed.


(** An archive with an entry that leaves its directory. *)
Definition escaping : bytes :=
  default [] (h ← write_tar_header 0 (lit "../etc/cron/x") 4 x30;
              Some (h ++ lit "evil" ++ zeros 508 ++ zeros 1024)).

(** The file is not written, but its directory is made before the check. *)
Lemma embedded_confined_witness :
  ∃ fs' n, extract_tar_gz plain_gzip escaping srv ex_fs = Some (fs', n) ∧ confined srv ex_fs fs'.
Proof.
  apply (embedded_confined plain_gzip escaping escaping srv ex_fs); [reflexivity|exact ex_fs_chain].
Defined.

Definition unpacked (tar : bytes) (fs : fsys) : fsys * nat :=
  default (∅, O) (extract_tar_gz plain_gzip tar srv fs).

Example traversal_makes_directory :
  let r := unpacked escaping ex_fs in
  (r.1 !! [lit "etc"; lit "cron"], r.1 !! [lit "etc"; lit "cron"; lit "x"], r.2) =
  (Some FDir, None, O).
Proof. vm_compute. reflexivity. Qed.

(** Two files whose paths agree in 100 bytes become one. *)
Example long_names_collide :
  let name (c : byte) : bytes := replicate 100 x61 ++ [c] in
  let r := unpacked (default [] (pack_tar (λ _, 0)
             [(name x31, File (lit "first")); (name x32, File (lit "second"))])) ex_fs in
  (r.1 !! (srv ++ [replicate 100 x61]), r.1 !! (srv ++ [name x31]), r.2) =
  (Some (FFile (lit "second")), None, 2%nat).
Proof. vm_compute. reflexivity. Qed.

(** A file that cannot be written is passed over, and the marker says that the
    application is there; files of an earlier version stay. *)
Example incomplete_app_marked :
  let fs := <[srv ++ [lit "old.php"] := FFile (lit "old")]>
              (<[srv ++ [lit "a.php"] := FDir]> ex_fs) in
  let r := extract_embedded_app plain_gzip (λ _, lit "1f")
             (default [] (pack_tar (λ _, 0) [(lit "a.php", File (lit "new"))])) srv fs in
  (r.1, r.2 !! (srv ++ [MARKER]), r.2 !! (srv ++ [lit "a.php"]), r.2 !! (srv ++ [lit "old.php"])) =
  (Some srv, Some (FFile (lit "1f")), Some FDir, Some (FFile (lit "old"))).
Proof. vm_compute. reflexivity. Qed.
