(* ===== verification/SharedMemory.v ===== *)
(** * The shared memory segment

    turbine-worker/src/shared_mem.rs: a mapping that is filled before the workers
    are forked and then sealed. The kernel's answers to [mmap] and [mprotect] are
    arguments; an access outside the mapping is a result of its own, since the
    code goes through raw pointers. *)

From S2P Require Import Prelude.

(** How a call ends: it returns, it panics (an [assert!], [expect] or an overflow
    that is checked), or it touches memory outside the mapping. *)
Inductive access (A : Type) : Type :=
| Returns (a : A)
| Panics
| OutOfBounds.
Arguments Returns {A} a.
Arguments Panics {A}.
Arguments OutOfBounds {A}.

Inductive WorkerError := SharedMemoryCreate (errno : Z) | SharedMemorySeal (errno : Z).

(** The mapped bytes (their number is [len]) and the flag. *)
Record SharedMemory := { mapped : bytes; sealed : bool }.

Definition len (m : SharedMemory) : Z := zlen (mapped m).
Definition is_empty (m : SharedMemory) : bool := len m =? 0.
Definition is_sealed (m : SharedMemory) : bool := sealed m.

(** An anonymous mapping holds zeros; a size of zero is not a [NonZero]. *)
Definition shm_new (mmap : Z → result unit Z) (size : nat) :
    access (result SharedMemory WorkerError) :=
  match size with
  | O => Panics
  | _ => match mmap (Z.of_nat size) with
         | Err e => Returns (Err (SharedMemoryCreate e))
         | Ok _ => Returns (Ok {| mapped := repeat x00 size; sealed := false |})
         end
  end.

Definition shm_seal (mprotect : Z → result unit Z) (m : SharedMemory) :
    result unit WorkerError * SharedMemory :=
  if sealed m then (Ok tt, m)
  else match mprotect (len m) with
       | Err e => (Err (SharedMemorySeal e), m)
       | Ok _ => (Ok tt, {| mapped := mapped m; sealed := true |})
       end.

Definition as_mut_ptr (m : SharedMemory) : access unit :=
  if sealed m then Panics else Returns tt.

(** [offset + n] on [usize]: with overflow checks (debug builds) it panics,
    without (release builds) it wraps. *)
Definition usize_add (checks : bool) (x y : Z) : access Z :=
  if (2 ^ 64 <=? x + y) && checks then Panics else Returns (wrap_u 64 (x + y)).

(** [copy_nonoverlapping] to [ptr + offset]. *)
Definition copy_to (m : SharedMemory) (offset : Z) (data : bytes) : access SharedMemory :=
  if bool_decide (data = []) then Returns m
  else if offset + zlen data <=? len m then
    Returns {| mapped := take (Z.to_nat offset) (mapped m) ++ data ++
                         drop (Z.to_nat offset + length data) (mapped m);
               sealed := sealed m |}
  else OutOfBounds.

Definition shm_write (checks : bool) (m : SharedMemory) (offset : Z) (data : bytes) :
    access SharedMemory :=
  if sealed m then Panics
  else match usize_add checks offset (zlen data) with
       | Returns e => if e <=? len m then copy_to m offset data else Panics
       | Panics => Panics
       | OutOfBounds => OutOfBounds
       end.

Definition shm_read (checks : bool) (m : SharedMemory) (offset n : Z) : access bytes :=
  match usize_add checks offset n with
  | Returns e =>
      if e <=? len m then
        if n =? 0 then Returns []
        else if offset + n <=? len m then
          Returns (take (Z.to_nat n) (drop (Z.to_nat offset) (mapped m)))
        else OutOfBounds
      else Panics
  | Panics => Panics
  | OutOfBounds => OutOfBounds
  end.

(** ** Bounds *)

(** The sizes a [usize] and a slice can have. *)
Definition usize (v : Z) : Prop := 0 ≤ v < 2 ^ 64.

Lemma usize_add_fits checks x y : 0 ≤ x → 0 ≤ y → x + y < 2 ^ 64 →
  usize_add checks x y = Returns (x + y).
Proof.
  intros. unfold usize_add. destruct (Z.leb_spec (2 ^ 64) (x + y)); [lia|]. simpl.
  by rewrite wrap_u_small by lia.
Qed.

Lemma len_write m offset data : (Z.to_nat offset + length data ≤ length (mapped m))%nat →
  length (take (Z.to_nat offset) (mapped m) ++ data ++
          drop (Z.to_nat offset + length data) (mapped m)) = length (mapped m).
Proof. intros. rewrite !length_app, length_take, length_drop. lia. Qed.

(** Writing inside a segment that is not sealed succeeds, keeps its size, is read
    back, and leaves every byte outside of the range as it was. *)
Theorem shared_write_read (checks : bool) (m : SharedMemory) (offset : Z) (data : bytes) :
  0 ≤ offset → offset + zlen data ≤ len m → len m < 2 ^ 64 → sealed m = false →
  ∃ m', shm_write checks m offset data = Returns m' ∧ len m' = len m ∧ sealed m' = false ∧
    shm_read checks m' offset (zlen data) = Returns data ∧
    ∀ i, (i < Z.to_nat offset ∨ Z.to_nat offset + length data ≤ i)%nat →
      mapped m' !! i = mapped m !! i.
Proof.
  intros Ho Hl Hm Hs. unfold zlen, len in *.
  assert (offset = Z.of_nat (Z.to_nat offset)) as Eo by lia.
  assert (Z.to_nat offset + length data ≤ length (mapped m))%nat as Hn by (unfold zlen in *; lia).
  assert (Hadd : usize_add checks offset (Z.of_nat (length data)) =
    Returns (offset + Z.of_nat (length data))) by (apply usize_add_fits; unfold zlen in *; lia).
  unfold shm_write, shm_read, copy_to, len, zlen in *. rewrite Hs, Hadd.
  rewrite !(proj2 (Z.leb_le _ _)) by lia.
  case_bool_decide as Hd.
  - subst data. exists m. rewrite !(proj2 (Z.leb_le _ _)) by (simpl in *; lia). done.
  - eexists. split; [done|]. simpl mapped. rewrite len_write by done.
    rewrite !(proj2 (Z.leb_le _ _)) by lia. split_and!; [done..| |].
    + rewrite (proj2 (Z.eqb_neq _ _)) by (destruct data; simpl; [done|lia]). f_equal.
      rewrite drop_app_length' by (rewrite length_take; lia).
      by rewrite Nat2Z.id, take_app_length.
    + intros i [Hi|Hi].
      * rewrite lookup_app_l by (rewrite length_take; lia). by rewrite lookup_take_lt.
      * rewrite lookup_app_r by (rewrite length_take; lia).
        rewrite lookup_app_r by (rewrite length_take; lia).
        rewrite lookup_drop, length_take. f_equal. lia.
Qed.

Lemma shared_write_read_witness :
  let m := {| mapped := repeat x00 8; sealed := false |} in
  ∃ m', shm_write false m 3 (lit "opc") = Returns m' ∧ len m' = len m ∧ sealed m' = false ∧
    shm_read false m' 3 (zlen (lit "opc")) = Returns (lit "opc") ∧
    ∀ i, (i < Z.to_nat 3 ∨ Z.to_nat 3 + length (lit "opc") ≤ i)%nat →
      mapped m' !! i = mapped m !! i.
Proof.
  intros m. apply (shared_write_read false m 3 (lit "opc")); try reflexivity; vm_compute; congruence.
Defined.

(** The sum of two sizes, at most one [2 ^ 64] too large. *)
Lemma wrap_sum x y : usize x → usize y → 2 ^ 64 ≤ x + y → wrap_u 64 (x + y) = x + y - 2 ^ 64.
Proof.
  unfold usize, wrap_u. intros.
  rewrite <-(Z.mod_small (x + y - 2 ^ 64) (2 ^ 64)) by lia.
  by rewrite <-(Z_mod_plus_full (x + y - 2 ^ 64) 1), Z.mul_1_l, Z.sub_add.
Qed.

(** The checks of [write] and [read] keep every access inside the segment where
    sums of sizes are checked for overflow. In a release build they are not, and
    exactly the ranges that run over the end of the address space, back into the
    segment, get through: the access is then outside. *)
Theorem shared_access_bounds (m : SharedMemory) (offset n : Z) (data : bytes) :
  usize offset → usize n → usize (len m) → zlen data = n →
  shm_write true m offset data ≠ OutOfBounds ∧ shm_read true m offset n ≠ OutOfBounds ∧
  (shm_read false m offset n = OutOfBounds ↔
     0 < n ∧ 2 ^ 64 ≤ offset + n ∧ offset + n - 2 ^ 64 ≤ len m) ∧
  (shm_write false m offset data = OutOfBounds ↔
     sealed m = false ∧ 0 < n ∧ 2 ^ 64 ≤ offset + n ∧ offset + n - 2 ^ 64 ≤ len m).
Proof.
  intros Ho Hn Hm Hd.
  assert (data = [] ↔ n = 0) as Hnil by (subst n; unfold zlen; destruct data; naive_solver lia).
  unfold shm_write, shm_read, copy_to, usize_add. rewrite Hd.
  destruct (Z.leb_spec (2 ^ 64) (offset + n)) as [Hw|Hw]; simpl.
  - rewrite wrap_sum by done. unfold usize in *.
    split_and!; [by destruct (sealed m)|done|..].
    + destruct (Z.leb_spec (offset + n - 2 ^ 64) (len m)), (Z.eqb_spec n 0),
        (Z.leb_spec (offset + n) (len m)); naive_solver lia.
    + destruct (sealed m); [naive_solver|].
      destruct (Z.leb_spec (offset + n - 2 ^ 64) (len m)); [|naive_solver lia].
      case_bool_decide; [naive_solver lia|].
      destruct (Z.leb_spec (offset + n) (len m)); naive_solver lia.
  - rewrite wrap_u_small by (unfold usize in *; lia). unfold usize in *.
    destruct (Z.leb_spec (offset + n) (len m)).
    + split_and!; [destruct (sealed m); [done|]; by case_bool_decide|by destruct (n =? 0)|..].
      * destruct (n =? 0); naive_solver lia.
      * destruct (sealed m); [naive_solver|]. case_bool_decide; naive_solver lia.
    + split_and!; [by destruct (sealed m)|done|naive_solver lia|].
      destruct (sealed m); naive_solver lia.
Qed.

(** A sealed segment stays as it is: every write panics, sealing again does
    nothing, and what was written before is still read. *)
Theorem sealed_is_constant (mprotect : Z → result unit Z) (m m' : SharedMemory) (checks : bool) :
  shm_seal mprotect m = (Ok tt, m') →
  mapped m' = mapped m ∧
  (∀ offset data, shm_write checks m' offset data = Panics) ∧ as_mut_ptr m' = Panics ∧
  (∀ offset n, shm_read checks m' offset n = shm_read checks m offset n) ∧
  ∀ mprotect', shm_seal mprotect' m' = (Ok tt, m').
Proof.
  unfold shm_seal. destruct (sealed m) eqn:Es.
  - intros [= <-]. unfold shm_write, as_mut_ptr. by rewrite Es.
  - destruct (mprotect (len m)); [|done]. by intros [= <-].
Qed.

(** A range that starts below the end of the address space passes the check. *)
Example wrapped_range_escapes :
  let m := {| mapped := repeat x00 4096; sealed := true |} in
  shm_read false m (2 ^ 64 - 16) 32 = OutOfBounds ∧ shm_read true m (2 ^ 64 - 16) 32 = Panics.
Proof. vm_compute. by split. Qed.

Lemma sealed_is_constant_witness :
  let m := {| mapped := lit "opcodes"; sealed := false |} in
  let m' := {| mapped := lit "opcodes"; sealed := true |} in
  mapped m' = mapped m ∧
  (∀ offset data, shm_write false m' offset data = Panics) ∧ as_mut_ptr m' = Panics ∧
  (∀ offset n, shm_read false m' offset n = shm_read false m offset n) ∧
  ∀ mprotect', shm_seal mprotect' m' = (Ok tt, m').
Proof.
  intros m m'. apply (sealed_is_constant (λ _, Ok tt) m m' false). reflexivity.
Defined.

Lemma shared_access_bounds_witness :
  let m := {| mapped := repeat x00 64; sealed := false |} in
  shm_write true m (2 ^ 64 - 1) (lit "ab") ≠ OutOfBounds ∧
  shm_read true m (2 ^ 64 - 1) 2 ≠ OutOfBounds ∧
  (shm_read false m (2 ^ 64 - 1) 2 = OutOfBounds ↔
     0 < 2 ∧ 2 ^ 64 ≤ 2 ^ 64 - 1 + 2 ∧ 2 ^ 64 - 1 + 2 - 2 ^ 64 ≤ len m) ∧
  (shm_write false m (2 ^ 64 - 1) (lit "ab") = OutOfBounds ↔
     sealed m = false ∧ 0 < 2 ∧ 2 ^ 64 ≤ 2 ^ 64 - 1 + 2 ∧ 2 ^ 64 - 1 + 2 - 2 ^ 64 ≤ len m).
Proof.
  intros m. apply (shared_access_bounds m (2 ^ 64 - 1) 2 (lit "ab")); try reflexivity;
    split; vm_compute; congruence.
Defined.
