(* ===== verification/HandleRequest.v ===== *)
(** * A request from end to end (turbine-core/src/main.rs, handle_request_inner)

    The composition of the components: internal endpoints (Admin), ACME
    challenges (Acme), static files and the choice of a script (RequestGate), the body
    (Compat), the security verdict (Security), the cache (ResponseCache), the
    coalescer, the backend that runs the script, and the hooks on its response
    (Features). What a backend answers is an argument, a [reply]: the components
    that produce it are PersistentWorker, NativeWorker, WorkerPool and
    ThreadDispatch. What the coalescer gives a follower is an argument too. The
    access log and trace output are left out. *)

From S2P Require Import Prelude RustStr Utf8 F64 Http Compat.
From S2P Require Import SharedTable TaskQueue WsHub AsyncIo Metrics ResponseCache BehaviourGuard.
From S2P Require Import Acme Security Admin PathGuard RequestGate Features.

(** ** Data *)

(** What followers of the coalescer are given. *)
Record CoalescedResponse := {
  co_status : Z;
  co_content_type : bytes;
  co_body : bytes;
  co_headers : list (bytes * bytes) }.

(** A request without a leader before it runs the script; a follower waits, and
    gets nothing when its leader gave up. *)
Inductive role := Leads | Follows (shared : option CoalescedResponse).

(** Who runs the script. [NamedPool i] is the i-th pool of the configuration. *)
Inductive backend := Executor | Threads | DefaultPool | NamedPool (i : nat) | NoBackend.

(** How a backend fails: no worker in time, the worker cannot be written to, it
    dies or answers garbage, the script fails in the executor, and so on. *)
Inductive failure :=
| NoIdleWorker
| SendFailed
| WorkerError (e : bytes)
| TimedOut
| ScriptError (e : bytes)
| ChannelClosed
| PoolClosed
| AllBusy
| WorkerUnavailable.

(** A decoded response: PHP's success, the status, the headers and the body. *)
Record php_reply := {
  rp_success : bool;
  rp_status : Z;
  rp_headers : list (bytes * bytes);
  rp_body : bytes }.

Definition reply := result php_reply failure.

(** What of the configuration and the start-up state decides how requests are
    answered. *)
Record InnerConfig := {
  ic_gate : ServerState;
  ic_admin : AdminConfig;
  ic_cache : CacheConfig;
  ic_features : FeatureConfig;
  ic_executor : bool;
  ic_thread_dispatch : bool;
  ic_pool_routes : list bytes;
  ic_default_pool : bool;
  error_page_404 : option bytes;
  error_page_500 : option bytes }.

(** ** Choosing a backend *)

Definition choose_backend (cfg : InnerConfig) (clean_path : bytes) : backend :=
  let pool := find_pool (ic_pool_routes cfg) (ic_default_pool cfg) clean_path in
  if ic_executor cfg then Executor
  else if ic_thread_dispatch cfg && bool_decide (pool = Some None) then Threads
  else match pool with
       | Some None => DefaultPool
       | Some (Some i) => NamedPool i
       | None => NoBackend
       end.

(** The status a script's response starts with: the thread dispatch reports a
    failure that set no status of its own, the pools take no status for 200. *)
Definition threads_status (r : php_reply) : Z :=
  if negb (rp_success r) && (200 <=? rp_status r) && (rp_status r <? 400) then 500 else rp_status r.

Definition pool_status (r : php_reply) : Z := if rp_status r =? 0 then 200 else rp_status r.

Definition reply_status (b : backend) (r : php_reply) : Z :=
  match b with
  | Threads => threads_status r
  | DefaultPool | NamedPool _ => pool_status r
  | Executor | NoBackend => rp_status r
  end.

Definition is_content_type (h : bytes * bytes) : bool := eq_ignore_ascii_case h.1 (lit "Content-Type").

Definition php_content_type (headers : list (bytes * bytes)) (body : bytes) : bytes :=
  match list_find is_content_type headers with
  | Some (_, h) => h.2
  | None => detect_content_type body
  end.

Definition extra_headers (headers : list (bytes * bytes)) : list (bytes * bytes) :=
  List.filter (λ h, negb (is_content_type h) && negb (eq_ignore_ascii_case h.1 (lit "Content-Length")))
    headers.

(** What the guards scan: the query, the form, and a body that is no form. *)
Definition BODY_SCAN_LIMIT : Z := 8192.

Definition scan_list (r : FullHttpRequest) : list (bytes * bytes) :=
  let post := post_params r in
  let raw := if negb (bool_decide (fr_body r = [])) && bool_decide (post = [])
             then from_utf8_lossy (take (Z.to_nat BODY_SCAN_LIMIT) (fr_body r)) else [] in
  get_params r ++ post ++ (if decide (raw = []) then [] else [(lit "_body", raw)]).

Section inner.
Context {B : Type} `{BroadcastOps B}.
Context {ip : Type} `{Countable ip}.
Context {FS : Type}.
(** The parameters of Http, Compat, Admin and RequestGate. *)
Context (valid_status : Z → bool) (valid_name valid_value : bytes → bool) (version : bytes).
Context (to_lowercase : bytes → bytes) (parse_boundary : bytes → option bytes)
  (parts : bytes → bytes → list multipart_event) (write_ok : bytes → bool) (pid : Z).
Context (sha1_base64 : bytes → bytes).
Context (parse_ip : bytes → option ip) (show_ip : ip → bytes).
Context (io_canonicalize : FS → bytes → option bytes) (open_read : FS → bytes → result bytes bytes)
  (open_write : FS → bytes → bool → bytes → result FS bytes).
Context (show_f64 : f64 → bytes)
  (iter : gmap bytes EndpointMetrics → list (bytes * EndpointMetrics)) (template : bytes).
Context (path_exists is_file : bytes → bool) (canonicalize read_file : bytes → option bytes).
Context (xxh3 : bytes → Z) (hex : Z → bytes).
Context (find_patterns : list bytes → bytes → option (nat * nat)).
(** The message of a read that failed. *)
Context (io_message : bytes).
Context (cache_iter : store → list (bytes * CachedResponse)).

#[local] Abbreviation sh_state := (shared (B := B) (ip := ip) (FS := FS)).

(** The state: what Admin shares, and the tokens of pending challenges. *)
Record server := { sv_shared : sh_state; sv_tokens : gmap bytes bytes }.

(** The request of one client: its address, when it arrived and when the response
    is ready, in nanoseconds. *)
Record client := { cl_ip : ip; cl_start : Z; cl_done : Z }.

Definition set_shared (s : sh_state) (v : server) : server :=
  {| sv_shared := s; sv_tokens := sv_tokens v |}.

Definition set_metrics (m : MetricsCollector) (s : sh_state) : sh_state :=
  {| sh_metrics := m; sh_cache := sh_cache s; sh_security := sh_security s; sh_table := sh_table s;
     sh_queue := sh_queue s; sh_hub := sh_hub s; sh_io := sh_io s; sh_fs := sh_fs s;
     sh_timers := sh_timers s; sh_sessions := sh_sessions s |}.

Definition elapsed_us (c : client) : Z := (cl_done c - cl_start c) / 1000.

(** [state.metrics.record_request] and [state.security.record_request] *)
Definition count_request (c : client) (path : bytes) (status size : Z) (s : sh_state) : sh_state :=
  set_metrics (Metrics.record_request path status (elapsed_us c) size (sh_metrics s)) s.

Definition count_block (s : sh_state) : sh_state :=
  set_metrics (record_security_block (sh_metrics s)) s.

Definition count_client (c : client) (was_error : bool) (s : sh_state) : sh_state :=
  let l := sh_security s in
  set_security (set_behaviour (BehaviourGuard.record_request (cl_ip c) was_error (sl_behaviour l)) l) s.

Definition answer (status : Z) (content_type body : bytes) (headers : list (bytes * bytes)) : Response :=
  build_response valid_status valid_name valid_value version status content_type body headers.

Definition plain (status : Z) (body : bytes) : Response := answer status (lit "text/plain") body [].

(** ** The end of a run *)

(** The hooks, the counters, the cache and the coalescer. [store] is the key and the
    hash of the source when the response may be stored. *)
Definition finish (cfg : InnerConfig) (c : client) (php_path : bytes) (was_error : bool)
    (store : option (Request * Z)) (status : Z) (headers : list (bytes * bytes)) (body : bytes)
    (s : sh_state) : Response * option CoalescedResponse * sh_state :=
  let r := (postprocess_php_response canonicalize read_file (ic_features cfg)
              {| pr_status := status; pr_content_type := php_content_type headers body;
                 pr_headers := headers; pr_body := body |}).1 in
  let s := count_client c was_error s in
  let s := count_request c php_path (pr_status r) (zlen (pr_body r)) s in
  let '(published, s) :=
    match store with
    | Some (rq, hash) =>
        if response_prevents_caching (pr_headers r) then (None, s)
        else
          (Some {| co_status := pr_status r; co_content_type := pr_content_type r;
                   co_body := pr_body r; co_headers := pr_headers r |},
           set_cache (store_response cache_iter (ic_cache cfg) (cl_done c) rq hash (pr_status r)
                        (pr_content_type r) (pr_headers r) (pr_body r) (sh_cache s)) s)
    | None => (None, s)
    end in
  (answer (pr_status r) (pr_content_type r) (pr_body r) (extra_headers (pr_headers r)), published, s).

(** The envelope of the executor, when there is one. *)
Definition open_envelope (r : php_reply) : php_reply :=
  match parse_turbine_response_envelope (rp_body r) with
  | Some (status, headers, body) =>
      {| rp_success := rp_success r; rp_status := status; rp_headers := headers; rp_body := body |}
  | None => r
  end.

Definition no_idle_worker (c : client) (php_path : bytes) (s : sh_state) : Response * sh_state :=
  (plain 504 (lit "Request timeout waiting for worker"), count_request c php_path 504 0 s).

(** A backend that fails. *)
Definition executor_failed (cfg : InnerConfig) (c : client) (php_path : bytes) (f : failure)
    (s : sh_state) : Response * sh_state :=
  match f with
  | SendFailed => (plain 500 (lit "PHP executor unavailable"), s)
  | TimedOut => (plain 504 (lit "Request timeout"), count_request c php_path 504 0 s)
  | ScriptError e =>
      (match error_page_500 cfg with
       | Some page => answer 500 (lit "text/html; charset=utf-8") page []
       | None => plain 500 (lit "PHP Error: " ++ e)
       end, count_request c php_path 500 0 (count_client c true s))
  | _ => (plain 500 (lit "PHP executor channel closed"), s)
  end.

Definition threads_failed (c : client) (php_path : bytes) (f : failure) (s : sh_state)
    : Response * sh_state :=
  match f with
  | NoIdleWorker => no_idle_worker c php_path s
  | WorkerError e => (plain 502 (lit "Worker error: " ++ e), count_request c php_path 502 0 s)
  | _ => (plain 502 (lit "Worker communication error"), s)
  end.

Definition pool_failed (c : client) (php_path : bytes) (f : failure) (s : sh_state)
    : Response * sh_state :=
  match f with
  | NoIdleWorker => no_idle_worker c php_path s
  | WorkerError _ =>
      (plain 502 (lit "Worker response error"), count_request c php_path 502 0 (count_client c true s))
  | PoolClosed => (plain 503 (lit "Worker pool closed"), s)
  | AllBusy => (plain 503 (lit "All workers busy"), s)
  | WorkerUnavailable => (plain 502 (lit "Worker unavailable"), s)
  | _ => (plain 502 (lit "Worker communication error"), s)
  end.

(** The backends, with the key and the hash that the response is stored under. *)
Definition run_executor (cfg : InnerConfig) (c : client) (php_path : bytes) (key : Request * Z)
    (rep : reply) (s : sh_state) : Response * option CoalescedResponse * sh_state :=
  match rep with
  | Err f => let '(r, s) := executor_failed cfg c php_path f s in (r, None, s)
  | Ok r =>
      let r := open_envelope r in
      finish cfg c php_path false (Some key) (rp_status r) (rp_headers r) (rp_body r) s
  end.

Definition run_threads (cfg : InnerConfig) (c : client) (php_path : bytes) (key : Request * Z)
    (rep : reply) (s : sh_state) : Response * option CoalescedResponse * sh_state :=
  match rep with
  | Err f => let '(r, s) := threads_failed c php_path f s in (r, None, s)
  | Ok r => finish cfg c php_path false (Some key) (threads_status r) (rp_headers r) (rp_body r) s
  end.

(** A script that failed counts as an error of the client. *)
Definition run_pool (cfg : InnerConfig) (c : client) (php_path : bytes) (key : Request * Z)
    (rep : reply) (s : sh_state) : Response * option CoalescedResponse * sh_state :=
  match rep with
  | Err f => let '(r, s) := pool_failed c php_path f s in (r, None, s)
  | Ok r =>
      finish cfg c php_path (negb (rp_success r)) (Some key) (pool_status r) (rp_headers r) (rp_body r) s
  end.

(** The part after the cache missed: the coalescer and the backend. *)
Definition execute (cfg : InnerConfig) (c : client) (rq : Request) (php_path : bytes) (hash : Z)
    (clean_path : bytes) (who : role) (rep : reply) (s : sh_state)
    : Response * option CoalescedResponse * sh_state :=
  let eligible := bool_decide (rq_method rq = lit "GET") && cfg_enabled (ic_cache cfg) in
  (* only a leader has a guard to publish with *)
  match (if eligible then who else Follows None) with
  | Follows (Some sh) =>
      (answer (co_status sh) (co_content_type sh) (co_body sh) (co_headers sh), None,
       count_client c false (count_request c php_path (co_status sh) (zlen (co_body sh)) s))
  | w =>
      let '(resp, published, s) :=
        match choose_backend cfg clean_path with
        | Executor => run_executor cfg c php_path (rq, hash) rep s
        | Threads => run_threads cfg c php_path (rq, hash) rep s
        | DefaultPool | NamedPool _ => run_pool cfg c php_path (rq, hash) rep s
        | NoBackend => (plain 500 (lit "No PHP executor configured"), None, s)
        end in
      (resp, match w with Leads => published | _ => None end, s)
  end.

(** ** The beginning *)

(** The messages of the guards. *)
Definition reason_message (a : ip) (r : block_reason) : bytes :=
  match r with
  | TemporarilyBlocked => lit "IP " ++ show_ip a ++ lit " is temporarily blocked"
  | RateLimit rps max =>
      lit "Rate limit exceeded: " ++ dec_string (f64_scaled 0 rps) ++ lit " req/s (max " ++
      dec_string max ++ lit ")"
  | Scanning rate n =>
      lit "Scanning detected: " ++ dec_string (f64_scaled 0 (f64_mul rate (f64_of_Z 100))) ++
      lit "% error rate over " ++ dec_string n ++ lit " requests"
  | SqlCached => lit "SQL injection (cached)"
  | SqlPattern m => lit "SQL injection pattern: " ++ m
  | Obfuscation m => lit "Code injection (obfuscation chain): " ++ m
  | CodePattern m => lit "Code injection pattern: " ++ m
  end.

Definition path_guard_message (e : PathGuardError) : bytes :=
  match e with
  | PathTraversal p => lit "Path traversal detected: " ++ p
  | NullByte p => lit "Null byte in path: " ++ p
  | BlockedPath p => lit "Access to blocked system path: " ++ p
  end.

Definition input_verdict (c : client) (r : FullHttpRequest) (s : sh_state) : Verdict * sh_state :=
  let l := sh_security s in
  let check params := let '(v, l) := check_input find_patterns xxh3 (cl_ip c) (cl_start c) (fr_path r) params l in
                      (v, set_security l s) in
  if needs_input_scan (sl_config l) then check (scan_list r)
  else if needs_behaviour_check (sl_config l) then check []
  else (Allow, s).

(** The request as RequestGate reads it. *)
Definition gate_request (req : HyperRequest) (r : FullHttpRequest) : Request :=
  {| rq_method := fr_method r; rq_path := fr_path r; rq_query_string := fr_query_string r;
     rq_host := header_text req (lit "host") |}.

(** A persistent worker's answer: no cache, no coalescer, and no client error. *)
Definition run_persistent (cfg : InnerConfig) (c : client) (php_path : bytes) (rep : reply) (s : sh_state)
    : Response * option CoalescedResponse * sh_state :=
  match rep with
  | Ok r => finish cfg c php_path false None (rp_status r) (rp_headers r) (rp_body r) s
  | Err NoIdleWorker => let '(r, s) := no_idle_worker c php_path s in (r, None, s)
  | Err (WorkerError e) =>
      (plain 502 (lit "Worker error: " ++ e), None, count_request c php_path 502 0 s)
  | Err _ => (plain 502 (lit "Worker communication error"), None, s)
  end.

(** What becomes of the choice of RequestGate. *)
Definition serve_outcome (cfg : InnerConfig) (c : client) (rq : Request) (php_path clean_path : bytes)
    (o : outcome) (who : role) (rep : reply) (s : sh_state)
    : Response * option CoalescedResponse * sh_state :=
  let refused body := (plain 403 body, None, count_request c php_path 403 0 (count_block s)) in
  match o with
  | NotWhitelisted _ => refused (lit "403 Forbidden: file not in execution whitelist")
  | InDataDirectory _ => refused (lit "403 Forbidden: execution denied in data directory")
  | SecurityBlocked reason => refused (lit "403 Forbidden: " ++ reason_message (cl_ip c) reason)
  | FileNotFound p =>
      (match error_page_404 cfg with
       | Some page => answer 404 (lit "text/html; charset=utf-8") page []
       | None => plain 404 (lit "File not found: " ++ p)
       end, None, count_request c php_path 404 0 s)
  | PersistentUnavailable =>
      (plain 500 (lit "Server configuration error: persistent workers unavailable"), None, s)
  | PersistentRun _ _ _ => run_persistent cfg c php_path rep s
  | PathRefused e => refused (lit "403 Forbidden: " ++ path_guard_message e)
  | ReadError => (plain 500 (lit "File read error: " ++ io_message), None, s)
  | CacheHit r =>
      (answer (cr_status r) (cr_content_type r) (cr_body r) [], None,
       count_client c false (count_request c php_path (cr_status r) (zlen (cr_body r))
         (set_metrics (record_cache_hit (sh_metrics s)) s)))
  | Execute _ _ hash =>
      execute cfg c rq php_path hash clean_path who rep
        (set_metrics (record_cache_miss (sh_metrics s)) s)
  end.

(** From the decoded request to the response. *)
Definition serve_script (cfg : InnerConfig) (c : client) (rq : Request) (clean_path : bytes)
    (verdict : Verdict) (who : role) (rep : reply) (s : sh_state)
    : Response * option CoalescedResponse * sh_state :=
  let g := ic_gate cfg in
  let php_path := resolve_path is_file (resolve_app to_lowercase g rq) (rq_path rq) in
  let '(o, cache) := handle_script to_lowercase is_file read_file xxh3 (ic_cache cfg) (cl_done c) g
                       verdict rq (sh_cache s) in
  serve_outcome cfg c rq php_path clean_path o who rep (set_cache cache s).

Definition static_answer (cfg : InnerConfig) (c : client) (req : HyperRequest) (clean_path : bytes)
    (s : sh_state) : option (Response * sh_state) :=
  let app := resolve_app to_lowercase (ic_gate cfg)
               {| rq_method := hr_method req; rq_path := hr_path req;
                  rq_query_string := default [] (hr_query req);
                  rq_host := header_text req (lit "host") |} in
  r ← try_serve_static to_lowercase is_file canonicalize read_file xxh3 hex (document_root app)
        (hr_path req) (header_text req (lit "if-none-match"));
  Some (answer (st_status r) (st_content_type r) (st_body r) (st_headers r),
        count_request c (trim_start_matches slash clean_path) (st_status r) (zlen (st_body r)) s).

Definition acme_answer (clean_path : bytes) (tokens : gmap bytes bytes) : Response :=
  match handle_challenge_request clean_path tokens with
  | Some key => plain 200 key
  | None => plain 404 (lit "ACME challenge token not found")
  end.

(** A request that cannot be read. *)
Definition refuse_request (c : client) (e : RequestBuildError) (s : sh_state) : Response * sh_state :=
  match e with
  | PayloadTooLarge => (plain 413 (lit "Payload Too Large"), count_request c [] 413 0 s)
  | BadRequest => (plain 400 (lit "Invalid HTTP request"), s)
  end.

Definition handle_request_inner (cfg : InnerConfig) (c : client) (req : HyperRequest) (who : role)
    (rep : reply) (v : server) : Response * option CoalescedResponse * server :=
  let clean_path := default (hr_path req) (head (split x3f (hr_path req))) in
  let s := sv_shared v in
  match handle_internal valid_status valid_name valid_value version to_lowercase parse_boundary parts
          write_ok pid sha1_base64 parse_ip show_ip io_canonicalize open_read open_write show_f64 iter
          template (ic_admin cfg) (cl_start c) req s with
  | Some (r, s) => (r, None, set_shared s v)
  | None =>
      if starts_with ACME_PREFIX clean_path then (acme_answer clean_path (sv_tokens v), None, v)
      else
        match static_answer cfg c req clean_path s with
        | Some (r, s) => (r, None, set_shared s v)
        | None =>
            match from_hyper to_lowercase parse_boundary parts write_ok pid req
                    (upload_tmp_dir (ic_admin cfg)) (upload_security (ic_admin cfg))
                    (max_body_bytes (ic_admin cfg)) with
            | Err e => let '(r, s) := refuse_request c e s in (r, None, set_shared s v)
            | Ok r =>
                let '(verdict, s) := input_verdict c r s in
                let '(resp, published, s) :=
                  serve_script cfg c (gate_request req r) clean_path verdict who rep s in
                (resp, published, set_shared s v)
            end
        end
  end.

(** ** Lemmas *)

(** A response that was stored is found again while it is fresh and the source has
    not changed. *)
Lemma get_put (config : CacheConfig) (now later : Z) (method uri : bytes) (hash : Z) (ct body : bytes)
    (m : store) :
  cfg_enabled config = true → method = lit "GET" → later - now < cfg_ttl config → 0 < cfg_ttl config →
  ∃ r m', ResponseCache.get config later method uri hash
            (put cache_iter config now method uri hash 200 ct body m) = (Some r, m') ∧
    cr_status r = 200 ∧ cr_content_type r = ct ∧ cr_body r = body.
Proof.
  intros Hen -> Hfresh Httl. unfold put, ResponseCache.get. rewrite Hen. cbn [negb].
  rewrite bool_decide_eq_true_2 by done. cbn [negb orb Z.eqb Pos.eqb]. rewrite lookup_insert_eq.
  unfold is_valid, elapsed. cbn [source_hash created_at ttl]. rewrite Z.eqb_refl.
  rewrite (proj2 (Z.ltb_lt _ _)) by lia. cbn [andb]. eexists _, _. split; [done|]. done.
Qed.

(** What the hooks make of a reply. *)
Definition processed (cfg : InnerConfig) (b : backend) (r : php_reply) : php_response :=
  let r := match b with Executor => open_envelope r | _ => r end in
  (postprocess_php_response canonicalize read_file (ic_features cfg)
     {| pr_status := reply_status b r; pr_content_type := php_content_type (rp_headers r) (rp_body r);
        pr_headers := rp_headers r; pr_body := rp_body r |}).1.

Definition coalesced (p : php_response) : CoalescedResponse :=
  {| co_status := pr_status p; co_content_type := pr_content_type p; co_body := pr_body p;
     co_headers := pr_headers p |}.

(** The answer of a leader whose script answered. *)
Lemma execute_leads cfg c rq php_path hash clean_path r (s : sh_state) :
  let b := choose_backend cfg clean_path in
  let p := processed cfg b r in
  b ≠ NoBackend →
  ∃ s', execute cfg c rq php_path hash clean_path Leads (Ok r) s =
    (answer (pr_status p) (pr_content_type p) (pr_body p) (extra_headers (pr_headers p)),
     (if response_prevents_caching (pr_headers p) then None
      else if bool_decide (rq_method rq = lit "GET") && cfg_enabled (ic_cache cfg)
           then Some (coalesced p) else None), s') ∧
    sh_cache s' = store_response cache_iter (ic_cache cfg) (cl_done c) rq hash (pr_status p)
                    (pr_content_type p) (pr_headers p) (pr_body p) (sh_cache s).
Proof.
  intros b p Hb. unfold execute. fold b.
  destruct (bool_decide (rq_method rq = lit "GET") && cfg_enabled (ic_cache cfg));
    cbn match; (destruct b eqn:Eb; [..|done]); unfold run_executor, run_threads, run_pool, finish;
    unfold p, processed, reply_status; rewrite ?Eb; cbn match zeta; unfold store_response;
    match goal with |- context [response_prevents_caching ?h] => destruct (response_prevents_caching h) end;
    eexists; (split; [reflexivity|done]).
Qed.

(** The gate looks only at the configuration and at the request, so it decides the
    same way again. *)
Lemma lookup_again cfg now later rq verdict cache f uri hash m m' :
  handle_script to_lowercase is_file read_file xxh3 (ic_cache cfg) now (ic_gate cfg) verdict rq cache =
    (Execute f uri hash, m) →
  uri = full_uri rq ∧
  handle_script to_lowercase is_file read_file xxh3 (ic_cache cfg) later (ic_gate cfg) verdict rq m' =
    match ResponseCache.get (ic_cache cfg) later (rq_method rq) (full_uri rq) hash m' with
    | (Some c, m2) => (CacheHit c, m2)
    | (None, m2) => (Execute f uri hash, m2)
    end.
Proof.
  unfold handle_script. destruct (admit_script _ _ _ _ _) as [p|o] eqn:Ea;
    [|intros [= -> _]; unfold admit_script in Ea; by repeat case_match].
  destruct (persistent_workers (ic_gate cfg)); [by destruct (dispatch_ready _)|].
  unfold lookup_response. destruct (validate _ _); [|done].
  destruct (read_file _) as [src|]; [|done].
  destruct (ResponseCache.get (ic_cache cfg) now _ _ _ cache) as [[cr|] m0]; [done|].
  intros [= <- <- <- <-]. split; [done|].
  by destruct (ResponseCache.get (ic_cache cfg) later _ _ _ m') as [[cr|] m2].
Qed.

(** *** Clients without errors *)

(** No address has an error to its name. *)
Definition quiet (bc : BehaviourConfig) (g : BehaviourGuard ip) : Prop :=
  bg_config g = bc ∧ ∀ a p, profiles g !! a = Some p → error_count p = 0.

Lemma rollover_errors bc now p : error_count p = 0 → error_count (rollover bc now p) = 0.
Proof. intros Hp. unfold rollover. by repeat case_match. Qed.

Lemma evaluate_errors bc now p : error_count p = 0 → error_count (evaluate bc now p).2 = 0.
Proof. intros Hp%(rollover_errors bc now). unfold evaluate. by repeat case_match. Qed.

Lemma quiet_step bc g o : (∀ a, o ≠ GRecord a true) → quiet bc g → quiet bc (guard_step g o).
Proof.
  intros Ho [Hc Hp]. split; [by rewrite guard_step_config|]. intros a.
  apply guard_step_profile; try done.
  - intros now _ _. apply evaluate_errors, profile_of_ind; [done|apply Hp].
  - intros p ->. by destruct (Ho a).
  - intros now _ _. assert (error_count (profile_of a now g) = 0) by (apply profile_of_ind; [done|apply Hp]).
    cbn zeta. by destruct (_ <=? _).
  - intros p _ E. simpl. by eapply Hp.
  - apply Hp.
Qed.

Lemma quiet_check bc g a now : quiet bc g → quiet bc (check_request a now g).2.
Proof. intros Hg. exact (quiet_step bc g (GCheck a now) ltac:(done) Hg). Qed.

(** Without errors there is no scanning, if the threshold is not negative. *)
Lemma quiet_no_scanning bc g a now x n : f64_leb f64_zero (scanning_error_rate bc) = true →
  quiet bc g → (check_request a now g).1 ≠ Block (Scanning x n).
Proof.
  intros Hr [Hc Hp]. unfold check_request. destruct (untracked a g); [done|].
  destruct (evaluate _ _ _) as [v p] eqn:E. simpl. intros ->.
  assert (error_count (rollover bc now (profile_of a now g)) = 0) as He
    by (apply rollover_errors, profile_of_ind; [done|apply Hp]).
  unfold evaluate in E. rewrite Hc in E.
  set (p0 := rollover bc now (profile_of a now g)) in *.
  destruct (blocked p0 && _ && _); [done|].
  set (p1 := if blocked p0 then set_block false 0 p0 else p0) in *.
  assert (error_count p1 = 0) as He1 by (unfold p1; by destruct (blocked p0)). clearbody p1.
  destruct (rate_exceeded _ _ _ _); [done|].
  destruct (scanning _ _ _) eqn:Es; [|done].
  unfold scanning in Es. cbn in Es. rewrite He1 in Es.
  rewrite (f64_zero_share (wrap_u 32 (request_count p1 + 1)) (scanning_error_rate bc) Hr) in Es.
  by destruct (_ <=? _).
Qed.

Definition quiet_state (bc : BehaviourConfig) (s : sh_state) : Prop :=
  quiet bc (sl_behaviour (sh_security s)).

Lemma quiet_params bc a now params l : quiet bc (sl_behaviour l) →
  quiet bc (sl_behaviour (scan_params find_patterns xxh3 a now params l).2).
Proof.
  intros Hl. unfold scan_params. destruct (if sc_sql_guard _ then _ else _) as [v g].
  destruct (is_blocked v).
  - destruct (2 <=? _); simpl; [|done]. exact (quiet_step bc _ (GSqli a now) ltac:(done) Hl).
  - by destruct (sc_code_injection_guard _).
Qed.

Lemma quiet_check_input bc a now path params l : quiet bc (sl_behaviour l) →
  quiet bc (sl_behaviour (check_input find_patterns xxh3 a now path params l).2).
Proof.
  intros Hl. unfold check_input. destruct (sc_enabled _); simpl; [|done].
  destruct (if sc_behaviour_guard _ then _ else _) as [bv b] eqn:E.
  assert (quiet bc b).
  { destruct (sc_behaviour_guard _); [|by simplify_eq].
    change b with (bv, b).2. rewrite <-E. by apply quiet_check. }
  destruct (is_blocked bv); [done|]. destruct (is_excluded _ _); [done|].
  destruct (_ =? 0); [done|]. by apply quiet_params.
Qed.

Lemma quiet_verdict bc c r s : quiet_state bc s → quiet_state bc (input_verdict c r s).2.
Proof.
  intros Hs. unfold input_verdict. repeat case_match; try done; simplify_eq/=.
  all: match goal with E : check_input _ _ ?a ?n ?p ?ps ?l = (_, ?l') |- _ =>
         pose proof (quiet_check_input bc a n p ps l Hs) as Hq; by rewrite E in Hq end.
Qed.

Lemma quiet_finish bc cfg c php_path store status headers body s : quiet_state bc s →
  quiet_state bc (finish cfg c php_path false store status headers body s).2.
Proof. intros Hs. unfold finish. by repeat case_match; simplify_eq/=. Qed.

(** Neither the content type nor the length is among the further headers. *)
Lemma extra_headers_none name hs : name = lit "Content-Type" ∨ name = lit "Content-Length" →
  List.filter (λ nv, valid_name nv.1 && valid_value nv.2 && eq_ignore_ascii_case nv.1 name)
    (extra_headers hs) = [].
Proof.
  intros Hn. unfold extra_headers. induction hs as [|[k v] hs IH]; [done|]. cbn [List.filter].
  unfold is_content_type at 1. cbn [fst snd].
  destruct (eq_ignore_ascii_case k (lit "Content-Type")) eqn:E1,
    (eq_ignore_ascii_case k (lit "Content-Length")) eqn:E2; cbn [negb andb]; [done..|].
  cbn [List.filter fst snd]. destruct Hn as [->| ->]; [rewrite E1|rewrite E2];
    by rewrite andb_false_r.
Qed.

(** The backends that never report an error of the client. *)
Definition quiet_backends (cfg : InnerConfig) : Prop :=
  persistent_workers (ic_gate cfg) = true ∨
  ic_executor cfg = false ∧ ic_thread_dispatch cfg = true ∧ ic_pool_routes cfg = [] ∧
  ic_default_pool cfg = true.

Lemma quiet_execute bc cfg c rq php_path hash clean_path who rep s :
  choose_backend cfg clean_path = Threads → quiet_state bc s →
  quiet_state bc (execute cfg c rq php_path hash clean_path who rep s).2.
Proof.
  intros Hb Hs. unfold execute. rewrite Hb.
  assert (quiet_state bc (run_threads cfg c php_path (rq, hash) rep s).2) as Hrun.
  { unfold run_threads. destruct rep as [r|f]; [by apply quiet_finish|by destruct f]. }
  destruct (if bool_decide (rq_method rq = lit "GET") && cfg_enabled (ic_cache cfg) then who
            else Follows None) as [|[sh|]]; [|done|];
    by destruct (run_threads _ _ _ _ _ _) as [[? ?] ?].
Qed.

Lemma quiet_outcome bc cfg c rq php_path clean_path o who rep s :
  (∀ f uri hash, o = Execute f uri hash → choose_backend cfg clean_path = Threads) → quiet_state bc s →
  quiet_state bc (serve_outcome cfg c rq php_path clean_path o who rep s).2.
Proof.
  intros Hb Hs. destruct o; try done; simpl.
  - unfold run_persistent. destruct rep as [r|f]; [by apply quiet_finish|by destruct f].
  - apply quiet_execute; [by eapply Hb|done].
Qed.

Lemma quiet_serve bc cfg c rq clean_path verdict who rep s : quiet_backends cfg → quiet_state bc s →
  quiet_state bc (serve_script cfg c rq clean_path verdict who rep s).2.
Proof.
  intros Hq Hs. unfold serve_script. destruct (handle_script _ _ _ _ _ _ _ _ _ _) as [o m] eqn:E.
  apply quiet_outcome; [|done]. intros f uri hash ->.
  destruct Hq as [Hper|(Hx & Ht & Hr & Hd)].
  - unfold handle_script in E. rewrite Hper in E.
    destruct (admit_script _ _ _ _ _) as [p|o] eqn:Ea; [by destruct (dispatch_ready _)|].
    injection E as -> _. unfold admit_script in Ea. by repeat case_match.
  - unfold choose_backend. by rewrite Hx, Ht, Hr, Hd.
Qed.

Lemma quiet_unblock bc cfg req g : quiet bc g →
  quiet bc (handle_unblock valid_status valid_name valid_value version to_lowercase parse_boundary
    parts write_ok pid parse_ip show_ip cfg req g).2.
Proof.
  intros Hg. unfold handle_unblock. destruct (body_within _ _ _ _ _ _ _ _ _ _ _ _) as [body|]; [|done].
  destruct (parse_ip _) as [a|]; [|done].
  pose proof (quiet_step bc g (GUnblock a) ltac:(done) Hg) as Hq. simpl in Hq.
  by destruct (unblock_ip a g).
Qed.

Lemma quiet_internal bc cfg now req s r s' : quiet_state bc s →
  handle_internal valid_status valid_name valid_value version to_lowercase parse_boundary parts
    write_ok pid sha1_base64 parse_ip show_ip io_canonicalize open_read open_write show_f64 iter
    template cfg now req s = Some (r, s') → quiet_state bc s'.
Proof.
  intros Hs. unfold handle_internal, feature_endpoint. set (clean := default _ _). case_match; [done|].
  pose proof (quiet_unblock bc cfg req _ Hs) as Hu.
  destruct (handle_unblock _ _ _ _ _ _ _ _ _ _ _ _ _ _) as [ru gu]. simpl in Hu.
  intros [= E]. repeat (case_match; simplify_eq/=; try done).
Qed.

(** ** Properties *)


(** What a failed script looks like depends on the backend. A script that fails after a status
    of 200 is answered with 500 by the thread dispatch and not stored, but with 200 by a worker
    pool, which stores the broken page and serves it to the next clients. *)
Theorem failed_script_masked (cfg : InnerConfig) (c : client) (rq : Request) (php_path : bytes)
    (hash : Z) (clean_path : bytes) (r : php_reply) (s : sh_state) :
  structured_logging_enabled (ic_features cfg) = false → x_sendfile_enabled (ic_features cfg) = false →
  rp_success r = false → rp_status r = 200 → response_prevents_caching (rp_headers r) = false →
  rq_method rq = lit "GET" → cfg_enabled (ic_cache cfg) = true →
  let '(resp, _, s') := execute cfg c rq php_path hash clean_path Leads (Ok r) s in
  let ct := php_content_type (rp_headers r) (rp_body r) in
  match choose_backend cfg clean_path with
  | Threads => resp = answer 500 ct (rp_body r) (extra_headers (rp_headers r)) ∧
               sh_cache s' = sh_cache s
  | DefaultPool | NamedPool _ =>
      resp = answer 200 ct (rp_body r) (extra_headers (rp_headers r)) ∧
      sh_cache s' = put cache_iter (ic_cache cfg) (cl_done c) (lit "GET") (full_uri rq) hash 200 ct
                      (rp_body r) (sh_cache s)
  | _ => True
  end.
Proof.
  intros Hlog Hsend Hok Hst Hprev Hget Hen.
  assert (Hp : ∀ b, b ≠ Executor → processed cfg b r =
    {| pr_status := reply_status b r; pr_content_type := php_content_type (rp_headers r) (rp_body r);
       pr_headers := rp_headers r; pr_body := rp_body r |}).
  { intros b Hb. unfold processed, postprocess_php_response, apply_logs, apply_sendfile.
    rewrite Hlog, Hsend. by destruct b. }
  destruct (choose_backend cfg clean_path) eqn:Eb;
    try (by destruct (execute _ _ _ _ _ _ _ _ _) as [[? ?] ?]).
  all: destruct (execute_leads cfg c rq php_path hash clean_path r s) as (s' & -> & Hcache);
    [by rewrite Eb|].
  all: rewrite Eb, Hp in Hcache |- * by done.
  all: cbn [pr_status pr_content_type pr_headers pr_body reply_status] in *.
  all: unfold threads_status, pool_status in *; rewrite ?Hok, ?Hst in Hcache |- *; cbn in Hcache |- *;
    unfold store_response in Hcache;
    rewrite Hprev, Hget in Hcache.
  all: split; [done|]; rewrite Hcache; unfold put; by rewrite Hen.
Qed.

(** A request as it comes in: the client, what hyper delivers, its place in the
    coalescer, and what the backend would answer. *)
Definition arrival : Type := client * HyperRequest * role * reply.

Definition run_requests (cfg : InnerConfig) (l : list arrival) (v : server) : server :=
  foldl (λ v '(c, req, who, rep), (handle_request_inner cfg c req who rep v).2) v l.

(** scanning is never detected with persistent workers or with the thread dispatch. Whatever
    requests arrive and however many of them are refused, not found or fail, no address ever has
    an error to its name, and the guard never answers that it is scanning. *)
Theorem scanning_never_detected (cfg : InnerConfig) (l : list arrival) (v : server)
    (bc : BehaviourConfig) (c : client) (x : f64) (n : Z) :
  quiet_backends cfg → quiet_state bc (sv_shared v) →
  f64_leb f64_zero (scanning_error_rate bc) = true →
  let g := sl_behaviour (sh_security (sv_shared (run_requests cfg l v))) in
  (∀ a p, profiles g !! a = Some p → error_count p = 0) ∧
  (check_request (cl_ip c) (cl_start c) g).1 ≠ Block (Scanning x n).
Proof.
  intros Hb Hs Hr. assert (quiet_state bc (sv_shared (run_requests cfg l v))) as Hq;
    [|split; [apply Hq|by apply (quiet_no_scanning bc)]].
  revert v Hs. induction l as [|[[[c1 req] who] rep] l IH]; intros v Hs; [done|]. apply IH.
  unfold handle_request_inner. set (clean := default _ _).
  destruct (handle_internal _ _ _ _ _ _ _ _ _ _ _ _ _ _ _ _ _ _ _ _ _ _) as [[r s']|] eqn:E.
  { by eapply quiet_internal. }
  destruct (starts_with _ clean); [done|].
  destruct (static_answer _ _ _ _ _) as [[r s']|] eqn:Es.
  { unfold static_answer in Es. destruct (try_serve_static _ _ _ _ _ _ _ _ _); [|done].
    injection Es as _ <-. done. }
  destruct (from_hyper _ _ _ _ _ _ _ _ _) as [fr|[]]; [|done|done].
  pose proof (quiet_verdict bc c1 fr _ Hs) as Hv. destruct (input_verdict _ _ _) as [verdict s1].
  pose proof (quiet_serve bc cfg c1 (gate_request req fr) clean verdict who rep s1 Hb Hv) as Hq.
  by destruct (serve_script _ _ _ _ _ _ _ _) as [[r1 p1] s2].
Qed.

(** what a follower of the coalescer is sent. The follower of a request that was answered and
    published has the leader's status and body and every header of the leader's script, cookies
    included; but of the content type and the length it gets the server's value and then the
    script's once more, where the leader's own response has each of them once. *)
Theorem follower_repeats_headers (cfg : InnerConfig) (c c' : client) (rq : Request)
    (php_path : bytes) (hash : Z) (clean_path : bytes) (r : php_reply) (rep' : reply)
    (s s' : sh_state) :
  let p := processed cfg (choose_backend cfg clean_path) r in
  let given name := (List.filter (λ h, valid_name h.1 && valid_value h.2 &&
                                       eq_ignore_ascii_case h.1 name) (pr_headers p)).*2 in
  choose_backend cfg clean_path ≠ NoBackend → rq_method rq = lit "GET" →
  cfg_enabled (ic_cache cfg) = true → response_prevents_caching (pr_headers p) = false →
  valid_value (pr_content_type p) = true →
  let '(leader, published, _) := execute cfg c rq php_path hash clean_path Leads (Ok r) s in
  let '(follower, _, _) := execute cfg c' rq php_path hash clean_path (Follows published) rep' s' in
  rs_status follower = rs_status leader ∧ rs_body follower = rs_body leader ∧
  Http.values (lit "Content-Type") (rs_headers leader) = [pr_content_type p] ∧
  Http.values (lit "Content-Type") (rs_headers follower) = pr_content_type p :: given (lit "Content-Type") ∧
  Http.values (lit "Content-Length") (rs_headers leader) = [dec_string (zlen (pr_body p))] ∧
  Http.values (lit "Content-Length") (rs_headers follower) =
    dec_string (zlen (pr_body p)) :: given (lit "Content-Length") ∧
  Http.values (lit "Set-Cookie") (rs_headers follower) = given (lit "Set-Cookie").
Proof.
  intros p given Hb Hget Hen Hprev Hct.
  destruct (execute_leads cfg c rq php_path hash clean_path r s Hb) as (s1 & -> & _).
  fold p. rewrite Hprev, Hget, Hen, bool_decide_eq_true_2 by done. cbn [andb].
  unfold execute. rewrite Hget, Hen, bool_decide_eq_true_2 by done. cbn [andb coalesced
    co_status co_content_type co_body co_headers].
  unfold answer, build_response. rewrite Hct. cbn [rs_status rs_body rs_headers].
  split_and!; try done; rewrite values_add_valid; unfold security_headers; simpl foldl;
    rewrite !values_append; try done.
  - by rewrite (extra_headers_none (lit "Content-Type")) by auto.
  - by rewrite (extra_headers_none (lit "Content-Length")) by auto.
Qed.
End inner.

(** ** Witnesses *)

Definition ex_app : AppStructure :=
  {| document_root := lit "/srv"; entry_point := lit "index.php"; front_controller := false;
     has_composer := false; has_env := false; autoload_path := None; document_root_str := lit "/srv" |}.

Definition ex_gate (persistent : bool) : ServerState :=
  {| execution_whitelist := []; data_directories := []; request_guard := {| root := lit "/srv" |};
     app_structure := ex_app; virtual_hosts := ∅; persistent_workers := persistent;
     dispatch_ready := true |}.

Definition ex_inner (persistent threads : bool) : InnerConfig :=
  {| ic_gate := ex_gate persistent; ic_admin := ex_admin None; ic_cache := default_config;
     ic_features := {| structured_logging_enabled := false; early_hints_enabled := false;
                       x_sendfile_enabled := false; x_sendfile_root := None |};
     ic_executor := false; ic_thread_dispatch := threads; ic_pool_routes := [];
     ic_default_pool := true; error_page_404 := None; error_page_500 := None |}.

Definition ex_client (done : Z) : client (ip := bytes) :=
  {| cl_ip := lit "10.0.0.1"; cl_start := done - 1000; cl_done := done |}.

Definition ex_rq : Request :=
  {| rq_method := lit "GET"; rq_path := lit "/a.php"; rq_query_string := []; rq_host := None |}.

Definition ex_reply (success : bool) : php_reply :=
  {| rp_success := success; rp_status := 200;
     rp_headers := [(lit "Content-Type", lit "text/html"); (lit "Set-Cookie", lit "sid=1")];
     rp_body := lit "<p>" |}.

Definition yes {A : Type} (_ : A) : bool := true.


Lemma failed_script_masked_witness :
  let run threads := execute (FS := gmap bytes node) yes yes yes (lit "1") (λ _, None) (λ _, None) map_to_list
    (ex_inner false threads) (ex_client 5000) ex_rq (lit "a.php") 7 (lit "/a.php") Leads
    (Ok (ex_reply false)) (ex_shared None None) in
  rs_status (run true).1.1 = 500 ∧ rs_status (run false).1.1 = 200.
Proof.
  intros run. split.
  - pose proof (failed_script_masked (FS := gmap bytes node) yes yes yes (lit "1") (λ _, None) (λ _, None)
      map_to_list (ex_inner false true) (ex_client 5000) ex_rq (lit "a.php") 7 (lit "/a.php")
      (ex_reply false) (ex_shared None None) eq_refl eq_refl eq_refl eq_refl eq_refl eq_refl eq_refl) as H.
    fold (run true) in H. destruct (run true) as [[resp ?] ?]. by destruct H as [-> _].
  - pose proof (failed_script_masked (FS := gmap bytes node) yes yes yes (lit "1") (λ _, None) (λ _, None)
      map_to_list (ex_inner false false) (ex_client 5000) ex_rq (lit "a.php") 7 (lit "/a.php")
      (ex_reply false) (ex_shared None None) eq_refl eq_refl eq_refl eq_refl eq_refl eq_refl eq_refl) as H.
    fold (run false) in H. destruct (run false) as [[resp ?] ?]. by destruct H as [-> _].
Defined.

Lemma scanning_never_detected_witness :
  let run := run_requests yes yes yes (lit "1") id (λ _, None) (λ _ _, []) yes 1 id Some id
    fs_canonicalize fs_read fs_write (λ _, []) map_to_list [] (λ _, false) (λ _, None) (λ _, None)
    (λ _, 7) (λ _, []) naive_find [] map_to_list (ex_inner true false) in
  let missing i := (ex_client (i * 10 ^ 6), ex_req (lit "GET") (lit "/wp-login.php") [] [] [],
                    Leads, Err AllBusy) : arrival in
  (check_request (lit "10.0.0.1") 0 (sl_behaviour (sh_security (sv_shared
     (run (missing <$> seqZ 0 30) {| sv_shared := ex_shared None None; sv_tokens := ∅ |}))))).1 ≠
  Block (Scanning f64_zero 20).
Proof.
  intros run missing.
  apply (scanning_never_detected yes yes yes (lit "1") id (λ _, None) (λ _ _, []) yes 1 id Some id
    fs_canonicalize fs_read fs_write (λ _, []) map_to_list [] (λ _, false) (λ _, None) (λ _, None)
    (λ _, 7) (λ _, []) naive_find [] map_to_list (ex_inner true false) (missing <$> seqZ 0 30)
    {| sv_shared := ex_shared None None; sv_tokens := ∅ |} default_behaviour (ex_client 1000));
    [by left|by split|reflexivity].
Defined.

Lemma follower_repeats_headers_witness :
  let run who rep := execute (FS := gmap bytes node) yes yes yes (lit "1") (λ _, None) (λ _, None) map_to_list
    (ex_inner false false) (ex_client 5000) ex_rq (lit "a.php") 7 (lit "/a.php") who rep
    (ex_shared None None) in
  let '(leader, published, _) := run Leads (Ok (ex_reply true)) in
  let '(follower, _, _) := run (Follows published) (Err AllBusy) in
  rs_status follower = rs_status leader ∧ rs_body follower = rs_body leader ∧
  Http.values (lit "Content-Type") (rs_headers leader) = [lit "text/html"] ∧
  Http.values (lit "Content-Type") (rs_headers follower) = [lit "text/html"; lit "text/html"] ∧
  Http.values (lit "Content-Length") (rs_headers leader) = [lit "3"] ∧
  Http.values (lit "Content-Length") (rs_headers follower) = [lit "3"] ∧
  Http.values (lit "Set-Cookie") (rs_headers follower) = [lit "sid=1"].
Proof.
  apply (follower_repeats_headers (FS := gmap bytes node) yes yes yes (lit "1") (λ _, None) (λ _, None)
    map_to_list (ex_inner false false) (ex_client 5000) (ex_client 5000) ex_rq (lit "a.php") 7
    (lit "/a.php") (ex_reply true) (Err AllBusy) (ex_shared None None) (ex_shared None None));
    [done|reflexivity..].
Defined.
