(* ===== verification/Cli.v ===== *)
(** * The other commands (turbine-core/src/cli_cmds.rs, bootstrap.rs)

    [turbine init], [check], [status] and [cache:clear], and the PHP text that is put
    before the application's bootstrap. A command ends with an exit code and what it
    printed; the file system, the connection to the server and the texts of the
    helpers are arguments. *)

From S2P Require Import Prelude RustStr Utf8 PathGuard Config ConfigFile Startup Compat Admin.

(** ** init *)

Inductive init_outcome := AlreadyExists | Created (path : bytes) | CannotWrite.

(** What [turbine init] does in [cwd], and the files after it; [write_ok] is whether
    the file can be written. *)
Definition cmd_init (template : bytes) (write_ok : bool) (cwd : bytes) (fs : gmap bytes bytes) :
    init_outcome * gmap bytes bytes :=
  let path := path_join cwd (lit "turbine.toml") in
  if bool_decide (is_Some (fs !! path)) then (AlreadyExists, fs)
  else if write_ok then (Created path, <[path := template]> fs) else (CannotWrite, fs).

(** A file that is there is never replaced. *)
Theorem init_keeps_files (template : bytes) (write_ok : bool) (cwd : bytes) (fs : gmap bytes bytes) :
  fs ⊆ (cmd_init template write_ok cwd fs).2.
Proof.
  unfold cmd_init. case_bool_decide as E; [done|]. destruct write_ok; [|done].
  apply insert_subseteq. by apply eq_None_not_Some.
Qed.

(** ** check *)

Inductive check_outcome :=
| FileNotFound (path : bytes)
| FileUnreadable (path : bytes)
| ParseError (path : bytes)
| Report (errors : list config_error) (warnings : list config_warning).

Section Check.
Context (cpus : option Z) (to_lowercase : bytes → bytes) (path_exists : bytes → bool).
Context (read_to_string : bytes → option bytes) (parse : bytes → option table).

Definition cmd_check (config_path : option bytes) (cwd : bytes) : check_outcome :=
  let path := default (path_join cwd (lit "turbine.toml")) config_path in
  if negb (path_exists path) then FileNotFound path
  else match read_to_string path with
       | None => FileUnreadable path
       | Some content =>
           match from_str cpus parse content with
           | None => ParseError path
           | Some c => let '(errors, warnings) := check to_lowercase path_exists (core c) in
                       Report errors warnings
           end
       end.

(** Warnings alone do not make the command fail. *)
Definition check_exit (o : check_outcome) : Z :=
  match o with Report [] _ => 0 | _ => 1 end.

(** What the report says of persistent workers. *)
Definition reported_persistent (c : FileConfig) : bool :=
  default false (sv_persistent_workers (f_server c)).

(** A check that succeeds speaks of the configuration that the server uses: started in
    the same directory with the same file, and no other options, it reads exactly
    the configuration that was checked and finds no error in it. *)
Theorem check_speaks_for_serve (chdir : bytes → bytes → option bytes) (a : args) (cwd path : bytes)
    (warnings : list config_warning) :
  arg_config a = Some path → arg_root a = None → is_absolute path = true →
  cmd_check (Some path) cwd = Report [] warnings →
  ∃ content c, read_to_string path = Some content ∧ from_str cpus parse content = Some c ∧
    read_config cpus path_exists read_to_string parse chdir None a cwd =
      Ok (cwd, c, [Log (Loaded path)]) ∧
    check to_lowercase path_exists (core c) = ([], warnings).
Proof.
  intros Hc Hr Ha. unfold cmd_check. change (default _ (Some path)) with path.
  destruct (path_exists path) eqn:Ep; cbn [negb]; [|done].
  destruct (read_to_string path) as [content|] eqn:Er; [|done].
  destruct (from_str cpus parse content) as [c|] eqn:Ef; [|done].
  destruct (check to_lowercase path_exists (core c)) as [errors ws] eqn:Eck. intros [= -> ->].
  exists content, c. split_and!; [done|done| |done].
  unfold read_config, enter_root. rewrite Hc, Hr. simpl. unfold resolve_config_path. rewrite Ha.
  unfold load_from. by rewrite Er, Ef.
Qed.
End Check.

(** The report takes persistent workers for off when the life cycle says otherwise. *)
Example lifecycle_unreported :
  let doc := [(lit "server", TTable [(lit "lifecycle", TString (lit "pool_reuse"))])] in
  (λ c, (reported_persistent c, effective_lifecycle (core c))) <$> RuntimeConfig_de (Some 4) doc =
    Some (false, PoolReuse).
Proof. reflexivity. Qed.

(** ** status and cache:clear *)

Definition CRLF : bytes := [x0d; x0a].

(** What the commands send. *)
Definition client_request (method path address : bytes) : bytes :=
  method ++ lit " " ++ path ++ lit " HTTP/1.1" ++ CRLF ++ lit "Host: " ++ address ++ CRLF ++
  lit "Connection: close" ++ CRLF ++ CRLF.

(** The same as the server's HTTP library hands it on. *)
Definition client_hyper (method path address : bytes) : HyperRequest :=
  {| hr_method := method; hr_path := path; hr_query := None; hr_version := lit "HTTP/1.1";
     hr_headers := [(lit "host", Some address); (lit "connection", Some (lit "close"))];
     hr_frames := [] |}.

(** The lines of what was received, each with its newline. *)
Fixpoint split_lines (line s : bytes) : list bytes :=
  match s with
  | [] => if decide (line = []) then [] else [line]
  | x :: s => if decide (x = x0a) then (line ++ [x]) :: split_lines [] s else split_lines (line ++ [x]) s
  end.

(** [read_line] until the end; a line that is not UTF-8 is an error, which ends it. *)
Fixpoint read_lines (ls : list bytes) : bytes :=
  match ls with
  | [] => []
  | l :: ls => if utf8_valid l then l ++ read_lines ls else []
  end.

Inductive client_outcome := CannotConnect | InvalidResponse | Printed (body : bytes).

(** [received]: what came until the connection was closed or broke, if there was one. *)
Definition client_read (received : option bytes) : client_outcome :=
  match received with
  | None => CannotConnect
  | Some s =>
      let response := read_lines (split_lines [] s) in
      match find (CRLF ++ CRLF) response with
      | Some i => Printed (drop (i + 4) response)
      | None => InvalidResponse
      end
  end.

Definition client_exit (o : client_outcome) : Z := match o with Printed _ => 0 | _ => 1 end.

(** [server]: what the server at the address sends back for what it gets, if it can be
    reached. *)
Definition cmd_status (server : bytes → option bytes) (address : bytes) : client_outcome :=
  client_read (server (client_request (lit "GET") (lit "/_/status") address)).

Definition cmd_cache_clear (server : bytes → option bytes) (address : bytes) : client_outcome :=
  client_read (server (client_request (lit "POST") (lit "/_/cache/clear") address)).

Lemma split_lines_join line s : mjoin (split_lines line s) = line ++ s.
Proof.
  revert line. induction s as [|x s IH]; intros line; simpl.
  - case_decide; subst; simpl; by rewrite ?app_nil_r.
  - case_decide; subst; simpl; rewrite IH; by rewrite <-(assoc_L app).
Qed.

Lemma read_lines_valid ls : Forall (λ l, utf8_valid l = true) ls → read_lines ls = mjoin ls.
Proof. induction 1 as [|l ls Hl _ IH]; simpl; [done|]. by rewrite Hl, IH. Qed.

Lemma find_app p s t i : find p s = Some i → find p (s ++ t) = Some i.
Proof.
  revert i. induction s as [|x s IH]; intros i.
  - simpl. destruct (starts_with p []) eqn:E; [|done]. intros [= <-].
    apply find_here. apply Is_true_true, starts_with_spec in E as [k Hk].
    apply Is_true_true, starts_with_spec. exists (k ++ t). by rewrite (assoc_L app), <-Hk.
  - change ((x :: s) ++ t) with (x :: (s ++ t)). rewrite !find_cons.
    destruct (starts_with p (x :: s)) eqn:E.
    + intros [= <-]. assert (starts_with p (x :: s ++ t) = true) as ->; [|done].
      apply Is_true_true, starts_with_spec in E as [k Hk]. apply Is_true_true, starts_with_spec.
      exists (k ++ t). rewrite (assoc_L app), <-Hk. done.
    + destruct (find p s) as [j|] eqn:Ej; [|done]. simpl. intros [= <-].
      destruct (starts_with p (x :: s ++ t)) eqn:E'; [|by rewrite (IH j eq_refl)].
      apply find_spec in Ej as (l & r & -> & <-).
      apply Is_true_true, starts_with_spec in E' as [k Hk].
      assert (starts_with p (x :: l ++ p ++ r) = true) as E2; [|congruence].
      apply Is_true_true, starts_with_spec. exists (drop (length p) (x :: l ++ p ++ r)).
      rewrite <-(take_drop (length p) (x :: l ++ p ++ r)) at 1. f_equal.
      change (x :: (l ++ p ++ r) ++ t) with ((x :: l ++ p ++ r) ++ t) in Hk.
      apply (f_equal (take (length p))) in Hk. rewrite take_app_length in Hk.
      rewrite take_app_le in Hk by (simpl; rewrite !length_app; lia). exact Hk.
Qed.

(** A response is printed from its body on, to the byte. *)
Theorem client_prints_body (head body : bytes) :
  Forall (λ l, utf8_valid l = true) (split_lines [] (head ++ (CRLF ++ CRLF) ++ body)) →
  find (CRLF ++ CRLF) (head ++ CRLF ++ CRLF) = Some (length head) →
  client_read (Some (head ++ (CRLF ++ CRLF) ++ body)) = Printed body.
Proof.
  intros Hv Hf. unfold client_read. rewrite (read_lines_valid _ Hv), split_lines_join.
  cbn [app]. rewrite (assoc_L app). erewrite find_app by done. f_equal.
  change 4%nat with (length (CRLF ++ CRLF)). rewrite <-length_app. by rewrite drop_app_length.
Qed.

(** [cache:clear] is refused by a server with a token, since it sends none, and the exit
    code does not tell: the refusal is printed, and the command succeeds. *)
Theorem cache_clear_refused (cfg : AdminConfig) (token address head body : bytes)
    (server : bytes → option bytes) :
  dashboard_token cfg = Some token →
  server (client_request (lit "POST") (lit "/_/cache/clear") address) =
    Some (head ++ (CRLF ++ CRLF) ++ body) →
  Forall (λ l, utf8_valid l = true) (split_lines [] (head ++ (CRLF ++ CRLF) ++ body)) →
  find (CRLF ++ CRLF) (head ++ CRLF ++ CRLF) = Some (length head) →
  authorized cfg (client_hyper (lit "POST") (lit "/_/cache/clear") address) = false ∧
  client_exit (cmd_cache_clear server address) = 0.
Proof.
  intros Ht Hs Hv Hf. split; [unfold authorized; by rewrite Ht|].
  unfold cmd_cache_clear, client_read. rewrite Hs. rewrite (read_lines_valid _ Hv), split_lines_join.
  cbn [app]. rewrite (assoc_L app). by erewrite find_app.
Qed.

Lemma client_prints_body_witness :
  let head := lit "HTTP/1.1 401 Unauthorized" ++ CRLF ++ lit "content-length: 2" in
  client_read (Some (head ++ (CRLF ++ CRLF) ++ lit "{}")) = Printed (lit "{}").
Proof.
  intros head. apply (client_prints_body head (lit "{}")); [|reflexivity].
  repeat constructor.
Defined.

(** ** The bootstrap of PHP *)

(** The texts of the helpers of each feature are arguments. *)
Record helpers := { log_fn : bytes; table_fns : bytes; task_fns : bytes; ws_fns : bytes; async_fns : bytes }.

Definition build_php_bootstrap (h : helpers) (c : FileConfig) (app_bootstrap : bytes) : bytes :=
  let out := app_bootstrap in
  let out := if sl_enabled (f_structured_logging c) then log_fn h ++ out else out in
  let out := if st_enabled (f_shared_table c) then table_fns h ++ out else out in
  let out := if tq_enabled (f_task_queue c) then task_fns h ++ out else out in
  let out := if wb_enabled (f_websocket c) then ws_fns h ++ out else out in
  if ai_enabled (f_async_io c) then async_fns h ++ out else out.
