(* ===== verification/Template.v ===== *)
(** * The template of the configuration (turbine-core/src/config.rs, [template])

    The text that [turbine init] writes, and what becomes of it. The text is in a raw
    string, where a backslash stays one. TOML is read by the [toml] crate, a
    parameter; [toml_doc] reads the documents whose every line is a comment, a
    header, or a key with a string, a number, a boolean or an array of them, and is
    what the parser is compared with. *)

From S2P Require Import Prelude RustStr PathGuard Config ConfigFile Startup Admin Cli.

(** ** The text *)

Definition template_head : bytes := q (lit "# Turbine Runtime Configuration
# https://github.com/turbine-php/turbine

[server]
# Number of worker processes (0 = auto-detect CPU cores)
workers = 4
# Listen address
listen = ~127.0.0.1:8080~
# TCP connection read/write timeout in seconds
connection_timeout = 30
# Request execution timeout in seconds (0 = no timeout)
request_timeout = 30
# Maximum time (seconds) a request waits for a free worker (0 = uses request_timeout)
# max_wait_time = 5
# Shared memory size in MB
shm_size_mb = 128
# Maximum PHP requests per worker before respawn
worker_max_requests = 10000
# Internal channel capacity (single-process mode)
channel_capacity = 64
# PID file path (comment out to disable)
# pid_file = \~/var/run/turbine.pid\~
# Auto-scaling: dynamically add/remove workers based on load
auto_scale = false
# min_workers = 1
# max_workers = 16
# scale_down_idle_secs = 5
[server.tls]
# Enable TLS (HTTPS + HTTP/2)
enabled = false
# Path to PEM certificate chain
# cert_file = ~/path/to/cert.pem~
# Path to PEM private key
# key_file = ~/path/to/key.pem~

[php]
# extension_dir = ~/path/to/extensions~
# PHP extensions to load (shared .so)
# extensions = [~redis.so~, ~imagick.so~, ~apcu.so~]
# Zend extensions to load
# zend_extensions = [~xdebug.so~]
memory_limit = ~256M~
max_execution_time = 30
upload_max_filesize = ~64M~
post_max_size = ~64M~
opcache_memory = 128
jit_buffer_size = ~64M~
# Temporary directory for file uploads
upload_tmp_dir = ~/tmp/turbine-uploads~
# OPcache preload script (auto-detect or explicit path)
# preload_script = ~auto~
# Custom php.ini directives (key=value)
# [php.ini]
# error_reporting = ~E_ALL~
# date.timezone = ~UTC~

[cache]
# Enable response cache
enabled = true
# Cache TTL in seconds
ttl_seconds = 30
# Maximum number of cached responses
max_entries = 1024

[security]
# Master switch for all security guards
enabled = true
# Individual guard toggles
sql_guard = true
code_injection_guard = true
path_traversal_guard = true
behaviour_guard = true
# Rate limiting: max requests per second per IP
max_requests_per_second = 100
# Rate limit window in seconds
rate_limit_window = 60

[sandbox]
# seccomp-bpf sandbox (Linux only)
seccomp = true
# Execution mode: ~strict~ (only whitelist) or ~framework~ (auto-detect entry point)
execution_mode = ~framework~
# PHP files allowed to execute via HTTP (strict mode only)
# execution_whitelist = [~public/index.php~]
# Directories where uploads/data live (PHP cannot execute files here)
data_directories = [~storage/~, ~uploads/~, ~public/uploads/~]
# Block uploads with these file extensions
blocked_upload_extensions = [~.php~, ~.phtml~, ~.phar~, ~.php7~, ~.php8~, ~.inc~, ~.phps~, ~.pht~, ~.pgif~]
# Scan upload content for embedded PHP code
scan_upload_content = true
# Disable dangerous PHP functions
disabled_functions = [~exec~, ~system~, ~passthru~, ~shell_exec~, ~proc_open~, ~popen~, ~pcntl_exec~, ~dl~, ~putenv~]
# Restrict PHP filesystem access to project directories only
enforce_open_basedir = true
# Block remote code inclusion
block_url_include = true
# Block remote file access  
block_url_fopen = true

[logging]
# Log level: trace, debug, info, warn, error
level = ~info~
# Access log file path (comment out to disable)
# access_log = ~/var/log/turbine/access.log~

").

Definition template_tail : bytes := q (lit "[compression]
# Enable response compression (brotli, zstd, gzip)
enabled = true
# Minimum body size in bytes to compress
min_size = 1024
# Compression level (1 = fastest, 9 = best, 6 = balanced)
level = 6
# Preferred algorithm order (first match with client Accept-Encoding wins)
algorithms = [~br~, ~zstd~, ~gzip~]

[error_pages]
# Custom HTML error pages (comment out to use defaults)
# not_found = ~/path/to/404.html~
# server_error = ~/path/to/500.html~

[session]
# Enable PHP session support
enabled = true
# Session file storage path
save_path = ~/tmp/turbine-sessions~
# Session cookie name
cookie_name = ~PHPSESSID~
# Cookie lifetime (0 = until browser close)
cookie_lifetime = 0
# HttpOnly flag
cookie_httponly = true
# Secure flag (auto-enabled when TLS is active)
cookie_secure = false
# SameSite attribute (Lax, Strict, None)
cookie_samesite = ~Lax~
# Garbage collection max lifetime in seconds
gc_maxlifetime = 1440

[cors]
# Enable CORS (Cross-Origin Resource Sharing)
enabled = false
# Allowed origins (use [\~*\~] for any origin)
# allow_origins = [\~https://example.com\~, \~http://localhost:3000\~]
allow_credentials = false
allow_methods = [\~GET\~, \~POST\~, \~PUT\~, \~DELETE\~, \~PATCH\~, \~OPTIONS\~]
allow_headers = [\~Content-Type\~, \~Authorization\~, \~X-Requested-With\~]
# expose_headers = [\~X-Total-Count\~]
max_age = 86400

[watcher]
# Enable file watcher (auto-restart workers on PHP file changes)
enabled = false
# Directories to watch (relative to app root)
paths = [~app/~, ~config/~, ~routes/~, ~src/~, ~public/~]
# File extensions to watch
extensions = [~php~, ~env~]
# Debounce interval in milliseconds
debounce_ms = 500

[early_hints]
# Enable 103 Early Hints support (preload CSS/JS before final response)
enabled = true

[x_sendfile]
# Enable X-Sendfile / X-Accel-Redirect (delegate large file serving to Turbine)
enabled = false
# Base directory for X-Accel-Redirect paths (relative to app root)
# root = ~private-files/~

[structured_logging]
# Enable structured JSON logging from PHP via turbine_log() markers
enabled = true
# Output: ~stdout~, ~stderr~, or a file path
output = ~stderr~

[acme]
# Enable automatic TLS via ACME (Let's Encrypt).
# When [[virtual_hosts]] are configured, their domains are auto-collected —
# you do NOT need to list them in 'domains'. Use 'domains' only for
# single-site setups without virtual hosting.
enabled = false
# Domain names for the certificate (only needed without [[virtual_hosts]])
# domains = [~example.com~, ~www.example.com~]
# Contact email for Let's Encrypt notifications
# email = ~admin@example.com~
# Certificate cache directory
cache_dir = ~/var/lib/turbine/acme~
# Use staging server (set to true for testing)
staging = false

[embed]
# Embed PHP app in binary (set TURBINE_EMBED_DIR at build time)
enabled = false
# extract_dir = ~/tmp/turbine-app~

[dashboard]
# Enable the /_/dashboard HTML page
enabled = true
# Enable /_/metrics and /_/status endpoints
statistics = true
# Bearer token to protect internal endpoints (comment out to disable auth)
# token = ~my-secret-token~

# Worker pool splitting: route specific paths to dedicated worker pools
# [[worker_pools]]
# match_path = ~/api/slow/*~
# min_workers = 1
# max_workers = 4
# name = ~slow-api~

# Virtual hosting: serve different PHP applications on different domains.
# All virtual hosts share the same worker pool (no memory overhead).
# Requests whose Host header does not match any virtual host use the global root.
#
# [[virtual_hosts]]
# domain = ~xpto.com~
# root = ~/var/www/xpto~
# aliases = [~www.xpto.com~]
# # entry_point = ~index.php~   # optional, auto-detected
# # tls_cert = ~/etc/ssl/xpto.com.pem~   # optional, per-host TLS
# # tls_key = ~/etc/ssl/xpto.com-key.pem~
#
# [[virtual_hosts]]
# domain = ~outro.com~
# root = ~/var/www/outro~
# aliases = [~www.outro.com~]
").

Definition template : bytes := template_head ++ template_tail.

(** ** Documents of one line an entry *)

Definition bare_char (x : byte) : bool :=
  let v := u8 x in
  (48 <=? v) && (v <=? 57) || (65 <=? v) && (v <=? 90) || (97 <=? v) && (v <=? 122) ||
  (v =? 45) || (v =? 95).

Definition bare_key (k : bytes) : bool := negb (bool_decide (k = [])) && forallb bare_char k.

(** A string without escapes, a number, or a boolean. *)
Definition simple_value (v : bytes) : option toml :=
  match v with
  | x22 :: r =>
      s ← strip_suffix [x22] r;
      if existsb (λ x, bool_decide (x = x22) || bool_decide (x = x5c)) s then None else Some (TString s)
  | _ =>
      if bool_decide (v = lit "true") then Some (TBoolean true)
      else if bool_decide (v = lit "false") then Some (TBoolean false)
      else if forallb (λ x, bool_decide (is_Some (digit x))) v
      then TInteger <$> parse_uint (2 ^ 63 - 1) v else None
  end.

Definition line_value (v : bytes) : option toml :=
  match v with
  | x5b :: r =>
      items ← strip_suffix [x5d] r;
      TArray <$> mapM (λ i, simple_value (trim i)) (split x2c items)
  | _ => simple_value v
  end.

Inductive line := Blank | Header (path : list bytes) | Entry (key : bytes) (v : toml).

Definition read_line (l : bytes) : option line :=
  match trim l with
  | [] | x23 :: _ => Some Blank
  | x5b :: r =>
      inner ← strip_suffix [x5d] r;
      let path := split x2e inner in
      if forallb bare_key path then Some (Header path) else None
  | l =>
      '(k, v) ← split_once x3d l;
      if bare_key (trim k) then Entry (trim k) <$> line_value (trim v) else None
  end.

Fixpoint set_key (k : bytes) (v : toml) (t : table) : table :=
  match t with
  | [] => [(k, v)]
  | (k', v') :: t => if bool_decide (k = k') then (k, v) :: t else (k', v') :: set_key k v t
  end.

(** The table at a path, made if it is not there, changed by [f]. *)
Fixpoint at_path (path : list bytes) (f : table → option table) (t : table) : option table :=
  match path with
  | [] => f t
  | p :: ps =>
      sub ← match get p t with
            | None => Some []
            | Some (TTable s) => Some s
            | Some _ => None
            end;
      sub ← at_path ps f sub; Some (set_key p (TTable sub) t)
  end.

(** A header or a key that is there already is an error. *)
Definition open_table (path : list bytes) (t : table) : option table :=
  match last path with
  | None => None
  | Some k =>
      at_path (removelast path) (λ s, if get k s is Some _ then None else Some (set_key k (TTable []) s)) t
  end.

Fixpoint read_lines_at (path : list bytes) (ls : list bytes) (t : table) : option table :=
  match ls with
  | [] => Some t
  | l :: ls =>
      e ← read_line l;
      match e with
      | Blank => read_lines_at path ls t
      | Header p => t ← open_table p t; read_lines_at p ls t
      | Entry k v =>
          t ← at_path path (λ s, if get k s is Some _ then None else Some (set_key k v s)) t;
          read_lines_at path ls t
      end
  end.

Definition toml_doc (s : bytes) : option table := read_lines_at [] (lines s) [].

Example toml_doc_ex :
  toml_doc (lit "[a]" ++ [x0a] ++ lit "# c" ++ [x0a] ++ lit "k = 12" ++ [x0a] ++ lit "[a.b]" ++ [x0a] ++
            q (lit "l = [~x~, ~y~]") ++ [x0a]) =
  Some [(lit "a", TTable [(lit "k", TInteger 12);
         (lit "b", TTable [(lit "l", TArray [TString (lit "x"); TString (lit "y")])])])].
Proof. by vm_compute. Qed.

(** An array whose first item begins with a backslash, which no value does. *)
Definition bad_array (l : bytes) : bool :=
  match split_once x3d (trim l) with
  | Some (k, v) =>
      bare_key (trim k) &&
      match trim v with x5b :: r => starts_with [x5c] (trim r) | _ => false end
  | None => false
  end.

(** The template with the quotes that were meant. *)
Definition mended : bytes := Admin.replace [x5c; x22] [x22] template.

(** ** What becomes of the template *)

Section Init.
Context (cpus : option Z) (to_lowercase : bytes → bytes) (parse : bytes → option table).

(** A file system of texts. *)
Definition exists_in (fs : gmap bytes bytes) (p : bytes) : bool := bool_decide (is_Some (fs !! p)).

(** The file that [turbine init] writes is not TOML: the quotes of two arrays of the section
    [cors] have backslashes before them. With a parser that refuses an array that
    begins with a backslash on a line of its own, [turbine check] fails on the new file, and the
    server, which goes on with the defaults, has neither the rate limit nor the response
    cache that the file turns on; nor does any other change of the file reach it. *)
Theorem template_never_loaded (cwd : bytes) (fs : gmap bytes bytes) :
  (∀ doc i l, lines doc !! i = Some l → Forall (λ l, is_Some (read_line l)) (take i (lines doc)) →
    bad_array l = true → parse doc = None) →
  let path := path_join cwd (lit "turbine.toml") in
  fs !! path = None →
  let '(o, fs') := cmd_init template true cwd fs in
  let c := (load cpus (exists_in fs') (λ p, fs' !! p) parse cwd).1 in
  o = Created path ∧
  check_exit (cmd_check cpus to_lowercase (exists_in fs') (λ p, fs' !! p) parse None cwd) = 1 ∧
  c = RuntimeConfig_default cpus ∧
  se_max_requests_per_second (f_security c) = 0 ∧ ca_enabled (f_cache c) = false.
Proof.
  intros Hparse path Hfs.
  assert (from_str cpus parse template = None) as Hno.
  { unfold from_str. rewrite (Hparse template 144%nat (default [] (lines template !! 144%nat))); [done|..].
    - by vm_compute.
    - apply (bool_decide_unpack _). by vm_compute.
    - by vm_compute. }
  unfold cmd_init. fold path.
  assert (bool_decide (is_Some (fs !! path)) = false) as -> by (rewrite Hfs; done).
  assert (exists_in (<[path := template]> fs) path = true) as Hex
    by (unfold exists_in; by rewrite lookup_insert_eq).
  unfold load, cmd_check, default. fold path.
  rewrite Hex, lookup_insert_eq, Hno. done.
Qed.

(** With the quotes that were meant, the file is a configuration: the check finds nothing wrong
    with it, and it is the default one but for four workers, the rate limit and the cache. *)
Theorem mended_template_loads (path_exists : bytes → bool) :
  (∀ doc t, toml_doc doc = Some t → parse doc = Some t) →
  ∃ c, from_str cpus parse mended = Some c ∧ (check to_lowercase path_exists (core c)).1 = [] ∧
    sv_workers (f_server c) = 4 ∧ se_max_requests_per_second (f_security c) = 100 ∧
    ca_enabled (f_cache c) = true ∧
    let d := RuntimeConfig_default cpus in
    c = {| f_acme := f_acme d; f_async_io := f_async_io d; f_cache := f_cache c; f_compression :=
         f_compression d; f_cors := f_cors d; f_dashboard := f_dashboard d; f_early_hints :=
         f_early_hints d; f_embed := f_embed d; f_error_pages := f_error_pages d; f_logging :=
         f_logging d; f_php := f_php d; f_sandbox := f_sandbox d; f_security := f_security c;
         f_server := f_server c; f_session := f_session d; f_shared_table := f_shared_table d;
         f_structured_logging := f_structured_logging d; f_task_queue := f_task_queue d;
         f_virtual_hosts := f_virtual_hosts d; f_watcher := f_watcher d; f_websocket := f_websocket
         d; f_worker_pools := f_worker_pools d; f_x_sendfile := f_x_sendfile d |}.
Proof.
  intros Hparse. unfold from_str.
  destruct (toml_doc mended) as [t|] eqn:E; [|by vm_compute in E].
  rewrite (Hparse mended t E). cbn [mbind option_bind]. vm_compute in E. injection E as <-.
  eexists. split; [vm_compute; reflexivity|]. split_and!; [|done..|reflexivity].
  unfold check, general_warnings. simpl. reflexivity.
Qed.
End Init.

Lemma template_never_loaded_witness :
  let parse doc := if existsb bad_array (lines doc) then None else toml_doc doc in
  let '(o, fs') := cmd_init template true (lit "/srv") ∅ in
  let c := (load (Some 8) (exists_in fs') (λ p, fs' !! p) parse (lit "/srv")).1 in
  o = Created (lit "/srv/turbine.toml") ∧
  check_exit (cmd_check (Some 8) id (exists_in fs') (λ p, fs' !! p) parse None (lit "/srv")) = 1 ∧
  c = RuntimeConfig_default (Some 8) ∧
  se_max_requests_per_second (f_security c) = 0 ∧ ca_enabled (f_cache c) = false.
Proof.
  intros parse.
  apply (template_never_loaded (Some 8) id parse (lit "/srv") ∅); [|done].
  intros doc i l Hl _ Hbad. unfold parse.
  assert (existsb bad_array (lines doc) = true) as ->; [|done].
  apply existsb_exists. exists l. split; [|done].
  apply list_elem_of_In. by eapply list_elem_of_lookup_2.
Defined.

Lemma mended_template_loads_witness :
  ∃ c, from_str (Some 8) toml_doc mended = Some c ∧ sv_workers (f_server c) = 4.
Proof.
  destruct (mended_template_loads (Some 8) id toml_doc (λ _, true) (λ _ _ E, E)) as (c & H1 & _ & H2 & _).
  exact (ex_intro _ c (conj H1 H2)).
Defined.
